(* ===== verification/_CoqProject ===== *)
-Q . S2P
Prelude.v
Errno.v
Vsprintf.v
Task.v
Signal.v
Clock.v
Sched.v
Timer.v
Sys.v
Exit.v
Ioport.v
Ipc.v
Sem.v
Msg.v
Locks.v
Pipe.v
Mmap.v
Csum.v
Route.v
Ipfrag.v
Ip.v
Ttyq.v
Console.v
Conspec.v
Tty.v
Ttyspec.v
