(* ===== verification/Prelude.v ===== *)
(** * A verification development for Linux 1.0

    This library models parts of the Linux 1.0 kernel (src/Linux1.0) as Rocq
    definitions and proves theorems about them.  Everything under "File" below
    is translated from the C source; the comment before a definition names the
    file and the lines it translates.

    ** The program and the files of the library

    The kernel is one program of system calls, interrupt handlers and bottom
    halves over shared tables.  The modelled parts meet in the process table:
    - [Prelude]: machine integers ([u32], [s32], ...: the value an object of
      that width holds), record update [r <| field := v |>], lists indexed by
      [Z], sums, membership tactics.
    - [Errno]: error numbers and mode bits (include/linux/errno.h, stat.h).
    - [Vsprintf]: lib/ctype.c and kernel/vsprintf.c, formatted output.
    - [Task]: [struct task_struct], the array of tasks, the ring of tasks with
      SET_LINKS and REMOVE_LINKS, wait queues (include/linux/sched.h).  The
      record [kstate] is the state that all process code shares: [tasks] is the
      memory of task structures by name, [task_list] the ring, [task] the array,
      [current], [need_resched] and the clock variables.
    - [Signal]: kernel/signal.c and the sending half of kernel/exit.c.
    - [Clock]: kernel/mktime.c, kernel/time.c and the clock discipline of the
      timer interrupt (kernel/sched.c).
    - [Sched]: [schedule], waking and sleeping, semaphores (kernel/sched.c).
    - [Timer]: timer lists, the bottom half, the load average, [do_timer]
      (kernel/sched.c) and interval timers (kernel/itimer.c).
    - [Sys]: identities, groups, sessions, priorities, limits (kernel/sys.c).
    - [Exit]: [release], reparenting, [do_exit], [wait4] (kernel/exit.c).
    - [Ioport]: kernel/ioport.c.
    - [Ipc], [Sem], [Msg]: ipc/util.c, ipc/sem.c, ipc/msg.c.
    - [Locks]: record locks (fs/locks.c).
    - [Pipe]: pipes and FIFOs (fs/pipe.c, fs/fifo.c).
    - [Mmap]: memory maps (mm/mmap.c).
    - [Csum]: the Internet checksums, register by register (net/inet/ip.c, tcp.c,
      udp.c), and the byte order of the machine.
    - [Route]: interfaces, addresses and the routing table (net/inet/dev.c,
      route.c).
    - [Ipfrag], [Ip]: the IP layer (net/inet/ip.c): reassembly with the timers of
      [Timer], and sending, forwarding, receiving and retransmission over [Route].
    - [Ttyq]: the queues of terminals (drivers/char/tty_io.c, include/linux/tty.h).
    - [Console]: the virtual consoles (drivers/char/console.c), and in [Conspec]
      their refinement of a terminal without hardware scrolling.

    ** How the code is modelled

    A C function is a Rocq function from the state it reads to its result and
    the state it leaves; a pointer is the name of an object in a memory, NULL is
    [None]; a store through NULL and a panic are [None] results or a constructor
    of their own.  An integer is a [Z]; where the machine truncates, the
    wrap-around is written out.  A user address is what the call finds there:
    the value read, and the result [va] of [verify_area].

    The kernel of this version is not preempted, so a process runs alone until
    it sleeps.  A call that may sleep is cut there: its outcome says that it
    returned, or where it sleeps and what it needs to go on, and a second
    definition ([..._wakes], [..._resume], [..._copied]) is the rest.  The
    theorems about interleavings ([semaphore_safe], [sem_accounts_invariant],
    [msg_accounts_invariant], [locks_exclude], [pipe_fifo]) are inductions over
    step relations in which every pending call may go on in any kernel state.

    ** What the theorems show

    - Text: [number_strtoul_roundtrip], [number_width], [vsprintf_fuel].
    - Signals: no call lets SIGKILL or SIGSTOP be blocked ([sig_wf_invariant]),
      groups are signalled exactly ([kill_pg_spec]), SIGCONT and stop signals
      exclude each other ([send_sig_exclusive]), orphaned groups are those of
      POSIX ([is_orphaned_pgrp_spec]).
    - Time: the Gregorian calendar ([kernel_mktime_calendar]), setting and
      reading the clock, slewing, and the bounds of the microseconds.
    - Scheduling: the choice of [schedule], waking of sleepers, no starvation,
      [wake_up], semaphores, bounds of priorities.
    - Timers: the delta list refines a queue of deadlines, timers fire on time,
      interval timers never fire early, the load average stays between bounds.
    - Processes: no escalation of identities, groups stay in their session,
      supplementary groups, exit keeps the tree, wait finds and reaps children.
    - Ports: reservations and permissions are exact.
    - System V IPC: the accounting of semaphores and messages in every
      interleaving, atomicity of [semop], selection of messages.
    - Files: record locks set exactly the bytes of a request and exclude;
      a pipe is a queue of bytes with atomic small writes.
    - Memory: [munmap] removes and [mmap] adds exactly the pages of a range.
    - Internet: the checksums are those of RFC 1071 and detect changed bytes;
      routes are found by the longest mask; a datagram that is sent in fragments
      is put together again whatever way they take ([fragment_roundtrip],
      [ip_defrag_reassembles]), and none waits for ever ([fragment_timers]);
      forwarding changes the ttl and the checksum only; a bad datagram is dropped
      and a good one reaches its handlers.
    - Terminals: whatever is written, a console stays in its memory and shows the
      screen of a plain terminal ([con_write_refines]); switching consoles loses
      nothing ([update_screen_keeps]).

    ** Fuel and bounds

    [vsprintf_fuel], [walk_locks], [wait_scan], [adopt_children], [find_room],
    [write_wait] and the timer loops take fuel; the fuel the callers pass is the
    length of the list or text that the loop consumes, and the theorems about
    them ([vsprintf_fuel], [lock_it_refines], [wait_scan_first],
    [exit_task_tree], [mmap_maps], [pipe_fifo], [timers_fire_on_time]) show that
    it is enough: the result is never the one of missing fuel.  The loop of
    [ip_fragment] has one pass per byte to send and needs at most one for 8
    ([fragment_roundtrip]); with an MTU that leaves no room no fuel is enough
    ([fragment_never_ends]).

    ** Not modelled

    Page tables, swapping and the i386 descriptor tables; the registers saved on
    a signal frame; device drivers, which are sequences of port accesses; the
    buffer cache and the file systems on it; the protocols above IP and sockets;
    selection, fonts and blanking of the console; assembly (boot/, the FPU emulator's core); the
    decompressor of zBoot/, which is gzip; the sound, SCSI and network drivers.
    A call of such code from modelled code is a parameter, or is recorded in a
    log (the page table calls of [Mmap]). *)

From Stdlib Require Export ZArith Lia Bool.
From stdpp Require Export base tactics list gmap strings.

#[global] Open Scope Z_scope.
#[global] Set Default Goal Selector "!".

(** * Machine-width integers

    A C integer is a [Z]; a result that the machine truncates is wrapped
    explicitly.  [uwrap w] is the value an unsigned [w]-bit object holds,
    [swrap w] the one a signed two's complement object holds (i386). *)
Definition uwrap (w z : Z) : Z := z mod 2 ^ w.
Definition swrap (w z : Z) : Z := (z + 2 ^ (w - 1)) mod 2 ^ w - 2 ^ (w - 1).

Abbreviation u8 := (uwrap 8).
Abbreviation u16 := (uwrap 16).
Abbreviation u32 := (uwrap 32).
Abbreviation s16 := (swrap 16).
Abbreviation s32 := (swrap 32).

Create HintDb kernel.
Create Rewrite HintDb kwrap.
Create Rewrite HintDb klist.

Section wrap.
Context (w : Z) (Hw : 0 < w).

Lemma uwrap_bounds z : 0 <= uwrap w z < 2 ^ w.
Proof using Hw. apply Z.mod_pos_bound, Z.pow_pos_nonneg; lia. Qed.

Lemma uwrap_small z : 0 <= z < 2 ^ w -> uwrap w z = z.
Proof using Type. apply Z.mod_small. Qed.

Lemma uwrap_idemp z : uwrap w (uwrap w z) = uwrap w z.
Proof using Hw. apply uwrap_small, uwrap_bounds. Qed.

Lemma swrap_bounds z : - 2 ^ (w - 1) <= swrap w z < 2 ^ (w - 1).
Proof using Hw.
  unfold swrap.
  pose proof (Z.mod_pos_bound (z + 2 ^ (w - 1)) (2 ^ w) ltac:(apply Z.pow_pos_nonneg; lia)).
  assert (2 ^ w = 2 * 2 ^ (w - 1)) by (rewrite <- Z.pow_succ_r by lia; f_equal; lia).
  lia.
Qed.

Lemma swrap_small z : - 2 ^ (w - 1) <= z < 2 ^ (w - 1) -> swrap w z = z.
Proof using Hw.
  intros. unfold swrap.
  assert (2 ^ w = 2 * 2 ^ (w - 1)) by (rewrite <- Z.pow_succ_r by lia; f_equal; lia).
  rewrite Z.mod_small; lia.
Qed.
End wrap.

(** Concrete instances, in the form the components rewrite with. *)
Lemma u8_small z : 0 <= z < 256 -> u8 z = z.
Proof. intros; apply uwrap_small; lia. Qed.
Lemma u16_small z : 0 <= z < 65536 -> u16 z = z.
Proof. intros; apply uwrap_small; lia. Qed.
Lemma u32_small z : 0 <= z < 4294967296 -> u32 z = z.
Proof. intros; apply uwrap_small; lia. Qed.
Lemma s16_small z : -32768 <= z < 32768 -> s16 z = z.
Proof. intros; apply swrap_small; [lia | change (2 ^ (16 - 1)) with 32768; lia]. Qed.
Lemma s32_small z : -2147483648 <= z < 2147483648 -> s32 z = z.
Proof. intros; apply swrap_small; [lia | change (2 ^ (32 - 1)) with 2147483648; lia]. Qed.
Lemma u16_bounds z : 0 <= u16 z < 65536.
Proof. apply (uwrap_bounds 16); lia. Qed.
Lemma u32_bounds z : 0 <= u32 z < 4294967296.
Proof. apply (uwrap_bounds 32); lia. Qed.
Lemma s16_bounds z : -32768 <= s16 z < 32768.
Proof. apply (swrap_bounds 16); lia. Qed.
Lemma s32_bounds z : -2147483648 <= s32 z < 2147483648.
Proof. apply (swrap_bounds 32); lia. Qed.

(** A wrap under a sum that is wrapped again can be dropped. *)
Lemma s32_add_l a b : s32 (s32 a + b) = s32 (a + b).
Proof.
  unfold swrap. f_equal.
  replace (_ - _ + b + _) with ((a + 2 ^ (32 - 1)) mod 2 ^ 32 + b) by lia.
  rewrite Zplus_mod_idemp_l. f_equal. lia.
Qed.
Lemma s32_sub_l a b : s32 (s32 a - b) = s32 (a - b).
Proof. apply (s32_add_l a (- b)). Qed.

#[export] Hint Rewrite u8_small u16_small u32_small s16_small s32_small
  using lia : kwrap.

(** C truth values: comparison and logical operators give 0 or 1, and a
    condition holds when its value is not 0. *)
Definition b2z (b : bool) : Z := if b then 1 else 0.
Definition ctrue (z : Z) : bool := negb (z =? 0).

Lemma ctrue_b2z b : ctrue (b2z b) = b.
Proof. by destruct b. Qed.

(** A flag test [x & m] used as a condition. *)
Definition flag (x m : Z) : bool := ctrue (Z.land x m).

(** Remove the wraps whose argument [lia] shows to be in range, innermost
    first. *)
Ltac unwrap_in H :=
  repeat match type of H with
  | context [swrap 32 ?x] =>
      lazymatch x with context [swrap] => fail | _ => rewrite (s32_small x) in H by lia end
  | context [swrap 16 ?x] =>
      lazymatch x with context [swrap] => fail | _ => rewrite (s16_small x) in H by lia end
  | context [uwrap 32 ?x] =>
      lazymatch x with context [uwrap] => fail | _ => rewrite (u32_small x) in H by lia end
  | context [uwrap 16 ?x] =>
      lazymatch x with context [uwrap] => fail | _ => rewrite (u16_small x) in H by lia end
  end.
Ltac unwrap :=
  repeat match goal with
  | |- context [swrap 32 ?x] =>
      lazymatch x with context [swrap] => fail | _ => rewrite (s32_small x) by lia end
  | |- context [swrap 16 ?x] =>
      lazymatch x with context [swrap] => fail | _ => rewrite (s16_small x) by lia end
  | |- context [uwrap 32 ?x] =>
      lazymatch x with context [uwrap] => fail | _ => rewrite (u32_small x) by lia end
  | |- context [uwrap 16 ?x] =>
      lazymatch x with context [uwrap] => fail | _ => rewrite (u16_small x) by lia end
  end.

(** Drop the inner wraps of a wrapped sum, innermost first. *)
Ltac s32_flatten :=
  repeat match goal with
  | |- context [swrap 32 (swrap 32 ?a + ?b)] =>
      lazymatch a with context [swrap] => fail | _ => rewrite (s32_add_l a b) end
  | |- context [swrap 32 (swrap 32 ?a - ?b)] =>
      lazymatch a with context [swrap] => fail | _ => rewrite (s32_sub_l a b) end
  end.

(** ** Bits *)

Lemma testbit_pow2 n i : 0 <= n -> Z.testbit (Z.shiftl 1 n) i = (i =? n).
Proof.
  intros. rewrite Z.shiftl_1_l, Z.pow2_bits_eqb by lia. apply Z.eqb_sym.
Qed.

(** Two numbers are equal when their bits from 0 on are. *)
Lemma bits_eq a b : (forall i, 0 <= i -> Z.testbit a i = Z.testbit b i) -> a = b.
Proof. intros H. apply Z.bits_inj'. done. Qed.

Lemma land_zero_bits a b :
  Z.land a b = 0 <-> forall i, 0 <= i -> Z.testbit a i && Z.testbit b i = false.
Proof.
  split.
  - intros H i Hi. by rewrite <- Z.land_spec, H, Z.testbit_0_l.
  - intros H. apply bits_eq. intros i Hi. rewrite Z.land_spec, Z.testbit_0_l. auto.
Qed.

Create Rewrite HintDb kbits.
#[export] Hint Rewrite Z.land_spec Z.lor_spec Z.lxor_spec Z.testbit_0_l : kbits.
#[export] Hint Rewrite Z.lnot_spec testbit_pow2 using lia : kbits.

(** * Record updates

    [r <| f := v |>] is [r] with field [f] replaced.  A record declares its
    eta expansion once, as an instance of [Eta]; the setter of a field is
    computed from it. *)
Class Eta (R : Type) := eta : R -> R.
Class Setter {R T : Type} (proj : R -> T) := upd : (T -> T) -> R -> R.
Arguments upd {R T} proj {_} f r.

Ltac find_setter :=
  lazymatch goal with
  | |- @Setter ?R ?T ?p =>
      let e := constr:(_ : Eta R) in
      let b := eval hnf in e in
      lazymatch eval pattern p in b with
      | ?g _ =>
          let s := eval cbv beta in (fun (f : T -> T) (r : R) => g (fun x => f (p x)) r) in
          exact s
      end
  end.
#[export] Hint Extern 1 (Setter _) => find_setter : typeclass_instances.

Declare Scope record_scope.
#[global] Open Scope record_scope.
Notation "r <| p ::= f |>" := (upd p f r)
  (at level 12, f at level 99, left associativity, format "r  <| p  ::=  f |>") : record_scope.
Notation "r <| p := v |>" := (upd p (fun _ => v) r)
  (at level 12, v at level 99, left associativity, format "r  <| p  :=  v |>") : record_scope.
Arguments upd _ _ _ _ _ _ /.

(** * Arrays: [Z]-indexed lists with the source's bounds *)
Definition znth {A} (d : A) (l : list A) (i : Z) : A :=
  if i <? 0 then d else nth (Z.to_nat i) l d.
Definition zupd {A} (l : list A) (i : Z) (x : A) : list A :=
  if i <? 0 then l else <[Z.to_nat i := x]> l.

Lemma zupd_length {A} (l : list A) i x : length (zupd l i x) = length l.
Proof. unfold zupd. case_match; [done | apply length_insert]. Qed.

Lemma znth_zupd_eq {A} (d : A) l i x :
  0 <= i < Z.of_nat (length l) -> znth d (zupd l i x) i = x.
Proof.
  intros. unfold znth, zupd. destruct (i <? 0) eqn:?; [lia |].
  rewrite nth_lookup, list_lookup_insert_eq; [done | lia].
Qed.

Lemma znth_zupd_ne {A} (d : A) l i j x :
  0 <= i -> 0 <= j -> i <> j -> znth d (zupd l i x) j = znth d l j.
Proof.
  intros. unfold znth, zupd.
  destruct (i <? 0) eqn:?, (j <? 0) eqn:?; try done; try lia.
  rewrite !nth_lookup, list_lookup_insert_ne; [done | lia].
Qed.

Lemma elem_of_zupd {A} (l : list A) i (x y : A) : y ∈ zupd l i x -> y = x \/ y ∈ l.
Proof.
  unfold zupd. case_match; [by right |]. intros [j Hj]%list_elem_of_lookup.
  apply list_lookup_insert_Some in Hj as [(_ & <- & _) | [_ Hj]]; [by left |].
  right. by eapply list_elem_of_lookup_2.
Qed.

#[export] Hint Rewrite @zupd_length @length_app @length_replicate @length_rev @length_insert : klist.

Lemma bool_decide_elem_cons_ne {A} `{EqDecision A} (x y : A) l :
  x <> y -> bool_decide (x ∈ y :: l) = bool_decide (x ∈ l).
Proof. intros. apply bool_decide_ext. rewrite elem_of_cons. naive_solver. Qed.

(** Checking a property of an interval by computation. *)
Lemma forallb_seqZ f a n x :
  forallb f (seqZ a n) = true -> a <= x < a + n -> f x = true.
Proof.
  intros H Hx. rewrite forallb_forall in H. apply H, list_elem_of_In, elem_of_seqZ. lia.
Qed.

(** Filters that keep nothing, or everything. *)
Lemma filter_none {A} (P : A -> Prop) `{!forall x, Decision (P x)} (l : list A) :
  (forall x, x ∈ l -> ~ P x) -> filter P l = [].
Proof.
  intros Hin. induction l as [| x l IH]; [done |].
  rewrite filter_cons_False by (apply Hin; set_solver). apply IH. set_solver.
Qed.
Lemma filter_all {A} (P : A -> Prop) `{!forall x, Decision (P x)} (l : list A) :
  (forall x, x ∈ l -> P x) -> filter P l = l.
Proof.
  intros Hin. induction l as [| x l IH]; [done |].
  rewrite filter_cons_True by (apply Hin; set_solver). f_equal. apply IH. set_solver.
Qed.

(** ** Sums over lists *)
Definition zsum {A} (f : A -> Z) (l : list A) : Z := foldr (fun x acc => f x + acc) 0 l.

Lemma zsum_app {A} (f : A -> Z) l k : zsum f (l ++ k) = zsum f l + zsum f k.
Proof. unfold zsum. induction l as [| x l IH]; cbn; [done | rewrite IH; lia]. Qed.

Lemma zsum_ext {A} (f g : A -> Z) l : (forall x, x ∈ l -> f x = g x) -> zsum f l = zsum g l.
Proof.
  intros H. induction l as [| x l IH]; [done |]. cbn. unfold zsum in IH.
  rewrite IH by set_solver. rewrite H by set_solver. done.
Qed.

Lemma zsum_nonneg {A} (f : A -> Z) l : (forall x, x ∈ l -> 0 <= f x) -> 0 <= zsum f l.
Proof.
  intros H. induction l as [| x l IH]; cbn; [lia |]. unfold zsum in IH.
  pose proof (H x ltac:(set_solver)). pose proof (IH ltac:(set_solver)). lia.
Qed.

Lemma zsum_perm {A} (f : A -> Z) l k : l ≡ₚ k -> zsum f l = zsum f k.
Proof. unfold zsum. induction 1; cbn; lia. Qed.

(** One element of the list changes. *)
Lemma zsum_change {A} (f g : A -> Z) l x :
  NoDup l -> x ∈ l -> (forall y, y ∈ l -> y <> x -> g y = f y) ->
  zsum g l = zsum f l - f x + g x.
Proof.
  intros Hnd Hx H. induction l as [| y l IH]; [set_solver |].
  apply NoDup_cons in Hnd as [Hy Hnd]. cbn. unfold zsum in IH.
  apply elem_of_cons in Hx as [<- | Hx].
  - pose proof (zsum_ext g f l) as E. unfold zsum in E. rewrite E; [lia |].
    intros z Hz. apply H; set_solver.
  - rewrite IH by set_solver. rewrite (H y) by set_solver. lia.
Qed.

(** * Tactics *)

(** Turn boolean tests in the context into propositions and clean up. *)
Ltac bool_simp :=
  repeat match goal with
  | H : _ && _ = true |- _ => apply andb_true_iff in H; destruct H
  | H : _ || _ = false |- _ => apply orb_false_iff in H; destruct H
  | H : negb _ = true |- _ => apply negb_true_iff in H
  | H : negb _ = false |- _ => apply negb_false_iff in H
  | H : (_ =? _) = true |- _ => apply Z.eqb_eq in H
  | H : (_ =? _) = false |- _ => apply Z.eqb_neq in H
  | H : (_ <? _) = true |- _ => apply Z.ltb_lt in H
  | H : (_ <? _) = false |- _ => apply Z.ltb_ge in H
  | H : (_ <=? _) = true |- _ => apply Z.leb_le in H
  | H : (_ <=? _) = false |- _ => apply Z.leb_gt in H
  | H : bool_decide _ = true |- _ => apply bool_decide_eq_true in H
  | H : bool_decide _ = false |- _ => apply bool_decide_eq_false in H
  end.

(** Membership in concrete concatenations. *)
Ltac in_or := first [ assumption | reflexivity | left; in_or | right; in_or ].
Ltac in_list := rewrite ?elem_of_app, ?elem_of_cons; in_or.

(** Case analysis on the first test of the goal (or of a hypothesis). *)
Ltac split_if :=
  match goal with
  | |- context [if ?b then _ else _] => destruct b eqn:?
  end.
Ltac split_if_in H :=
  match type of H with
  | context [if ?b then _ else _] => destruct b eqn:?
  end.

(** Execute a whole handler: all its tests, all its branches. *)
Ltac run_branches := repeat (split_if; bool_simp; simplify_eq/=).
