(* ===== verification/Errno.v ===== *)
(** Error numbers (include/linux/errno.h) and file mode bits
    (include/linux/stat.h) that the modelled system calls use. *)

From S2P Require Import Prelude.

(** include/linux/errno.h:4-4 [EPERM] *)
Definition EPERM : Z := 1.
(** include/linux/errno.h:5-5 [ENOENT] *)
Definition ENOENT : Z := 2.
(** include/linux/errno.h:6-6 [ESRCH] *)
Definition ESRCH : Z := 3.
(** include/linux/errno.h:7-7 [EINTR] *)
Definition EINTR : Z := 4.
(** include/linux/errno.h:8-8 [EIO] *)
Definition EIO : Z := 5.
(** include/linux/errno.h:9-9 [ENXIO] *)
Definition ENXIO : Z := 6.
(** include/linux/errno.h:10-10 [E2BIG] *)
Definition E2BIG : Z := 7.
(** include/linux/errno.h:11-11 [ENOEXEC] *)
Definition ENOEXEC : Z := 8.
(** include/linux/errno.h:12-12 [EBADF] *)
Definition EBADF : Z := 9.
(** include/linux/errno.h:13-13 [ECHILD] *)
Definition ECHILD : Z := 10.
(** include/linux/errno.h:14-14 [EAGAIN] *)
Definition EAGAIN : Z := 11.
(** include/linux/errno.h:15-15 [ENOMEM] *)
Definition ENOMEM : Z := 12.
(** include/linux/errno.h:16-16 [EACCES] *)
Definition EACCES : Z := 13.
(** include/linux/errno.h:17-17 [EFAULT] *)
Definition EFAULT : Z := 14.
(** include/linux/errno.h:18-18 [ENOTBLK] *)
Definition ENOTBLK : Z := 15.
(** include/linux/errno.h:19-19 [EBUSY] *)
Definition EBUSY : Z := 16.
(** include/linux/errno.h:20-20 [EEXIST] *)
Definition EEXIST : Z := 17.
(** include/linux/errno.h:21-21 [EXDEV] *)
Definition EXDEV : Z := 18.
(** include/linux/errno.h:22-22 [ENODEV] *)
Definition ENODEV : Z := 19.
(** include/linux/errno.h:23-23 [ENOTDIR] *)
Definition ENOTDIR : Z := 20.
(** include/linux/errno.h:24-24 [EISDIR] *)
Definition EISDIR : Z := 21.
(** include/linux/errno.h:25-25 [EINVAL] *)
Definition EINVAL : Z := 22.
(** include/linux/errno.h:26-26 [ENFILE] *)
Definition ENFILE : Z := 23.
(** include/linux/errno.h:27-27 [EMFILE] *)
Definition EMFILE : Z := 24.
(** include/linux/errno.h:28-28 [ENOTTY] *)
Definition ENOTTY : Z := 25.
(** include/linux/errno.h:29-29 [ETXTBSY] *)
Definition ETXTBSY : Z := 26.
(** include/linux/errno.h:30-30 [EFBIG] *)
Definition EFBIG : Z := 27.
(** include/linux/errno.h:31-31 [ENOSPC] *)
Definition ENOSPC : Z := 28.
(** include/linux/errno.h:32-32 [ESPIPE] *)
Definition ESPIPE : Z := 29.
(** include/linux/errno.h:33-33 [EROFS] *)
Definition EROFS : Z := 30.
(** include/linux/errno.h:34-34 [EMLINK] *)
Definition EMLINK : Z := 31.
(** include/linux/errno.h:35-35 [EPIPE] *)
Definition EPIPE : Z := 32.
(** include/linux/errno.h:36-36 [EDOM] *)
Definition EDOM : Z := 33.
(** include/linux/errno.h:37-37 [ERANGE] *)
Definition ERANGE : Z := 34.
(** include/linux/errno.h:38-38 [EDEADLK] *)
Definition EDEADLK : Z := 35.
(** include/linux/errno.h:39-39 [ENAMETOOLONG] *)
Definition ENAMETOOLONG : Z := 36.
(** include/linux/errno.h:40-40 [ENOLCK] *)
Definition ENOLCK : Z := 37.
(** include/linux/errno.h:41-41 [ENOSYS] *)
Definition ENOSYS : Z := 38.
(** include/linux/errno.h:42-42 [ENOTEMPTY] *)
Definition ENOTEMPTY : Z := 39.
(** include/linux/errno.h:43-43 [ELOOP] *)
Definition ELOOP : Z := 40.
(** include/linux/errno.h:45-45 [ENOMSG] *)
Definition ENOMSG : Z := 42.
(** include/linux/errno.h:46-46 [EIDRM] *)
Definition EIDRM : Z := 43.
(** include/linux/errno.h:91-91 [ENOTSOCK] *)
Definition ENOTSOCK : Z := 88.
(** include/linux/errno.h:92-92 [EDESTADDRREQ] *)
Definition EDESTADDRREQ : Z := 89.
(** include/linux/errno.h:93-93 [EMSGSIZE] *)
Definition EMSGSIZE : Z := 90.
(** include/linux/errno.h:94-94 [EPROTOTYPE] *)
Definition EPROTOTYPE : Z := 91.
(** include/linux/errno.h:95-95 [ENOPROTOOPT] *)
Definition ENOPROTOOPT : Z := 92.
(** include/linux/errno.h:96-96 [EPROTONOSUPPORT] *)
Definition EPROTONOSUPPORT : Z := 93.
(** include/linux/errno.h:97-97 [ESOCKTNOSUPPORT] *)
Definition ESOCKTNOSUPPORT : Z := 94.
(** include/linux/errno.h:98-98 [EOPNOTSUPP] *)
Definition EOPNOTSUPP : Z := 95.
(** include/linux/errno.h:100-100 [EAFNOSUPPORT] *)
Definition EAFNOSUPPORT : Z := 97.
(** include/linux/errno.h:101-101 [EADDRINUSE] *)
Definition EADDRINUSE : Z := 98.
(** include/linux/errno.h:102-102 [EADDRNOTAVAIL] *)
Definition EADDRNOTAVAIL : Z := 99.
(** include/linux/errno.h:103-103 [ENETDOWN] *)
Definition ENETDOWN : Z := 100.
(** include/linux/errno.h:104-104 [ENETUNREACH] *)
Definition ENETUNREACH : Z := 101.
(** include/linux/errno.h:106-106 [ECONNABORTED] *)
Definition ECONNABORTED : Z := 103.
(** include/linux/errno.h:107-107 [ECONNRESET] *)
Definition ECONNRESET : Z := 104.
(** include/linux/errno.h:108-108 [ENOBUFS] *)
Definition ENOBUFS : Z := 105.
(** include/linux/errno.h:109-109 [EISCONN] *)
Definition EISCONN : Z := 106.
(** include/linux/errno.h:110-110 [ENOTCONN] *)
Definition ENOTCONN : Z := 107.
(** include/linux/errno.h:113-113 [ETIMEDOUT] *)
Definition ETIMEDOUT : Z := 110.
(** include/linux/errno.h:114-114 [ECONNREFUSED] *)
Definition ECONNREFUSED : Z := 111.
(** include/linux/errno.h:116-116 [EHOSTUNREACH] *)
Definition EHOSTUNREACH : Z := 113.
(** include/linux/errno.h:117-117 [EALREADY] *)
Definition EALREADY : Z := 114.
(** include/linux/errno.h:118-118 [EINPROGRESS] *)
Definition EINPROGRESS : Z := 115.
(** include/linux/errno.h:128-128 [ERESTARTSYS] *)
Definition ERESTARTSYS : Z := 512.
(** include/linux/errno.h:129-129 [ERESTARTNOINTR] *)
Definition ERESTARTNOINTR : Z := 513.
(** include/linux/errno.h:130-130 [ERESTARTNOHAND] *)
Definition ERESTARTNOHAND : Z := 514.

(** ** File modes *)

(** include/linux/stat.h:45-45 [S_IFMT] *)
Definition S_IFMT : Z := 61440 (* 0170000 *).
(** include/linux/stat.h:48-48 [S_IFREG] *)
Definition S_IFREG : Z := 32768 (* 0100000 *).
(** include/linux/stat.h:50-50 [S_IFDIR] *)
Definition S_IFDIR : Z := 16384 (* 040000 *).
(** include/linux/stat.h:52-52 [S_IFIFO] *)
Definition S_IFIFO : Z := 4096 (* 010000 *).

(** include/linux/stat.h:60-60 [S_ISREG] *)
Definition S_ISREG (m : Z) : bool := Z.land m S_IFMT =? S_IFREG.
(** include/linux/stat.h:84-84 [S_IRWXUGO] *)
Definition S_IRWXUGO : Z := 511 (* 0777 *).
(** include/linux/stat.h:86-86 [S_IRUGO] *)
Definition S_IRUGO : Z := 292 (* 0444 *).
(** include/linux/stat.h:87-87 [S_IWUGO] *)
Definition S_IWUGO : Z := 146 (* 0222 *).
(** include/linux/stat.h:46-46 [S_IFSOCK] *)
Definition S_IFSOCK : Z := 49152 (* 0140000 *).
(** include/linux/stat.h:47-47 [S_IFLNK] *)
Definition S_IFLNK : Z := 40960 (* 0120000 *).
(** include/linux/stat.h:49-49 [S_IFBLK] *)
Definition S_IFBLK : Z := 24576 (* 0060000 *).
(** include/linux/stat.h:51-51 [S_IFCHR] *)
Definition S_IFCHR : Z := 8192 (* 0020000 *).
(** include/linux/stat.h:53-53 [S_ISUID] *)
Definition S_ISUID : Z := 2048 (* 0004000 *).
(** include/linux/stat.h:56-56 [S_ISGID] *)
Definition S_ISGID : Z := 1024 (* 0002000 *).
(** include/linux/stat.h:57-57 [S_ISVTX] *)
Definition S_ISVTX : Z := 512 (* 0001000 *).
(** include/linux/stat.h:68-68 [S_IRWXU] *)
Definition S_IRWXU : Z := 448 (* 00700 *).
(** include/linux/stat.h:69-69 [S_IRUSR] *)
Definition S_IRUSR : Z := 256 (* 00400 *).
(** include/linux/stat.h:70-70 [S_IWUSR] *)
Definition S_IWUSR : Z := 128 (* 00200 *).
(** include/linux/stat.h:71-71 [S_IXUSR] *)
Definition S_IXUSR : Z := 64 (* 00100 *).
(** include/linux/stat.h:73-73 [S_IRWXG] *)
Definition S_IRWXG : Z := 56 (* 00070 *).
(** include/linux/stat.h:74-74 [S_IRGRP] *)
Definition S_IRGRP : Z := 32 (* 00040 *).
(** include/linux/stat.h:75-75 [S_IWGRP] *)
Definition S_IWGRP : Z := 16 (* 00020 *).
(** include/linux/stat.h:76-76 [S_IXGRP] *)
Definition S_IXGRP : Z := 8 (* 00010 *).
(** include/linux/stat.h:78-78 [S_IRWXO] *)
Definition S_IRWXO : Z := 7 (* 00007 *).
(** include/linux/stat.h:79-79 [S_IROTH] *)
Definition S_IROTH : Z := 4 (* 00004 *).
(** include/linux/stat.h:80-80 [S_IWOTH] *)
Definition S_IWOTH : Z := 2 (* 00002 *).
(** include/linux/stat.h:81-81 [S_IXOTH] *)
Definition S_IXOTH : Z := 1 (* 00001 *).
(** include/linux/stat.h:59-59 [S_ISLNK] *)
Definition S_ISLNK (m : Z) : bool := Z.land m S_IFMT =? S_IFLNK.
(** include/linux/stat.h:61-61 [S_ISDIR] *)
Definition S_ISDIR (m : Z) : bool := Z.land m S_IFMT =? S_IFDIR.
(** include/linux/stat.h:62-62 [S_ISCHR] *)
Definition S_ISCHR (m : Z) : bool := Z.land m S_IFMT =? S_IFCHR.
(** include/linux/stat.h:63-63 [S_ISBLK] *)
Definition S_ISBLK (m : Z) : bool := Z.land m S_IFMT =? S_IFBLK.
(** include/linux/stat.h:65-65 [S_ISFIFO] *)
Definition S_ISFIFO (m : Z) : bool := Z.land m S_IFMT =? S_IFIFO.
(** include/linux/stat.h:66-66 [S_ISSOCK] *)
Definition S_ISSOCK (m : Z) : bool := Z.land m S_IFMT =? S_IFSOCK.
