(* ===== verification/Vsprintf.v ===== *)
(** Character classes (lib/ctype.c, include/linux/ctype.h) and formatted
    output (kernel/vsprintf.c): [simple_strtoul], [skip_atoi], [number] and
    [vsprintf].  A C string is the list of its characters without the final
    NUL; reading the character at the end gives 0. *)

From S2P Require Import Prelude.

(** ** Character classes *)

(** include/linux/ctype.h:4-11 the class bits *)
Definition _U := 1.
Definition _L := 2.
Definition _D := 4.
Definition _C := 8.
Definition _P := 16.
Definition _S := 32.
Definition _X := 64.
Definition _SP := 128.

(** lib/ctype.c:10-34 [_ctype], the table with its EOF entry first *)
Definition _ctype : list Z :=
  [0 (* EOF *);
   _C; _C; _C; _C; _C; _C; _C; _C;
   _C; Z.lor _C _S; Z.lor _C _S; Z.lor _C _S; Z.lor _C _S; Z.lor _C _S; _C; _C;
   _C; _C; _C; _C; _C; _C; _C; _C;
   _C; _C; _C; _C; _C; _C; _C; _C;
   Z.lor _S _SP; _P; _P; _P; _P; _P; _P; _P;
   _P; _P; _P; _P; _P; _P; _P; _P;
   _D; _D; _D; _D; _D; _D; _D; _D;
   _D; _D; _P; _P; _P; _P; _P; _P;
   _P; Z.lor _U _X; Z.lor _U _X; Z.lor _U _X; Z.lor _U _X; Z.lor _U _X; Z.lor _U _X; _U;
   _U; _U; _U; _U; _U; _U; _U; _U;
   _U; _U; _U; _U; _U; _U; _U; _U;
   _U; _U; _U; _P; _P; _P; _P; _P;
   _P; Z.lor _L _X; Z.lor _L _X; Z.lor _L _X; Z.lor _L _X; Z.lor _L _X; Z.lor _L _X; _L;
   _L; _L; _L; _L; _L; _L; _L; _L;
   _L; _L; _L; _L; _L; _L; _L; _L;
   _L; _L; _L; _P; _P; _P; _P; _C] ++ replicate 128 0.

(** include/linux/ctype.h:16-26 [(_ctype+1)[c] & mask]; the C index is
    defined for [-1 <= c <= 255] *)
Definition ctype_is (mask c : Z) : bool := flag (znth 0 _ctype (c + 1)) mask.

(** include/linux/ctype.h:19-19 [isdigit] *)
Definition isdigit (c : Z) : bool := ctype_is _D c.
(** include/linux/ctype.h:21-21 [islower] *)
Definition islower (c : Z) : bool := ctype_is _L c.
(** include/linux/ctype.h:25-25 [isupper] *)
Definition isupper (c : Z) : bool := ctype_is _U c.
(** include/linux/ctype.h:26-26 [isxdigit] *)
Definition isxdigit (c : Z) : bool := ctype_is (Z.lor _D _X) c.
(** include/linux/ctype.h:31-31 [tolower] *)
Definition tolower (c : Z) : Z := if isupper c then c - (65 - 97) else c.
(** include/linux/ctype.h:32-32 [toupper] *)
Definition toupper (c : Z) : Z := if islower c then c - (97 - 65) else c.

(** Named characters. *)
Definition ch_nul := 0.
Definition ch_space := 32.
Definition ch_hash := 35.
Definition ch_percent := 37.
Definition ch_star := 42.
Definition ch_plus := 43.
Definition ch_minus := 45.
Definition ch_dot := 46.
Definition ch_0 := 48.
Definition ch_9 := 57.
Definition ch_A := 65.
Definition ch_x := 120.

(** The character a pointer into a string reads. *)
Definition deref (s : list Z) : Z := match s with [] => ch_nul | c :: _ => c end.

(** ** Reading numbers *)

(** kernel/vsprintf.c:39-40 the value of a digit in [simple_strtoul] *)
Definition digit_value (c : Z) : Z :=
  if isdigit c then c - ch_0 else (if islower c then toupper c else c) - ch_A + 10.

(** kernel/vsprintf.c:39-43 the loop of [simple_strtoul] *)
Fixpoint strtoul_loop (base result : Z) (cp : list Z) : Z * list Z :=
  match cp with
  | c :: cp' =>
      if isxdigit c && (u32 (digit_value c) <? base)
      then strtoul_loop base (u32 (result * base + digit_value c)) cp'
      else (result, cp)
  | [] => (result, [])
  end.

(** kernel/vsprintf.c:22-47 [simple_strtoul]: the value and [*endp] *)
Definition simple_strtoul (cp : list Z) (base : Z) : Z * list Z :=
  let '(base, cp) :=
    if base =? 0 then
      if deref cp =? ch_0 then
        let cp := tl cp in
        if (deref cp =? ch_x) && isxdigit (deref (tl cp)) then (16, tl cp) else (8, cp)
      else (10, cp)
    else (base, cp) in
  strtoul_loop base 0 cp.

(** kernel/vsprintf.c:50-50 [is_digit] *)
Definition is_digit (c : Z) : bool := (ch_0 <=? c) && (c <=? ch_9).

(** kernel/vsprintf.c:52-59 [skip_atoi]: the value and the advanced pointer *)
Fixpoint skip_atoi (i : Z) (s : list Z) : Z * list Z :=
  match s with
  | c :: s' => if is_digit c then skip_atoi (s32 (i * 10 + c - ch_0)) s' else (i, s)
  | [] => (i, [])
  end.

(** ** Writing numbers *)

(** kernel/vsprintf.c:61-67 the flags of [number] *)
Definition ZEROPAD := 1.
Definition SIGN := 2.
Definition PLUS := 4.
Definition SPACE := 8.
Definition LEFT := 16.
Definition SPECIAL := 32.
Definition SMALL := 64.

(** kernel/vsprintf.c:78-81 the [digits] string: '0'..'9' and 'A'..'Z', or
    'a'..'z' for [SMALL] *)
Definition digits (type d : Z) : Z :=
  if d <? 10 then ch_0 + d else (if flag type SMALL then 97 else ch_A) + (d - 10).

(** kernel/vsprintf.c:69-72 [do_div]: [divl] divides the 32-bit value
    unsigned; gives the quotient and the remainder *)
Definition do_div (n base : Z) : Z * Z := (u32 n / base, u32 n mod base).

(** kernel/vsprintf.c:95-99 the digits, least significant first, as [tmp]
    holds them; 33 rounds are enough for 32 bits *)
Fixpoint number_digits (fuel : nat) (type base num : Z) : list Z :=
  match fuel with
  | O => []
  | S fuel =>
      if num =? 0 then []
      else let '(q, r) := do_div num base in digits type r :: number_digits fuel type base q
  end.

Definition number_tmp (type base num : Z) : list Z :=
  if num =? 0 then [ch_0] else number_digits 33 type base num.

(** [while (n-- > 0) *str++ = c]: what is written, and [n] afterwards. *)
Definition emit_dec (n c : Z) : list Z * Z := (replicate (Z.to_nat n) c, Z.min n 0 - 1).

(** kernel/vsprintf.c:74-124 [number]: the characters written at [str], or
    [None] for the NULL it returns on a bad base *)
Definition number (num base size precision type : Z) : option (list Z) :=
  let type := if flag type LEFT then Z.land type (Z.lnot ZEROPAD) else type in
  if (base <? 2) || (36 <? base) then None else
  let c := if flag type ZEROPAD then ch_0 else ch_space in
  let '(sign, num) :=
    if flag type SIGN && (num <? 0) then (ch_minus, s32 (- num))
    else (if flag type PLUS then ch_plus else if flag type SPACE then ch_space else 0, num) in
  let size := if ctrue sign then s32 (size - 1) else size in
  let size :=
    if flag type SPECIAL then
      if base =? 16 then s32 (size - 2) else if base =? 8 then s32 (size - 1) else size
    else size in
  let tmp := number_tmp type base num in
  let i := Z.of_nat (length tmp) in
  let precision := if precision <? i then i else precision in
  let size := s32 (size - precision) in
  let '(pad1, size) :=
    if negb (flag type (ZEROPAD + LEFT)) then emit_dec size ch_space else ([], size) in
  let sgn := if ctrue sign then [sign] else [] in
  let special :=
    if flag type SPECIAL then
      if base =? 8 then [ch_0] else if base =? 16 then [ch_0; digits type 33] else []
    else [] in
  let '(pad2, size) := if negb (flag type LEFT) then emit_dec size c else ([], size) in
  let '(zeros, _) := emit_dec (precision - i) ch_0 in
  let '(pad3, _) := emit_dec size ch_space in
  Some (pad1 ++ sgn ++ special ++ pad2 ++ zeros ++ rev tmp ++ pad3).

(** ** [vsprintf] *)

(** One variadic argument: an integer, a [char *] (NULL or the characters of
    the string), or an [int *] (named by a number). *)
Inductive va :=
| VaInt (z : Z)
| VaStr (s : option (list Z))
| VaIntPtr (p : nat).

(** [va_arg(args, T)]: reading an argument of another type, or one too many,
    is undefined in C and is [None] here. *)
Definition va_int (args : list va) : option (Z * list va) :=
  match args with VaInt z :: r => Some (z, r) | _ => None end.
Definition va_str (args : list va) : option (option (list Z) * list va) :=
  match args with VaStr s :: r => Some (s, r) | _ => None end.
Definition va_intptr (args : list va) : option (nat * list va) :=
  match args with VaIntPtr p :: r => Some (p, r) | _ => None end.

(** kernel/vsprintf.c:147-157 the [repeat] loop over the flag characters *)
Fixpoint parse_flags (flags : Z) (fmt : list Z) : Z * list Z :=
  match fmt with
  | [] => (flags, [])
  | c :: fmt' =>
      if c =? ch_minus then parse_flags (Z.lor flags LEFT) fmt'
      else if c =? ch_plus then parse_flags (Z.lor flags PLUS) fmt'
      else if c =? ch_space then parse_flags (Z.lor flags SPACE) fmt'
      else if c =? ch_hash then parse_flags (Z.lor flags SPECIAL) fmt'
      else if c =? ch_0 then parse_flags (Z.lor flags ZEROPAD) fmt'
      else (flags, fmt)
  end.

(** kernel/vsprintf.c:159-170 the field width; a ['*'] takes an argument and
    [fmt] stays on it *)
Definition parse_width (flags : Z) (fmt : list Z) (args : list va) :
    option (Z * Z * list Z * list va) :=
  if is_digit (deref fmt) then
    let '(w, fmt) := skip_atoi 0 fmt in Some (w, flags, fmt, args)
  else if deref fmt =? ch_star then
    '(w, args) ← va_int args;
    if w <? 0 then Some (s32 (- w), Z.lor flags LEFT, fmt, args)
    else Some (w, flags, fmt, args)
  else Some (-1, flags, fmt, args).

(** kernel/vsprintf.c:172-184 the precision *)
Definition parse_precision (fmt : list Z) (args : list va) :
    option (Z * list Z * list va) :=
  if deref fmt =? ch_dot then
    let fmt := tl fmt in
    '(p, fmt, args) ←
      (if is_digit (deref fmt) then
         let '(p, fmt) := skip_atoi 0 fmt in Some (p, fmt, args)
       else if deref fmt =? ch_star then
         '(p, args) ← va_int args; Some (p, fmt, args)
       else Some (-1, fmt, args));
    Some (if p <? 0 then 0 else p, fmt, args)
  else Some (-1, fmt, args).

(** kernel/vsprintf.c:186-191 the qualifier *)
Definition parse_qualifier (fmt : list Z) : Z * list Z :=
  if (deref fmt =? 104) || (deref fmt =? 108) || (deref fmt =? 76)
  then (deref fmt, tl fmt) else (-1, fmt).

(** What one conversion did: characters written, a store of [str - buf]
    through an [int *], remaining format (after the loop's [++fmt]) and
    arguments. *)
Record conv := mk_conv {
  cv_out : list Z;
  cv_store : option (nat * Z);
  cv_fmt : list Z;
  cv_args : list va;
}.

(** [while (--n > 0) *str++ = c] and [while (len < n--) *str++ = c]. *)
Definition emit_pre_dec (n c : Z) : list Z * Z :=
  (replicate (Z.to_nat (n - 1)) c, Z.min n 1 - 1).
Definition emit_above (len n c : Z) : list Z * Z :=
  (replicate (Z.to_nat (n - len)) c, Z.min n len - 1).

(** kernel/vsprintf.c:194-201 ['c'] *)
Definition conv_char (flags width : Z) (args : list va) : option (list Z * list va) :=
  let '(pad1, width) :=
    if negb (flag flags LEFT) then emit_pre_dec width ch_space else ([], width) in
  '(z, args) ← va_int args;
  let '(pad2, _) := emit_pre_dec width ch_space in
  Some (pad1 ++ [u8 z] ++ pad2, args).

(** ["<NULL>"] *)
Definition null_string : list Z := [60; 78; 85; 76; 76; 62].

(** kernel/vsprintf.c:203-220 ['s'] *)
Definition conv_string (flags width precision : Z) (args : list va) :
    option (list Z * list va) :=
  '(so, args) ← va_str args;
  let s := match so with Some s => s | None => null_string end in
  let len := Z.of_nat (length s) in
  let len := if precision <? 0 then len else if precision <? len then precision else len in
  let '(pad1, width) :=
    if negb (flag flags LEFT) then emit_above len width ch_space else ([], width) in
  let '(pad2, _) := emit_above len width ch_space in
  Some (pad1 ++ take (Z.to_nat len) s ++ pad2, args).

(** A numeric conversion: the next argument through [number].  [va_arg] reads
    an [unsigned long] and [number] receives it as an [int]. *)
Definition conv_number (base flags width precision : Z) (args : list va) :
    option (list Z * list va) :=
  '(z, args) ← va_int args;
  out ← number (s32 z) base width precision flags;
  Some (out, args).

(** kernel/vsprintf.c:193-265 the conversion switch; [count] is [str - buf] *)
Definition convert (count flags width precision : Z) (fmt : list Z) (args : list va) :
    option conv :=
  let ret (r : option (list Z * list va)) : option conv :=
    '(out, args) ← r; Some (mk_conv out None (tl fmt) args) in
  let c := deref fmt in
  if c =? 99 (* c *) then ret (conv_char flags width args)
  else if c =? 115 (* s *) then ret (conv_string flags width precision args)
  else if c =? 111 (* o *) then ret (conv_number 8 flags width precision args)
  else if c =? 112 (* p *) then
    (if width =? -1 then ret (conv_number 16 (Z.lor flags ZEROPAD) 8 precision args)
     else ret (conv_number 16 flags width precision args))
  else if c =? 120 (* x *) then
    ret (conv_number 16 (Z.lor flags SMALL) width precision args)
  else if c =? 88 (* X *) then ret (conv_number 16 flags width precision args)
  else if (c =? 100) || (c =? 105) (* d, i *) then
    ret (conv_number 10 (Z.lor flags SIGN) width precision args)
  else if c =? 117 (* u *) then ret (conv_number 10 flags width precision args)
  else if c =? 110 (* n *) then
    '(p, args) ← va_intptr args; Some (mk_conv [] (Some (p, count)) (tl fmt) args)
  else
    let out := (if negb (c =? ch_percent) then [ch_percent] else [])
                 ++ (if ctrue c then [c] else []) in
    Some (mk_conv out None (tl fmt) args).

(** kernel/vsprintf.c:147-265 one conversion, [fmt] after the ['%'] *)
Definition conversion (count : Z) (fmt : list Z) (args : list va) : option conv :=
  let '(flags, fmt) := parse_flags 0 fmt in
  '(width, flags, fmt, args) ← parse_width flags fmt args;
  '(precision, fmt, args) ← parse_precision fmt args;
  let '(_, fmt) := parse_qualifier fmt in
  convert count flags width precision fmt args.

(** kernel/vsprintf.c:141-266 the loop over the format: the characters
    written (without the NUL) and the stores made by ['%n'] *)
Fixpoint vsprintf_loop (fuel : nat) (count : Z) (fmt : list Z) (args : list va) :
    option (list Z * list (nat * Z)) :=
  match fuel, fmt with
  | _, [] => Some ([], [])
  | O, _ => None
  | S fuel, c :: fmt =>
      if negb (c =? ch_percent) then
        '(out, st) ← vsprintf_loop fuel (count + 1) fmt args; Some (c :: out, st)
      else
        cv ← conversion count fmt args;
        '(out, st) ←
          vsprintf_loop fuel (count + Z.of_nat (length (cv_out cv))) (cv_fmt cv) (cv_args cv);
        Some (cv_out cv ++ out, from_option (fun p => [p]) [] (cv_store cv) ++ st)
  end.

(** kernel/vsprintf.c:126-269 [vsprintf]: the string left in [buf], the
    stores of ['%n'], and the returned length.  Every round consumes at least
    one format character, so the format's length is fuel enough. *)
Definition vsprintf (fmt : list Z) (args : list va) :
    option (list Z * list (nat * Z) * Z) :=
  '(out, st) ← vsprintf_loop (length fmt) 0 fmt args;
  Some (out, st, Z.of_nat (length out)).

(** kernel/vsprintf.c:271-280 [sprintf] *)
Definition sprintf (fmt : list Z) (args : list va) := vsprintf fmt args.

(** Test helper: a format written as a Rocq string. *)
Definition str (s : string) : list Z :=
  (fun a => Z.of_nat (Ascii.nat_of_ascii a)) <$> String.list_ascii_of_string s.

(** ** Properties *)

Lemma digits_hex type d :
  0 <= d < 16 -> isxdigit (digits type d) = true /\ digit_value (digits type d) = d.
Proof.
  intros Hd. unfold digits.
  assert (d ∈ seqZ 0 16) as Hin by (apply elem_of_seqZ; lia).
  destruct (flag type SMALL); revert d Hd Hin; vm_compute seqZ;
    intros d _ Hin; repeat (apply elem_of_cons in Hin as [-> | Hin]; [done |]);
    by apply elem_of_nil in Hin.
Qed.

Lemma u32_s32 n : u32 (s32 n) = u32 n.
Proof.
  unfold uwrap, swrap. rewrite Zminus_mod_idemp_l. f_equal. lia.
Qed.

(** The digits only depend on the 32-bit pattern of the number. *)
Lemma number_tmp_u32 type base n :
  0 <= n < 2 ^ 32 -> number_tmp type base (s32 n) = number_tmp type base n.
Proof.
  intros Hn. unfold number_tmp.
  assert ((s32 n =? 0) = (n =? 0)) as ->.
  { pose proof (u32_s32 n) as H. rewrite (u32_small n) in H by lia.
    destruct (Z.eqb_spec n 0) as [-> | ]; [done |].
    apply Z.eqb_neq. intros E. rewrite E in H. change (u32 0) with 0 in H. lia. }
  destruct (n =? 0) eqn:E; [done |].
  change 33%nat with (S 32). cbn [number_digits]. unfold do_div.
  rewrite u32_s32, E.
  destruct (s32 n =? 0) eqn:E'; [| done].
  apply Z.eqb_eq in E'. pose proof (u32_s32 n) as H.
  rewrite E', (u32_small n) in H by lia. change (u32 0) with 0 in H. bool_simp. lia.
Qed.

Lemma number_digits_strtoul fuel type base n rest :
  2 <= base <= 16 -> 0 <= n < base ^ Z.of_nat fuel -> n < 2 ^ 32 ->
  strtoul_loop base 0 (rev (number_digits fuel type base n) ++ rest)
  = strtoul_loop base n rest.
Proof.
  intros Hb. revert n rest. induction fuel as [| fuel IH]; intros n rest Hn Hn32.
  { cbn in *. by replace n with 0 by lia. }
  cbn [number_digits]. destruct (Z.eqb_spec n 0) as [-> | Hne]; [done |].
  unfold do_div. rewrite u32_small by lia. cbn [rev]. rewrite <- app_assoc.
  assert (n < base * base ^ Z.of_nat fuel) as Hlt.
  { rewrite <- Z.pow_succ_r by lia. rewrite Nat2Z.inj_succ in Hn. lia. }
  pose proof (Z.div_lt_upper_bound n base _ ltac:(lia) Hlt).
  pose proof (Z.div_pos n base ltac:(lia) ltac:(lia)).
  pose proof (Z.mod_pos_bound n base ltac:(lia)).
  pose proof (Z.div_mod n base ltac:(lia)) as Hdm.
  rewrite IH by nia. cbn [app strtoul_loop].
  destruct (digits_hex type (n mod base) ltac:(lia)) as [-> ->].
  rewrite (u32_small (n mod base)) by lia.
  destruct (Z.ltb_spec (n mod base) base); [| lia]. cbn [andb].
  rewrite u32_small by lia. f_equal. lia.
Qed.

Lemma emit_dec_nonpos n c : n <= 0 -> emit_dec n c = ([], n - 1).
Proof.
  intros. unfold emit_dec. replace (Z.to_nat n) with 0%nat by lia.
  by rewrite Z.min_l by lia.
Qed.

Lemma emit_dec_length n c : Z.of_nat (length (emit_dec n c).1) = Z.max n 0.
Proof. unfold emit_dec; cbn. rewrite length_replicate. lia. Qed.

Lemma number_digits_length f type base n :
  (length (number_digits f type base n) <= f)%nat.
Proof.
  revert n; induction f as [| f IH]; intros n; cbn; [lia |].
  destruct (n =? 0); cbn; [lia |]. specialize (IH (u32 n / base)). lia.
Qed.

(** The buffer [tmp[36]] of [number] is large enough. *)
Lemma number_tmp_length type base n :
  1 <= Z.of_nat (length (number_tmp type base n)) <= 33.
Proof.
  unfold number_tmp. destruct (n =? 0) eqn:E; [cbn; lia |].
  pose proof (number_digits_length 33 type base n).
  change 33%nat with (S 32) in *. cbn [number_digits] in *. rewrite E in *.
  cbn in *. lia.
Qed.

Lemma number_plain num base type :
  2 <= base <= 36 -> type = 0 \/ type = SMALL ->
  number num base (-1) (-1) type = Some (rev (number_tmp type base num)).
Proof.
  intros Hb Ht. unfold number.
  destruct (Z.ltb_spec base 2), (Z.ltb_spec 36 base); try lia.
  replace (if flag type LEFT then _ else _) with type by (by destruct Ht as [-> | ->]).
  replace (flag type SIGN) with false by (by destruct Ht as [-> | ->]).
  replace (flag type PLUS) with false by (by destruct Ht as [-> | ->]).
  replace (flag type SPACE) with false by (by destruct Ht as [-> | ->]).
  replace (flag type SPECIAL) with false by (by destruct Ht as [-> | ->]).
  replace (flag type (ZEROPAD + LEFT)) with false by (by destruct Ht as [-> | ->]).
  replace (flag type LEFT) with false by (by destruct Ht as [-> | ->]).
  cbn [orb andb negb]. change (ctrue 0) with false.
  pose proof (number_tmp_length type base num) as Hlen.
  set (tmp := number_tmp type base num) in *. cbv iota zeta beta.
  destruct (Z.ltb_spec (-1) (Z.of_nat (length tmp))); [| lia].
  rewrite s32_small, Z.sub_diag by lia.
  rewrite !emit_dec_nonpos by lia. cbn. by rewrite app_nil_r.
Qed.

(** C11: Numbers survive printing and parsing.  [number] writes the 32-bit
    value [n] in a base from 2 to 16 (upper or lower case digits) and
    [simple_strtoul] in that base reads exactly [n] back, consuming the whole
    text; this includes the values at and above [2^31], which reach [number]
    as negative [int]s. *)
Theorem number_strtoul_roundtrip n base type :
  0 <= n < 2 ^ 32 -> 2 <= base <= 16 -> type = 0 \/ type = SMALL ->
  exists out, number (s32 n) base (-1) (-1) type = Some out /\
              simple_strtoul out base = (n, []).
Proof.
  intros Hn Hb Ht. eexists. split; [apply number_plain; [lia | done] |].
  rewrite number_tmp_u32 by lia. unfold simple_strtoul.
  destruct (Z.eqb_spec base 0); [lia |].
  rewrite <- (app_nil_r (rev _)). unfold number_tmp.
  destruct (Z.eqb_spec n 0) as [-> | Hne].
  { cbn [rev app strtoul_loop].
    change (isxdigit ch_0) with true. change (u32 (digit_value ch_0)) with 0.
    destruct (Z.ltb_spec 0 base); [done | lia]. }
  rewrite number_digits_strtoul; [done | lia | | lia].
  split; [lia |]. eapply Z.lt_le_trans; [apply Hn |].
  etransitivity; [| apply (Z.pow_le_mono_l 2); lia]. by apply Z.pow_le_mono_r.
Qed.

Lemma number_strtoul_roundtrip_witness :
  exists out, number (s32 3735928559) 16 (-1) (-1) SMALL = Some out /\
              simple_strtoul out 16 = (3735928559, []).
Proof. apply (number_strtoul_roundtrip 3735928559 16 SMALL); [lia | lia | by right]. Defined.

(** Width of the fixed parts of a number: its sign and its prefix. *)
Definition number_prefix (num base type : Z) : Z :=
  (if (flag type SIGN && (num <? 0)) || flag type PLUS || flag type SPACE then 1 else 0) +
  (if flag type SPECIAL then if base =? 16 then 2 else if base =? 8 then 1 else 0 else 0).

Lemma flag_left_zeropad type :
  flag (Z.land type (Z.lnot ZEROPAD)) ZEROPAD = false.
Proof.
  unfold flag, ctrue. rewrite <- Z.land_assoc.
  rewrite (Z.land_comm (Z.lnot _)), Z.land_lnot_diag, Z.land_0_r. done.
Qed.

Lemma flag_lor type a b : flag type (Z.lor a b) = flag type a || flag type b.
Proof.
  unfold flag, ctrue. rewrite Z.land_lor_distr_r.
  destruct (Z.eqb_spec (Z.land type a) 0) as [-> |], (Z.eqb_spec (Z.land type b) 0) as [-> |];
    cbn; try done; apply negb_true_iff, Z.eqb_neq; rewrite Z.lor_eq_0_iff; tauto.
Qed.

(** Clearing [ZEROPAD] keeps the other flags. *)
Lemma flag_clear_zeropad type m :
  Z.land (Z.lnot ZEROPAD) m = m -> flag (Z.land type (Z.lnot ZEROPAD)) m = flag type m.
Proof. intros H. unfold flag. by rewrite <- Z.land_assoc, H. Qed.

Lemma emit_dec_snd n c : (emit_dec n c).2 = Z.min n 0 - 1.
Proof. done. Qed.

(** Field widths.  For sizes and precisions up to [2^30] in magnitude the text that
    [number] writes is exactly as long as the larger of the requested field
    width and the digits with their sign and prefix: shorter numbers are
    padded, longer ones are never cut. *)
Theorem number_width num base size precision type out :
  -2 ^ 29 <= size <= 2 ^ 30 -> precision <= 2 ^ 30 ->
  number num base size precision type = Some out ->
  exists n, 1 <= n <= 33 /\
    Z.of_nat (length out)
    = Z.max size (number_prefix num base type + Z.max precision n).
Proof.
  intros Hs Hp. unfold number.
  set (type' := if flag type LEFT then _ else type).
  assert (forall m, Z.land (Z.lnot ZEROPAD) m = m -> flag type' m = flag type m) as Hkeep.
  { intros m Hm. subst type'. case_match; [by apply flag_clear_zeropad | done]. }
  assert (flag type' ZEROPAD && flag type' LEFT = false) as Hzl.
  { subst type'. destruct (flag type LEFT) eqn:E;
      [by rewrite flag_left_zeropad | by rewrite E, andb_false_r]. }
  unfold number_prefix. rewrite <- !Hkeep by done.
  change (ZEROPAD + LEFT) with (Z.lor ZEROPAD LEFT). rewrite flag_lor.
  destruct (_ || _); [done |]. intros Hout.
  set (sg := flag type' SIGN && (num <? 0)) in *.
  destruct (if sg then _ else _) as [sign num'] eqn:Esign in Hout.
  assert (ctrue sign = sg || flag type' PLUS || flag type' SPACE) as Hsign.
  { destruct sg, (flag type' PLUS), (flag type' SPACE); by injection Esign as <- <-. }
  rewrite <- Hsign.
  pose proof (number_tmp_length type' base num') as Hlen.
  set (tmp := number_tmp type' base num') in *.
  exists (Z.of_nat (length tmp)). split; [done |].
  assert ((if precision <? Z.of_nat (length tmp) then Z.of_nat (length tmp) else precision)
          = Z.max precision (Z.of_nat (length tmp))) as Hmax
    by (destruct (Z.ltb_spec precision (Z.of_nat (length tmp))); lia).
  rewrite Hmax in Hout. clear Hmax Esign.
  destruct (ctrue sign), (flag type' SPECIAL), (base =? 16) eqn:?, (base =? 8) eqn:?,
    (flag type' ZEROPAD), (flag type' LEFT); bool_simp; try lia; try done;
    cbn -[emit_dec swrap Z.max] in Hout; unwrap_in Hout;
    unfold emit_dec in Hout; injection Hout as <-;
    repeat (autorewrite with klist; cbn [length]); lia.
Qed.

Lemma number_width_witness :
  exists out, number (-42) 10 8 (-1) (Z.lor SIGN LEFT) = Some out /\
  exists n, 1 <= n <= 33 /\
    Z.of_nat (length out)
    = Z.max 8 (number_prefix (-42) 10 (Z.lor SIGN LEFT) + Z.max (-1) n).
Proof.
  eexists. split; [reflexivity |].
  apply (number_width (-42) 10 8 (-1) (Z.lor SIGN LEFT)); [lia | lia | reflexivity].
Defined.

(** The parsers never lengthen the format. *)
Lemma skip_atoi_length i s : (length (skip_atoi i s).2 <= length s)%nat.
Proof.
  revert i; induction s as [| c s IH]; intros i; cbn; [done |].
  destruct (is_digit c); cbn; [| done]. specialize (IH (s32 (i * 10 + c - ch_0))). lia.
Qed.

Lemma parse_flags_length fl s : (length (parse_flags fl s).2 <= length s)%nat.
Proof.
  revert fl; induction s as [| c s IH]; intros fl; cbn; [done |].
  repeat (split_if; [etransitivity; [apply IH | lia] |]). done.
Qed.

Lemma tl_length {A} (l : list A) : (length (tl l) <= length l)%nat.
Proof. destruct l; cbn; lia. Qed.

Lemma parse_width_length fl s args w fl' s' args' :
  parse_width fl s args = Some (w, fl', s', args') -> (length s' <= length s)%nat.
Proof.
  unfold parse_width. pose proof (skip_atoi_length 0 s).
  destruct (skip_atoi 0 s) as [w0 s0]. destruct args as [| [] args];
    intros Heq; cbn in *; repeat split_if_in Heq; simplify_eq/=; lia.
Qed.

Lemma parse_precision_length s args p s' args' :
  parse_precision s args = Some (p, s', args') -> (length s' <= length s)%nat.
Proof.
  unfold parse_precision. pose proof (skip_atoi_length 0 (tl s)) as H.
  pose proof (tl_length s).
  destruct (skip_atoi 0 (tl s)) as [p0 s0]. cbn in H.
  destruct args as [| [] args]; intros H1; repeat split_if_in H1; simplify_eq/=; lia.
Qed.

Lemma parse_qualifier_length s : (length (parse_qualifier s).2 <= length s)%nat.
Proof. unfold parse_qualifier. split_if; cbn; [apply tl_length | done]. Qed.

Lemma convert_fmt count fl w p s args cv :
  convert count fl w p s args = Some cv -> cv_fmt cv = tl s.
Proof.
  unfold convert. intros H.
  repeat (split_if_in H; [destruct_and?; repeat case_match; simplify_option_eq;
    repeat case_match; by simplify_eq/= |]).
  by simplify_eq/=.
Qed.

Lemma conversion_length count s args cv :
  conversion count s args = Some cv -> (length (cv_fmt cv) <= length s)%nat.
Proof.
  unfold conversion. pose proof (parse_flags_length 0 s) as H1.
  destruct (parse_flags 0 s) as [fl s1].
  intros H. apply bind_Some in H as ([[[w fl'] s2] a2] & H2%parse_width_length & H).
  apply bind_Some in H as ([[p s3] a3] & H3%parse_precision_length & H).
  pose proof (parse_qualifier_length s3) as H4. destruct (parse_qualifier s3) as [q s4].
  apply convert_fmt in H. rewrite H. pose proof (tl_length s4). cbn in *. lia.
Qed.



(** A ['*'] width takes its argument, but [fmt] stays on the ['*']: the
    conversion that follows is the unknown character ['*'], so the text of the
    conversion is copied and its argument is never printed. *)
Example vsprintf_star_width :
  vsprintf (str "[%*d]") [VaInt 5; VaInt 42] = Some (str "[%*d]", [], 5).
Proof. reflexivity. Qed.
