(* ===== verification/Task.v ===== *)
(** The process table: [struct task_struct] (include/linux/sched.h), signals
    and their numbers (include/linux/signal.h), the task list with
    [REMOVE_LINKS], [SET_LINKS] and [for_each_task], the wait queues, and the
    kernel state shared by the scheduler, signals, exit and the process
    system calls. *)

From S2P Require Import Prelude Errno.

(** ** Signals *)

(** include/linux/signal.h:9-56 the signal numbers *)
Definition SIGHUP := 1.
Definition SIGINT := 2.
Definition SIGQUIT := 3.
Definition SIGILL := 4.
Definition SIGTRAP := 5.
Definition SIGABRT := 6.
Definition SIGUNUSED := 7.
Definition SIGFPE := 8.
Definition SIGKILL := 9.
Definition SIGUSR1 := 10.
Definition SIGSEGV := 11.
Definition SIGUSR2 := 12.
Definition SIGPIPE := 13.
Definition SIGALRM := 14.
Definition SIGTERM := 15.
Definition SIGSTKFLT := 16.
Definition SIGCHLD := 17.
Definition SIGCONT := 18.
Definition SIGSTOP := 19.
Definition SIGTSTP := 20.
Definition SIGTTIN := 21.
Definition SIGTTOU := 22.
Definition SIGIO := 23.
Definition SIGVTALRM := 26.
Definition SIGPROF := 27.
Definition SIGWINCH := 28.

(** include/linux/signal.h:67-76 the [sa_flags] and the [sigprocmask] modes *)
Definition SA_NOCLDSTOP := 1.
Definition SA_RESTART := 0x10000000.
Definition SA_NOMASK := 0x40000000.
Definition SA_ONESHOT := 0x80000000.
Definition SIG_BLOCK := 0.
Definition SIG_UNBLOCK := 1.
Definition SIG_SETMASK := 2.

(** include/linux/signal.h:81-82 the special handlers, as addresses *)
Definition SIG_DFL := 0.
Definition SIG_IGN := 1.

(** include/linux/signal.h:86-91 [struct sigaction] *)
Record sigaction := mk_sigaction {
  sa_handler : Z;
  sa_mask : Z;
  sa_flags : Z;
  sa_restorer : Z;
}.
#[export] Instance eta_sigaction : Eta sigaction :=
  fun a => mk_sigaction (sa_handler a) (sa_mask a) (sa_flags a) (sa_restorer a).

(** kernel/signal.c:18-18 [_S]: the mask of a signal *)
Definition sigmask (nr : Z) : Z := Z.shiftl 1 (nr - 1).

(** ** [struct task_struct] *)

(** include/linux/sched.h:85-90 the task states *)
Definition TASK_RUNNING := 0.
Definition TASK_INTERRUPTIBLE := 1.
Definition TASK_UNINTERRUPTIBLE := 2.
Definition TASK_ZOMBIE := 3.
Definition TASK_STOPPED := 4.
Definition TASK_SWAPPING := 5.

(** include/linux/sched.h:317-318 the process flags *)
Definition PF_PTRACED := 0x10.
Definition PF_TRACESYS := 0x20.

(** include/linux/tasks.h:7-7 [NR_TASKS] *)
Definition NR_TASKS := 128.
(** include/linux/sched.h:38-38 [TASK_SIZE] *)
Definition TASK_SIZE := 0xc0000000.
(** include/linux/sched.h:43-43 [IO_BITMAP_SIZE] *)
Definition IO_BITMAP_SIZE := 32.
(** include/linux/param.h:5-5 [HZ] *)
Definition HZ := 100.
(** include/linux/param.h:11-15 [NGROUPS] and [NOGROUP] *)
Definition NGROUPS := 32.
Definition NOGROUP := -1.

(** A [struct task_struct *] is the name of a task; [init_task] is 0 and NULL
    is [None]. *)
Abbreviation tptr := nat.
Definition init_task : tptr := 0%nat.

(** include/linux/wait.h:9-12 a wait queue: the tasks of its entries, from
    [*q] along [next] (the circle is cut at [*q]) *)
Abbreviation wait_queue := (list tptr).

(** include/linux/resource.h:60-63 [struct rlimit] *)
Record rlimit := mk_rlimit { rlim_cur : Z; rlim_max : Z }.

(** include/linux/sched.h:167-277 [struct task_struct], the fields the
    modelled code uses *)
Record task_struct := mk_task {
  state : Z; counter : Z; priority : Z;
  signal : Z; blocked : Z; flags : Z;
  sigactions : list sigaction;
  exit_code : Z; exit_signal : Z; did_exec : bool;
  pid : Z; pgrp : Z; session : Z; leader : bool;
  groups : list Z;
  p_opptr : tptr; p_pptr : tptr;
  p_cptr : option tptr; p_ysptr : option tptr; p_osptr : option tptr;
  wait_chldexit : wait_queue;
  uid : Z; euid : Z; suid : Z;
  gid : Z; egid : Z; sgid : Z;
  timeout : Z;
  it_real_value : Z; it_prof_value : Z; it_virt_value : Z;
  it_real_incr : Z; it_prof_incr : Z; it_virt_incr : Z;
  utime : Z; stime : Z; cutime : Z; cstime : Z;
  min_flt : Z; maj_flt : Z; cmin_flt : Z; cmaj_flt : Z;
  rlim : list rlimit;
  tty : Z; umask : Z;
  io_bitmap : list Z;
}.

#[export] Instance eta_task : Eta task_struct := fun t =>
  mk_task (state t) (counter t) (priority t) (signal t) (blocked t) (flags t)
    (sigactions t) (exit_code t) (exit_signal t) (did_exec t)
    (pid t) (pgrp t) (session t) (leader t) (groups t)
    (p_opptr t) (p_pptr t) (p_cptr t) (p_ysptr t) (p_osptr t) (wait_chldexit t)
    (uid t) (euid t) (suid t) (gid t) (egid t) (sgid t) (timeout t)
    (it_real_value t) (it_prof_value t) (it_virt_value t)
    (it_real_incr t) (it_prof_incr t) (it_virt_incr t)
    (utime t) (stime t) (cutime t) (cstime t)
    (min_flt t) (maj_flt t) (cmin_flt t) (cmaj_flt t)
    (rlim t) (tty t) (umask t) (io_bitmap t).

Definition sa_default : sigaction := mk_sigaction SIG_DFL 0 0 0.

(** include/linux/sched.h:331-369 [INIT_TASK] *)
Definition INIT_TASK : task_struct :=
  mk_task TASK_RUNNING 15 15 0 0 0 (replicate 32 sa_default) 0 0 false
    0 0 0 false (NOGROUP :: replicate 31 0)
    init_task init_task None None None []
    0 0 0 0 0 0 0  0 0 0 0 0 0  0 0 0 0  0 0 0 0
    [mk_rlimit 0x7fffffff 0x7fffffff; mk_rlimit 0x7fffffff 0x7fffffff;
     mk_rlimit 0x7fffffff 0x7fffffff; mk_rlimit 0x7fffffff 0x7fffffff;
     mk_rlimit 0 0x7fffffff; mk_rlimit 0x7fffffff 0x7fffffff]
    (-1) 18 (* 022 *) (0xffffffff :: replicate 32 0).

#[export] Instance task_inhabited : Inhabited task_struct := populate INIT_TASK.

(** include/linux/kernel.h:60-60 [suser] *)
Definition suser (current : task_struct) : bool := euid current =? 0.

(** The pending signals that are not blocked: [p->signal & ~p->blocked]. *)
Definition signal_pending (p : task_struct) : bool :=
  ctrue (Z.land (signal p) (Z.lnot (blocked p))).

(** ** Wait queues *)

(** include/linux/sched.h:484-510 [add_wait_queue]: the first entry of an
    empty queue, or the second of another *)
Definition add_wait_queue (q : wait_queue) (t : tptr) : wait_queue :=
  match q with
  | [] => [t]
  | h :: rest => h :: t :: rest
  end.

(** include/linux/sched.h:513-556 [remove_wait_queue]: the entry leaves the
    circle; when it was the first, the queue starts at the next one.  (The C
    entry is an address; a task waits with one entry per queue.) *)
Fixpoint remove_wait_queue (q : wait_queue) (t : tptr) : wait_queue :=
  match q with
  | [] => []
  | h :: rest => if decide (h = t) then rest else h :: remove_wait_queue rest t
  end.

(** ** The kernel state *)

(** kernel/sched.c:63-103 the scheduler's variables; [tasks] is the memory
    of task structures, [task_list] the circle of [next_task] from
    [init_task] (which is not repeated), [task] the array of slots *)
Record kstate := mk_kstate {
  tasks : gmap tptr task_struct;
  task_list : list tptr;
  task : list (option tptr);
  current : tptr;
  need_resched : bool;
  jiffies : Z;
  itimer_ticks : Z;
  itimer_next : Z;
  context_swtch : Z;
}.
#[export] Instance eta_kstate : Eta kstate := fun s =>
  mk_kstate (tasks s) (task_list s) (task s) (current s) (need_resched s)
    (jiffies s) (itimer_ticks s) (itimer_next s) (context_swtch s).

(** [*p] and an update of [*p]. *)
Definition tsk (s : kstate) (p : tptr) : task_struct := default INIT_TASK (tasks s !! p).
Definition upd_tsk (p : tptr) (f : task_struct -> task_struct) (s : kstate) : kstate :=
  s <| tasks ::= fun m => <[p := f (default INIT_TASK (m !! p))]> m |>.
Abbreviation cur s := (tsk s (current s)).

(** include/linux/sched.h:652-653 [for_each_task]: the tasks visited, all but
    [init_task] *)
Definition for_each_task (s : kstate) : list tptr := task_list s.

(** The slot [task[i]]. *)
Definition task_slot (s : kstate) (i : Z) : option tptr := znth None (task s) i.

(** The slots from [LAST_TASK] down to the one above [FIRST_TASK]. *)
Definition slots_down (s : kstate) : list tptr :=
  omap (fun i => task_slot s i) (rev (seqZ 1 (NR_TASKS - 1))).

(** Pointer updates through an optional link. *)
Definition upd_opt (p : option tptr) (f : task_struct -> task_struct) (s : kstate) :=
  match p with Some p => upd_tsk p f s | None => s end.

(** include/linux/sched.h:622-633 [REMOVE_LINKS] *)
Definition REMOVE_LINKS (p : tptr) (s : kstate) : kstate :=
  let s := s <| task_list ::= filter (fun q => q <> p) |> in
  let t := tsk s p in
  let s := upd_opt (p_osptr t) (fun o => o <| p_ysptr := p_ysptr t |>) s in
  match p_ysptr t with
  | Some y => upd_tsk y (fun o => o <| p_osptr := p_osptr (tsk s p) |>) s
  | None => upd_tsk (p_pptr t) (fun o => o <| p_cptr := p_osptr (tsk s p) |>) s
  end.

(** include/linux/sched.h:639-650 [SET_LINKS] *)
Definition SET_LINKS (p : tptr) (s : kstate) : kstate :=
  let s := s <| task_list ::= fun l => l ++ [p] |> in
  let s := upd_tsk p (fun t => t <| p_ysptr := None |>) s in
  let older := p_cptr (tsk s (p_pptr (tsk s p))) in
  let s := upd_tsk p (fun t => t <| p_osptr := older |>) s in
  let s := upd_opt older (fun o => o <| p_ysptr := Some p |>) s in
  upd_tsk (p_pptr (tsk s p)) (fun o => o <| p_cptr := Some p |>) s.

(** ** Lemmas on the task memory *)

Lemma tsk_upd p f s q :
  tsk (upd_tsk p f s) q = if decide (p = q) then f (tsk s p) else tsk s q.
Proof.
  unfold tsk, upd_tsk; cbn. case_decide as E.
  - subst. by rewrite lookup_insert_eq.
  - by rewrite lookup_insert_ne.
Qed.

Lemma tsk_upd_eq p f s : tsk (upd_tsk p f s) p = f (tsk s p).
Proof. rewrite tsk_upd. by case_decide. Qed.

Lemma tsk_upd_ne p f s q : p <> q -> tsk (upd_tsk p f s) q = tsk s q.
Proof. intros. rewrite tsk_upd. by case_decide. Qed.

Lemma upd_tsk_list p f s : task_list (upd_tsk p f s) = task_list s.
Proof. done. Qed.
Lemma upd_tsk_current p f s : current (upd_tsk p f s) = current s.
Proof. done. Qed.

Create Rewrite HintDb ktask.
#[export] Hint Rewrite tsk_upd_eq upd_tsk_list upd_tsk_current : ktask.
#[export] Hint Rewrite tsk_upd_ne using done : ktask.

(** A projection that an update leaves alone is the same for every task. *)
Lemma tsk_upd_proj {A} (proj : task_struct -> A) p f s q :
  (forall t, proj (f t) = proj t) -> proj (tsk (upd_tsk p f s) q) = proj (tsk s q).
Proof. intros H. rewrite tsk_upd. case_decide; [subst; apply H | done]. Qed.

(** Equality of the memory: two states with the same tasks and variables. *)
Lemma upd_tsk_comp p f g s : upd_tsk p g (upd_tsk p f s) = upd_tsk p (fun t => g (f t)) s.
Proof.
  destruct s. unfold upd_tsk; cbn. f_equal.
  rewrite lookup_insert_eq, insert_insert_eq. done.
Qed.

(** ** Updates of one task, and of a list of tasks

    [updates p f s s']: [s'] is [s] with [*p] changed by [f]; the lists of
    tasks, [current] and [jiffies] are the same (the scheduler's flags may
    change). *)
Definition same_frame (s s' : kstate) : Prop :=
  task_list s' = task_list s /\ task s' = task s /\ current s' = current s /\
  jiffies s' = jiffies s.
Definition updates (p : tptr) (f : task_struct -> task_struct) (s s' : kstate) : Prop :=
  (forall q, tsk s' q = if decide (p = q) then f (tsk s p) else tsk s q) /\ same_frame s s'.
Definition updates_all (l : list tptr) (f : task_struct -> task_struct) (s s' : kstate) : Prop :=
  (forall q, tsk s' q = if decide (q ∈ l) then f (tsk s q) else tsk s q) /\ same_frame s s'.

Lemma same_frame_refl s : same_frame s s.
Proof. by repeat split. Qed.
Lemma same_frame_trans s1 s2 s3 : same_frame s1 s2 -> same_frame s2 s3 -> same_frame s1 s3.
Proof. unfold same_frame. intuition congruence. Qed.
#[export] Hint Resolve same_frame_refl : kernel.

Lemma updates_upd p f s : updates p f s (upd_tsk p f s).
Proof. split; [intros q; apply tsk_upd | by repeat split]. Qed.
Lemma updates_id p f s : f (tsk s p) = tsk s p -> updates p f s s.
Proof. intros H. split; [intros q; case_decide; congruence | by repeat split]. Qed.
Lemma updates_trans p f g s1 s2 s3 :
  updates p f s1 s2 -> updates p g s2 s3 -> updates p (fun t => g (f t)) s1 s3.
Proof.
  intros [H1 F1] [H2 F2]. split; [| by eapply same_frame_trans].
  intros q. rewrite H2, !H1. by repeat case_decide.
Qed.
Lemma updates_ext p f g s s' : updates p f s s' -> f (tsk s p) = g (tsk s p) -> updates p g s s'.
Proof. intros [H F] E. split; [| done]. intros q. rewrite H. by rewrite E. Qed.
(** The variables outside the frame do not matter. *)
Lemma updates_vars p f s s' s'' :
  updates p f s s' -> tasks s'' = tasks s' -> same_frame s' s'' -> updates p f s s''.
Proof.
  intros [H F] E F'. split; [| by eapply same_frame_trans].
  intros q. rewrite <- H. unfold tsk. by rewrite E.
Qed.

(** A loop over a list of different tasks that updates each of them. *)
Lemma foldl_updates (step : kstate -> tptr -> kstate) f l s :
  (forall p s', same_frame s s' -> updates p f s' (step s' p)) ->
  NoDup l -> updates_all l f s (foldl step s l).
Proof.
  intros Hstep Hnd. induction l as [| p l IH] using rev_ind.
  { split; [| apply same_frame_refl]. intros q. case_decide; set_solver. }
  apply NoDup_app in Hnd as (Hnd & Hp & _).
  destruct (IH Hnd) as [Hq Hf]. rewrite foldl_app; cbn [foldl].
  destruct (Hstep p _ Hf) as [Hq' Hf'].
  split; [| by eapply same_frame_trans]. intros q. rewrite Hq', !Hq.
  assert (p ∉ l) by (intros ?; eapply Hp; [done | by constructor]).
  repeat case_decide; subst; try done; set_solver.
Qed.

(** Steps that leave a projection of every task alone. *)
Definition keeps {A} (proj : task_struct -> A) (s s' : kstate) : Prop :=
  same_frame s s' /\ forall q, proj (tsk s' q) = proj (tsk s q).

Section keeps.
Context {A : Type} (proj : task_struct -> A).

Lemma keeps_refl s : keeps proj s s.
Proof using Type. split; [apply same_frame_refl | done]. Qed.
Lemma keeps_trans s1 s2 s3 : keeps proj s1 s2 -> keeps proj s2 s3 -> keeps proj s1 s3.
Proof using Type. intros [F1 H1] [F2 H2]. split; [by eapply same_frame_trans | congruence]. Qed.
Lemma keeps_updates p f s s' :
  updates p f s s' -> (forall t, proj (f t) = proj t) -> keeps proj s s'.
Proof using Type.
  intros [Hq F] Hf. split; [done |]. intros q. rewrite Hq. case_decide; [subst; apply Hf | done].
Qed.
Lemma keeps_upd p f s : (forall t, proj (f t) = proj t) -> keeps proj s (upd_tsk p f s).
Proof using Type. intros. by eapply keeps_updates; [apply updates_upd |]. Qed.
End keeps.
#[export] Hint Resolve keeps_refl : kernel.
