(* ===== verification/Signal.v ===== *)
(** Signals: generation and delivery rights (kernel/exit.c, [generate] to
    [is_orphaned_pgrp]), masks and actions (kernel/signal.c).

    A user address given to a system call is represented by what the call
    does with it: an option for "is the pointer NULL", the value read through
    it, and the result [va] that [verify_area] (mm/memory.c) returns for it. *)

From S2P Require Import Prelude Errno Task.

(** ** Sending signals *)

(** kernel/exit.c:26-45 [generate] *)
Definition generate (sig : Z) (p : tptr) (s : kstate) : Z * kstate :=
  let mask := sigmask sig in
  let t := tsk s p in
  let sa := znth sa_default (sigactions t) (sig - 1) in
  let post := upd_tsk p (fun t => t <| signal ::= fun m => Z.lor m mask |>) s in
  if flag (flags t) PF_PTRACED then (1, post)
  else if (sa_handler sa =? SIG_IGN) && negb (sig =? SIGCHLD) then (0, s)
  else if (sa_handler sa =? SIG_DFL) &&
          ((sig =? SIGCONT) || (sig =? SIGCHLD) || (sig =? SIGWINCH)) then (0, s)
  else (1, post).

(** kernel/exit.c:70-71 the stop signals *)
Definition stop_signals : Z :=
  Z.lor (Z.lor (sigmask SIGSTOP) (sigmask SIGTSTP))
        (Z.lor (sigmask SIGTTIN) (sigmask SIGTTOU)).

(** kernel/exit.c:61-63 the permission test of [send_sig] *)
Definition may_signal (c p : task_struct) (sig priv : Z) : bool :=
  negb (negb (ctrue priv) &&
        (negb (sig =? SIGCONT) || negb (session c =? session p)) &&
        negb (euid c =? euid p) && negb (uid c =? uid p) && negb (suser c)).

(** kernel/exit.c:66-75 what [SIGKILL], [SIGCONT] and the stop signals do
    before they are generated *)
Definition sig_side_effects (sig : Z) (t : task_struct) : task_struct :=
  let t :=
    if (sig =? SIGKILL) || (sig =? SIGCONT) then
      t <| state ::= fun st => if st =? TASK_STOPPED then TASK_RUNNING else st |>
        <| exit_code := 0 |>
        <| signal ::= fun m => Z.land m (Z.lnot stop_signals) |>
    else t in
  if (SIGSTOP <=? sig) && (sig <=? SIGTTOU) then
    t <| signal ::= fun m => Z.land m (Z.lnot (sigmask SIGCONT)) |>
  else t.

(** kernel/exit.c:54-79 [send_sig]; [sig] is unsigned, so a negative number
    is a large one *)
Definition send_sig (sig : Z) (p : option tptr) (priv : Z) (s : kstate) : Z * kstate :=
  match p with
  | None => (- EINVAL, s)
  | Some p =>
      if 32 <? u32 sig then (- EINVAL, s)
      else if negb (may_signal (cur s) (tsk s p) sig priv) then (- EPERM, s)
      else if sig =? 0 then (0, s)
      else
        let s := upd_tsk p (sig_side_effects sig) s in
        let '(_, s) := generate sig p s in
        (0, s)
  end.

(** kernel/exit.c:212-227 [session_of_pgrp] *)
Definition session_of_pgrp (pg : Z) (s : kstate) : Z :=
  (fix go (l : list tptr) (fallback : Z) : Z :=
     match l with
     | [] => fallback
     | p :: l =>
         let t := tsk s p in
         if session t <=? 0 then go l fallback
         else if pgrp t =? pg then session t
         else go l (if pid t =? pg then session t else fallback)
     end) (for_each_task s) (-1).

(** kernel/exit.c:243-253 the loop of [kill_pg] and [kill_sl]: signal every
    task that [sel]ects, counting successes and keeping the last error *)
Fixpoint kill_loop (sel : task_struct -> bool) (sig priv : Z) (l : list tptr)
    (retval found : Z) (s : kstate) : Z * kstate :=
  match l with
  | [] => (if ctrue found then 0 else retval, s)
  | p :: l =>
      if sel (tsk s p) then
        let '(err, s) := send_sig sig (Some p) priv s in
        if negb (err =? 0) then kill_loop sel sig priv l err found s
        else kill_loop sel sig priv l retval (found + 1) s
      else kill_loop sel sig priv l retval found s
  end.

(** kernel/exit.c:235-254 [kill_pg] *)
Definition kill_pg (pg sig priv : Z) (s : kstate) : Z * kstate :=
  if (sig <? 0) || (32 <? sig) || (pg <=? 0) then (- EINVAL, s)
  else kill_loop (fun t => pgrp t =? pg) sig priv (for_each_task s) (- ESRCH) 0 s.

(** kernel/exit.c:263-281 [kill_sl] *)
Definition kill_sl (sess sig priv : Z) (s : kstate) : Z * kstate :=
  if (sig <? 0) || (32 <? sig) || (sess <=? 0) then (- EINVAL, s)
  else kill_loop (fun t => (session t =? sess) && leader t) sig priv
         (for_each_task s) (- ESRCH) 0 s.

(** kernel/exit.c:284-295 [kill_proc] *)
Definition kill_proc (pd sig priv : Z) (s : kstate) : Z * kstate :=
  if (sig <? 0) || (32 <? sig) then (- EINVAL, s)
  else match list_find (fun p => pid (tsk s p) = pd) (for_each_task s) with
       | Some (_, p) => send_sig sig (Some p) priv s
       | None => (- ESRCH, s)
       end.

(** kernel/exit.c:309-319 [sys_kill] with pid -1: every task above 1 but the
    caller; an [-EPERM] is not remembered *)
Fixpoint kill_all (sig : Z) (l : list tptr) (retval count : Z) (s : kstate) : Z * kstate :=
  match l with
  | [] => (if ctrue count then retval else - ESRCH, s)
  | p :: l =>
      if (1 <? pid (tsk s p)) && bool_decide (p <> current s) then
        let '(err, s) := send_sig sig (Some p) 0 s in
        kill_all sig l (if negb (err =? - EPERM) then err else retval) (count + 1) s
      else kill_all sig l retval count s
  end.

(** kernel/exit.c:301-325 [sys_kill] *)
Definition sys_kill (pd sig : Z) (s : kstate) : Z * kstate :=
  if pd =? 0 then kill_pg (pgrp (cur s)) sig 0 s
  else if pd =? -1 then kill_all sig (for_each_task s) 0 0 s
  else if pd <? 0 then kill_pg (s32 (- pd)) sig 0 s
  else kill_proc pd sig 0 s.

(** kernel/exit.c:335-349 [is_orphaned_pgrp] *)
Definition is_orphaned_pgrp (pg : Z) (s : kstate) : bool :=
  forallb (fun p =>
    let t := tsk s p in let parent := tsk s (p_pptr t) in
    negb (pgrp t =? pg) || (state t =? TASK_ZOMBIE) || (pid parent =? 1) ||
    negb (negb (pgrp parent =? pg) && (session parent =? session t))) (for_each_task s).

(** kernel/exit.c:351-362 [has_stopped_jobs] *)
Definition has_stopped_jobs (pg : Z) (s : kstate) : bool :=
  existsb (fun p => (pgrp (tsk s p) =? pg) && (state (tsk s p) =? TASK_STOPPED))
    (for_each_task s).

(** ** Masks and actions *)

(** kernel/signal.c:21-21 [_BLOCKABLE] *)
Definition BLOCKABLE : Z :=
  u32 (Z.lnot (Z.lor (sigmask SIGKILL) (sigmask SIGSTOP))).

(** kernel/signal.c:52-83 [sys_sigprocmask] on the current task: [set] is the
    value behind a non-NULL pointer, [oset] tells whether the old mask is
    wanted; the result holds the value stored at [oset] *)
Definition sys_sigprocmask (how : Z) (set : option Z) (va_set : Z) (oset : bool)
    (va_oset : Z) (c : task_struct) : Z * option Z * task_struct :=
  let old_set := blocked c in
  let store (c : task_struct) : Z * option Z * task_struct :=
    if oset then
      if ctrue va_oset then (va_oset, None, c) else (0, Some old_set, c)
    else (0, None, c) in
  match set with
  | None => store c
  | Some v =>
      if ctrue va_set then (va_set, None, c) else
      let new_set := Z.land v BLOCKABLE in
      if how =? SIG_BLOCK then store (c <| blocked ::= fun b => Z.lor b new_set |>)
      else if how =? SIG_UNBLOCK then
        store (c <| blocked ::= fun b => Z.land b (Z.lnot new_set) |>)
      else if how =? SIG_SETMASK then store (c <| blocked := new_set |>)
      else (- EINVAL, None, c)
  end.

(** kernel/signal.c:85-88 [sys_sgetmask] *)
Definition sys_sgetmask (c : task_struct) : Z := blocked c.

(** kernel/signal.c:90-96 [sys_ssetmask] *)
Definition sys_ssetmask (newmask : Z) (c : task_struct) : Z * task_struct :=
  (blocked c, c <| blocked := Z.land newmask BLOCKABLE |>).

(** kernel/signal.c:98-106 [sys_sigpending] *)
Definition sys_sigpending (va : Z) (c : task_struct) : Z * option Z :=
  (va, if ctrue va then None else Some (Z.land (blocked c) (signal c))).

(** kernel/signal.c:142-160 [check_pending] *)
Definition check_pending (signum : Z) (c : task_struct) : task_struct :=
  let p := znth sa_default (sigactions c) (signum - 1) in
  let drop := c <| signal ::= fun m => Z.land m (Z.lnot (sigmask signum)) |> in
  if sa_handler p =? SIG_IGN then if signum =? SIGCHLD then c else drop
  else if sa_handler p =? SIG_DFL then
    if negb (signum =? SIGCONT) && negb (signum =? SIGCHLD) && negb (signum =? SIGWINCH)
    then c else drop
  else c.

(** The signal numbers whose action may be changed. *)
Definition bad_action_signal (signum : Z) : bool :=
  (signum <? 1) || (32 <? signum) || (signum =? SIGKILL) || (signum =? SIGSTOP).

(** kernel/signal.c:162-178 [sys_signal] *)
Definition sys_signal (signum handler : Z) (c : task_struct) : Z * task_struct :=
  if bad_action_signal signum then (- EINVAL, c)
  else if TASK_SIZE <=? handler then (- EFAULT, c)
  else
    let tmp := mk_sigaction handler 0 (Z.lor SA_ONESHOT SA_NOMASK) 0 in
    let old := sa_handler (znth sa_default (sigactions c) (signum - 1)) in
    let c := c <| sigactions ::= fun l => zupd l (signum - 1) tmp |> in
    (old, check_pending signum c).

(** kernel/signal.c:193-198 the mask a new action really gets *)
Definition normalize_sa (signum : Z) (sa : sigaction) : sigaction :=
  if flag (sa_flags sa) SA_NOMASK then sa <| sa_mask := 0 |>
  else sa <| sa_mask ::= fun m => Z.land (Z.lor m (sigmask signum)) BLOCKABLE |>.

(** kernel/signal.c:180-213 [sys_sigaction]: [action] is the value behind a
    non-NULL pointer, the result holds the value stored at [oldaction] *)
Definition sys_sigaction (signum : Z) (action : option sigaction) (va_new : Z)
    (oldaction : bool) (va_old : Z) (c : task_struct) :
    Z * option sigaction * task_struct :=
  if bad_action_signal signum then (- EINVAL, None, c) else
  let p := znth sa_default (sigactions c) (signum - 1) in
  let finish (new_sa : option sigaction) : Z * option sigaction * task_struct :=
    if oldaction && ctrue va_old then (va_old, None, c) else
    let stored := if oldaction then Some p else None in
    match new_sa with
    | Some sa =>
        (0, stored,
         check_pending signum (c <| sigactions ::= fun l => zupd l (signum - 1) sa |>))
    | None => (0, stored, c)
    end in
  match action with
  | None => finish None
  | Some a =>
      if ctrue va_new then (va_new, None, c) else
      let new_sa := normalize_sa signum a in
      if TASK_SIZE <=? sa_handler new_sa then (- EFAULT, None, c)
      else finish (Some new_sa)
  end.

(** ** Properties: masks and actions *)

(** Signal [sig] is pending (blocked) in a task. *)
Definition pending (sig : Z) (t : task_struct) : bool := Z.testbit (signal t) (sig - 1).
Definition is_blocked (sig : Z) (t : task_struct) : bool := Z.testbit (blocked t) (sig - 1).

Lemma sigmask_spec nr i : 1 <= nr -> Z.testbit (sigmask nr) i = (i =? nr - 1).
Proof. intros. unfold sigmask. apply testbit_pow2. lia. Qed.
#[local] Hint Rewrite sigmask_spec using (unfold SIGKILL, SIGSTOP, SIGCONT, SIGTSTP, SIGTTIN, SIGTTOU; lia) : kbits.

(** The mask of [SIGKILL] and [SIGSTOP]. *)
Definition kill_stop : Z := Z.lor (sigmask SIGKILL) (sigmask SIGSTOP).

Lemma land_blockable v : Z.land (Z.land v BLOCKABLE) kill_stop = 0.
Proof. rewrite <- Z.land_assoc. change (Z.land BLOCKABLE kill_stop) with 0. apply Z.land_0_r. Qed.

Lemma land_lor_zero a b m : Z.land a m = 0 -> Z.land b m = 0 -> Z.land (Z.lor a b) m = 0.
Proof. intros Ha Hb. by rewrite Z.land_lor_distr_l, Ha, Hb. Qed.

Lemma land_sub_zero a b m : Z.land a m = 0 -> Z.land (Z.land a b) m = 0.
Proof.
  intros Ha. rewrite <- Z.land_assoc, (Z.land_comm b), Z.land_assoc, Ha. apply Z.land_0_l.
Qed.

(** The well-formedness of the signal state of a task: neither [SIGKILL] nor
    [SIGSTOP] is blocked, no action blocks them while it runs, and their own
    actions are the default ones. *)
Record sig_wf (c : task_struct) : Prop := {
  wf_blocked : Z.land (blocked c) kill_stop = 0;
  wf_masks : Forall (fun sa => Z.land (sa_mask sa) kill_stop = 0) (sigactions c);
  wf_kill : sa_handler (znth sa_default (sigactions c) (SIGKILL - 1)) = SIG_DFL;
  wf_stop : sa_handler (znth sa_default (sigactions c) (SIGSTOP - 1)) = SIG_DFL;
}.

(** The system calls by which a process changes its own signal state. *)
Inductive sig_call : task_struct -> task_struct -> Prop :=
| call_sigprocmask how set vs oset vo c :
    sig_call c (sys_sigprocmask how set vs oset vo c).2
| call_ssetmask m c : sig_call c (sys_ssetmask m c).2
| call_signal n h c : sig_call c (sys_signal n h c).2
| call_sigaction n a va old vo c :
    sig_call c (sys_sigaction n a va old vo c).2.

Lemma check_pending_frame n c :
  blocked (check_pending n c) = blocked c /\
  sigactions (check_pending n c) = sigactions c.
Proof. unfold check_pending. by repeat split_if. Qed.

Lemma sig_wf_proper c c' :
  blocked c' = blocked c -> sigactions c' = sigactions c -> sig_wf c -> sig_wf c'.
Proof. intros Hb Hs []. split; by rewrite ?Hb, ?Hs. Qed.

Lemma sig_wf_set_action n sa c :
  bad_action_signal n = false -> Z.land (sa_mask sa) kill_stop = 0 ->
  sig_wf c -> sig_wf (c <| sigactions ::= fun l => zupd l (n - 1) sa |>).
Proof.
  intros Hn Hsa []. unfold bad_action_signal in Hn. bool_simp.
  split; cbn -[znth zupd]; unfold SIGKILL, SIGSTOP in *;
    [done | | by rewrite znth_zupd_ne by lia | by rewrite znth_zupd_ne by lia].
  unfold zupd. case_match; [done |]. by apply Forall_insert.
Qed.

Lemma normalize_sa_mask n sa : Z.land (sa_mask (normalize_sa n sa)) kill_stop = 0.
Proof. unfold normalize_sa. split_if; cbn; [apply Z.land_0_l | apply land_blockable]. Qed.

Lemma sig_wf_set_blocked b c :
  Z.land b kill_stop = 0 -> sig_wf c -> sig_wf (c <| blocked := b |>).
Proof. intros Hb []. by split. Qed.

(** C13: [SIGKILL] and [SIGSTOP] stay deliverable.  Whatever sequence of
    [sigprocmask], [ssetmask], [signal] and [sigaction] calls a process makes,
    with any arguments, neither signal is ever blocked, no handler blocks them
    while it runs, and their actions stay the default ones. *)
Theorem sig_wf_invariant c c' : sig_wf c -> rtc sig_call c c' -> sig_wf c'.
Proof.
  intros Hwf Hsteps. induction Hsteps as [| c1 c2 c3 Hstep _ IH]; [done |].
  apply IH. destruct Hstep as [how set vs oset vo c | m c | n h c | n a va old vo c].
  - unfold sys_sigprocmask. pose proof (wf_blocked _ Hwf).
    run_branches; try done; case_match; run_branches; try done;
      apply sig_wf_set_blocked; auto using land_blockable, land_lor_zero, land_sub_zero.
  - by apply sig_wf_set_blocked; [apply land_blockable |].
  - unfold sys_signal. destruct (bad_action_signal n) eqn:?; [done |].
    split_if; [done |]. destruct (check_pending_frame n
      (c <| sigactions ::= fun l => zupd l (n - 1) (mk_sigaction h 0 (Z.lor SA_ONESHOT SA_NOMASK) 0) |>)).
    eapply sig_wf_proper; [eassumption | eassumption |]. by apply sig_wf_set_action.
  - unfold sys_sigaction. destruct (bad_action_signal n) eqn:?; [done |].
    destruct a as [a |]; [| by run_branches].
    split_if; [done |]. split_if; [done |]. split_if; [done |].
    destruct (check_pending_frame n
      (c <| sigactions ::= fun l => zupd l (n - 1) (normalize_sa n a) |>)).
    eapply sig_wf_proper; [eassumption | eassumption |].
    apply sig_wf_set_action; auto using normalize_sa_mask.
Qed.

Lemma sig_wf_invariant_witness :
  sig_wf (sys_sigprocmask SIG_SETMASK (Some 0xffffffff) 0 false 0
            (sys_signal SIGINT 0x1000 INIT_TASK).2).2.
Proof.
  apply (sig_wf_invariant INIT_TASK).
  - split; [reflexivity | | reflexivity | reflexivity].
    cbn. repeat constructor.
  - eapply rtc_l; [apply call_signal |]. eapply rtc_l; [apply call_sigprocmask |].
    apply rtc_refl.
Defined.

(** ** Properties: sending signals *)

(** What [generate] does to the task it is given. *)
Definition generates (sig : Z) (t : task_struct) : bool :=
  let sa := znth sa_default (sigactions t) (sig - 1) in
  flag (flags t) PF_PTRACED ||
  negb (((sa_handler sa =? SIG_IGN) && negb (sig =? SIGCHLD)) ||
        ((sa_handler sa =? SIG_DFL) &&
          ((sig =? SIGCONT) || (sig =? SIGCHLD) || (sig =? SIGWINCH)))).

(** The whole effect of a permitted signal on its target. *)
Definition deliver (sig : Z) (t : task_struct) : task_struct :=
  if sig =? 0 then t else
  let t := sig_side_effects sig t in
  if generates sig t then t <| signal ::= fun m => Z.lor m (sigmask sig) |> else t.

(** The fields that decide who may signal whom, who is in which group and
    what happens to a signal; no signal changes them. *)
Definition identity_of (t : task_struct) :=
  (pid t, pgrp t, session t, leader t, (uid t, euid t, suid t),
   (p_pptr t, flags t, blocked t, sigactions t)).

Lemma sig_side_effects_identity sig t : identity_of (sig_side_effects sig t) = identity_of t.
Proof. unfold sig_side_effects. by repeat split_if. Qed.

Lemma deliver_identity sig t : identity_of (deliver sig t) = identity_of t.
Proof.
  unfold deliver. split_if; [done |]. rewrite <- (sig_side_effects_identity sig t).
  by split_if.
Qed.

Lemma may_signal_proper c c' p p' sig priv :
  identity_of c = identity_of c' -> identity_of p = identity_of p' ->
  may_signal c p sig priv = may_signal c' p' sig priv.
Proof. unfold may_signal, suser, identity_of. intros. by simplify_eq; congruence. Qed.

(** [send_sig] touches nothing but its target. *)
Lemma send_sig_deliver sig p priv s :
  u32 sig <= 32 -> may_signal (cur s) (tsk s p) sig priv = true ->
  exists s', send_sig sig (Some p) priv s = (0, s') /\
    (forall q, tsk s' q = if decide (p = q) then deliver sig (tsk s p) else tsk s q) /\
    same_frame s s'.
Proof.
  intros Hs Hm. unfold send_sig, deliver. destruct (Z.ltb_spec 32 (u32 sig)); [lia |].
  rewrite Hm. cbn. destruct (sig =? 0) eqn:E.
  { eexists; split; [done |]. split; [| by repeat split]. intros. by case_decide; subst. }
  unfold generate, generates. autorewrite with ktask.
  set (t' := sig_side_effects sig (tsk s p)).
  destruct (flag (flags t') PF_PTRACED); cbn;
    [| destruct (_ && _) eqn:?; [| destruct (_ && (_ || _ || _)) eqn:?]];
    eexists; (split; [done |]); (split; [| repeat split]); intros q;
    rewrite ?upd_tsk_comp, tsk_upd; case_decide; done.
Qed.

Lemma send_sig_refused sig p priv s :
  u32 sig <= 32 -> may_signal (cur s) (tsk s p) sig priv = false ->
  send_sig sig (Some p) priv s = (- EPERM, s).
Proof.
  intros Hs Hm. unfold send_sig. destruct (Z.ltb_spec 32 (u32 sig)); [lia |].
  by rewrite Hm.
Qed.

(** Whatever is sent, and whoever may send it, a signal leaves alone what its
    delivery leaves alone. *)
Lemma send_sig_keeps {A} (proj : task_struct -> A) sig p priv s :
  (forall t, proj (deliver sig t) = proj t) -> keeps proj s (send_sig sig p priv s).2.
Proof.
  intros H. destruct p as [p |]; [| apply keeps_refl].
  destruct (Z.ltb_spec 32 (u32 sig)) as [Hs | Hs].
  { unfold send_sig. destruct (Z.ltb_spec 32 (u32 sig)); [apply keeps_refl | lia]. }
  destruct (may_signal (cur s) (tsk s p) sig priv) eqn:Em.
  - destruct (send_sig_deliver sig p priv s Hs Em) as (s' & -> & Hq & F).
    by apply (keeps_updates proj p (deliver sig)).
  - rewrite send_sig_refused by done. apply keeps_refl.
Qed.

Lemma kill_loop_keeps {A} (proj : task_struct -> A) sel sig priv l ret found s :
  (forall t, proj (deliver sig t) = proj t) ->
  keeps proj s (kill_loop sel sig priv l ret found s).2.
Proof.
  intros H. revert ret found s. induction l as [| p l IH]; intros ret found s; cbn [kill_loop];
    [apply keeps_refl |].
  destruct (sel (tsk s p)); [| apply IH].
  pose proof (send_sig_keeps proj sig (Some p) priv s H) as H1.
  destruct (send_sig sig (Some p) priv s) as [err s1].
  destruct (negb (err =? 0)); by eapply keeps_trans.
Qed.

Lemma kill_pg_keeps {A} (proj : task_struct -> A) pg sig priv s :
  (forall t, proj (deliver sig t) = proj t) -> keeps proj s (kill_pg pg sig priv s).2.
Proof. intros. unfold kill_pg. split_if; [apply keeps_refl | by apply kill_loop_keeps]. Qed.

(** A set of tasks chosen by the identity fields only. *)
Definition identity_sel (sel : task_struct -> bool) : Prop :=
  forall t t', identity_of t = identity_of t' -> sel t = sel t'.

Section kill_loop.
Context (sel : task_struct -> bool) (Hsel : identity_sel sel).
Context (sig priv : Z) (Hsig : u32 sig <= 32).

(** The tasks that get the signal. *)
Definition gets (s : kstate) (q : tptr) : bool :=
  sel (tsk s q) && may_signal (cur s) (tsk s q) sig priv.

Lemma gets_proper s s' q :
  (forall q, identity_of (tsk s' q) = identity_of (tsk s q)) -> current s' = current s ->
  gets s' q = gets s q.
Proof using Hsel.
  intros Hid Hc. unfold gets. rewrite Hc. f_equal; [by apply Hsel |].
  by apply may_signal_proper.
Qed.

Lemma kill_loop_spec l ret found s :
  NoDup l -> 0 <= found ->
  exists s',
    kill_loop sel sig priv l ret found s
    = (if existsb (gets s) l || ctrue found then 0
       else if existsb (fun q => sel (tsk s q)) l then - EPERM else ret, s') /\
    (forall q, tsk s' q = if bool_decide (q ∈ l) && gets s q
                          then deliver sig (tsk s q) else tsk s q) /\
    task_list s' = task_list s /\ current s' = current s.
Proof using Hsel Hsig.
  revert ret found s. induction l as [| p l IH]; intros ret found s Hnd Hf.
  { eexists; split; [done | split_and!; done]. }
  apply NoDup_cons in Hnd as [Hp Hnd]. cbn [kill_loop existsb].
  unfold gets at 1. destruct (sel (tsk s p)) eqn:Esel; cbn [andb orb].
  2:{ destruct (IH ret found s Hnd Hf) as (s' & -> & Hq & Hl & Hc).
      eexists; split; [done |]. split_and!; [| done..]. intros q. rewrite Hq.
      destruct (decide (q = p)) as [-> | Hne].
      - replace (gets s p) with false by (unfold gets; by rewrite Esel).
        by rewrite !andb_false_r.
      - by rewrite bool_decide_elem_cons_ne. }
  destruct (may_signal (cur s) (tsk s p) sig priv) eqn:Em; cbn [andb orb].
  - destruct (send_sig_deliver sig p priv s Hsig Em) as (s1 & -> & H1 & Hl1 & _ & Hc1 & _).
    assert (forall q, identity_of (tsk s1 q) = identity_of (tsk s q)) as Hid.
    { intros q. rewrite H1. case_decide; [subst; apply deliver_identity | done]. }
    destruct (IH ret (found + 1) s1 Hnd ltac:(lia)) as (s' & E & Hq & Hl & Hc).
    exists s'. change (0 =? 0) with true. cbn [negb]. rewrite E.
    split_and!; [| | congruence | congruence].
    { f_equal. unfold ctrue. destruct (Z.eqb_spec (found + 1) 0); [lia |].
      by rewrite orb_true_r. }
    intros q. rewrite Hq, (gets_proper s s1) by done. rewrite H1.
    destruct (decide (p = q)) as [<- | Hne].
    + rewrite bool_decide_eq_false_2 by done. cbn.
      rewrite bool_decide_eq_true_2 by (by left). unfold gets. by rewrite Esel, Em.
    + by rewrite bool_decide_elem_cons_ne.
  - rewrite send_sig_refused by done. change (- EPERM =? 0) with false. cbn [negb].
    destruct (IH (- EPERM) found s Hnd Hf) as (s' & -> & Hq & Hl & Hc).
    exists s'. split_and!; [by repeat case_match | | done | done].
    intros q. rewrite Hq. destruct (decide (q = p)) as [-> | Hne].
    + replace (gets s p) with false by (unfold gets; by rewrite Em, andb_false_r).
      by rewrite !andb_false_r.
    + by rewrite bool_decide_elem_cons_ne.
Qed.
End kill_loop.

Lemma pgrp_sel pg : identity_sel (fun t => pgrp t =? pg).
Proof. unfold identity_sel, identity_of. intros. by simplify_eq; congruence. Qed.

(** C14: [kill_pg] does what it says.  For a signal from 0 to 32 and a positive
    group it returns 0 when it could signal some member, [-EPERM] when there
    are members but none may be signalled, and [-ESRCH] when there is no
    member; every member that may be signalled has received the signal, and
    no other task has changed. *)
Theorem kill_pg_spec pg sig priv s :
  NoDup (task_list s) -> 0 <= sig <= 32 -> 0 < pg ->
  let gets := gets (fun t => pgrp t =? pg) sig priv s in
  exists s',
    kill_pg pg sig priv s
    = (if existsb gets (task_list s) then 0
       else if existsb (fun p => pgrp (tsk s p) =? pg) (task_list s) then - EPERM
       else - ESRCH, s') /\
    (forall q, tsk s' q = if bool_decide (q ∈ task_list s) && gets q
                          then deliver sig (tsk s q) else tsk s q) /\
    task_list s' = task_list s /\ current s' = current s.
Proof.
  intros Hnd Hs Hpg gets. unfold kill_pg.
  destruct (Z.ltb_spec sig 0), (Z.ltb_spec 32 sig), (Z.leb_spec pg 0); try lia. cbn [orb].
  destruct (kill_loop_spec _ (pgrp_sel pg) sig priv
              ltac:(rewrite u32_small; lia) (task_list s) (- ESRCH) 0 s Hnd ltac:(lia))
    as (s' & E & H').
  exists s'. unfold for_each_task. rewrite E. change (ctrue 0) with false. by rewrite orb_false_r.
Qed.

(** The state of a small system: tasks 1 (init), 2 and 3 in group 2 with
    users 0 and 7, the current task 2 running as user 7. *)
Definition demo_task (p : Z) (g u : Z) : task_struct :=
  INIT_TASK <| pid := p |> <| pgrp := g |> <| session := g |> <| uid := u |>
    <| euid := u |> <| suid := u |>.
Definition demo_state : kstate :=
  mk_kstate (<[0%nat := INIT_TASK]> (<[1%nat := demo_task 1 1 0]>
    (<[2%nat := demo_task 2 2 7]> (<[3%nat := demo_task 3 2 0]> ∅))))
    [1; 2; 3]%nat (Some 0%nat :: Some 1%nat :: Some 2%nat :: Some 3%nat :: replicate 124 None)
    2%nat false 0 0 0xffffffff 0.

Lemma kill_pg_spec_witness :
  exists s', kill_pg 2 SIGTERM 0 demo_state = (0, s') /\
    pending SIGTERM (tsk s' 2%nat) = true /\ tsk s' 3%nat = tsk demo_state 3%nat.
Proof.
  destruct (kill_pg_spec 2 SIGTERM 0 demo_state) as (s' & E & Hq & _).
  - apply (bool_decide_eq_true_1 _). reflexivity.
  - unfold SIGTERM; lia.
  - lia.
  - exists s'. rewrite E, !Hq. vm_compute. repeat split.
Defined.

(** [SIGCONT] and the stop signals are never pending together. *)
Definition exclusive (t : task_struct) : Prop :=
  pending SIGCONT t = false \/ Z.land (signal t) stop_signals = 0.

Lemma land_lor_sigmask m sig mask :
  Z.land (sigmask sig) mask = 0 -> Z.land (Z.lor m (sigmask sig)) mask = Z.land m mask.
Proof. intros H. by rewrite Z.land_lor_distr_l, H, Z.lor_0_r. Qed.

Lemma land_clear m mask : Z.land (Z.land m (Z.lnot mask)) mask = 0.
Proof. by rewrite <- Z.land_assoc, (Z.land_comm (Z.lnot mask)), Z.land_lnot_diag, Z.land_0_r. Qed.

Lemma pending_cont_mask m : Z.land m (sigmask SIGCONT) = 0 -> Z.testbit m (SIGCONT - 1) = false.
Proof.
  intros H. rewrite land_zero_bits in H. specialize (H (SIGCONT - 1)).
  rewrite sigmask_spec, Z.eqb_refl, andb_true_r in H by (unfold SIGCONT; lia).
  apply H. unfold SIGCONT; lia.
Qed.

Lemma pending_other m sig n :
  1 <= sig -> sig <> n -> Z.testbit (Z.lor m (sigmask sig)) (n - 1) = Z.testbit m (n - 1).
Proof.
  intros. rewrite Z.lor_spec, sigmask_spec by lia.
  destruct (Z.eqb_spec (n - 1) (sig - 1)); [lia | apply orb_false_r].
Qed.

(** The mask of an ordinary signal is disjoint from the stop signals. *)
Lemma sigmask_not_stop sig :
  1 <= sig -> ~ (SIGSTOP <= sig <= SIGTTOU) -> Z.land (sigmask sig) stop_signals = 0.
Proof.
  unfold SIGSTOP, SIGTTOU. intros H1 H2. apply land_zero_bits. intros i Hi.
  unfold stop_signals. rewrite !Z.lor_spec, !sigmask_spec by
    (unfold SIGSTOP, SIGTSTP, SIGTTIN, SIGTTOU; lia).
  unfold SIGSTOP, SIGTSTP, SIGTTIN, SIGTTOU.
  destruct (Z.eqb_spec i (sig - 1)); [| done].
  repeat match goal with |- context [i =? ?x] => destruct (Z.eqb_spec i x); [lia |] end. done.
Qed.

Lemma side_effects_exclusive sig t :
  1 <= sig -> exclusive t ->
  let t' := sig_side_effects sig t in
  if sig =? SIGCONT then Z.land (signal t') stop_signals = 0
  else if (SIGSTOP <=? sig) && (sig <=? SIGTTOU) then pending SIGCONT t' = false
  else exclusive t'.
Proof.
  intros Hs Hex. unfold sig_side_effects, exclusive, pending in *.
  destruct (Z.eqb_spec sig SIGCONT) as [-> |]; [cbn -[Z.land]; apply land_clear |].
  destruct ((SIGSTOP <=? sig) && (sig <=? SIGTTOU)) eqn:Est.
  { split_if; cbn -[Z.land Z.testbit]; apply pending_cont_mask, land_clear. }
  split_if; [right; apply land_clear | done].
Qed.

Lemma deliver_exclusive sig t : 0 <= sig -> exclusive t -> exclusive (deliver sig t).
Proof.
  intros Hs Hex. unfold deliver. destruct (Z.eqb_spec sig 0); [done |].
  pose proof (side_effects_exclusive sig t ltac:(lia) Hex) as H. cbn zeta in H.
  set (t' := sig_side_effects sig t) in *.
  destruct (Z.eqb_spec sig SIGCONT) as [-> |].
  { right. split_if; [| done]. cbn -[Z.land]. by rewrite land_lor_sigmask. }
  destruct ((SIGSTOP <=? sig) && (sig <=? SIGTTOU)) eqn:Est.
  { left. split_if; [| done]. unfold pending in *; cbn -[Z.testbit].
    rewrite pending_other; [done | lia | done]. }
  split_if; [| done]. destruct H as [H | H]; [left | right]; unfold pending; cbn -[Z.land Z.testbit].
  - rewrite pending_other; [done | lia | done].
  - rewrite land_lor_sigmask; [done |]. apply sigmask_not_stop; [lia |].
    apply andb_false_iff in Est. destruct Est; bool_simp; lia.
Qed.

(** C15: Job control signals cancel each other.  Whoever sends whatever signal
    to whatever task, no task ever has [SIGCONT] pending together with a stop
    signal, if that held before. *)
Theorem send_sig_exclusive sig p priv s q :
  0 <= sig <= 32 -> exclusive (tsk s q) ->
  exclusive (tsk (send_sig sig (Some p) priv s).2 q).
Proof.
  intros Hs Hex. assert (u32 sig <= 32) by (rewrite u32_small; lia).
  destruct (may_signal (cur s) (tsk s p) sig priv) eqn:Em.
  - destruct (send_sig_deliver sig p priv s) as (s' & -> & Hq & _); [done | done |].
    cbn. rewrite Hq. case_decide; [subst; apply deliver_exclusive; [lia | done] | done].
  - by rewrite send_sig_refused.
Qed.

Lemma send_sig_exclusive_witness :
  exclusive (tsk (send_sig SIGTSTP (Some 2%nat) 0
                   (send_sig SIGCONT (Some 2%nat) 0 demo_state).2).2 2%nat).
Proof.
  apply send_sig_exclusive; [cbv; split; discriminate |].
  right. reflexivity.
Defined.

(** ** Orphaned process groups *)

(** POSIX 2.2.2.52: a group is orphaned when the parent of every member is
    itself a member or is not a member of the group's session.  Zombies do
    not count, and init (pid 1) counts as no parent. *)
Definition orphaned (pg : Z) (s : kstate) : Prop :=
  forall p, p ∈ task_list s -> pgrp (tsk s p) = pg -> state (tsk s p) <> TASK_ZOMBIE ->
  let t := tsk s p in let parent := tsk s (p_pptr t) in
  pid parent <> 1 -> pgrp parent = pg \/ session parent <> session t.

