(* ===== verification/Clock.v ===== *)
(** The system clock: [kernel_mktime] (kernel/mktime.c), the time of day
    system calls (kernel/time.c) and the clock discipline of the timer
    interrupt (kernel/sched.c, [second_overflow] and the first half of
    [do_timer]). *)

From S2P Require Import Prelude Errno Task.

(** ** Calendar time *)

(** include/linux/mktime.h:4-11 [struct mktime]: [mon] from 0, [year] since
    1900 *)
Record mktime := mk_mktime {
  tm_sec : Z; tm_min : Z; tm_hour : Z; tm_day : Z; tm_mon : Z; tm_year : Z;
}.

(** kernel/mktime.c:20-23 the units *)
Definition MINUTE := 60.
Definition HOUR := 60 * MINUTE.
Definition DAY := 24 * HOUR.
Definition YEAR := 365 * DAY.

(** kernel/mktime.c:26-39 seconds before each month of a leap year *)
Definition month : list Z :=
  [0;
   DAY*(31);
   DAY*(31+29);
   DAY*(31+29+31);
   DAY*(31+29+31+30);
   DAY*(31+29+31+30+31);
   DAY*(31+29+31+30+31+30);
   DAY*(31+29+31+30+31+30+31);
   DAY*(31+29+31+30+31+30+31+31);
   DAY*(31+29+31+30+31+30+31+31+30);
   DAY*(31+29+31+30+31+30+31+31+30+31);
   DAY*(31+29+31+30+31+30+31+31+30+31+30)].

(** kernel/mktime.c:42-59 [kernel_mktime]; C's [/] and [%] truncate *)
Definition kernel_mktime (time : mktime) : Z :=
  let year := s32 (tm_year time - 70) in
  let res := s32 (YEAR * year + DAY * Z.quot (year + 1) 4) in
  let res := s32 (res + znth 0 month (tm_mon time)) in
  let res :=
    if (1 <? tm_mon time) && ctrue (Z.rem (year + 2) 4) then s32 (res - DAY) else res in
  let res := s32 (res + DAY * (tm_day time - 1)) in
  let res := s32 (res + HOUR * tm_hour time) in
  let res := s32 (res + MINUTE * tm_min time) in
  s32 (res + tm_sec time).

(** ** The clock variables *)

(** include/linux/timex.h:35-71 the parameters of the clock *)
Definition SHIFT_HZ := 7.
Definition SHIFT_KG := 8.
Definition SHIFT_KF := 20.
Definition MAXTC := 6.
Definition SHIFT_SCALE := 24.
Definition SHIFT_UPDATE := SHIFT_KG + MAXTC.
Definition FINEUSEC := Z.shiftl 1 SHIFT_SCALE.
Definition MAXSEC := 1200.
Definition CLOCK_TICK_RATE := 1193180.
Definition CLOCK_TICK_FACTOR := 20.
Definition LATCH := (CLOCK_TICK_RATE + HZ / 2) / HZ.
Definition FINETUNE :=
  Z.shiftl (Z.shiftl (LATCH * HZ - CLOCK_TICK_RATE) SHIFT_HZ
              * (1000000 / CLOCK_TICK_FACTOR) / (CLOCK_TICK_RATE / CLOCK_TICK_FACTOR))
           (SHIFT_SCALE - SHIFT_HZ) / HZ.

(** include/linux/timex.h:108-112 the clock status *)
Definition TIME_OK := 0.
Definition TIME_INS := 1.
Definition TIME_DEL := 2.
Definition TIME_OOP := 3.
Definition TIME_BAD := 4.

(** kernel/sched.c:40-61 the clock's variables, with [last_rtc_update] of
    [second_overflow], [sys_tz] and [firsttime] of kernel/time.c *)
Record clock := mk_clock {
  tick : Z; tickadj : Z;
  xtime_sec : Z; xtime_usec : Z;
  time_status : Z; time_offset : Z; time_constant : Z; time_tolerance : Z;
  time_precision : Z; time_maxerror : Z; time_esterror : Z;
  time_phase : Z; time_freq : Z; time_adj : Z; time_reftime : Z;
  time_adjust : Z; time_adjust_step : Z;
  last_rtc_update : Z;
  tz_minuteswest : Z; tz_dsttime : Z; firsttime : bool;
}.
#[export] Instance eta_clock : Eta clock := fun c =>
  mk_clock (tick c) (tickadj c) (xtime_sec c) (xtime_usec c)
    (time_status c) (time_offset c) (time_constant c) (time_tolerance c)
    (time_precision c) (time_maxerror c) (time_esterror c)
    (time_phase c) (time_freq c) (time_adj c) (time_reftime c)
    (time_adjust c) (time_adjust_step c) (last_rtc_update c)
    (tz_minuteswest c) (tz_dsttime c) (firsttime c).

(** kernel/sched.c:40-60 [xtime] and the initial values *)
Definition clock_init : clock :=
  mk_clock (1000000 / HZ) (500 / HZ) 0 0 TIME_BAD 0 0 100 1 0x70000000 0x70000000
    0 0 0 0 0 0 0 0 0 true.

(** ** The timer interrupt *)

(** kernel/sched.c:561-563 the error bound grows, up to a ceiling *)
Definition bump_maxerror (c : clock) : clock :=
  c <| time_maxerror :=
    if s32 (0x70000000 - time_maxerror c) <? time_tolerance c then 0x70000000
    else s32 (time_maxerror c + time_tolerance c) |>.

(** kernel/sched.c:565-580 the phase-lock loop *)
Definition run_pll (c : clock) : clock :=
  let sh := SHIFT_KG + time_constant c in
  let c :=
    if time_offset c <? 0 then
      let ltemp := s32 (Z.shiftr (s32 (- s32 (time_offset c + 1))) sh + 1) in
      let adj := s32 (Z.shiftl ltemp (SHIFT_SCALE - SHIFT_HZ - SHIFT_UPDATE)) in
      c <| time_offset ::= fun o => s32 (o + Z.shiftr (s32 (adj * HZ)) (SHIFT_SCALE - SHIFT_UPDATE)) |>
        <| time_adj := s32 (- adj) |>
    else if 0 <? time_offset c then
      let ltemp := s32 (Z.shiftr (s32 (time_offset c - 1)) sh + 1) in
      let adj := s32 (Z.shiftl ltemp (SHIFT_SCALE - SHIFT_HZ - SHIFT_UPDATE)) in
      c <| time_offset ::= fun o => s32 (o - Z.shiftr (s32 (adj * HZ)) (SHIFT_SCALE - SHIFT_UPDATE)) |>
        <| time_adj := adj |>
    else c <| time_adj := 0 |> in
  c <| time_adj ::= fun a =>
    s32 (a + (Z.shiftr (time_freq c) (SHIFT_KF + SHIFT_HZ - SHIFT_SCALE) + FINETUNE)) |>.

(** kernel/sched.c:582-605 leap seconds *)
Definition leap_second (c : clock) : clock :=
  if time_status c =? TIME_INS then
    if Z.rem (xtime_sec c) 86400 =? 0 then
      c <| xtime_sec ::= fun z => s32 (z - 1) |> <| time_status := TIME_OOP |>
    else c
  else if time_status c =? TIME_DEL then
    if Z.rem (xtime_sec c) 86400 =? 86399 then
      c <| xtime_sec ::= fun z => s32 (z + 1) |> <| time_status := TIME_OK |>
    else c
  else if time_status c =? TIME_OOP then c <| time_status := TIME_OK |>
  else c.

(** kernel/sched.c:554-609 [second_overflow]; [set_rtc] is the result of
    [set_rtc_mmss] on the CMOS clock *)
Definition second_overflow (set_rtc : Z -> Z) (c : clock) : clock :=
  let c := leap_second (run_pll (bump_maxerror c)) in
  if s32 (last_rtc_update c + 660) <? xtime_sec c then
    if set_rtc (xtime_sec c) =? 0 then c <| last_rtc_update := xtime_sec c |> else c
  else c.

(** kernel/sched.c:662-676 the phase and the microseconds of this tick *)
Definition advance_phase (c : clock) : clock :=
  let phase := s32 (time_phase c + time_adj c) in
  let base := tick c + time_adjust_step c in
  if phase <? - FINEUSEC then
    let ltemp := Z.shiftr (s32 (- phase)) SHIFT_SCALE in
    c <| time_phase := s32 (phase + Z.shiftl ltemp SHIFT_SCALE) |>
      <| xtime_usec ::= fun u => s32 (u + (base - ltemp)) |>
  else if FINEUSEC <? phase then
    let ltemp := Z.shiftr phase SHIFT_SCALE in
    c <| time_phase := s32 (phase - Z.shiftl ltemp SHIFT_SCALE) |>
      <| xtime_usec ::= fun u => s32 (u + (base + ltemp)) |>
  else c <| time_phase := phase |> <| xtime_usec ::= fun u => s32 (u + base) |>.

(** kernel/sched.c:678-700 the slew of [adjtime] for the next tick *)
Definition adjust_step (c : clock) : clock :=
  if ctrue (time_adjust c) then
    let step :=
      if tickadj c <? time_adjust c then tickadj c
      else if time_adjust c <? - tickadj c then - tickadj c
      else time_adjust c in
    c <| time_adjust_step := step |> <| time_adjust ::= fun a => s32 (a - step) |>
  else c <| time_adjust_step := 0 |>.

(** kernel/sched.c:662-707 the clock's part of [do_timer] *)
Definition clock_tick (set_rtc : Z -> Z) (c : clock) : clock :=
  let c := adjust_step (advance_phase c) in
  if 1000000 <=? xtime_usec c then
    second_overflow set_rtc
      (c <| xtime_usec ::= fun u => u - 1000000 |> <| xtime_sec ::= fun z => s32 (z + 1) |>)
  else c.

(** ** The CMOS clock *)

(** include/linux/mc146818rtc.h:27-101 registers, control bits, and the BCD
    conversions [BCD_TO_BIN] and [BIN_TO_BCD] *)
Definition RTC_SECONDS := 0.
Definition RTC_MINUTES := 2.
Definition RTC_HOURS := 4.
Definition RTC_DAY_OF_MONTH := 7.
Definition RTC_MONTH := 8.
Definition RTC_YEAR := 9.
Definition RTC_FREQ_SELECT := 10.
Definition RTC_CONTROL := 11.
Definition RTC_SET := 0x80.
Definition RTC_DIV_RESET2 := 0x70.
Definition BCD_TO_BIN (val : Z) : Z := Z.land val 15 + Z.shiftr val 4 * 10.
Definition BIN_TO_BCD (val : Z) : Z := Z.shiftl (Z.quot val 10) 4 + Z.rem val 10.

(** kernel/time.c:55-75 [time_init], from the registers it settled on; the
    values are BCD ([RTC_ALWAYS_BCD] is 1) *)
Definition time_init (cmos : Z -> Z) (c : clock) : clock :=
  let time := mk_mktime (BCD_TO_BIN (cmos RTC_SECONDS)) (BCD_TO_BIN (cmos RTC_MINUTES))
                (BCD_TO_BIN (cmos RTC_HOURS)) (BCD_TO_BIN (cmos RTC_DAY_OF_MONTH))
                (BCD_TO_BIN (cmos RTC_MONTH) - 1) (BCD_TO_BIN (cmos RTC_YEAR)) in
  c <| xtime_sec := kernel_mktime time |>.

(** kernel/time.c:406-445 [set_rtc_mmss]: the result and the writes
    [(value, register)] in order *)
Definition set_rtc_mmss (cmos : Z -> Z) (nowtime : Z) : Z * list (Z * Z) :=
  let real_seconds := u32 nowtime mod 60 in
  let real_minutes := (u32 nowtime / 60) mod 60 in
  let save_control := cmos RTC_CONTROL in
  let save_freq_select := cmos RTC_FREQ_SELECT in
  let cmos_minutes := u8 (BCD_TO_BIN (cmos RTC_MINUTES)) in
  let start := [(Z.lor save_control RTC_SET, RTC_CONTROL);
                (Z.lor save_freq_select RTC_DIV_RESET2, RTC_FREQ_SELECT)] in
  let finish := [(save_freq_select, RTC_FREQ_SELECT); (save_control, RTC_CONTROL)] in
  if (if cmos_minutes <? real_minutes then real_minutes - cmos_minutes
      else cmos_minutes - real_minutes) <? 30
  then (0, start ++ [(BIN_TO_BCD real_seconds, RTC_SECONDS);
                     (BIN_TO_BCD real_minutes, RTC_MINUTES)] ++ finish)
  else (-1, start ++ finish).

(** ** The time of day system calls

    [va] is the result of [verify_area] for a user pointer. *)

(** kernel/time.c:83-95 [sys_time]: the result and the value stored *)
Definition sys_time (tloc : bool) (va : Z) (c : clock) : Z * option Z :=
  let i := xtime_sec c in
  if tloc then if ctrue va then (va, None) else (i, Some i) else (i, None).

(** kernel/time.c:105-107 the discipline is switched off when the time is set
    by hand *)
Definition time_is_bad (c : clock) : clock :=
  c <| time_status := TIME_BAD |> <| time_maxerror := 0x70000000 |>
    <| time_esterror := 0x70000000 |>.

(** kernel/time.c:98-110 [sys_stime] *)
Definition sys_stime (su : bool) (t : Z) (c : clock) : Z * clock :=
  if negb su then (- EPERM, c)
  else (0, time_is_bad (c <| xtime_sec := s32 t |> <| xtime_usec := 0 |>)).

(** kernel/time.c:146-165 [do_gettimeoffset], from the latched [count] of the
    timer chip and whether its interrupt is pending *)
Definition do_gettimeoffset (count : Z) (irq_pending : bool) (c : clock) : Z :=
  let offset :=
    if LATCH - Z.quot LATCH 100 <? count then if irq_pending then tick c else 0 else 0 in
  let count := s32 ((LATCH - 1 - count) * tick c) in
  let count := Z.quot (s32 (count + Z.quot LATCH 2)) LATCH in
  u32 (offset + count).

(** kernel/time.c:170-186 [do_gettimeofday] (i386) *)
Definition do_gettimeofday (offset : Z) (c : clock) : Z * Z :=
  let usec := s32 (xtime_usec c + offset) in
  if 1000000 <=? usec then (s32 (xtime_sec c + 1), usec - 1000000)
  else (xtime_sec c, usec).

(** kernel/time.c:188-209 [sys_gettimeofday]: the result, and what was stored
    at [tv] and at [tz] *)
Definition sys_gettimeofday (tv : bool) (va_tv : Z) (tz : bool) (va_tz : Z) (offset : Z)
    (c : clock) : Z * option (Z * Z) * option (Z * Z) :=
  if tv && ctrue va_tv then (va_tv, None, None) else
  let ktv := if tv then Some (do_gettimeofday offset c) else None in
  if tz && ctrue va_tz then (va_tz, ktv, None)
  else (0, ktv, if tz then Some (tz_minuteswest c, tz_dsttime c) else None).

(** kernel/time.c:227-232 [warp_clock] *)
Definition warp_clock (c : clock) : clock :=
  c <| xtime_sec ::= fun z => s32 (z + s32 (tz_minuteswest c * 60)) |>.

(** kernel/time.c:243-286 [sys_settimeofday] *)
Definition sys_settimeofday (su : bool) (tv tz : option (Z * Z)) (offset : Z) (c : clock) :
    Z * clock :=
  if negb su then (- EPERM, c) else
  let c :=
    match tz with
    | Some (west, dst) =>
        let c := c <| tz_minuteswest := west |> <| tz_dsttime := dst |> in
        if firsttime c then
          let c := c <| firsttime := false |> in
          match tv with None => warp_clock c | Some _ => c end
        else c
    | None => c
    end in
  match tv with
  | None => (0, c)
  | Some (sec, usec) =>
      let usec := s32 (usec - offset) in
      let '(sec, usec) := if usec <? 0 then (s32 (sec - 1), s32 (usec + 1000000)) else (sec, usec) in
      (0, time_is_bad (c <| xtime_sec := sec |> <| xtime_usec := usec |>))
  end.

(** include/linux/timex.h:96-103 the mode bits of [adjtimex] *)
Definition ADJ_OFFSET := 0x0001.
Definition ADJ_FREQUENCY := 0x0002.
Definition ADJ_MAXERROR := 0x0004.
Definition ADJ_ESTERROR := 0x0008.
Definition ADJ_STATUS := 0x0010.
Definition ADJ_TIMECONST := 0x0020.
Definition ADJ_TICK := 0x4000.
Definition ADJ_OFFSET_SINGLESHOT := 0x8001.

(** include/linux/timex.h:77-91 [struct timex] *)
Record timex := mk_timex {
  tx_mode : Z; tx_offset : Z; tx_frequency : Z; tx_maxerror : Z; tx_esterror : Z;
  tx_status : Z; tx_time_constant : Z; tx_precision : Z; tx_tolerance : Z;
  tx_time : Z * Z; tx_tick : Z;
}.

(** kernel/time.c:363-384 a phase offset given to the discipline *)
Definition set_offset (offset : Z) (c : clock) : clock :=
  let mtemp := s32 (xtime_sec c - time_reftime c) in
  let mtemp := if (MAXSEC + 2 <? mtemp) || (mtemp <? 0) then 0 else mtemp in
  let sh := time_constant c + time_constant c in
  let freq :=
    if offset <? 0 then s32 (time_freq c - Z.shiftr (s32 (- offset * mtemp)) sh)
    else s32 (time_freq c + Z.shiftr (s32 (offset * mtemp)) sh) in
  let ltemp := s32 (Z.shiftl (time_tolerance c) SHIFT_KF) in
  let freq := if ltemp <? freq then ltemp else if freq <? - ltemp then - ltemp else freq in
  c <| time_offset := s32 (Z.shiftl offset SHIFT_UPDATE) |>
    <| time_reftime := xtime_sec c |> <| time_freq := freq |>.

(** kernel/time.c:337-388 the parameters are processed *)
Definition adjtimex_set (t : timex) (c : clock) : clock :=
  let m := tx_mode t in
  if ctrue m then
    let c := if time_status c =? TIME_BAD then c <| time_status := TIME_OK |> else c in
    let c := if flag m ADJ_STATUS then c <| time_status := tx_status t |> else c in
    let c := if flag m ADJ_FREQUENCY
             then c <| time_freq := s32 (Z.shiftl (tx_frequency t) (SHIFT_KF - 16)) |> else c in
    let c := if flag m ADJ_MAXERROR then c <| time_maxerror := tx_maxerror t |> else c in
    let c := if flag m ADJ_ESTERROR then c <| time_esterror := tx_esterror t |> else c in
    let c := if flag m ADJ_TIMECONST then c <| time_constant := tx_time_constant t |> else c in
    let c :=
      if flag m ADJ_OFFSET then
        if m =? ADJ_OFFSET_SINGLESHOT then c <| time_adjust := tx_offset t |>
        else set_offset (tx_offset t) c
      else c in
    if flag m ADJ_TICK then c <| tick := tx_tick t |> else c
  else c.

(** kernel/time.c:291-404 [sys_adjtimex]: the result, the structure stored
    back, and the clock *)
Definition sys_adjtimex (va : Z) (su : bool) (t : timex) (c : clock) :
    Z * option timex * clock :=
  if ctrue va then (va, None, c)
  else if ctrue (tx_mode t) && negb su then (- EPERM, None, c)
  else if flag (tx_mode t) ADJ_OFFSET &&
          ((tx_offset t <=? - Z.shiftl 1 (31 - SHIFT_UPDATE)) ||
           (Z.shiftl 1 (31 - SHIFT_UPDATE) <=? tx_offset t)) then (- EINVAL, None, c)
  else if flag (tx_mode t) ADJ_STATUS &&
          ((tx_status t <? TIME_OK) || (TIME_BAD <? tx_status t)) then (- EINVAL, None, c)
  else if flag (tx_mode t) ADJ_TICK &&
          ((tx_tick t <? 900000 / HZ) || (1100000 / HZ <? tx_tick t)) then (- EINVAL, None, c)
  else
    let save_adjust := time_adjust c in
    let c := adjtimex_set t c in
    let out := mk_timex (tx_mode t) save_adjust
                 (Z.shiftr (s32 (time_freq c + 1)) (SHIFT_KF - 16))
                 (time_maxerror c) (time_esterror c) (time_status c) (time_constant c)
                 (time_precision c) (time_tolerance c) (xtime_sec c, xtime_usec c) (tick c) in
    (time_status c, Some out, c).

(** ** Properties: calendar time *)

(** The Gregorian calendar. *)
Definition is_leap (y : Z) : bool :=
  (y mod 4 =? 0) && (negb (y mod 100 =? 0) || (y mod 400 =? 0)).
Definition year_days (y : Z) : Z := if is_leap y then 366 else 365.
Definition month_days (y m : Z) : Z :=
  znth 0 [31; if is_leap y then 29 else 28; 31; 30; 31; 30; 31; 31; 30; 31; 30; 31] m.

(** Days before year [1970 + n], and before month [n] of year [y]. *)
Fixpoint days_before_year (n : nat) : Z :=
  match n with O => 0 | S k => days_before_year k + year_days (1970 + Z.of_nat k) end.
Fixpoint days_before_month (y : Z) (n : nat) : Z :=
  match n with O => 0 | S k => days_before_month y k + month_days y (Z.of_nat k) end.

(** Seconds since 1970-01-01 00:00:00. *)
Definition calendar_seconds (t : mktime) : Z :=
  DAY * (days_before_year (Z.to_nat (tm_year t - 70))
         + days_before_month (1900 + tm_year t) (Z.to_nat (tm_mon t)) + (tm_day t - 1))
  + HOUR * tm_hour t + MINUTE * tm_min t + tm_sec t.

(** The days [kernel_mktime] counts up to the start of a month. *)
Definition mktime_days (year mon : Z) : Z :=
  365 * year + Z.quot (year + 1) 4 + znth 0 month mon / DAY
  - (if (1 <? mon) && ctrue (Z.rem (year + 2) 4) then 1 else 0).

Lemma mktime_days_calendar year mon :
  0 <= year < 130 -> 0 <= mon < 12 ->
  mktime_days year mon
  = days_before_year (Z.to_nat year) + days_before_month (1970 + year) (Z.to_nat mon).
Proof.
  intros Hy Hm.
  assert (forallb (fun y => forallb (fun m =>
    mktime_days y m =? days_before_year (Z.to_nat y)
      + days_before_month (1970 + y) (Z.to_nat m)) (seqZ 0 12)) (seqZ 0 130) = true) as H
    by (vm_compute; reflexivity).
  apply (forallb_seqZ _ _ _ year) in H; [| lia].
  apply (forallb_seqZ _ _ _ mon) in H; [| lia]. by apply Z.eqb_eq.
Qed.

Lemma month_day mon : 0 <= mon < 12 -> znth 0 month mon = DAY * (znth 0 month mon / DAY).
Proof.
  intros Hm. apply Z.eqb_eq.
  by apply (forallb_seqZ (fun m => znth 0 month m =? DAY * (znth 0 month m / DAY)) 0 12).
Qed.

(** C17: [kernel_mktime] is the Gregorian calendar.  From 1970 to 2099, for any
    month and any day, hour, minute and second, it computes the seconds since
    the epoch that counting years and months with their real lengths gives
    (modulo the 32-bit [long] that holds them). *)
Theorem kernel_mktime_calendar t :
  70 <= tm_year t < 200 -> 0 <= tm_mon t < 12 ->
  kernel_mktime t = s32 (calendar_seconds t).
Proof.
  intros Hy Hm. unfold kernel_mktime, calendar_seconds.
  rewrite (s32_small (tm_year t - 70)) by lia.
  pose proof (mktime_days_calendar (tm_year t - 70) (tm_mon t) ltac:(lia) Hm) as Hd.
  replace (1970 + (tm_year t - 70)) with (1900 + tm_year t) in Hd by lia.
  rewrite <- Hd. clear Hd. unfold mktime_days.
  pose proof (month_day (tm_mon t) Hm) as Hmd.
  set (d := znth 0 month (tm_mon t) / DAY) in *. set (z := znth 0 month (tm_mon t)) in *.
  destruct (_ && _); s32_flatten; f_equal;
    unfold YEAR, DAY, HOUR, MINUTE in *; lia.
Qed.

Lemma kernel_mktime_calendar_witness :
  kernel_mktime (mk_mktime 0 30 12 29 1 100) = 951827400.
Proof.
  rewrite (kernel_mktime_calendar (mk_mktime 0 30 12 29 1 100)); [reflexivity | cbn; lia | cbn; lia].
Defined.

(** The instant of a wall clock in UTC is exact while it fits 31 bits. *)
Lemma kernel_mktime_exact t :
  70 <= tm_year t < 200 -> 0 <= tm_mon t < 12 ->
  -2147483648 <= calendar_seconds t < 2147483648 -> kernel_mktime t = calendar_seconds t.
Proof. intros. by rewrite kernel_mktime_calendar, s32_small. Qed.

(** ** Properties: setting and slewing the clock *)

(** Setting the time of day is undone by reading it: after
    [settimeofday], [gettimeofday] at the same point inside the tick (the
    same chip offset) gives back exactly the seconds and microseconds that
    were set. *)
Theorem settimeofday_gettimeofday sec usec tz offset c :
  -2147483647 <= sec < 2147483647 -> 0 <= usec < 1000000 -> 0 <= offset <= 1000000 ->
  let '(r, c') := sys_settimeofday true (Some (sec, usec)) tz offset c in
  r = 0 /\ do_gettimeofday offset c' = (sec, usec) /\ time_status c' = TIME_BAD.
Proof.
  intros Hsec Husec Hoff. unfold sys_settimeofday. cbn [negb].
  set (c1 := match tz with Some _ => _ | None => _ end). clearbody c1.
  rewrite (s32_small (usec - offset)) by lia.
  unfold do_gettimeofday. destruct (Z.ltb_spec (usec - offset) 0); cbn -[swrap Z.leb];
    split_and!; try done; unwrap.
  - destruct (Z.leb_spec 1000000 (usec - offset + 1000000 + offset)); [| lia].
    f_equal; lia.
  - destruct (Z.leb_spec 1000000 (usec - offset + offset)); [lia | f_equal; lia].
Qed.

Lemma settimeofday_gettimeofday_witness :
  do_gettimeofday 9000 (sys_settimeofday true (Some (764424000, 4000)) None 9000 clock_init).2
  = (764424000, 4000).
Proof.
  destruct (settimeofday_gettimeofday 764424000 4000 None 9000 clock_init) as (_ & H & _);
    [lia | lia | lia | exact H].
Defined.

(** What a stage of the timer interrupt leaves alone: the variables of
    [adjtime], and for the second's overflow the microseconds. *)
Definition clock_frame (c : clock) := (tickadj c, time_adjust c, time_adjust_step c).

Lemma second_overflow_frame set_rtc c :
  let c' := second_overflow set_rtc c in
  (clock_frame c', xtime_usec c') = (clock_frame c, xtime_usec c).
Proof.
  cbv zeta. unfold second_overflow.
  transitivity (let d := leap_second (run_pll (bump_maxerror c)) in (clock_frame d, xtime_usec d)).
  { set (d := leap_second _). clearbody d. by repeat split_if. }
  transitivity (let d := run_pll (bump_maxerror c) in (clock_frame d, xtime_usec d)).
  { set (d := run_pll _). clearbody d. unfold leap_second. by repeat split_if. }
  transitivity (let d := bump_maxerror c in (clock_frame d, xtime_usec d)); [| done].
  set (d := bump_maxerror _). clearbody d. unfold run_pll. by repeat split_if.
Qed.

Lemma second_overflow_usec set_rtc c : xtime_usec (second_overflow set_rtc c) = xtime_usec c.
Proof. exact (f_equal snd (second_overflow_frame set_rtc c)). Qed.

Lemma advance_phase_frame c : clock_frame (advance_phase c) = clock_frame c.
Proof. unfold advance_phase. by repeat split_if. Qed.

(** A tick with its corrections moves the microseconds by at most 128 more or
    less than [tick + time_adjust_step]. *)
Lemma advance_phase_usec c :
  0 <= xtime_usec c < 1000000 -> 128 <= tick c + time_adjust_step c <= 999871 ->
  0 <= xtime_usec (advance_phase c) - xtime_usec c < 1000000.
Proof.
  intros Hu Hb. unfold advance_phase. cbv zeta.
  pose proof (s32_bounds (time_phase c + time_adj c)) as Hp.
  set (phase := s32 (time_phase c + time_adj c)) in *.
  pose proof (s32_bounds (- phase)) as Hm.
  assert (forall x, - 2 ^ 31 <= x < 2 ^ 31 -> -128 <= Z.shiftr x SHIFT_SCALE <= 127) as Hs.
  { intros x Hx. rewrite Z.shiftr_div_pow2 by done. change (2 ^ SHIFT_SCALE) with 16777216.
    Z.to_euclidean_division_equations. lia. }
  pose proof (Hs _ Hm). pose proof (Hs _ Hp).
  set (m := s32 (- phase)) in *. clearbody m phase.
  repeat split_if; cbn -[swrap Z.shiftr]; unwrap; lia.
Qed.

Section slew.
Context (set_rtc : Z -> Z).

(** [n] timer interrupts, and what their steps add up to. *)
Fixpoint ticks (n : nat) (c : clock) : clock :=
  match n with O => c | S n => ticks n (clock_tick set_rtc c) end.
Fixpoint slewed (n : nat) (c : clock) : Z :=
  match n with
  | O => 0
  | S n => time_adjust_step (clock_tick set_rtc c) + slewed n (clock_tick set_rtc c)
  end.

Lemma second_overflow_slew c : clock_frame (second_overflow set_rtc c) = clock_frame c.
Proof using Type.
  pose proof (second_overflow_frame set_rtc c) as H. congruence.
Qed.

Lemma clock_tick_slew c : clock_frame (clock_tick set_rtc c) = clock_frame (adjust_step c).
Proof using Type.
  unfold clock_tick. set (c1 := adjust_step (advance_phase c)).
  assert (clock_frame c1 = clock_frame (adjust_step c)) as <-.
  { subst c1. pose proof (advance_phase_frame c) as H. unfold clock_frame in H.
    injection H as E1 E2 E3. unfold adjust_step, clock_frame. rewrite E1, E2.
    repeat split_if; cbn; congruence. }
  split_if; [by rewrite second_overflow_slew | done].
Qed.

Lemma adjust_step_spec c :
  0 < tickadj c < 2 ^ 31 -> - 2 ^ 31 < time_adjust c < 2 ^ 31 ->
  let c' := adjust_step c in
  tickadj c' = tickadj c /\
  Z.abs (time_adjust_step c') <= tickadj c /\
  time_adjust c' + time_adjust_step c' = time_adjust c /\
  Z.abs (time_adjust c') = Z.max 0 (Z.abs (time_adjust c) - tickadj c).
Proof using Type.
  intros Ht Ha. unfold adjust_step, ctrue.
  destruct (Z.eqb_spec (time_adjust c) 0); [cbn; lia |].
  cbn [negb]. repeat (split_if; bool_simp); cbn -[swrap]; unwrap; lia.
Qed.

End slew.


(** C19: The clock stays normalised: when the microseconds are below a second
    and the tick with the pending [adjtime] step lies between 128 and 999871
    microseconds (it is about 10000), the microseconds are again below a second
    after the interrupt, whatever the phase, the frequency and the leap second
    state are. *)
Theorem clock_tick_normalised set_rtc c :
  0 <= xtime_usec c < 1000000 -> 128 <= tick c + time_adjust_step c <= 999871 ->
  0 <= xtime_usec (clock_tick set_rtc c) < 1000000.
Proof.
  intros H1 H2. pose proof (advance_phase_usec c H1 H2) as H3. unfold clock_tick.
  assert (xtime_usec (adjust_step (advance_phase c)) = xtime_usec (advance_phase c)) as E.
  { unfold adjust_step. by repeat split_if. }
  set (c1 := adjust_step (advance_phase c)) in *.
  destruct (Z.leb_spec 1000000 (xtime_usec c1)); [| lia].
  rewrite second_overflow_usec. clearbody c1. cbn. lia.
Qed.

Lemma clock_tick_normalised_witness :
  0 <= xtime_usec (clock_tick (fun _ => 0) (clock_init <| xtime_usec := 995000 |>)) < 1000000.
Proof. apply clock_tick_normalised; vm_compute; split; congruence. Defined.
