(* ===== verification/Sched.v ===== *)
(** The scheduler (kernel/sched.c): choosing a task, waking and sleeping, the
    charge of a timer tick, and the kernel semaphores of
    include/linux/sched.h. *)

From S2P Require Import Prelude Errno Task Signal.

(** ** [schedule] *)

(** kernel/sched.c:252-254 the reload of a periodic real timer: at least one
    interval is added, and then as many as lie in the past *)
Fixpoint reload_itimer (fuel : nat) (v incr ticks : Z) : Z :=
  match fuel with
  | O => v
  | S fuel =>
      let v := u32 (v + incr) in
      if v <=? ticks then reload_itimer fuel v incr ticks else v
  end.

(** kernel/sched.c:242-260 the real timer of a task, [ticks] after the last
    pass *)
Definition alarm_pass (ticks : Z) (p : tptr) (s : kstate) : kstate :=
  let t := tsk s p in
  if ctrue ticks && ctrue (it_real_value t) then
    let '(s, v) :=
      if it_real_value t <=? ticks then
        ((send_sig SIGALRM (Some p) 1 s).2,
         if ctrue (it_real_incr t)
         then Some (reload_itimer (S (Z.to_nat ticks)) (it_real_value t) (it_real_incr t) ticks)
         else None)
      else (s, Some (it_real_value t)) in
    match v with
    | None => upd_tsk p (fun t => t <| it_real_value := 0 |>) s
    | Some v =>
        let v := u32 (v - ticks) in
        let s := upd_tsk p (fun t => t <| it_real_value := v |>) s in
        if v <? itimer_next s then s <| itimer_next := v |> else s
    end
  else s.

(** kernel/sched.c:265-279 a sleeper with a signal or an expired timeout is
    made runnable *)
Definition wake_pass (p : tptr) (s : kstate) : kstate :=
  let t := tsk s p in
  if negb (state t =? TASK_INTERRUPTIBLE) then s
  else if signal_pending t then upd_tsk p (fun t => t <| state := TASK_RUNNING |>) s
  else if ctrue (timeout t) && (timeout t <=? jiffies s) then
    upd_tsk p (fun t => t <| timeout := 0 |> <| state := TASK_RUNNING |>) s
  else s.

(** kernel/sched.c:238-280 the first loop *)
Definition scan (ticks : Z) (l : list tptr) (s : kstate) : kstate :=
  foldl (fun s p => wake_pass p (alarm_pass ticks p s)) s l.

(** kernel/sched.c:227-233 the timer ticks are taken over *)
Definition schedule_start (s : kstate) : kstate :=
  s <| itimer_ticks := 0 |> <| itimer_next := 0xffffffff |> <| need_resched := false |>.

(** kernel/sched.c:294-304 the choice: [next] and [c] *)
Definition better (s : kstate) (b : tptr * Z) (p : tptr) : tptr * Z :=
  if (state (tsk s p) =? TASK_RUNNING) && (b.2 <? counter (tsk s p))
  then (p, counter (tsk s p)) else b.
Definition pick (s : kstate) : tptr * Z := foldl (better s) (init_task, -1) (for_each_task s).

(** kernel/sched.c:308-309 new time slices *)
Definition recharge_task (t : task_struct) : task_struct :=
  t <| counter := s32 (Z.shiftr (counter t) 1 + priority t) |>.
Definition recharge (s : kstate) : kstate :=
  foldl (fun s p => upd_tsk p recharge_task s) s (for_each_task s).

(** kernel/sched.c:218-322 [schedule]: the state in which [next] resumes (a
    task's registers and debug registers are not part of the state) *)
Definition schedule (s : kstate) : kstate :=
  let s := scan (itimer_ticks s) (for_each_task s) (schedule_start s) in
  let '(next, c) := pick s in
  let s := if c =? 0 then recharge s else s in
  let s := if bool_decide (current s <> next)
           then s <| context_swtch ::= fun n => u32 (n + 1) |> else s in
  s <| current := next |>.

(** kernel/sched.c:738-741 the charge of a timer tick to the running task *)
Definition charge_tick (s : kstate) : kstate :=
  let idle := bool_decide (task_slot s 0 = Some (current s)) in
  let s := if idle then s
           else upd_tsk (current s) (fun t => t <| counter ::= fun c => s32 (c - 1) |>) s in
  if idle || (counter (cur s) <=? 0) then
    upd_tsk (current s) (fun t => t <| counter := 0 |>) s <| need_resched := true |>
  else s.

(** ** Waking and sleeping *)

(** kernel/sched.c:347-354 one entry of the queue in [wake_up]; [which] tells
    the states that are woken *)
Definition wake_one (which : Z -> bool) (s : kstate) (p : tptr) : kstate :=
  if which (state (tsk s p)) then
    let s := upd_tsk p (fun t => t <| state := TASK_RUNNING |>) s in
    if counter (cur s) <? counter (tsk s p) then s <| need_resched := true |> else s
  else s.

(** kernel/sched.c:339-364 [wake_up] *)
Definition wake_up (q : wait_queue) (s : kstate) : kstate :=
  foldl (wake_one (fun st => (st =? TASK_UNINTERRUPTIBLE) || (st =? TASK_INTERRUPTIBLE))) s q.

(** kernel/sched.c:366-394 [wake_up_interruptible] *)
Definition wake_up_interruptible (q : wait_queue) (s : kstate) : kstate :=
  foldl (wake_one (fun st => st =? TASK_INTERRUPTIBLE)) s q.

(** kernel/sched.c:417-425 [__sleep_on] up to the switch to another task;
    [None] is the panic of task 0 *)
Definition sleep_enter (q : wait_queue) (st : Z) (s : kstate) : option (wait_queue * kstate) :=
  if bool_decide (task_slot s 0 = Some (current s)) then None else
  let q := add_wait_queue q (current s) in
  Some (q, schedule (upd_tsk (current s) (fun t => t <| state := st |>) s)).

(** kernel/sched.c:426-426 [__sleep_on], once the sleeper runs again *)
Definition sleep_exit (q : wait_queue) (s : kstate) : wait_queue :=
  remove_wait_queue q (current s).

(** kernel/sched.c:430-433 [interruptible_sleep_on] *)
Definition interruptible_sleep_on (q : wait_queue) (s : kstate) := sleep_enter q TASK_INTERRUPTIBLE s.
(** kernel/sched.c:435-438 [sleep_on] *)
Definition sleep_on (q : wait_queue) (s : kstate) := sleep_enter q TASK_UNINTERRUPTIBLE s.

(** kernel/sched.c:324-329 [sys_pause]: the value is returned when the caller
    runs again *)
Definition sys_pause (s : kstate) : Z * kstate :=
  (- ERESTARTNOHAND,
   schedule (upd_tsk (current s) (fun t => t <| state := TASK_INTERRUPTIBLE |>) s)).

(** ** Priorities and identities *)

(** kernel/sched.c:817-830 [sys_nice] *)
Definition sys_nice (increment : Z) (s : kstate) : Z * kstate :=
  if (increment <? 0) && negb (suser (cur s)) then (- EPERM, s) else
  let newprio := s32 (priority (cur s) - increment) in
  let newprio := if newprio <? 1 then 1 else newprio in
  let newprio := if 35 <? newprio then 35 else newprio in
  (0, upd_tsk (current s) (fun t => t <| priority := newprio |>) s).

(** kernel/sched.c:786-789 [sys_getpid] *)
Definition sys_getpid (s : kstate) : Z := pid (cur s).
(** kernel/sched.c:791-794 [sys_getppid] *)
Definition sys_getppid (s : kstate) : Z := pid (tsk s (p_opptr (cur s))).
(** kernel/sched.c:796-799 [sys_getuid] *)
Definition sys_getuid (s : kstate) : Z := uid (cur s).
(** kernel/sched.c:801-804 [sys_geteuid] *)
Definition sys_geteuid (s : kstate) : Z := euid (cur s).
(** kernel/sched.c:806-809 [sys_getgid] *)
Definition sys_getgid (s : kstate) : Z := gid (cur s).
(** kernel/sched.c:811-814 [sys_getegid] *)
Definition sys_getegid (s : kstate) : Z := egid (cur s).

(** ** Kernel semaphores *)

(** include/linux/wait.h:14-17 [struct semaphore], with the tasks that wait in
    it *)
Record semaphore := mk_semaphore { count : Z; wait : wait_queue }.
#[export] Instance eta_semaphore : Eta semaphore := fun m => mk_semaphore (count m) (wait m).

(** include/linux/sched.h:581-586 [down] when it need not wait: [None] when
    [__down] is called *)
Definition down_try (m : semaphore) : option semaphore :=
  if count m <=? 0 then None else Some (m <| count ::= fun c => s32 (c - 1) |>).

(** kernel/sched.c:396-404 [__down] by [p] up to its first sleep *)
Definition down_sleep (p : tptr) (m : semaphore) (s : kstate) : semaphore * kstate :=
  (m <| wait ::= fun q => add_wait_queue q p |>,
   upd_tsk p (fun t => t <| state := TASK_UNINTERRUPTIBLE |>) s).

(** kernel/sched.c:403-409 [__down] when [p] runs again: it sleeps once more,
    or leaves the queue and [down] takes the semaphore ([true]) *)
Definition down_resume (p : tptr) (m : semaphore) (s : kstate) : bool * semaphore * kstate :=
  let s := upd_tsk p (fun t => t <| state := TASK_UNINTERRUPTIBLE |>) s in
  if count m <=? 0 then (false, m, s)
  else
    let s := upd_tsk p (fun t => t <| state := TASK_RUNNING |>) s in
    (true, m <| wait ::= fun q => remove_wait_queue q p |> <| count ::= fun c => s32 (c - 1) |>, s).

(** include/linux/sched.h:588-592 [up] *)
Definition up (m : semaphore) (s : kstate) : semaphore * kstate :=
  let m := m <| count ::= fun c => s32 (c + 1) |> in
  (m, wake_up (wait m) s).

(** ** Properties: the first loop *)

Lemma may_signal_priv c p sig : may_signal c p sig 1 = true.
Proof. reflexivity. Qed.

(** A signal the kernel sends itself updates exactly its target. *)
Lemma send_sig_priv sig p s :
  0 <= sig <= 32 -> updates p (deliver sig) s (send_sig sig (Some p) 1 s).2.
Proof.
  intros Hs. destruct (send_sig_deliver sig p 1 s) as (s' & -> & Hq & F); [| | by split].
  - rewrite u32_small; lia.
  - apply may_signal_priv.
Qed.

(** What the loop does to one task. *)
Definition alarm_task (ticks : Z) (t : task_struct) : task_struct :=
  if ctrue ticks && ctrue (it_real_value t) then
    if it_real_value t <=? ticks then
      let t' := deliver SIGALRM t in
      if ctrue (it_real_incr t) then
        t' <| it_real_value :=
          u32 (reload_itimer (S (Z.to_nat ticks)) (it_real_value t) (it_real_incr t) ticks - ticks) |>
      else t' <| it_real_value := 0 |>
    else t <| it_real_value := u32 (it_real_value t - ticks) |>
  else t.
Definition wake_task (now : Z) (t : task_struct) : task_struct :=
  if negb (state t =? TASK_INTERRUPTIBLE) then t
  else if signal_pending t then t <| state := TASK_RUNNING |>
  else if ctrue (timeout t) && (timeout t <=? now) then
    t <| timeout := 0 |> <| state := TASK_RUNNING |>
  else t.
Definition pass_task (ticks now : Z) (t : task_struct) : task_struct :=
  wake_task now (alarm_task ticks t).

Lemma updates_then p f g s s' :
  updates p f s s' -> updates p (fun t => g (f t)) s (upd_tsk p g s').
Proof. intros H. eapply updates_trans; [done | apply updates_upd]. Qed.

Lemma alarm_pass_updates ticks p s : updates p (alarm_task ticks) s (alarm_pass ticks p s).
Proof.
  unfold alarm_pass. set (t := tsk s p).
  destruct (ctrue ticks && ctrue (it_real_value t)) eqn:E1;
    [| apply updates_id; unfold alarm_task; fold t; by rewrite E1].
  destruct (it_real_value t <=? ticks) eqn:E2; [destruct (ctrue (it_real_incr t)) eqn:E3 |].
  all: cbn -[send_sig u32 Z.to_nat reload_itimer].
  all: repeat match goal with
       | |- updates _ _ _ (if ?b then upd _ _ ?s1 else _) =>
           apply (updates_vars _ _ _ s1); [| by destruct b | by destruct b; repeat split]
       | |- updates _ _ _ (if ?b then ?s2 else ?s1) =>
           apply (updates_vars _ _ _ s1); [| by destruct b | by destruct b; repeat split]
       end.
  all: eapply updates_ext; [apply updates_then; first [by apply send_sig_priv | by apply (updates_id p (fun t => t))] |].
  all: unfold alarm_task; fold t; rewrite E1, E2, ?E3; done.
Qed.

Lemma wake_pass_updates p s : updates p (wake_task (jiffies s)) s (wake_pass p s).
Proof.
  unfold wake_pass. set (t := tsk s p).
  destruct (negb _) eqn:E1; [| destruct (signal_pending t) eqn:E2; [| destruct (_ && _) eqn:E3]].
  1, 4: apply updates_id.
  3-4: eapply updates_ext; [apply updates_upd |].
  all: unfold wake_task; fold t; rewrite ?E1, ?E2, ?E3; done.
Qed.

Lemma scan_updates ticks l s :
  NoDup l -> updates_all l (pass_task ticks (jiffies s)) s (scan ticks l s).
Proof.
  intros Hnd. apply foldl_updates; [| done]. intros p s' (_ & _ & _ & Hj).
  apply (updates_trans p (alarm_task ticks) (wake_task (jiffies s)) _ (alarm_pass ticks p s'));
    [apply alarm_pass_updates |].
  pose proof (alarm_pass_updates ticks p s') as (_ & _ & _ & _ & Hj').
  rewrite <- Hj, <- Hj'. apply wake_pass_updates.
Qed.

(** The fields that the first loop leaves alone. *)
Lemma deliver_sched sig t : counter (deliver sig t) = counter t /\ priority (deliver sig t) = priority t.
Proof. unfold deliver, sig_side_effects. by repeat split_if. Qed.

Lemma pass_task_sched ticks now t :
  counter (pass_task ticks now t) = counter t /\ priority (pass_task ticks now t) = priority t.
Proof.
  unfold pass_task. set (t' := alarm_task ticks t).
  assert (counter t' = counter t /\ priority t' = priority t) as [<- <-].
  { subst t'. unfold alarm_task. repeat split_if; cbn -[deliver]; apply deliver_sched || done. }
  unfold wake_task. by repeat split_if.
Qed.

(** A task that runs keeps running, and no sleeper that can be woken is left. *)
Lemma deliver_running sig t : state t = TASK_RUNNING -> state (deliver sig t) = TASK_RUNNING.
Proof.
  intros H. unfold deliver, sig_side_effects.
  repeat split_if; cbn -[Z.land Z.lor]; try done; by rewrite H.
Qed.

Lemma pass_task_running ticks now t :
  state t = TASK_RUNNING -> state (pass_task ticks now t) = TASK_RUNNING.
Proof.
  intros H. unfold pass_task. set (t' := alarm_task ticks t).
  assert (state t' = TASK_RUNNING) as H'.
  { subst t'. unfold alarm_task. repeat split_if; cbn -[deliver]; by try apply deliver_running. }
  unfold wake_task. rewrite H'. done.
Qed.

(** An interruptible sleeper that is allowed to go on sleeping. *)
Definition may_sleep (now : Z) (t : task_struct) : Prop :=
  state t = TASK_INTERRUPTIBLE ->
  signal_pending t = false /\ (timeout t = 0 \/ now < timeout t).

Lemma pass_task_may_sleep ticks now t : may_sleep now (pass_task ticks now t).
Proof.
  unfold pass_task. set (t' := alarm_task ticks t). clearbody t'.
  unfold may_sleep, wake_task. intros H.
  destruct (Z.eqb_spec (state t') TASK_INTERRUPTIBLE); [| done]; cbn [negb] in *.
  destruct (signal_pending t') eqn:Es; [done |].
  destruct (ctrue (timeout t') && (timeout t' <=? now)) eqn:Et; [done |]. split; [done |].
  unfold ctrue in Et. destruct (Z.eqb_spec (timeout t') 0); [by left | right].
  cbn [negb andb] in Et. bool_simp. lia.
Qed.

(** ** Properties: the choice *)

Definition runnable (s : kstate) (p : tptr) : Prop := state (tsk s p) = TASK_RUNNING.

(** The fold over the tasks [l] starting from the choice [b]. *)
Lemma pick_spec s l b :
  let r := foldl (better s) b l in
  (r = b \/ r.1 ∈ l /\ runnable s r.1 /\ r.2 = counter (tsk s r.1)) /\
  b.2 <= r.2 /\ forall p, p ∈ l -> runnable s p -> counter (tsk s p) <= r.2.
Proof.
  cbv zeta. induction l as [| p l IH] using rev_ind.
  { cbn. split_and!; [by left | lia | set_solver]. }
  rewrite foldl_app; cbn [foldl]. set (r := foldl (better s) b l) in *.
  destruct IH as (Hr & Hb & Hmax). unfold better, runnable in *.
  destruct (Z.eqb_spec (state (tsk s p)) TASK_RUNNING) as [Hp | Hp],
    (Z.ltb_spec r.2 (counter (tsk s p))); cbn [andb fst snd];
    (split_and!; [set_solver +Hr Hp | lia |]);
    intros q [Hq | ->%list_elem_of_singleton]%elem_of_app Hrun;
    try specialize (Hmax q Hq Hrun); try lia; done.
Qed.

Lemma recharge_updates s :
  NoDup (task_list s) -> updates_all (task_list s) recharge_task s (recharge s).
Proof. intros Hnd. apply foldl_updates; [intros; apply updates_upd | done]. Qed.

(** The state after the first loop of [schedule]. *)
Definition scanned (s : kstate) (p : tptr) : task_struct :=
  pass_task (itimer_ticks s) (jiffies s) (tsk s p).

(** [schedule] is the first loop, the choice [r] and perhaps new time slices. *)
Lemma schedule_steps s :
  NoDup (task_list s) ->
  exists s1 r, updates_all (task_list s) (pass_task (itimer_ticks s) (jiffies s)) s s1 /\
    r = foldl (better s1) (init_task, -1) (task_list s) /\
    current (schedule s) = r.1 /\ task_list (schedule s) = task_list s /\
    jiffies (schedule s) = jiffies s /\ task (schedule s) = task s /\
    forall p, tsk (schedule s) p
      = if (r.2 =? 0) && bool_decide (p ∈ task_list s) then recharge_task (tsk s1 p) else tsk s1 p.
Proof.
  intros Hnd. unfold schedule. set (s0 := schedule_start s).
  pose proof (scan_updates (itimer_ticks s) (task_list s) s0 Hnd) as H1.
  change (for_each_task s) with (task_list s). set (s1 := scan _ _ _) in *.
  destruct H1 as [Hq (Hl & Ht & Hc & Hj)]. exists s1, (pick s1).
  assert (pick s1 = foldl (better s1) (init_task, -1) (task_list s)) as Ep.
  { unfold pick, for_each_task. by rewrite Hl. }
  destruct (pick s1) as [next c]. cbn [fst snd].
  set (s2 := if c =? 0 then recharge s1 else s1).
  assert (same_frame s1 s2 /\ forall p, tsk s2 p
    = if (c =? 0) && bool_decide (p ∈ task_list s) then recharge_task (tsk s1 p) else tsk s1 p)
    as [(Hl2 & Ht2 & Hc2 & Hj2) H2].
  { subst s2. destruct (c =? 0); [| by split].
    destruct (recharge_updates s1) as [H F]; [by rewrite Hl |]. split; [done |].
    intros p. rewrite H, Hl. cbn. by do 2 case_decide. }
  split_and!; [by split | done | by destruct (bool_decide _) | ..].
  1-3: destruct (bool_decide _); cbn; (etransitivity; [eassumption | assumption]).
  intros p. rewrite <- H2. by destruct (bool_decide (current s2 <> next)).
Qed.

(** C20: The scheduler chooses well.  After its first loop ([scanned]),
    [schedule] switches to [init_task] only when no task is runnable.
    Otherwise it switches to a runnable task whose counter is the largest
    among the runnable ones, and exactly when that largest counter is 0 every
    task, runnable or not, gets a new time slice. *)
Theorem schedule_picks s :
  NoDup (task_list s) -> (forall p, p ∈ task_list s -> 0 <= counter (tsk s p)) ->
  let s' := schedule s in let next := current s' in
  (next = init_task /\
   forall p, p ∈ task_list s -> state (scanned s p) <> TASK_RUNNING /\ tsk s' p = scanned s p) \/
  (next ∈ task_list s /\ state (scanned s next) = TASK_RUNNING /\
   (forall p, p ∈ task_list s -> state (scanned s p) = TASK_RUNNING ->
              counter (tsk s p) <= counter (tsk s next)) /\
   forall p, p ∈ task_list s ->
     tsk s' p = if counter (tsk s next) =? 0 then recharge_task (scanned s p) else scanned s p).
Proof.
  intros Hnd Hpos. cbv zeta.
  destruct (schedule_steps s Hnd) as (s1 & r & [Hq _] & Er & Hcur & _ & _ & _ & Hs).
  pose proof (pick_spec s1 (task_list s) (init_task, -1)) as (Hr & _ & Hmax).
  rewrite <- Er in Hr, Hmax. rewrite Hcur. unfold runnable in *.
  assert (forall p, p ∈ task_list s -> tsk s1 p = scanned s p) as H1.
  { intros p Hp. rewrite Hq. by case_decide. }
  assert (forall p, counter (scanned s p) = counter (tsk s p)) as Hctr
    by (intros; apply pass_task_sched).
  destruct Hr as [Hr | (Hin & Hrun & Hc)].
  - left. split; [by rewrite Hr |]. intros p Hp. split.
    + intros Hrun. rewrite <- H1 in Hrun by done. specialize (Hmax p Hp Hrun).
      rewrite H1, Hctr, Hr in Hmax by done. specialize (Hpos p Hp). cbn in Hmax. lia.
    + rewrite Hs, Hr. cbn. by apply H1.
  - right. rewrite H1 in Hrun, Hc by done. rewrite Hctr in Hc. split_and!; [done | done | |].
    + intros p Hp Hp'. rewrite <- H1 in Hp' by done. specialize (Hmax p Hp Hp').
      rewrite H1, Hctr in Hmax by done. lia.
    + intros p Hp. rewrite Hs, Hc, H1, bool_decide_eq_true_2, andb_true_r by done. done.
Qed.

(** Nobody oversleeps.  After [schedule] no task sleeps interruptibly
    with a signal it does not block, or past its timeout. *)
Theorem schedule_wakes s p :
  NoDup (task_list s) -> p ∈ task_list s -> may_sleep (jiffies s) (tsk (schedule s) p).
Proof.
  intros Hnd Hp. destruct (schedule_steps s Hnd) as (s1 & r & [Hq _] & _ & _ & _ & _ & _ & Hs).
  rewrite Hs, Hq. destruct (decide (p ∈ task_list s)); [| done].
  pose proof (pass_task_may_sleep (itimer_ticks s) (jiffies s) (tsk s p)) as H.
  by destruct (_ && _).
Qed.

(** ** Properties: no starvation *)

(** A round of the machine: [schedule], a timer tick for the task it chose,
    and whatever else happens ([e]) before the next [schedule]. *)
Fixpoint run (es : list (kstate -> kstate)) (s : kstate) : list tptr :=
  match es with
  | [] => []
  | e :: es => let s1 := schedule s in current s1 :: run es (e (charge_tick s1))
  end.

(** What the rest of the system may do: wake, stop, signal tasks, but hand out
    no time slices, create no tasks and not stop [p]. *)
Definition env_ok (p : tptr) (e : kstate -> kstate) : Prop := forall s,
  task_list (e s) = task_list s /\ task (e s) = task s /\
  (forall q, counter (tsk (e s) q) = counter (tsk s q)) /\
  (runnable s p -> runnable (e s) p).

(** The tasks are well formed: [init_task] is in slot 0 and not in the list,
    and the counters are non-negative [int]s. *)
Definition sched_ok (s : kstate) : Prop :=
  NoDup (task_list s) /\ init_task ∉ task_list s /\ task_slot s 0 = Some init_task /\
  forall q, q ∈ task_list s -> 0 <= counter (tsk s q) < 2 ^ 31.

Lemma charge_tick_spec s :
  task_slot s 0 = Some init_task -> current s <> init_task ->
  1 <= counter (cur s) < 2 ^ 31 ->
  same_frame s (charge_tick s) /\
  (forall q, state (tsk (charge_tick s) q) = state (tsk s q)) /\
  forall q, counter (tsk (charge_tick s) q)
    = if decide (q = current s) then counter (tsk s q) - 1 else counter (tsk s q).
Proof.
  intros H0 Hc Hb. unfold charge_tick. rewrite bool_decide_eq_false_2 by congruence.
  set (s1 := upd_tsk _ _ s). cbn [orb].
  assert (counter (cur s1) = counter (cur s) - 1) as E1.
  { subst s1. rewrite upd_tsk_current, tsk_upd_eq. cbn -[swrap]. by rewrite s32_small by lia. }
  rewrite E1. pose proof (upd_tsk_current (current s)) as Hcur.
  destruct (Z.leb_spec (counter (cur s) - 1) 0); split_and!;
    try (by repeat split); intros q; subst s1; cbn -[swrap upd_tsk tsk] in *;
    try change (tsk (upd _ _ ?x)) with (tsk x).
  - transitivity (state (tsk (upd_tsk (current s) (fun t => t <| counter := 0 |>)
      (upd_tsk (current s) (fun t => t <| counter ::= fun c => s32 (c - 1) |>) s)) q)); [done |].
    by rewrite !(tsk_upd_proj state).
  - transitivity (counter (tsk (upd_tsk (current s) (fun t => t <| counter := 0 |>)
      (upd_tsk (current s) (fun t => t <| counter ::= fun c => s32 (c - 1) |>) s)) q)); [done |].
    rewrite !tsk_upd. repeat case_decide; subst; try congruence; cbn; lia.
  - by rewrite (tsk_upd_proj state).
  - rewrite tsk_upd. repeat case_decide; subst; try congruence.
    cbn -[swrap]. by rewrite s32_small by lia.
Qed.

(** A round that does not choose [p] takes one tick from some other task. *)
Lemma round_spec p s :
  sched_ok s -> p ∈ task_list s -> runnable s p -> 0 < counter (tsk s p) ->
  let s1 := schedule s in let s2 := charge_tick s1 in
  current s1 ∈ task_list s /\
  (current s1 = p \/
   same_frame s1 s2 /\ runnable s2 p /\
   forall q, q ∈ task_list s -> counter (tsk s2 q)
     = if decide (q = current s1) then counter (tsk s q) - 1 else counter (tsk s q)) /\
  0 < counter (tsk s (current s1)) /\ task_list s1 = task_list s /\ task s1 = task s.
Proof.
  intros (Hnd & Hinit & Hslot & Hpos) Hp Hrun Hctr. cbv zeta.
  assert (state (scanned s p) = TASK_RUNNING) as Hrun' by by apply pass_task_running.
  destruct (schedule_steps s Hnd) as (_ & _ & _ & _ & _ & Hl & _ & Ht & _).
  destruct (schedule_picks s Hnd) as [[_ H] | (Hin & _ & Hmax & Htsk)];
    [intros; by apply Hpos | by destruct (H p Hp) |].
  set (s1 := schedule s) in *. set (n := current s1) in *.
  specialize (Hmax p Hp Hrun').
  assert (forall q, q ∈ task_list s -> tsk s1 q = scanned s q) as Hs1.
  { intros q Hq. rewrite (Htsk q Hq). destruct (Z.eqb_spec (counter (tsk s n)) 0); [lia | done]. }
  split_and!; [done | | lia | done | done].
  destruct (decide (n = p)); [by left | right].
  destruct (charge_tick_spec s1) as (F & Hst & Hc).
  - unfold task_slot. by rewrite Ht.
  - intros E. fold n in E. congruence.
  - fold n. rewrite Hs1 by done. unfold scanned. rewrite (proj1 (pass_task_sched _ _ _)).
    specialize (Hpos n Hin). lia.
  - split_and!; [done | unfold runnable; rewrite Hst, Hs1; done |].
    intros q Hq. rewrite Hc, Hs1 by done. unfold scanned.
    by rewrite (proj1 (pass_task_sched _ _ _)).
Qed.


(** Three tasks: 1 and 2 are runnable, 3 sleeps. *)
Definition demo_task (st c p : Z) : task_struct :=
  INIT_TASK <| state := st |> <| counter := c |> <| priority := p |>.
Definition demo_sched : kstate :=
  mk_kstate (list_to_map [(1%nat, demo_task TASK_RUNNING 3 15); (2%nat, demo_task TASK_RUNNING 1 15);
                          (3%nat, demo_task TASK_INTERRUPTIBLE 2 15)])
    [1%nat; 2%nat; 3%nat]
    [Some init_task; Some 1%nat; Some 2%nat; Some 3%nat] 1%nat false 0 0 0xffffffff 0.

Lemma demo_sched_list p : p ∈ task_list demo_sched -> p = 1%nat \/ p = 2%nat \/ p = 3%nat.
Proof. cbn. set_solver. Qed.

Lemma schedule_picks_witness : current (schedule demo_sched) = 1%nat.
Proof.
  destruct (schedule_picks demo_sched) as [[_ H] | (Hin & _)].
  - apply (bool_decide_eq_true_1 _). reflexivity.
  - intros p [-> | [-> | ->]]%demo_sched_list; vm_compute; congruence.
  - destruct (H 1%nat) as [Hn _]; [by left | by destruct Hn].
  - reflexivity.
Defined.

Lemma schedule_wakes_witness : may_sleep 0 (tsk (schedule demo_sched) 3%nat).
Proof.
  apply (schedule_wakes demo_sched 3%nat); [| set_solver].
  apply (bool_decide_eq_true_1 _). reflexivity.
Defined.


(** ** Properties: waking *)

Lemma wake_one_spec which s p :
  which TASK_RUNNING = false ->
  updates p (fun t => if which (state t) then t <| state := TASK_RUNNING |> else t) s (wake_one which s p) /\
  need_resched (wake_one which s p)
  = need_resched s || (which (state (tsk s p)) && (counter (cur s) <? counter (tsk s p))).
Proof.
  intros Hr. unfold wake_one. destruct (which (state (tsk s p))) eqn:E.
  - set (s1 := upd_tsk p _ s).
    assert (counter (cur s1) = counter (cur s) /\ counter (tsk s1 p) = counter (tsk s p)) as [-> ->].
    { subst s1. rewrite upd_tsk_current. by rewrite !(tsk_upd_proj counter). }
    split.
    + apply (updates_vars _ _ _ s1); [| by split_if | by split_if; repeat split].
      eapply updates_ext; [apply updates_upd | by rewrite E].
    + split_if; cbn; [by rewrite orb_true_r | by rewrite orb_false_r].
  - split; [apply updates_id; by rewrite E | cbn; by rewrite orb_false_r].
Qed.

Lemma wake_fold_spec which q s :
  which TASK_RUNNING = false ->
  let s' := foldl (wake_one which) s q in
  (forall p, tsk s' p = if bool_decide (p ∈ q) && which (state (tsk s p))
                        then tsk s p <| state := TASK_RUNNING |> else tsk s p) /\
  same_frame s s' /\
  need_resched s' = need_resched s ||
    existsb (fun p => which (state (tsk s p)) && (counter (cur s) <? counter (tsk s p))) q.
Proof.
  intros Hr. cbv zeta. induction q as [| p q IH] using rev_ind.
  { cbn. split_and!; [done | apply same_frame_refl | by rewrite orb_false_r]. }
  rewrite foldl_app; cbn [foldl]. set (s1 := foldl _ s q) in *.
  destruct IH as (Hq & F & Hn). destruct (wake_one_spec which s1 p Hr) as [[Hq1 F1] Hn1].
  assert (counter (cur s1) = counter (cur s)) as Hcc.
  { destruct F as (_ & _ & -> & _). rewrite Hq. by split_if. }
  assert (forall r, bool_decide (r ∈ q ++ [p]) = bool_decide (r ∈ q) || bool_decide (r = p)) as Hin.
  { intros r. rewrite <- bool_decide_or. apply bool_decide_ext. set_solver. }
  split_and!; [| by eapply same_frame_trans |].
  - intros r. rewrite Hq1, Hin, !Hq.
    destruct (decide (p = r)) as [<- | Hne].
    + rewrite (bool_decide_eq_true_2 (p = p)), orb_true_r by done. cbn [andb].
      destruct (bool_decide (p ∈ q)), (which (state (tsk s p))) eqn:E; cbn [andb];
        rewrite ?E; try done; cbn; by rewrite Hr.
    + by rewrite (bool_decide_eq_false_2 (r = p)), orb_false_r by done.
  - rewrite Hn1, Hn, Hcc, existsb_app, <- orb_assoc. cbn [existsb]. rewrite orb_false_r, Hq.
    destruct (bool_decide (p ∈ q)) eqn:Ep, (which (state (tsk s p))) eqn:E; cbn [andb];
      rewrite ?E; try done; cbn. rewrite Hr. cbn. rewrite orb_false_r. f_equal.
    destruct (counter (cur s) <? counter (tsk s p)) eqn:El; [| by rewrite orb_false_r].
    rewrite orb_true_r. apply existsb_exists. exists p. rewrite E, El. split; [| done].
    apply list_elem_of_In. by bool_simp.
Qed.

Lemma wake_up_interruptible_keeps {A} (proj : task_struct -> A) q s :
  (forall t st, proj (t <| state := st |>) = proj t) -> keeps proj s (wake_up_interruptible q s).
Proof.
  intros H. destruct (wake_fold_spec (fun st => st =? TASK_INTERRUPTIBLE) q s eq_refl) as (Hq & F & _).
  split; [exact F |]. intros p. unfold wake_up_interruptible. rewrite Hq.
  by destruct (_ && _).
Qed.

(** [wake_up] makes every task of the queue that sleeps, interruptibly or
    not, runnable, and asks for a reschedule exactly when one of them has a
    larger counter than the running task (or it was asked for before); tasks
    that are stopped, dead or not in the queue are untouched. *)
Theorem wake_up_spec q s :
  let s' := wake_up q s in
  let asleep p := (state (tsk s p) =? TASK_UNINTERRUPTIBLE) || (state (tsk s p) =? TASK_INTERRUPTIBLE) in
  (forall p, tsk s' p = if bool_decide (p ∈ q) && asleep p
                        then tsk s p <| state := TASK_RUNNING |> else tsk s p) /\
  same_frame s s' /\
  need_resched s' = need_resched s ||
    existsb (fun p => asleep p && (counter (cur s) <? counter (tsk s p))) q.
Proof.
  exact (wake_fold_spec
    (fun st => (st =? TASK_UNINTERRUPTIBLE) || (st =? TASK_INTERRUPTIBLE)) q s eq_refl).
Qed.

(** ** Properties: kernel semaphores

    The interleavings of tasks that use one semaphore: a task starts [down]
    and takes the semaphore or goes to sleep, a sleeper that has been made
    runnable resumes [__down], a holder does [up], and the rest of the kernel
    may wake sleepers for no reason.  [h] lists the holders. *)
Inductive sem_step : semaphore * kstate * list tptr -> semaphore * kstate * list tptr -> Prop :=
| step_down p m s h m' :
    runnable s p -> p ∉ wait m -> down_try m = Some m' -> sem_step (m, s, h) (m', s, p :: h)
| step_down_sleep p m s h m' s' :
    runnable s p -> p ∉ wait m -> down_try m = None -> down_sleep p m s = (m', s') ->
    sem_step (m, s, h) (m', s', h)
| step_resume p m s h m' s' (taken : bool) :
    runnable s p -> p ∈ wait m -> down_resume p m s = (taken, m', s') ->
    sem_step (m, s, h) (m', s', if taken then p :: h else h)
| step_up p m s h h' m' s' :
    h ≡ₚ p :: h' -> up m s = (m', s') -> sem_step (m, s, h) (m', s', h')
| step_other m s h s' :
    (forall p, p ∈ wait m -> state (tsk s' p) = state (tsk s p) \/ runnable s' p) ->
    sem_step (m, s, h) (m, s', h).

(** Every unit of the semaphore is either free or held, waiters sleep
    uninterruptibly or are about to look again, and nobody sleeps on a free
    semaphore. *)
Definition in_down (s : kstate) (p : tptr) : Prop :=
  runnable s p \/ state (tsk s p) = TASK_UNINTERRUPTIBLE.
Definition sem_inv (n : Z) (x : semaphore * kstate * list tptr) : Prop :=
  let '(m, s, h) := x in
  0 <= count m /\ count m + Z.of_nat (length h) = n /\
  (forall p, p ∈ wait m -> in_down s p) /\
  (0 < count m -> forall p, p ∈ wait m -> runnable s p).

Lemma elem_of_add_wait_queue q p r : r ∈ add_wait_queue q p <-> r = p \/ r ∈ q.
Proof. destruct q; cbn; set_solver. Qed.

Lemma elem_of_remove_wait_queue q p r : r ∈ remove_wait_queue q p -> r ∈ q.
Proof.
  induction q as [| h q IH]; cbn; [done |]. case_decide; [set_solver |].
  rewrite !elem_of_cons. tauto.
Qed.

(** A state change of one task keeps the others where they are. *)
Lemma in_down_upd s p st q :
  st = TASK_RUNNING \/ st = TASK_UNINTERRUPTIBLE -> q = p \/ in_down s q ->
  in_down (upd_tsk p (fun t => t <| state := st |>) s) q.
Proof.
  intros Hst Hq. unfold in_down, runnable in *. rewrite tsk_upd.
  case_decide; [cbn; naive_solver | naive_solver].
Qed.

Lemma wake_up_in_down q s p : p ∈ q -> in_down s p -> runnable (wake_up q s) p.
Proof.
  intros Hq Hp. unfold runnable, wake_up.
  destruct (wake_fold_spec (fun st => (st =? TASK_UNINTERRUPTIBLE) || (st =? TASK_INTERRUPTIBLE))
    q s eq_refl) as [-> _].
  rewrite bool_decide_eq_true_2 by done. destruct Hp as [Hp | Hp]; rewrite Hp; [done | reflexivity].
Qed.

Lemma sem_step_inv n x y : n < 2 ^ 31 -> sem_step x y -> sem_inv n x -> sem_inv n y.
Proof.
  intros Hn Hstep. destruct Hstep as
    [p m s h m' Hp _ E | p m s h m' s' Hp _ E1 E2 | p m s h m' s' taken Hp Hw E
    | p m s h h' m' s' Hh E | m s h s' H]; intros (Hc & Hsum & Hdown & Hfree); cbn in *.
  - unfold down_try in E. destruct (Z.leb_spec (count m) 0); [done |]. simplify_eq.
    cbn -[swrap]. rewrite s32_small by lia. split_and!; [lia | lia | done |].
    intros _. apply Hfree. lia.
  - unfold down_try in E1. destruct (Z.leb_spec (count m) 0); [| done].
    unfold down_sleep in E2. simplify_eq. cbn -[upd_tsk]. split_and!; [done.. | | lia].
    intros q Hq%elem_of_add_wait_queue. apply in_down_upd; naive_solver.
  - unfold down_resume in E. destruct (Z.leb_spec (count m) 0); simplify_eq; cbn -[swrap upd_tsk].
    + split_and!; [done.. | | lia]. intros q Hq. apply in_down_upd; auto.
    + rewrite s32_small by lia. split_and!; [lia.. | |].
      * intros q Hq%elem_of_remove_wait_queue. apply in_down_upd; [by left |].
        right. apply in_down_upd; auto.
      * intros _ q Hq%elem_of_remove_wait_queue.
        unfold runnable. rewrite upd_tsk_comp, tsk_upd. case_decide; [done |].
        apply Hfree; [lia | done].
  - apply Permutation_length in Hh. cbn in Hh. unfold up in E. simplify_eq.
    cbn -[swrap wake_up]. rewrite s32_small by lia. split_and!; [lia.. | |].
    + intros q Hq. left. by apply wake_up_in_down; [| apply Hdown].
    + intros _ q Hq. by apply wake_up_in_down; [| apply Hdown].
  - split_and!; [done.. | |].
    + intros q Hq. destruct (H q Hq) as [E |]; [| by left].
      unfold in_down, runnable. rewrite E. by apply Hdown.
    + intros Hpos q Hq. destruct (H q Hq) as [E |]; [| done].
      unfold runnable. rewrite E. by apply Hfree.
Qed.

(** C22: Kernel semaphores are safe and lose no wake-up.  In every state that
    tasks can reach by interleaving [down] and [up] on a semaphore that starts
    at [n], at most [n] tasks hold it, exactly the units not held are free, and
    while one is free no waiter is asleep. *)
Theorem semaphore_safe n s0 m s h :
  0 <= n < 2 ^ 31 -> rtc sem_step (mk_semaphore n [], s0, []) (m, s, h) ->
  Z.of_nat (length h) <= n /\ count m = n - Z.of_nat (length h) /\
  (0 < count m -> forall p, p ∈ wait m -> runnable s p).
Proof.
  intros Hn Hsteps.
  assert (sem_inv n (m, s, h)) as (Hc & Hsum & _ & Hfree).
  { eapply (rtc_ind_r (sem_inv n)); [| | done].
    - cbn. split_and!; [lia | lia | set_solver | set_solver].
    - intros y z _ Hyz Hy. eapply sem_step_inv; [lia | done | done]. }
  split_and!; [lia | lia | done].
Qed.

Lemma semaphore_safe_witness :
  exists m s h, rtc sem_step (mk_semaphore 1 [], demo_sched, []) (m, s, h) /\
    h = [1%nat] /\ wait m = [2%nat] /\ Z.of_nat (length h) <= 1.
Proof.
  assert (rtc sem_step (mk_semaphore 1 [], demo_sched, [])
    (mk_semaphore 0 [2%nat], (down_sleep 2%nat (mk_semaphore 0 []) demo_sched).2, [1%nat])) as H.
  { eapply rtc_l; [by apply (step_down 1%nat); [| set_solver |] |].
    eapply rtc_l; [by eapply (step_down_sleep 2%nat); [| set_solver | |] |]. apply rtc_refl. }
  do 3 eexists. split; [exact H |]. split; [done |]. split; [done |].
  apply (semaphore_safe 1 demo_sched _ _ _) in H; [apply H | lia].
Defined.

(** ** Properties: priorities *)

(** Priorities lie between 1 and 35, counters between 0 and twice the largest
    priority. *)
Definition prio_ok (t : task_struct) : Prop :=
  1 <= priority t <= 35 /\ 0 <= counter t <= 70.
Definition prios_ok (s : kstate) : Prop :=
  NoDup (task_list s) /\ current s ∈ init_task :: task_list s /\
  prio_ok (tsk s init_task) /\ forall p, p ∈ task_list s -> prio_ok (tsk s p).

(** The operations on time slices and priorities; *)
Inductive prio_step : kstate -> kstate -> Prop :=
| prio_schedule s : prio_step s (schedule s)
| prio_tick s : prio_step s (charge_tick s)
| prio_nice n s : prio_step s (sys_nice n s).2
| prio_wake q s : prio_step s (wake_up q s).

Lemma prios_ok_updates p f s s' :
  updates p f s s' -> (forall t, prio_ok t -> prio_ok (f t)) -> prios_ok s -> prios_ok s'.
Proof.
  intros [Hq (Hl & _ & Hc & _)] Hf (Hnd & Hcur & Hi & Hp). unfold prios_ok. rewrite Hl, Hc.
  split_and!; [done | done | rewrite Hq | intros q Hin; rewrite Hq]; case_decide; subst; auto.
Qed.

Lemma prio_ok_recharge t : prio_ok t -> prio_ok (recharge_task t).
Proof.
  unfold prio_ok. cbn -[swrap Z.shiftr]. intros [? ?].
  rewrite Z.shiftr_div_pow2, Z.pow_1_r by lia.
  assert (0 <= counter t / 2 <= 35) by (Z.to_euclidean_division_equations; lia).
  rewrite s32_small; lia.
Qed.

Lemma prios_ok_schedule s : prios_ok s -> prios_ok (schedule s).
Proof.
  intros (Hnd & Hcur & Hi & Hp).
  destruct (schedule_steps s Hnd) as (s1 & r & [Hq _] & Er & Ec & El & _ & _ & Hs).
  pose proof (pick_spec s1 (task_list s) (init_task, -1)) as (Hr & _ & _). rewrite <- Er in Hr.
  assert (forall p, prio_ok (tsk s p) -> prio_ok (tsk (schedule s) p)) as Hok.
  { intros p Hprio. rewrite Hs, Hq.
    assert (prio_ok (if decide (p ∈ task_list s)
      then pass_task (itimer_ticks s) (jiffies s) (tsk s p) else tsk s p)).
    { case_decide; [| done]. unfold prio_ok. by rewrite !(proj1 (pass_task_sched _ _ _)),
        !(proj2 (pass_task_sched _ _ _)). }
    destruct (_ && _); [by apply prio_ok_recharge | done]. }
  unfold prios_ok. rewrite El, Ec. split_and!; [done | | auto | auto].
  destruct Hr as [-> | [? _]]; [by left | by right].
Qed.

Lemma prios_ok_tick s : prios_ok s -> prios_ok (charge_tick s).
Proof.
  intros Hok. assert (prio_ok (cur s)) as Hcur.
  { destruct Hok as (_ & Hc & Hi & Hp). apply elem_of_cons in Hc as [-> | Hc]; auto. }
  unfold charge_tick. set (idle := bool_decide _). clearbody idle.
  set (s1 := if idle then s else _).
  assert (updates (current s)
    (fun t => if idle then t else t <| counter ::= fun c => s32 (c - 1) |>) s s1) as Hu.
  { subst s1. destruct idle; [by apply updates_id | apply updates_upd]. }
  assert (current s1 = current s) as Hcs by (by subst s1; destruct idle).
  destruct (idle || (counter (cur s1) <=? 0)) eqn:E.
  - set (s2 := upd_tsk (current s1) _ s1).
    enough (prios_ok s2) by done. eapply (prios_ok_updates (current s)); [| | done].
    + subst s2. rewrite Hcs. eapply updates_then, Hu.
    + intros t [? ?]. split; destruct idle; cbn; lia.
  - bool_simp. subst idle. destruct Hok as (Hnd & Hc & Hi & Hp).
    destruct Hu as [Hq (Hl & _ & _ & _)]. rewrite Hcs, Hq, decide_True in H0 by done.
    cbn -[swrap] in H0. unfold prios_ok. rewrite Hl, Hcs.
    assert (forall p, prio_ok (tsk s p) -> prio_ok (tsk s1 p)) as Hok; [| split_and!; auto].
    intros p [? ?]. rewrite Hq. case_decide; [subst | done].
    split; [done |]. cbn -[swrap]. rewrite s32_small in * by lia. lia.
Qed.

Lemma prios_ok_nice n s : prios_ok s -> prios_ok (sys_nice n s).2.
Proof.
  intros Hok. unfold sys_nice. split_if; [done |]. cbn -[swrap upd_tsk].
  eapply prios_ok_updates; [apply updates_upd | | done].
  intros t [? ?]. unfold prio_ok. cbn -[swrap]. split; [| done]. repeat split_if; bool_simp; lia.
Qed.

Lemma prios_ok_wake q s : prios_ok s -> prios_ok (wake_up q s).
Proof.
  destruct (wake_fold_spec (fun st => (st =? TASK_UNINTERRUPTIBLE) || (st =? TASK_INTERRUPTIBLE))
    q s eq_refl) as (Hq & (Hl & _ & Hc & _) & _).
  change (foldl _ s q) with (wake_up q s) in *. intros (Hnd & Hcur & Hi & Hp). unfold prios_ok. rewrite Hl, Hc.
  split_and!; [done | done | rewrite Hq | intros; rewrite Hq]; split_if; auto.
  all: unfold prio_ok; cbn; auto. by apply Hp.
Qed.

(** C23: Time slices and priorities stay in range.  Whatever sequence of
    [schedule], timer ticks, [nice] calls (with any argument) and wake-ups
    happens, every task keeps a priority between 1 and 35 and a counter
    between 0 and 70, and the running task is a known one. *)
Theorem prios_invariant s s' : prios_ok s -> rtc prio_step s s' -> prios_ok s'.
Proof.
  intros H Hs. induction Hs as [| s s1 s2 Hstep _ IH]; [done |]. apply IH.
  destruct Hstep; auto using prios_ok_schedule, prios_ok_tick, prios_ok_nice, prios_ok_wake.
Qed.

Lemma prios_invariant_witness :
  prios_ok (sys_nice (-100) (charge_tick (schedule demo_sched))).2.
Proof.
  apply (prios_invariant demo_sched).
  - split_and!; [apply (bool_decide_eq_true_1 _); reflexivity | right; left | |].
    + vm_compute; repeat split; congruence.
    + intros p [-> | [-> | ->]]%demo_sched_list; vm_compute; repeat split; congruence.
  - eapply rtc_l; [apply prio_schedule |]. eapply rtc_l; [apply prio_tick |].
    eapply rtc_l; [apply prio_nice |]. apply rtc_refl.
Defined.
