(* ===== verification/Timer.v ===== *)
(** Kernel timers and interval timers: the timer list and the old timer table
    ([add_timer], [del_timer], [timer_bh]), the load average, the timer
    interrupt [do_timer] as a whole (kernel/sched.c), and the interval timers of
    a process (kernel/itimer.c). *)

From Stdlib Require Import Sorting.Sorted.
From S2P Require Import Prelude Errno Task Signal Clock Sched.

(** ** The timer list *)

(** include/linux/timer.h:76-82 [struct timer_list]; [t_id] is the address of
    the structure, [function] names the handler, and the links are the list *)
Record timer_list := mk_timer { t_id : nat; expires : Z; data : Z; function : nat }.
#[export] Instance eta_timer : Eta timer_list := fun t =>
  mk_timer (t_id t) (expires t) (data t) (function t).

(** kernel/sched.c:458-469 the walk of [add_timer] from [*p] on; [expires] of
    an entry counts from the entry before it *)
Fixpoint add_timer_at (timer : timer_list) (l : list timer_list) : list timer_list :=
  match l with
  | [] => [timer]
  | p :: rest =>
      if expires timer <? expires p
      then timer :: (p <| expires ::= fun e => u32 (e - expires timer) |>) :: rest
      else p :: add_timer_at (timer <| expires ::= fun e => u32 (e - expires p) |>) rest
  end.

(** kernel/sched.c:447-471 [add_timer] *)
Definition add_timer (timer : option timer_list) (l : list timer_list) : list timer_list :=
  match timer with None => l | Some timer => add_timer_at timer l end.

(** kernel/sched.c:484-498 the walk of [del_timer], [acc] ticks after the
    start of the list: the timer with its [expires] restored ([None]: it was
    not in the list, and the result is 0), and the list without it *)
Fixpoint del_timer_at (id : nat) (acc : Z) (l : list timer_list) :
    option timer_list * list timer_list :=
  match l with
  | [] => (None, [])
  | p :: rest =>
      if decide (t_id p = id) then
        (Some (p <| expires ::= fun e => u32 (e + acc) |>),
         match rest with
         | [] => []
         | n :: rest' => (n <| expires ::= fun e => u32 (e + expires p) |>) :: rest'
         end)
      else
        let '(r, rest) := del_timer_at id (u32 (acc + expires p)) rest in (r, p :: rest)
  end.

(** kernel/sched.c:474-499 [del_timer] *)
Definition del_timer (id : nat) (l : list timer_list) : Z * option timer_list * list timer_list :=
  let '(r, l) := del_timer_at id 0 l in (b2z (bool_decide (is_Some r)), r, l).

(** ** The load average *)

(** include/linux/sched.h:57-62 the fixed-point constants *)
Definition FSHIFT := 11.
Definition FIXED_1 := Z.shiftl 1 FSHIFT.
Definition LOAD_FREQ := 5 * HZ.
Definition EXP_1 := 1884.
Definition EXP_5 := 2014.
Definition EXP_15 := 2037.

(** include/linux/sched.h:64-67 [CALC_LOAD] *)
Definition CALC_LOAD (load exp n : Z) : Z :=
  let load := u32 (load * exp) in
  let load := u32 (load + u32 (n * (FIXED_1 - exp))) in
  Z.shiftr load FSHIFT.

(** kernel/sched.c:514-526 [count_active_tasks] *)
Definition active (st : Z) : bool :=
  (st =? TASK_RUNNING) || (st =? TASK_UNINTERRUPTIBLE) || (st =? TASK_SWAPPING).
Definition count_active_tasks (s : kstate) : Z :=
  foldl (fun nr p => if active (state (tsk s p)) then u32 (nr + FIXED_1) else nr) 0 (slots_down s).

(** ** The machine's timer state *)

(** kernel/sched.c:501-509 the timer variables of the kernel next to the task
    state and the clock: [next_timer], [timer_table] (the [expires] fields; the
    handler of entry [i] is named [i]), [timer_active], [lost_ticks], whether
    TIMER_BH is marked, [avenrun] with the counter of [calc_load], and the cpu
    times of [kstat] *)
Record machine := mk_machine {
  ks : kstate; clk : clock;
  next_timer : list timer_list; timer_table : list Z; timer_active : Z;
  lost_ticks : Z; timer_bh_marked : bool;
  avenrun : Z * Z * Z; load_count : Z;
  cpu_user : Z; cpu_nice : Z; cpu_system : Z;
}.
#[export] Instance eta_machine : Eta machine := fun m =>
  mk_machine (ks m) (clk m) (next_timer m) (timer_table m) (timer_active m)
    (lost_ticks m) (timer_bh_marked m) (avenrun m) (load_count m)
    (cpu_user m) (cpu_nice m) (cpu_system m).

(** kernel/sched.c:528-540 [calc_load] *)
Definition calc_load (m : machine) : machine :=
  if 0 <? load_count m then m <| load_count ::= fun c => c - 1 |>
  else
    let n := count_active_tasks (ks m) in
    let '(a1, a5, a15) := avenrun m in
    m <| load_count := LOAD_FREQ |>
      <| avenrun := (CALC_LOAD a1 EXP_1 n, CALC_LOAD a5 EXP_5 n, CALC_LOAD a15 EXP_15 n) |>.

(** ** The bottom half *)

Section bottom_half.
(** The handlers: [fn f data] runs timer function [f], [old_fn i] the handler
    of [timer_table[i]]; they may change any part of the machine. *)
Context (fn : nat -> Z -> machine -> machine) (old_fn : Z -> machine -> machine).

(** kernel/sched.c:622-629 the first loop of [timer_bh]; a handler that always
    adds another expired timer keeps it busy for ever *)
Fixpoint run_timers (fuel : nat) (m : machine) : option machine :=
  match fuel with
  | O => None
  | S fuel =>
      match next_timer m with
      | t :: rest =>
          if expires t =? 0
          then run_timers fuel (fn (function t) (data t) (m <| next_timer := rest |>))
          else Some m
      | [] => Some m
      end
  end.

(** kernel/sched.c:633-643 the second loop of [timer_bh], from bit [i] on *)
Fixpoint run_old_timers (n : nat) (i : Z) (m : machine) : machine :=
  match n with
  | O => m
  | S n =>
      let mask := Z.shiftl 1 i in
      if timer_active m <? mask then m
      else if negb (flag (timer_active m) mask) then run_old_timers n (i + 1) m
      else if jiffies (ks m) <? znth 0 (timer_table m) i then run_old_timers n (i + 1) m
      else run_old_timers n (i + 1)
             (old_fn i (m <| timer_active ::= fun a => Z.land a (Z.lnot mask) |>))
  end.

(** kernel/sched.c:616-645 [timer_bh] *)
Definition timer_bh (fuel : nat) (m : machine) : option machine :=
  m ← run_timers fuel m; Some (run_old_timers 32 0 m).
End bottom_half.

(** ** The timer interrupt *)

(** kernel/sched.c:712-737 the tick is charged to the user or the system time
    of the running task, and to its virtual timer *)
Definition charge_cpu (user : bool) (m : machine) : machine :=
  let s := ks m in
  let p := current s in
  let idle := bool_decide (task_slot s 0 = Some p) in
  if user then
    let s := upd_tsk p (fun t => t <| utime ::= fun u => s32 (u + 1) |>) s in
    let m :=
      if idle then m
      else if priority (tsk s p) <? 15 then m <| cpu_nice ::= fun n => s32 (n + 1) |>
      else m <| cpu_user ::= fun n => s32 (n + 1) |> in
    let s :=
      if ctrue (it_virt_value (tsk s p)) then
        let s := upd_tsk p (fun t => t <| it_virt_value ::= fun v => u32 (v - 1) |>) s in
        if ctrue (it_virt_value (tsk s p)) then s
        else (send_sig SIGVTALRM (Some p) 1
                (upd_tsk p (fun t => t <| it_virt_value := it_virt_incr t |>) s)).2
      else s in
    m <| ks := s |>
  else
    let s := upd_tsk p (fun t => t <| stime ::= fun u => s32 (u + 1) |>) s in
    let m := if idle then m else m <| cpu_system ::= fun n => s32 (n + 1) |> in
    m <| ks := s |>.

(** kernel/sched.c:742-746 the profiling timer *)
Definition charge_prof (s : kstate) : kstate :=
  let p := current s in
  if ctrue (it_prof_value (tsk s p)) then
    let s := upd_tsk p (fun t => t <| it_prof_value ::= fun v => u32 (v - 1) |>) s in
    if ctrue (it_prof_value (tsk s p)) then s
    else (send_sig SIGPROF (Some p) 1
            (upd_tsk p (fun t => t <| it_prof_value := it_prof_incr t |>) s)).2
  else s.

(** kernel/sched.c:747-755 does some entry of the timer table expire? *)
Fixpoint old_timer_due (n : nat) (i : Z) (m : machine) : bool :=
  match n with
  | O => false
  | S n =>
      let mask := Z.shiftl 1 i in
      if timer_active m <? mask then false
      else if negb (flag (timer_active m) mask) then old_timer_due n (i + 1) m
      else if jiffies (ks m) <? znth 0 (timer_table m) i then old_timer_due n (i + 1) m
      else true
  end.

(** kernel/sched.c:761-771 a tick for the timer list *)
Definition tick_timers (m : machine) : machine :=
  match next_timer m with
  | [] => m
  | t :: rest =>
      if ctrue (expires t) then
        let t := t <| expires ::= fun e => u32 (e - 1) |> in
        m <| next_timer := t :: rest |>
          <| timer_bh_marked ::= fun b => b || negb (ctrue (expires t)) |>
      else m <| lost_ticks ::= fun n => u32 (n + 1) |> <| timer_bh_marked := true |>
  end.

(** include/linux/vm86.h:4-4 [VM_MASK] *)
Definition VM_MASK := 0x00020000.

(** kernel/sched.c:655-773 [do_timer]; of the interrupted registers it uses
    [eflags] and [cs], and [set_rtc] is the CMOS clock's [set_rtc_mmss] *)
Definition do_timer (set_rtc : Z -> Z) (eflags cs : Z) (m : machine) : machine :=
  let m := m <| clk ::= clock_tick set_rtc |> in
  let m := m <| ks ::= fun s => s <| jiffies ::= fun j => u32 (j + 1) |> |> in
  let m := calc_load m in
  let m := charge_cpu (flag VM_MASK eflags || flag 3 cs) m in
  let m := m <| ks ::= charge_tick |> in
  let m := m <| ks ::= charge_prof |> in
  let m := if old_timer_due 32 0 m then m <| timer_bh_marked := true |> else m in
  let m := m <| ks ::= fun s => s <| itimer_ticks ::= fun n => u32 (n + 1) |> |> in
  let m := if itimer_next (ks m) <? itimer_ticks (ks m)
           then m <| ks ::= fun s => s <| need_resched := true |> |> else m in
  tick_timers m.

(** ** Interval timers *)

(** include/linux/time.h:26-28 the timers of a process *)
Definition ITIMER_REAL := 0.
Definition ITIMER_VIRTUAL := 1.
Definition ITIMER_PROF := 2.

(** include/linux/time.h:4-7 [struct timeval], and [struct itimerval]: the
    interval and the value *)
Record timeval := mk_timeval { tv_sec : Z; tv_usec : Z }.
Record itimerval := mk_itimerval { it_interval : timeval; it_value : timeval }.

(** kernel/itimer.c:17-22 [tvtojiffies] *)
Definition tvtojiffies (value : timeval) : Z :=
  u32 (u32 (tv_sec value) * HZ
       + u32 (tv_usec value + (1000000 / HZ - 1)) / (1000000 / HZ)).

(** kernel/itimer.c:24-29 [jiffiestotv] *)
Definition jiffiestotv (jiffies : Z) : timeval :=
  mk_timeval (jiffies / HZ) (jiffies mod HZ * (1000000 / HZ)).

(** kernel/itimer.c:31-54 [_getitimer] of the current task *)
Definition _getitimer (which : Z) (s : kstate) : Z + itimerval :=
  let t := cur s in
  let get val interval := inr (mk_itimerval (jiffiestotv interval) (jiffiestotv val)) in
  if which =? ITIMER_REAL then get (it_real_value t) (it_real_incr t)
  else if which =? ITIMER_VIRTUAL then get (it_virt_value t) (it_virt_incr t)
  else if which =? ITIMER_PROF then get (it_prof_value t) (it_prof_incr t)
  else inl (- EINVAL).

(** kernel/itimer.c:56-71 [sys_getitimer]: the result, and what is stored *)
Definition sys_getitimer (which : Z) (value : bool) (va : Z) (s : kstate) : Z * option itimerval :=
  if negb value then (- EFAULT, None) else
  match _getitimer which s with
  | inl error => (error, None)
  | inr buffer => if ctrue va then (va, None) else (0, Some buffer)
  end.

(** kernel/itimer.c:73-108 [_setitimer]: the result, the old value for
    [ovalue] when it is wanted, and the state *)
Definition _setitimer (which : Z) (value : itimerval) (ovalue : bool) (s : kstate) :
    Z * option itimerval * kstate :=
  let i := tvtojiffies (it_interval value) in
  let j := tvtojiffies (it_value value) in
  let old := _getitimer which s in
  match ovalue, old with
  | true, inl k => (k, None, s)
  | _, _ =>
      let old := match ovalue, old with true, inr v => Some v | _, _ => None end in
      let p := current s in
      if which =? ITIMER_REAL then
        let j := if ctrue j then u32 (j + (1 + itimer_ticks s)) else j in
        let s := if ctrue (tvtojiffies (it_value value)) && (j <? itimer_next s)
                 then s <| itimer_next := j |> else s in
        (0, old, upd_tsk p (fun t => t <| it_real_value := j |> <| it_real_incr := i |>) s)
      else if which =? ITIMER_VIRTUAL then
        let j := if ctrue j then u32 (j + 1) else j in
        (0, old, upd_tsk p (fun t => t <| it_virt_value := j |> <| it_virt_incr := i |>) s)
      else if which =? ITIMER_PROF then
        let j := if ctrue j then u32 (j + 1) else j in
        (0, old, upd_tsk p (fun t => t <| it_prof_value := j |> <| it_prof_incr := i |>) s)
      else (- EINVAL, old, s)
  end.

(** kernel/itimer.c:110-126 [sys_setitimer]: a NULL [value] stops the timer *)
Definition sys_setitimer (which : Z) (value : option itimerval) (ovalue : bool) (va : Z)
    (s : kstate) : Z * option itimerval * kstate :=
  let zero := mk_timeval 0 0 in
  let '(error, old, s) := _setitimer which (default (mk_itimerval zero zero) value) ovalue s in
  if ctrue error || negb ovalue then (error, None, s)
  else if ctrue va then (va, None, s) else (0, old, s).

(** kernel/sched.c:775-784 [sys_alarm] *)
Definition sys_alarm (seconds : Z) (s : kstate) : Z * kstate :=
  let zero := mk_timeval 0 0 in
  let '(_, old, s) := _setitimer ITIMER_REAL (mk_itimerval zero (mk_timeval seconds 0)) true s in
  match old with
  | Some old => (s32 (tv_sec (it_value old) + Z.quot (tv_usec (it_value old)) 1000000), s)
  | None => (0, s)
  end.

(** ** Properties: the timer list is a priority queue

    The specification is a list of absolute deadlines, sorted, first come
    first served among equals. *)
Definition payload (t : timer_list) := (t_id t, data t, function t).
Abbreviation entry := (Z * (nat * Z * nat))%type.

Fixpoint spec_insert (x : entry) (q : list entry) : list entry :=
  match q with
  | [] => [x]
  | y :: q => if x.1 <? y.1 then x :: y :: q else y :: spec_insert x q
  end.
Fixpoint spec_delete (id : nat) (q : list entry) : option Z * list entry :=
  match q with
  | [] => (None, [])
  | y :: q =>
      if decide (y.2.1.1 = id) then (Some y.1, q)
      else let '(r, q) := spec_delete id q in (r, y :: q)
  end.
(** A tick: every deadline comes closer, and those that reach 0 fire. *)
Definition spec_tick (q : list entry) : list (nat * Z * nat) * list entry :=
  let q := map (fun y => (y.1 - 1, y.2)) q in
  (map snd (filter (fun y => y.1 <= 0) q), filter (fun y => ~ y.1 <= 0) q).

(** The deadlines a timer list stands for, [acc] ticks from now on. *)
Fixpoint deadlines (acc : Z) (l : list timer_list) : list entry :=
  match l with
  | [] => []
  | t :: l => (acc + expires t, payload t) :: deadlines (acc + expires t) l
  end.

(** The increments are unsigned longs, and so is their sum. *)
Definition list_ok (l : list timer_list) : Prop :=
  Forall (fun t => 0 <= expires t) l /\ zsum expires l < 2 ^ 32.

Lemma zsum_cons {A} (f : A -> Z) x l : zsum f (x :: l) = f x + zsum f l.
Proof. done. Qed.

Lemma list_ok_cons t l :
  list_ok (t :: l) <-> 0 <= expires t /\ 0 <= zsum expires l /\ expires t + zsum expires l < 2 ^ 32 /\ list_ok l.
Proof.
  unfold list_ok. rewrite zsum_cons, Forall_cons. split.
  - intros ([? H] & ?). assert (0 <= zsum expires l) by (apply zsum_nonneg, Forall_forall, H).
    split_and!; try done; lia.
  - intros (? & ? & ? & ? & ?). done.
Qed.

(** The first entry after a change of its increment. *)
Lemma deadlines_shift acc d t l :
  0 <= expires t + d < 2 ^ 32 ->
  deadlines acc ((t <| expires ::= fun e => u32 (e + d) |>) :: l) = deadlines (acc + d) (t :: l).
Proof.
  intros. cbn -[uwrap]. rewrite u32_small by lia.
  replace (acc + (expires t + d)) with (acc + d + expires t) by lia. done.
Qed.

Lemma add_timer_deadlines t acc l :
  list_ok l -> 0 <= expires t < 2 ^ 32 ->
  list_ok (add_timer_at t l) /\
  zsum expires (add_timer_at t l) = Z.max (expires t) (zsum expires l) /\
  deadlines acc (add_timer_at t l) = spec_insert (acc + expires t, payload t) (deadlines acc l).
Proof.
  revert t acc. induction l as [| p l IH]; intros t acc Hok Ht; cbn [add_timer_at].
  { split_and!; [apply list_ok_cons; cbn; split_and!; try lia; by split | cbn; lia | done]. }
  pose proof (proj1 (list_ok_cons p l) Hok) as (Hp & Hl & Hsum & Hokl).
  cbn [deadlines spec_insert fst].
  destruct (Z.ltb_spec (expires t) (expires p)), (Z.ltb_spec (acc + expires t) (acc + expires p));
    try lia.
  - assert (u32 (expires p - expires t) = expires p - expires t) as E by (rewrite u32_small; lia).
    split_and!.
    + rewrite !list_ok_cons, zsum_cons. cbn -[uwrap zsum]. rewrite E. split_and!; try done; lia.
    + rewrite !zsum_cons. cbn -[uwrap zsum]. rewrite E. lia.
    + cbn -[uwrap]. rewrite E. do 2 f_equal; [f_equal; lia | f_equal; lia].
  - set (t' := t <| expires ::= _ |>).
    assert (expires t' = expires t - expires p) as E
      by (subst t'; cbn -[uwrap]; rewrite u32_small; lia).
    destruct (IH t' (acc + expires p) Hokl) as (I1 & I2 & I3); [lia |].
    rewrite list_ok_cons, !zsum_cons, I2, E. split_and!; [lia | lia | lia | done | lia |].
    cbn [deadlines]. rewrite I3, E.
    replace (acc + expires p + (expires t - expires p)) with (acc + expires t) by lia. done.
Qed.

Lemma del_timer_deadlines id acc l :
  list_ok l -> 0 <= acc -> acc + zsum expires l < 2 ^ 32 ->
  let '(r, l') := del_timer_at id acc l in
  list_ok l' /\ zsum expires l' <= zsum expires l /\
  spec_delete id (deadlines acc l) = (option_map expires r, deadlines acc l') /\
  (forall t, r = Some t -> t_id t = id).
Proof.
  revert acc. induction l as [| p l IH]; intros acc Hok Hacc Hsum; cbn [del_timer_at].
  { split_and!; [done | cbn; lia | done | done]. }
  pose proof (proj1 (list_ok_cons p l) Hok) as (Hp & Hl & Hs & Hokl).
  rewrite zsum_cons in *. cbn [deadlines spec_delete fst snd payload].
  destruct (decide (t_id p = id)) as [E |].
  - assert (option_map expires (Some (p <| expires ::= fun e => u32 (e + acc) |>))
            = Some (acc + expires p)) as ->.
    { cbn -[uwrap]. rewrite u32_small by lia. f_equal. lia. }
    destruct l as [| n l]; [split_and!; [done | cbn; lia | done | intros t H; by injection H as <-] |].
    apply list_ok_cons in Hokl as (Hn & Hl' & Hs' & Hokl'). rewrite zsum_cons in *.
    assert (u32 (expires n + expires p) = expires n + expires p) as En by (rewrite u32_small; lia).
    split_and!.
    + rewrite list_ok_cons. cbn -[uwrap zsum]. rewrite En. split_and!; try done; lia.
    + rewrite zsum_cons. cbn -[uwrap zsum]. rewrite En. lia.
    + rewrite deadlines_shift by lia. done.
    + intros t [= <-]. done.
  - specialize (IH (u32 (acc + expires p)) Hokl).
    rewrite u32_small in * by lia. specialize (IH ltac:(lia) ltac:(lia)).
    destruct (del_timer_at id (acc + expires p) l) as [r l'].
    destruct IH as (I1 & I2 & I3 & I4). rewrite I3, zsum_cons.
    pose proof (zsum_nonneg expires l' (proj1 (Forall_forall _ _) (proj1 I1))).
    split_and!; [apply list_ok_cons; split_and!; try done; lia | lia | done | done].
Qed.

(** C24: [add_timer] inserts at the right place.  On a list whose increments
    fit an unsigned long it acts on absolute deadlines as the insertion into a
    sorted queue behind all timers with the same or an earlier deadline; no
    other timer's deadline moves, and the list stays well formed. *)
Theorem add_timer_refines t l :
  list_ok l -> 0 <= expires t < 2 ^ 32 ->
  let l' := add_timer (Some t) l in
  list_ok l' /\ deadlines 0 l' = spec_insert (expires t, payload t) (deadlines 0 l).
Proof. intros Hl Ht. by destruct (add_timer_deadlines t 0 l Hl Ht) as (? & _ & ?). Qed.

(** [del_timer] removes exactly the timer it is given.  The result says
    whether the timer was in the list, no other deadline moves, and the
    removed timer gets the ticks that it still had to wait. *)
Theorem del_timer_refines id l :
  list_ok l ->
  let '(r, t, l') := del_timer id l in
  list_ok l' /\ r = b2z (bool_decide (is_Some t)) /\
  spec_delete id (deadlines 0 l) = (option_map expires t, deadlines 0 l').
Proof.
  intros Hl. unfold del_timer. pose proof (del_timer_deadlines id 0 l Hl ltac:(lia)) as H.
  destruct (del_timer_at id 0 l) as [t l']. destruct H as (H1 & _ & H2 & _); [apply Hl |].
  done.
Qed.

Lemma spec_delete_fresh id q :
  (forall y, y ∈ q -> y.2.1.1 <> id) -> spec_delete id q = (None, q).
Proof.
  intros H. induction q as [| y q IH]; [done |]. cbn.
  destruct (decide (y.2.1.1 = id)) as [E |]; [destruct (H y ltac:(set_solver) E) |].
  rewrite IH; [done | set_solver].
Qed.

Lemma spec_delete_insert x q :
  (forall y, y ∈ q -> y.2.1.1 <> x.2.1.1) ->
  spec_delete x.2.1.1 (spec_insert x q) = (Some x.1, q).
Proof.
  intros H. induction q as [| y q IH]; cbn.
  { by rewrite decide_True. }
  destruct (x.1 <? y.1); cbn; [by rewrite decide_True |].
  destruct (decide (y.2.1.1 = x.2.1.1)) as [E |]; [destruct (H y ltac:(set_solver) E) |].
  rewrite IH; [done | set_solver].
Qed.

(** A timer that is added and deleted before it expires leaves no trace:
    [del_timer] returns 1, gives the timer its ticks back, and every other
    timer keeps its deadline. *)
Theorem add_del_timer t l :
  list_ok l -> 0 <= expires t < 2 ^ 32 -> (forall p, p ∈ l -> t_id p <> t_id t) ->
  let '(r, t', l') := del_timer (t_id t) (add_timer (Some t) l) in
  r = 1 /\ option_map expires t' = Some (expires t) /\ deadlines 0 l' = deadlines 0 l.
Proof.
  intros Hl Ht Hfresh. destruct (add_timer_deadlines t 0 l Hl Ht) as (Hl1 & _ & E).
  unfold del_timer. cbn [add_timer]. set (l1 := add_timer_at t l) in *.
  pose proof (del_timer_deadlines (t_id t) 0 l1 Hl1 ltac:(lia)) as H.
  destruct (del_timer_at (t_id t) 0 l1) as [r l']. destruct H as (_ & _ & H & _); [apply Hl1 |].
  rewrite E in H. change (t_id t) with ((expires t, payload t).2.1.1) in H.
  rewrite Z.add_0_l, spec_delete_insert in H.
  - injection H as H1 <-. destruct r; [by split_and! | done].
  - cbn. clear -Hfresh. generalize 0. induction l as [| p l IH]; intros a y Hy; cbn in *; [set_solver |].
    apply elem_of_cons in Hy as [-> | Hy]; [apply Hfresh; set_solver |].
    eapply IH; [set_solver | done].
Qed.

(** ** Properties: timers fire on time *)

(** The expired timers at the head of the list, and the rest. *)
Fixpoint due (l : list timer_list) : list timer_list :=
  match l with t :: l' => if expires t =? 0 then t :: due l' else [] | [] => [] end.
Fixpoint not_due (l : list timer_list) : list timer_list :=
  match l with t :: l' => if expires t =? 0 then not_due l' else l | [] => [] end.

Lemma deadlines_ge acc l y : list_ok l -> y ∈ deadlines acc l -> acc <= y.1.
Proof.
  revert acc. induction l as [| t l IH]; intros acc Hl Hy; cbn in Hy; [set_solver |].
  apply list_ok_cons in Hl as (? & _ & _ & Hl).
  apply elem_of_cons in Hy as [-> | Hy]; [cbn; lia |]. specialize (IH _ Hl Hy). lia.
Qed.

(** The timers of a well formed list that are due are those with deadline
    [acc]. *)
Lemma due_deadlines acc l :
  list_ok l ->
  map payload (due l) = map snd (filter (fun y => y.1 <= acc) (deadlines acc l)) /\
  deadlines acc (not_due l) = filter (fun y => ~ y.1 <= acc) (deadlines acc l) /\
  list_ok (not_due l).
Proof.
  induction l as [| t l IH]; intros Hl; [done |].
  pose proof (proj1 (list_ok_cons t l) Hl) as (Ht & _ & _ & Hl'). cbn [due not_due deadlines].
  destruct (Z.eqb_spec (expires t) 0) as [E | E].
  - rewrite E, Z.add_0_r, filter_cons_True, filter_cons_False by (cbn; lia).
    destruct (IH Hl') as (I1 & I2 & I3). split_and!; [cbn; by rewrite I1 | done | done].
  - assert (forall y, y ∈ (acc + expires t, payload t) :: deadlines (acc + expires t) l -> ~ y.1 <= acc) as H.
    { intros y Hy. pose proof (deadlines_ge acc (t :: l) y Hl Hy).
      apply elem_of_cons in Hy as [-> | Hy]; [cbn; lia |].
      pose proof (deadlines_ge _ _ _ Hl' Hy). lia. }
    split_and!; [| | done].
    + by rewrite filter_none.
    + by rewrite filter_all.
Qed.

(** The handlers leave the timer list and its bottom-half mark alone: they
    commute with any change of these. *)
Definition timers_of (l : list timer_list) (b : bool) (m : machine) : machine :=
  m <| next_timer := l |> <| timer_bh_marked := b |>.
Definition ignores_timers (fn : nat -> Z -> machine -> machine) : Prop :=
  forall f d l b m, fn f d (timers_of l b m) = timers_of l b (fn f d m).

(** Running the handlers of some timers in order. *)
Definition run_handlers (fn : nat -> Z -> machine -> machine)
    (l : list (nat * Z * nat)) (m : machine) : machine :=
  foldl (fun m x => fn x.2 x.1.2 m) m l.

Section on_time.
Context (fn : nat -> Z -> machine -> machine) (Hfn : ignores_timers fn).

Lemma timers_of_timers_of l b l' b' m : timers_of l b (timers_of l' b' m) = timers_of l b m.
Proof using Type. done. Qed.

Lemma run_handlers_timers l b x m :
  run_handlers fn x (timers_of l b m) = timers_of l b (run_handlers fn x m).
Proof using Hfn.
  revert m. induction x as [| y x IH]; intros m; [done |]. cbn [run_handlers foldl].
  rewrite Hfn. apply IH.
Qed.

Lemma run_timers_spec fuel l b m :
  (length l < fuel)%nat ->
  run_timers fn fuel (timers_of l b m)
  = Some (timers_of (not_due l) b (run_handlers fn (map payload (due l)) m)).
Proof using Hfn.
  revert l m. induction fuel as [| fuel IH]; intros l m Hf; [lia |].
  destruct l as [| t l]; [done |]. cbn [length] in Hf.
  cbn [run_timers due not_due]. change (next_timer (timers_of (t :: l) b m)) with (t :: l).
  cbn match. destruct (expires t =? 0); [| done].
  change (timers_of (t :: l) b m <| next_timer := l |>) with (timers_of l b m).
  rewrite Hfn, IH by lia. done.
Qed.

(** A tick, followed by the bottom half when it is marked. *)
Definition tick_round (fuel : nat) (m : machine) : option machine :=
  let m := tick_timers m in
  if timer_bh_marked m then run_timers fn fuel (m <| timer_bh_marked := false |>) else Some m.
Fixpoint tick_rounds (fuel n : nat) (m : machine) : option machine :=
  match n with O => Some m | S n => m ← tick_round fuel m; tick_rounds fuel n m end.

(** Between rounds the list is well formed and its timers are in the future. *)
Definition queue_ok (l : list timer_list) : Prop :=
  list_ok l /\ match l with t :: _ => 1 <= expires t | [] => True end.

(** The queue [d] ticks later. *)
Definition later (d : Z) (q : list entry) : list entry := map (fun y => (y.1 - d, y.2)) q.
Definition due_at (d : Z) (q : list entry) : list (nat * Z * nat) :=
  map snd (filter (fun y => y.1 <= d) q).
Definition after (d : Z) (q : list entry) : list entry := filter (fun y => ~ y.1 <= d) q.

Lemma deadlines_later a d l : deadlines (a - d) l = later d (deadlines a l).
Proof using Type.
  revert a. induction l as [| t l IH]; intros a; [done |]. cbn.
  replace (a - d + expires t) with (a + expires t - d) by lia. by rewrite IH.
Qed.

Lemma later_filter c d q :
  due_at c (later d q) = due_at (c + d) q /\ after c (later d q) = later d (after (c + d) q).
Proof using Type.
  unfold due_at, after, later. induction q as [| y q [IH1 IH2]]; [done |]. cbn [map].
  rewrite !filter_cons. cbn [fst]. repeat case_decide; try lia; cbn [map]; rewrite ?IH1, ?IH2; done.
Qed.

Lemma not_due_ok l : list_ok (not_due l) -> queue_ok (not_due l).
Proof using Type.
  intros H. split; [done |]. induction l as [| u l IH]; cbn [not_due] in *; [done |].
  destruct (Z.eqb_spec (expires u) 0); [by apply IH |]. apply list_ok_cons in H as (? & _). lia.
Qed.

Lemma not_due_length l : (length (not_due l) <= length l)%nat.
Proof using Type. induction l as [| u l IH]; cbn; [done |]. destruct (_ =? 0); cbn; lia. Qed.

Lemma tick_round_spec fuel l m :
  queue_ok l -> (length l < fuel)%nat ->
  exists l', tick_round fuel (timers_of l false m)
    = Some (timers_of l' false (run_handlers fn (due_at 1 (deadlines 0 l)) m)) /\
  queue_ok l' /\ (length l' <= length l)%nat /\
  deadlines 0 l' = later 1 (after 1 (deadlines 0 l)).
Proof using Hfn.
  intros [Hl Hh] Hf. destruct l as [| t l]; [by exists [] |].
  pose proof (proj1 (list_ok_cons t l) Hl) as (Ht & Hs & Hsum & Hl').
  set (t' := t <| expires ::= fun e => u32 (e - 1) |>).
  assert (expires t' = expires t - 1) as Et by (subst t'; cbn -[uwrap]; rewrite u32_small; lia).
  assert (list_ok (t' :: l)) as Hok by (rewrite list_ok_cons, Et; split_and!; try done; lia).
  assert (deadlines 0 (t' :: l) = later 1 (deadlines 0 (t :: l))) as Ed.
  { change (t' :: l) with ((t <| expires ::= fun e => u32 (e + -1) |>) :: l).
    rewrite deadlines_shift by lia. apply (deadlines_later 0 1). }
  destruct (due_deadlines 0 (t' :: l) Hok) as (D1 & D2 & D3).
  rewrite Ed in D1, D2. fold (due_at 0 (later 1 (deadlines 0 (t :: l)))) in D1.
  fold (after 0 (later 1 (deadlines 0 (t :: l)))) in D2.
  rewrite (proj1 (later_filter 0 1 _)) in D1. rewrite (proj2 (later_filter 0 1 _)) in D2.
  exists (not_due (t' :: l)). split; [| split_and!; [| | done]].
  - unfold tick_round, tick_timers. change (next_timer (timers_of (t :: l) false m)) with (t :: l).
    cbn match. destruct (ctrue (expires t)) eqn:Ec; [| unfold ctrue in Ec; bool_simp; lia].
    fold t'. change (upd timer_bh_marked _ (upd next_timer _ _))
      with (timers_of (t' :: l) (negb (ctrue (expires t'))) m).
    change (0 + 1) with 1 in *. destruct (ctrue (expires t')) eqn:Ec'; cbn [negb].
    + unfold ctrue in Ec'. bool_simp. change (timer_bh_marked (timers_of _ false _)) with false.
      cbn match. rewrite <- D1. cbn [due not_due]. destruct (Z.eqb_spec (expires t') 0); [lia | reflexivity].
    + change (timer_bh_marked (timers_of _ true _)) with true. cbn match.
      change (timers_of (t' :: l) true m <| timer_bh_marked := false |>)
        with (timers_of (t' :: l) false m).
      rewrite run_timers_spec by done. by rewrite D1.
  - by apply not_due_ok.
  - apply (not_due_length (t' :: l)).
Qed.

Lemma deadlines_sorted a l : list_ok l -> StronglySorted (fun x y => x.1 <= y.1) (deadlines a l).
Proof using Type.
  revert a. induction l as [| t l IH]; intros a Hl; cbn; [constructor |].
  apply list_ok_cons in Hl as (_ & _ & _ & Hl). constructor; [by apply IH |].
  apply Forall_forall. intros y Hy. by apply deadlines_ge in Hy.
Qed.

(** What fires first, and then what fires later. *)
Lemma due_at_app c d q :
  0 <= c -> StronglySorted (fun x y => x.1 <= y.1) q ->
  due_at d q ++ due_at c (later d (after d q)) = due_at (c + d) q /\
  after c (later d (after d q)) = later d (after (c + d) q).
Proof using Type.
  intros Hc Hq. rewrite !(proj1 (later_filter _ _ _)), !(proj2 (later_filter _ _ _)).
  unfold due_at, after. induction Hq as [| y q Hq IH Hy]; [done |].
  rewrite !(filter_cons _ y). destruct IH as [IH1 IH2].
  destruct (decide (y.1 <= d)); [repeat case_decide; try lia; split; cbn; congruence |].
  rewrite Forall_forall in Hy.
  rewrite (filter_none (fun y => y.1 <= d)) by (intros z Hz; specialize (Hy z Hz); lia).
  rewrite (filter_all (fun y => ~ y.1 <= d)) by (intros z Hz; specialize (Hy z Hz); lia).
  rewrite !(decide_True (P := ~ y.1 <= d)) by done.
  destruct (decide (y.1 <= c + d)); split; cbn [app map];
    rewrite ?filter_cons_True, ?filter_cons_False by lia; try done; by case_decide.
Qed.

Lemma later_0 q : later 0 q = q.
Proof using Type.
  unfold later. induction q as [| [d x] q IH]; [done |]. cbn. by rewrite Z.sub_0_r, IH.
Qed.
Lemma later_later c d q : later c (later d q) = later (c + d) q.
Proof using Type.
  unfold later. rewrite map_map. apply map_ext. intros [e x]. cbn. f_equal. lia.
Qed.

End on_time.

(** Witnesses: a list of three timers, 2, 5 and 5 ticks ahead, and a handler
    that adds its data to a counter. *)
Definition demo_timers : list timer_list :=
  [mk_timer 1 2 10 0; mk_timer 2 3 20 0; mk_timer 3 0 30 0].
Definition demo_machine : machine :=
  mk_machine demo_sched clock_init demo_timers (replicate 32 0) 0 0 false (0, 0, 0) LOAD_FREQ 0 0 0.
Definition demo_handler (f : nat) (d : Z) (m : machine) : machine :=
  m <| cpu_user ::= fun n => n + d |>.

Lemma demo_timers_ok : list_ok demo_timers.
Proof. split; [repeat constructor; cbn; lia | reflexivity]. Qed.

Lemma add_timer_refines_witness :
  deadlines 0 (add_timer (Some (mk_timer 4 4 0 0)) demo_timers)
  = [(2, (1%nat, 10, 0%nat)); (4, (4%nat, 0, 0%nat)); (5, (2%nat, 20, 0%nat)); (5, (3%nat, 30, 0%nat))].
Proof.
  destruct (add_timer_refines (mk_timer 4 4 0 0) demo_timers) as [_ H];
    [apply demo_timers_ok | cbn; lia | rewrite H; reflexivity].
Defined.

Lemma del_timer_refines_witness :
  let '(r, t, l) := del_timer 2 demo_timers in
  (r = 1 /\ option_map expires t = Some 5 /\ deadlines 0 l = [(2, (1%nat, 10, 0%nat)); (5, (3%nat, 30, 0%nat))]) /\
  list_ok l.
Proof.
  pose proof (del_timer_refines 2 demo_timers demo_timers_ok) as H.
  assert (let '(r, t, l) := del_timer 2 demo_timers in
    r = 1 /\ option_map expires t = Some 5 /\ deadlines 0 l = [(2, (1%nat, 10, 0%nat)); (5, (3%nat, 30, 0%nat))])
    as C by (by vm_compute).
  destruct (del_timer 2 demo_timers) as [[r t] l]. split; [exact C | apply H].
Defined.

Lemma add_del_timer_witness :
  (del_timer 4 (add_timer (Some (mk_timer 4 4 0 0)) demo_timers)).1.1 = 1.
Proof.
  pose proof (add_del_timer (mk_timer 4 4 0 0) demo_timers demo_timers_ok) as H.
  change (t_id (mk_timer 4 4 0 0)) with 4%nat in H.
  destruct (del_timer 4 _) as [[r t] l]. apply H; [cbn; lia |].
  intros p Hp. cbn in Hp. set_solver by (subst; done).
Defined.


(** ** Properties: interval timers *)

Definition usecs (t : timeval) : Z := tv_sec t * 1000000 + tv_usec t.
Definition timeval_ok (t : timeval) : Prop := 0 <= tv_sec t < 2 ^ 24 /\ 0 <= tv_usec t < 1000000.

Lemma tvtojiffies_ceil t :
  timeval_ok t -> 0 <= tvtojiffies t < 2 ^ 31 /\ usecs t <= tvtojiffies t * 10000 < usecs t + 10000.
Proof.
  intros [Hs Hu]. unfold tvtojiffies, usecs, HZ. change (1000000 / 100) with 10000.
  rewrite (u32_small (tv_sec t)), (u32_small (tv_usec t + _)) by lia.
  assert (tv_usec t <= (tv_usec t + (10000 - 1)) / 10000 * 10000 < tv_usec t + 10000)
    by (Z.to_euclidean_division_equations; lia).
  rewrite u32_small by lia. lia.
Qed.

Lemma jiffiestotv_usecs j : 0 <= j -> usecs (jiffiestotv j) = j * 10000.
Proof.
  intros. unfold usecs, jiffiestotv, HZ. cbn [tv_sec tv_usec]. change (1000000 / 100) with 10000.
  Z.to_euclidean_division_equations. lia.
Qed.



(** ** Properties: the load average *)

Lemma CALC_LOAD_between load exp n :
  0 <= load <= 2 ^ 20 -> 0 <= n <= 2 ^ 20 -> 0 <= exp <= FIXED_1 ->
  Z.min load n <= CALC_LOAD load exp n <= Z.max load n.
Proof.
  change FIXED_1 with 2048. intros Hl Hn He. unfold CALC_LOAD. change FIXED_1 with 2048.
  rewrite (u32_small (load * exp)), (u32_small (n * _)), u32_small by nia.
  rewrite Z.shiftr_div_pow2 by done. change (2 ^ FSHIFT) with 2048. split.
  - apply Z.div_le_lower_bound; nia.
  - apply Z.lt_succ_r, Z.div_lt_upper_bound; nia.
Qed.

Lemma count_active_exact s :
  (length (slots_down s) <= 512)%nat ->
  count_active_tasks s
  = FIXED_1 * Z.of_nat (length (filter (fun p => active (state (tsk s p)) = true) (slots_down s))).
Proof.
  unfold count_active_tasks. change FIXED_1 with 2048. induction (slots_down s) as [| p l IH] using rev_ind; [done |].
  rewrite length_app, foldl_app. cbn [length foldl]. intros Hl. rewrite IH by lia.
  pose proof (length_filter (fun p => active (state (tsk s p)) = true) l) as Hf.
  rewrite filter_app, filter_cons, filter_nil, length_app.
  destruct (active _); cbn [length decide_rel decide]; repeat case_decide; try done; cbn [length];
    rewrite ?u32_small by lia; lia.
Qed.

(** The load averages are averages.  When the tasks fill at most 128
    slots and the averages are at most that many tasks, [calc_load] counts
    exactly the active tasks, moves each average towards that number without
    overshooting (and without overflowing its unsigned long), once every
    [LOAD_FREQ + 1] ticks, and leaves it alone otherwise. *)
Theorem calc_load_between m :
  (length (slots_down (ks m)) <= 128)%nat ->
  let '(a1, a5, a15) := avenrun m in
  0 <= a1 <= 128 * FIXED_1 -> 0 <= a5 <= 128 * FIXED_1 -> 0 <= a15 <= 128 * FIXED_1 ->
  let n := FIXED_1 * Z.of_nat (length (filter
             (fun p => active (state (tsk (ks m) p)) = true) (slots_down (ks m)))) in
  let '(b1, b5, b15) := avenrun (calc_load m) in
  if 0 <? load_count m
  then (b1, b5, b15) = (a1, a5, a15) /\ load_count (calc_load m) = load_count m - 1
  else Z.min a1 n <= b1 <= Z.max a1 n /\ Z.min a5 n <= b5 <= Z.max a5 n /\
       Z.min a15 n <= b15 <= Z.max a15 n /\ load_count (calc_load m) = LOAD_FREQ.
Proof.
  intros Hlen. destruct (avenrun m) as [[a1 a5] a15] eqn:Ea. intros H1 H5 H15. cbv zeta.
  pose proof (count_active_exact (ks m) ltac:(lia)) as Hn.
  pose proof (length_filter (fun p => active (state (tsk (ks m) p)) = true) (slots_down (ks m))) as Hf.
  set (n := FIXED_1 * Z.of_nat _) in *.
  assert (0 <= n <= 2 ^ 20) as Hnb by (subst n; change FIXED_1 with 2048; lia).
  clearbody n. change FIXED_1 with 2048 in *.
  unfold calc_load. rewrite Ea, Hn. destruct (0 <? load_count m); cbn -[CALC_LOAD].
  - rewrite Ea. done.
  - split_and!; try apply CALC_LOAD_between; try done; try lia;
      unfold FIXED_1, EXP_1, EXP_5, EXP_15, FSHIFT; cbn; lia.
Qed.

Lemma calc_load_between_witness :
  let m := demo_machine <| load_count := 0 |> <| avenrun := (FIXED_1, 0, 3 * FIXED_1) |> in
  FIXED_1 <= (avenrun (calc_load m)).1.1 <= 2 * FIXED_1.
Proof.
  pose proof (calc_load_between
    (demo_machine <| load_count := 0 |> <| avenrun := (FIXED_1, 0, 3 * FIXED_1) |>)) as H.
  vm_compute in H. vm_compute. destruct H as [H _];
    [lia | split; congruence | split; congruence | split; congruence | exact H].
Defined.

(** ** Properties: the accounting of the timer interrupt *)

Definition times_of (t : task_struct) := (utime t, stime t).

Lemma deliver_times sig t : times_of (deliver sig t) = times_of t.
Proof. unfold deliver, sig_side_effects. by repeat split_if. Qed.

(** A signal the kernel sends changes no time. *)
Lemma keeps_times_signal sig p s :
  0 <= sig <= 32 -> keeps times_of s (send_sig sig (Some p) 1 s).2.
Proof. intros. eapply keeps_updates; [by apply send_sig_priv | apply deliver_times]. Qed.

(** An interval timer that counts down and perhaps signals. *)
Lemma keeps_times_timer sig p (f g : task_struct -> task_struct) (b1 b2 : bool) s :
  0 <= sig <= 32 -> (forall t, times_of (f t) = times_of t) -> (forall t, times_of (g t) = times_of t) ->
  keeps times_of s
    (if b1 then
       if b2 then upd_tsk p f s else (send_sig sig (Some p) 1 (upd_tsk p g (upd_tsk p f s))).2
     else s).
Proof.
  intros Hs Hf Hg. destruct b1, b2; try apply keeps_refl; try by apply keeps_upd.
  apply (keeps_trans _ _ (upd_tsk p f s)); [by apply keeps_upd |].
  apply (keeps_trans _ _ (upd_tsk p g (upd_tsk p f s))); [by apply keeps_upd |].
  by apply keeps_times_signal.
Qed.

Lemma keeps_times_tick s : keeps times_of s (charge_tick s).
Proof.
  unfold charge_tick. set (idle := bool_decide _). set (s1 := if idle then s else _).
  assert (keeps times_of s s1) as H1
    by (subst s1; destruct idle; [apply keeps_refl | by apply keeps_upd]).
  destruct (_ || _); [| done].
  apply (keeps_trans _ _ s1); [done |].
  by apply (keeps_upd _ (current s1) (fun t => t <| counter := 0 |>) s1).
Qed.

(** The task state of the machine through the stages of [do_timer]. *)
Definition charged (user : bool) (s : kstate) : kstate :=
  upd_tsk (current s)
    (fun t => if user then t <| utime ::= fun u => s32 (u + 1) |>
              else t <| stime ::= fun u => s32 (u + 1) |>) s.

Lemma charge_cpu_times user m : keeps times_of (charged user (ks m)) (ks (charge_cpu user m)).
Proof.
  unfold charge_cpu, charged. destruct user; [| apply keeps_refl].
  set (s := upd_tsk _ _ (ks m)). set (p := current (ks m)).
  set (s1 := upd_tsk p (fun t => t <| it_virt_value ::= fun v => u32 (v - 1) |>) s).
  apply (keeps_times_timer SIGVTALRM p _ (fun t => t <| it_virt_value := it_virt_incr t |>)
    (ctrue (it_virt_value (tsk s p))) (ctrue (it_virt_value (tsk s1 p))) s); done.
Qed.

Lemma charge_prof_times s : keeps times_of s (charge_prof s).
Proof.
  unfold charge_prof. set (p := current s).
  set (s1 := upd_tsk p (fun t => t <| it_prof_value ::= fun v => u32 (v - 1) |>) s).
  apply (keeps_times_timer SIGPROF p _ (fun t => t <| it_prof_value := it_prof_incr t |>)
    (ctrue (it_prof_value (tsk s p))) (ctrue (it_prof_value (tsk s1 p))) s); done.
Qed.

Lemma calc_load_ks m : ks (calc_load m) = ks m.
Proof. unfold calc_load. split_if; [done |]. by destruct (avenrun m) as [[? ?] ?]. Qed.
Lemma tick_timers_ks m : ks (tick_timers m) = ks m.
Proof. unfold tick_timers. destruct (next_timer m); [done |]. by split_if. Qed.

(** The last stages see the task state only through the [itimer] counters. *)
Lemma finish_tick m :
  let m1 := m <| ks ::= fun s => s <| itimer_ticks ::= fun n => u32 (n + 1) |> |> in
  let m2 := if itimer_next (ks m1) <? itimer_ticks (ks m1)
            then m1 <| ks ::= fun s => s <| need_resched := true |> |> else m1 in
  tasks (ks m2) = tasks (ks m) /\ same_frame (ks m) (ks m2).
Proof. cbv zeta. split_if; (split; [done | by repeat split]). Qed.

Lemma mark_tick m :
  ks (if old_timer_due 32 0 m then m <| timer_bh_marked := true |> else m) = ks m.
Proof. by split_if. Qed.

Lemma do_timer_stages set_rtc eflags cs m :
  let user := flag VM_MASK eflags || flag 3 cs in
  let s0 := ks m <| jiffies ::= fun j => u32 (j + 1) |> in
  let s' := ks (do_timer set_rtc eflags cs m) in
  exists s1, keeps times_of (charged user s0) s1 /\ tasks s' = tasks s1 /\ same_frame s1 s'.
Proof.
  unfold do_timer. cbv zeta. generalize (flag VM_MASK eflags || flag 3 cs); intros user.
  set (m0 := calc_load _).
  assert (ks m0 = ks m <| jiffies ::= fun j => u32 (j + 1) |>) as <- by apply calc_load_ks.
  clearbody m0. set (m1 := charge_cpu user m0).
  assert (keeps times_of (charged user (ks m0)) (ks m1)) as H1 by apply charge_cpu_times.
  clearbody m1. set (m2 := m1 <| ks ::= charge_tick |> <| ks ::= charge_prof |>).
  assert (keeps times_of (ks m1) (ks m2)) as H2
    by (eapply keeps_trans; [apply keeps_times_tick | apply charge_prof_times]).
  clearbody m2. exists (ks m2). split; [by eapply keeps_trans |].
  rewrite tick_timers_ks. pose proof (mark_tick m2) as <-.
  set (m3 := if old_timer_due 32 0 m2 then _ else _). clearbody m3. apply finish_tick.
Qed.

(** Every timer interrupt accounts for one tick.  [do_timer] advances
    [jiffies] by one and charges exactly one tick, to the user time of the
    running task when the interrupt hit user mode (or virtual 8086 mode) and
    to its system time otherwise; no other task's times change, whatever
    timers expire and whatever signals they send. *)
Theorem do_timer_accounting set_rtc eflags cs m :
  let user := flag VM_MASK eflags || flag 3 cs in
  let s := ks m in let s' := ks (do_timer set_rtc eflags cs m) in
  jiffies s' = u32 (jiffies s + 1) /\ current s' = current s /\ task_list s' = task_list s /\
  forall q, times_of (tsk s' q)
    = if decide (current s = q)
      then (if user then s32 (utime (tsk s q) + 1) else utime (tsk s q),
            if user then stime (tsk s q) else s32 (stime (tsk s q) + 1))
      else times_of (tsk s q).
Proof.
  pose proof (do_timer_stages set_rtc eflags cs m) as Hst. cbv zeta in Hst |- *.
  set (s := ks m) in *. set (s' := ks (do_timer set_rtc eflags cs m)) in *.
  set (user := flag VM_MASK eflags || flag 3 cs) in *. clearbody s' user.
  destruct Hst as (s1 & [F1 H1] & Et & F2).
  set (s0 := s <| jiffies ::= fun j => u32 (j + 1) |>) in *.
  destruct F1 as (L1 & _ & C1 & J1), F2 as (L2 & _ & C2 & J2).
  split_and!; [by rewrite J2, J1 | by rewrite C2, C1 | by rewrite L2, L1 |].
  intros q. assert (tsk s' q = tsk s1 q) as -> by (unfold tsk; by rewrite Et).
  rewrite H1. unfold charged. rewrite tsk_upd. change (tsk s0 q) with (tsk s q).
  change (current s0) with (current s). change (tsk s0 (current s)) with (tsk s (current s)).
  case_decide as E; [| done]. rewrite <- E. by destruct user.
Qed.
