(* ===== verification/Sys.v ===== *)
(** Process attributes (kernel/sys.c): priorities, user and group ids, process
    groups and sessions, supplementary groups, host names, resource limits and
    usage.  [sys_brk], [sys_vm86] and the calls that only return [-ENOSYS] or
    copy the system's name are not modelled. *)

From S2P Require Import Prelude Errno Task Signal Sched.

(** An update of the current task. *)
Definition upd_cur (f : task_struct -> task_struct) (s : kstate) : kstate := upd_tsk (current s) f s.

(** ** Priorities *)

(** include/linux/resource.h:68-70 whose priority *)
Definition PRIO_PROCESS := 0.
Definition PRIO_PGRP := 1.
Definition PRIO_USER := 2.

(** kernel/sys.c:31-31 [PZERO] *)
Definition PZERO := 15.

(** kernel/sys.c:33-50 [proc_sel] *)
Definition proc_sel (s : kstate) (p : tptr) (which who : Z) : bool :=
  if which =? PRIO_PROCESS then
    ((who =? 0) && bool_decide (p = current s)) || (pid (tsk s p) =? who)
  else if which =? PRIO_PGRP then
    pgrp (tsk s p) =? (if who =? 0 then pgrp (cur s) else who)
  else if which =? PRIO_USER then
    uid (tsk s p) =? (if who =? 0 then uid (cur s) else who)
  else false.

(** kernel/sys.c:64-78 the loop of [sys_setpriority] *)
Fixpoint setpriority_loop (which who prio : Z) (l : list tptr) (error : Z) (s : kstate) : Z * kstate :=
  match l with
  | [] => (error, s)
  | p :: l =>
      if negb (proc_sel s p which who) then setpriority_loop which who prio l error s
      else if negb (uid (tsk s p) =? euid (cur s)) && negb (uid (tsk s p) =? uid (cur s))
              && negb (suser (cur s))
      then setpriority_loop which who prio l EPERM s
      else
        let error := if error =? ESRCH then 0 else error in
        if (priority (tsk s p) <? prio) && negb (suser (cur s))
        then setpriority_loop which who prio l EACCES s
        else setpriority_loop which who prio l error
               (upd_tsk p (fun t => t <| priority := prio |>) s)
  end.

(** kernel/sys.c:52-80 [sys_setpriority] *)
Definition sys_setpriority (which who niceval : Z) (s : kstate) : Z * kstate :=
  if (2 <? which) || (which <? 0) then (- EINVAL, s) else
  let prio := s32 (PZERO - niceval) in
  let prio := if prio <=? 0 then 1 else prio in
  let '(error, s) := setpriority_loop which who prio (slots_down s) ESRCH s in
  (- error, s).

(** kernel/sys.c:82-97 [sys_getpriority] *)
Definition sys_getpriority (which who : Z) (s : kstate) : Z :=
  if (2 <? which) || (which <? 0) then - EINVAL else
  let max_prio := foldl (fun m p =>
    if proc_sel s p which who && (m <? priority (tsk s p)) then priority (tsk s p) else m)
    0 (slots_down s) in
  if ctrue max_prio then max_prio else - ESRCH.

(** ** Rebooting *)

(** kernel/sys.c:212-227 [sys_reboot]: the result and the new [C_A_D]; [None]
    is the reset of the machine.  The arguments are [int]s. *)
Definition sys_reboot (su : bool) (magic magic_too flag C_A_D : Z) : option (Z * Z) :=
  if negb su then Some (- EPERM, C_A_D)
  else if negb (u32 magic =? 0xfee1dead) || negb (magic_too =? 672274793) then Some (- EINVAL, C_A_D)
  else if flag =? 0x01234567 then None
  else if u32 flag =? 0x89ABCDEF then Some (0, 1)
  else if flag =? 0 then Some (0, 0)
  else Some (- EINVAL, C_A_D).

(** kernel/sys.c:234-240 [ctrl_alt_del]; [None] is the reset *)
Definition ctrl_alt_del (C_A_D : Z) (s : kstate) : option kstate :=
  if ctrue C_A_D then None else Some (send_sig SIGINT (task_slot s 1) 1 s).2.

(** ** User and group ids

    A [uid_t] or [gid_t] is an unsigned short; [NO_ID] is the -1 that leaves an
    id alone. *)
Definition NO_ID := 65535.

(** kernel/sys.c:256-280 [sys_setregid] *)
Definition sys_setregid (rgid eg : Z) (s : kstate) : Z * kstate :=
  let old_rgid := gid (cur s) in
  let first :=
    if negb (rgid =? NO_ID) then
      if (egid (cur s) =? rgid) || (old_rgid =? rgid) || suser (cur s)
      then Some (upd_cur (fun t => t <| gid := rgid |>) s) else None
    else Some s in
  match first with
  | None => (- EPERM, s)
  | Some s =>
      if negb (eg =? NO_ID) then
        if (old_rgid =? eg) || (egid (cur s) =? eg) || suser (cur s)
        then (0, upd_cur (fun t => t <| egid := eg |> <| sgid := eg |>) s)
        else (- EPERM, upd_cur (fun t => t <| gid := old_rgid |>) s)
      else (0, s)
  end.

(** kernel/sys.c:287-296 [sys_setgid] *)
Definition sys_setgid (g : Z) (s : kstate) : Z * kstate :=
  if suser (cur s) then (0, upd_cur (fun t => t <| gid := g |> <| egid := g |> <| sgid := g |>) s)
  else if (g =? gid (cur s)) || (g =? sgid (cur s))
  then (0, upd_cur (fun t => t <| egid := g |>) s)
  else (- EPERM, s).

(** kernel/sys.c:341-365 [sys_setreuid] *)
Definition sys_setreuid (ruid eu : Z) (s : kstate) : Z * kstate :=
  let old_ruid := uid (cur s) in
  let first :=
    if negb (ruid =? NO_ID) then
      if (euid (cur s) =? ruid) || (old_ruid =? ruid) || suser (cur s)
      then Some (upd_cur (fun t => t <| uid := ruid |>) s) else None
    else Some s in
  match first with
  | None => (- EPERM, s)
  | Some s =>
      if negb (eu =? NO_ID) then
        if (old_ruid =? eu) || (euid (cur s) =? eu) || suser (cur s)
        then (0, upd_cur (fun t => t <| euid := eu |> <| suid := eu |>) s)
        else (- EPERM, upd_cur (fun t => t <| uid := old_ruid |>) s)
      else (0, s)
  end.

(** kernel/sys.c:378-387 [sys_setuid] *)
Definition sys_setuid (u : Z) (s : kstate) : Z * kstate :=
  if suser (cur s) then (0, upd_cur (fun t => t <| uid := u |> <| euid := u |> <| suid := u |>) s)
  else if (u =? uid (cur s)) || (u =? suid (cur s))
  then (0, upd_cur (fun t => t <| euid := u |>) s)
  else (- EPERM, s).

(** kernel/sys.c:389-401 [sys_times]: the result and the four times stored *)
Definition sys_times (tbuf : bool) (va : Z) (s : kstate) : Z * option (Z * Z * Z * Z) :=
  let t := cur s in
  if tbuf then
    if ctrue va then (va, None)
    else (s32 (jiffies s), Some (utime t, stime t, cutime t, cstime t))
  else (s32 (jiffies s), None).

(** ** Process groups and sessions *)

(** kernel/sys.c:499-502 the search for a task by its pid *)
Definition find_pid (pd : Z) (s : kstate) : option tptr :=
  snd <$> list_find (fun p => pid (tsk s p) = pd) (for_each_task s).

(** kernel/sys.c:488-533 [sys_setpgid] *)
Definition sys_setpgid (pd pgid : Z) (s : kstate) : Z * kstate :=
  let c := current s in
  let pd := if pd =? 0 then pid (cur s) else pd in
  let pgid := if pgid =? 0 then pd else pgid in
  if pgid <? 0 then (- EINVAL, s) else
  match find_pid pd s with
  | None => (- ESRCH, s)
  | Some p =>
      let t := tsk s p in
      let err :=
        if bool_decide (p_pptr t = c) || bool_decide (p_opptr t = c) then
          if negb (session t =? session (cur s)) then - EPERM
          else if did_exec t then - EACCES else 0
        else if bool_decide (p <> c) then - ESRCH else 0 in
      if ctrue err then (err, s)
      else if leader t then (- EPERM, s)
      else if negb (pgid =? pd) &&
              negb (existsb (fun q => (pgrp (tsk s q) =? pgid) &&
                                      (session (tsk s q) =? session (cur s))) (for_each_task s))
      then (- EPERM, s)
      else (0, upd_tsk p (fun t => t <| pgrp := pgid |>) s)
  end.

(** kernel/sys.c:536-549 [sys_getpgid] *)
Definition sys_getpgid (pd : Z) (s : kstate) : Z :=
  if pd =? 0 then pgrp (cur s)
  else match find_pid pd s with Some p => pgrp (tsk s p) | None => - ESRCH end.

(** kernel/sys.c:552-555 [sys_getpgrp] *)
Definition sys_getpgrp (s : kstate) : Z := pgrp (cur s).

(** kernel/sys.c:557-571 [sys_setsid] *)
Definition sys_setsid (s : kstate) : Z * kstate :=
  if leader (cur s) then (- EPERM, s)
  else
    let s := upd_cur (fun t => t <| leader := true |> <| pgrp := pid t |> <| session := pid t |>
                                 <| tty := -1 |>) s in
    (pgrp (cur s), s).

(** ** Supplementary groups

    [groups] has [NGROUPS] entries; the first [NOGROUP] ends the list. *)

(** kernel/sys.c:588-595 the loop of [sys_getgroups] from index [i], with [room]
    entries left in the user's array: the groups stored and the last [i] *)
Fixpoint getgroups_loop (gs : list Z) (i gidsetsize : Z) : list Z * Z :=
  match gs with
  | [] => ([], i)
  | g :: gs =>
      if g =? NOGROUP then ([], i)
      else if gidsetsize =? 0 then getgroups_loop gs (i + 1) gidsetsize
      else if gidsetsize <=? i then ([], i)
      else let '(out, n) := getgroups_loop gs (i + 1) gidsetsize in (u16 g :: out, n)
  end.

(** kernel/sys.c:578-597 [sys_getgroups] *)
Definition sys_getgroups (gidsetsize va : Z) (s : kstate) : Z * list Z :=
  if ctrue gidsetsize && ctrue va then (va, [])
  else let '(out, n) := getgroups_loop (firstn (Z.to_nat NGROUPS) (groups (cur s))) 0 gidsetsize in
       (n, out).

(** kernel/sys.c:608-612 the loop of [sys_setgroups]: [grouplist] is the user's
    array, whose values are unsigned shorts *)
Definition set_groups (gidsetsize : Z) (grouplist gs : list Z) : list Z :=
  let n := Z.to_nat gidsetsize in
  let gs := map u16 (firstn n grouplist) ++ skipn n gs in
  if gidsetsize <? NGROUPS then zupd gs (Z.max 0 gidsetsize) NOGROUP else gs.

(** kernel/sys.c:600-614 [sys_setgroups] *)
Definition sys_setgroups (gidsetsize : Z) (grouplist : list Z) (s : kstate) : Z * kstate :=
  if negb (suser (cur s)) then (- EPERM, s)
  else if NGROUPS <? gidsetsize then (- EINVAL, s)
  else (0, upd_cur (fun t => t <| groups ::= set_groups gidsetsize grouplist |>) s).

(** kernel/sys.c:624-629 the loop of [in_group_p] *)
Fixpoint in_groups (grp : Z) (gs : list Z) : bool :=
  match gs with
  | [] => false
  | g :: gs => if g =? NOGROUP then false else if g =? grp then true else in_groups grp gs
  end.

(** kernel/sys.c:617-631 [in_group_p] *)
Definition in_group_p (grp : Z) (s : kstate) : bool :=
  (grp =? egid (cur s)) || in_groups grp (firstn (Z.to_nat NGROUPS) (groups (cur s))).

(** ** Host names *)

(** include/linux/utsname.h:14-14 [__NEW_UTS_LEN] *)
Definition __NEW_UTS_LEN := 64.

(** kernel/sys.c:701-705 the loop of [sys_sethostname] from index [i]: [name]
    is the user's string from there on *)
Fixpoint copy_name (name buf : list Z) (i : Z) (n : nat) : list Z :=
  match n with
  | O => zupd buf i 0
  | S n =>
      let c := hd 0 name in
      let buf := zupd buf i c in
      if c =? 0 then buf else copy_name (tl name) buf (i + 1) n
  end.

(** kernel/sys.c:693-707 [sys_sethostname] on [system_utsname.nodename] *)
Definition sys_sethostname (su : bool) (name : list Z) (len : Z) (nodename : list Z) : Z * list Z :=
  if negb su then (- EPERM, nodename)
  else if __NEW_UTS_LEN <? len then (- EINVAL, nodename)
  else (0, copy_name name nodename 0 (Z.to_nat len)).

(** kernel/sys.c:713-727 [sys_setdomainname] on [system_utsname.domainname] *)
Definition sys_setdomainname (su : bool) (name : list Z) (len : Z) (domainname : list Z) :
    Z * list Z :=
  if negb su then (- EPERM, domainname)
  else if __NEW_UTS_LEN <? len then (- EINVAL, domainname)
  else (0, copy_name name domainname 0 (Z.to_nat len)).

(** ** Resources *)

(** include/linux/resource.h:56-56 [RLIM_NLIMITS] *)
Definition RLIM_NLIMITS := 6.
Definition rlim_default : rlimit := mk_rlimit 0 0.

(** kernel/sys.c:731-745 [sys_getrlimit]; [resource] is unsigned *)
Definition sys_getrlimit (resource va : Z) (s : kstate) : Z * option rlimit :=
  if RLIM_NLIMITS <=? u32 resource then (- EINVAL, None)
  else if ctrue va then (va, None)
  else (0, Some (znth rlim_default (rlim (cur s)) resource)).

(** kernel/sys.c:748-763 [sys_setrlimit]; the limits are [int]s *)
Definition sys_setrlimit (resource : Z) (new_rlim : rlimit) (s : kstate) : Z * kstate :=
  if RLIM_NLIMITS <=? u32 resource then (- EINVAL, s) else
  let old_rlim := znth rlim_default (rlim (cur s)) resource in
  if ((rlim_max old_rlim <? rlim_cur new_rlim) || (rlim_max old_rlim <? rlim_max new_rlim))
     && negb (suser (cur s))
  then (- EPERM, s)
  else (0, upd_cur (fun t => t <| rlim ::= fun l => zupd l resource new_rlim |>) s).

(** include/linux/resource.h:15-17 whose usage *)
Definition RUSAGE_SELF := 0.
Definition RUSAGE_CHILDREN := -1.
Definition RUSAGE_BOTH := -2.

(** include/linux/sched.h:69-70 [CT_TO_SECS] and [CT_TO_USECS] *)
Definition CT_TO_SECS (x : Z) : Z := Z.quot x HZ.
Definition CT_TO_USECS (x : Z) : Z := Z.quot (s32 (Z.rem x HZ * 1000000)) HZ.

(** include/linux/resource.h:20-37 [struct rusage], the fields that are not
    always zero *)
Record rusage := mk_rusage {
  ru_utime : Z * Z; ru_stime : Z * Z; ru_minflt : Z; ru_majflt : Z;
}.

(** kernel/sys.c:775-817 [getrusage]: the result, and what is stored *)
Definition getrusage (t : task_struct) (who va : Z) : Z * option rusage :=
  let usage u s mi ma :=
    Some (mk_rusage (CT_TO_SECS u, CT_TO_USECS u) (CT_TO_SECS s, CT_TO_USECS s) mi ma) in
  if ctrue va then (va, None)
  else (0,
    if who =? RUSAGE_SELF then usage (utime t) (stime t) (min_flt t) (maj_flt t)
    else if who =? RUSAGE_CHILDREN then usage (cutime t) (cstime t) (cmin_flt t) (cmaj_flt t)
    else usage (s32 (utime t + cutime t)) (s32 (stime t + cstime t))
           (s32 (min_flt t + cmin_flt t)) (s32 (maj_flt t + cmaj_flt t))).

(** kernel/sys.c:820-828 [sys_getrusage] *)
Definition sys_getrusage (who va : Z) (s : kstate) : Z * option rusage :=
  if negb (who =? RUSAGE_SELF) && negb (who =? RUSAGE_CHILDREN) then (- EINVAL, None)
  else getrusage (cur s) who va.

(** kernel/sys.c:831-837 [sys_umask] *)
Definition sys_umask (mask : Z) (s : kstate) : Z * kstate :=
  (umask (cur s), upd_cur (fun t => t <| umask := Z.land mask S_IRWXUGO |>) s).

(** ** Properties: privileges *)

Definition uids (t : task_struct) : list Z := [uid t; euid t; suid t].
Definition gids (t : task_struct) : list Z := [gid t; egid t; sgid t].

(** The calls that change ids, with any arguments. *)
Inductive id_call : kstate -> kstate -> Prop :=
| call_setuid u s : id_call s (sys_setuid u s).2
| call_setreuid r e s : id_call s (sys_setreuid r e s).2
| call_setgid g s : id_call s (sys_setgid g s).2
| call_setregid r e s : id_call s (sys_setregid r e s).2.

(** [s'] is [s] where the caller's ids were taken from the ids it had. *)
Definition ids_shrink (s s' : kstate) : Prop :=
  same_frame s s' /\ (forall q, q <> current s -> tsk s' q = tsk s q) /\
  incl (uids (cur s')) (uids (cur s)) /\ incl (gids (cur s')) (gids (cur s)).

Lemma ids_shrink_upd f s :
  incl (uids (f (cur s))) (uids (cur s)) -> incl (gids (f (cur s))) (gids (cur s)) ->
  ids_shrink s (upd_cur f s).
Proof.
  intros Hu Hg. split; [by repeat split |]. split_and!.
  - intros q Hq. apply tsk_upd_ne. congruence.
  - unfold upd_cur. by rewrite upd_tsk_current, tsk_upd_eq.
  - unfold upd_cur. by rewrite upd_tsk_current, tsk_upd_eq.
Qed.
Lemma ids_shrink_refl s : ids_shrink s s.
Proof. split; [by repeat split |]. split_and!; [done | apply incl_refl | apply incl_refl]. Qed.
Lemma ids_shrink_trans s1 s2 s3 : ids_shrink s1 s2 -> ids_shrink s2 s3 -> ids_shrink s1 s3.
Proof.
  intros (F1 & Q1 & U1 & G1) (F2 & Q2 & U2 & G2). pose proof F1 as (_ & _ & Hc & _).
  split; [by eapply same_frame_trans |]. split_and!.
  - intros q Hq. rewrite Q2 by congruence. by apply Q1.
  - by eapply incl_tran.
  - by eapply incl_tran.
Qed.

(** Two successive updates of the caller are one. *)
Lemma upd_cur_comp f g s : upd_cur g (upd_cur f s) = upd_cur (fun t => g (f t)) s.
Proof. unfold upd_cur. rewrite upd_tsk_current. apply upd_tsk_comp. Qed.
Lemma cur_upd_cur f s : cur (upd_cur f s) = f (cur s).
Proof. unfold upd_cur. by rewrite upd_tsk_current, tsk_upd_eq. Qed.

(** Every outcome of an unprivileged call: all its tests, all its updates. *)
Ltac or_cases :=
  repeat match goal with
  | H : _ || _ = true |- _ => apply orb_true_iff in H
  | H : _ = true \/ _ = true |- _ => destruct H
  end; bool_simp.
Ltac id_cases :=
  repeat (case_match; simplify_eq; bool_simp); try lia;
  rewrite ?upd_cur_comp; try apply ids_shrink_refl; apply ids_shrink_upd;
  unfold suser in *; rewrite ?cur_upd_cur in *; cbn in *; or_cases; try lia;
  intros x Hx; cbn in *; intuition (subst; auto; congruence).

Lemma id_call_shrink s s' : suser (cur s) = false -> id_call s s' -> ids_shrink s s'.
Proof.
  intros Hsu Hcall. destruct Hcall as [u s | r e s | g s | r e s].
  - unfold sys_setuid. rewrite Hsu. id_cases.
  - unfold sys_setreuid. rewrite Hsu. id_cases.
  - unfold sys_setgid. rewrite Hsu. id_cases.
  - unfold sys_setregid. rewrite Hsu. id_cases.
Qed.

(** C27: Dropped privileges stay dropped.  Once a process has no uid 0 among
    its real, effective and saved ids, no sequence of [setuid], [setreuid],
    [setgid] and [setregid] calls gives it any user or group id that it does
    not have already; in particular it never becomes the super user again, and
    no call changes another process. *)
Theorem ids_no_escalation s s' :
  0 ∉ uids (cur s) -> rtc id_call s s' ->
  incl (uids (cur s')) (uids (cur s)) /\ incl (gids (cur s')) (gids (cur s)) /\
  suser (cur s') = false /\ forall q, q <> current s -> tsk s' q = tsk s q.
Proof.
  intros H0 Hs.
  assert (forall t, incl (uids t) (uids (cur s)) -> suser t = false) as Hsu.
  { intros t Ht. apply Z.eqb_neq. intros E. apply H0. rewrite <- E.
    apply list_elem_of_In, Ht. cbn. auto. }
  assert (ids_shrink s s') as (_ & Q & U & G).
  { induction Hs as [s | s s1 s2 Hcall Hs IH]; [apply ids_shrink_refl |].
    assert (ids_shrink s s1) as H1 by (apply id_call_shrink; [apply Hsu, incl_refl | done]).
    eapply ids_shrink_trans; [done |]. destruct H1 as (_ & _ & U1 & _). apply IH.
    - intros H. apply H0, list_elem_of_In, U1, list_elem_of_In, H.
    - intros t Ht. apply Hsu. by eapply incl_tran. }
  split_and!; auto.
Qed.

Definition demo_user : kstate :=
  mk_kstate (list_to_map
    [(1%nat, INIT_TASK <| uid := 100 |> <| euid := 200 |> <| suid := 200 |> <| pid := 1 |>
               <| pgrp := 1 |> <| session := 1 |>);
     (2%nat, INIT_TASK <| pid := 2 |> <| pgrp := 2 |> <| session := 1 |> <| p_pptr := 1%nat |>);
     (3%nat, INIT_TASK <| pid := 3 |> <| pgrp := 2 |> <| session := 1 |> <| p_pptr := 2%nat |>)])
    [1%nat; 2%nat; 3%nat] [Some init_task; Some 1%nat; Some 2%nat; Some 3%nat] 1%nat
    false 0 0 0xffffffff 0.

Lemma demo_user_list p : p ∈ task_list demo_user -> p = 1%nat \/ p = 2%nat \/ p = 3%nat.
Proof. cbn. set_solver. Qed.

Lemma ids_no_escalation_witness :
  suser (cur (sys_setuid 0 (sys_setreuid 200 100 demo_user).2).2) = false.
Proof.
  apply (ids_no_escalation demo_user); [cbn; set_solver |].
  eapply rtc_l; [apply call_setreuid |]. eapply rtc_l; [apply call_setuid |]. apply rtc_refl.
Defined.

(** ** Properties: sessions and process groups *)

(** Pids are unique, the members of a process group are in one session, and a
    group named after a live process is in the session of that process. *)
Definition groups_ok (s : kstate) : Prop :=
  current s ∈ task_list s /\
  (forall p q, p ∈ task_list s -> q ∈ task_list s -> pid (tsk s p) = pid (tsk s q) -> p = q) /\
  (forall p q, p ∈ task_list s -> q ∈ task_list s -> pgrp (tsk s p) = pgrp (tsk s q) ->
               session (tsk s p) = session (tsk s q)) /\
  (forall p q, p ∈ task_list s -> q ∈ task_list s -> pgrp (tsk s q) = pid (tsk s p) ->
               session (tsk s q) = session (tsk s p)).

(** [setpgid] with any arguments, and [setsid] by a process whose pid names no
    group that others are in. *)
Inductive pg_call : kstate -> kstate -> Prop :=
| call_setpgid pd pgid s : pg_call s (sys_setpgid pd pgid s).2
| call_setsid s :
    (forall q, q ∈ task_list s -> q <> current s -> pgrp (tsk s q) <> pid (cur s)) ->
    pg_call s (sys_setsid s).2.

Lemma find_pid_spec pd s p : find_pid pd s = Some p -> p ∈ task_list s /\ pid (tsk s p) = pd.
Proof.
  unfold find_pid. intros ([i q] & H & E)%fmap_Some. cbn in E. subst q.
  apply list_find_Some in H as (H & ? & _). split; [by eapply list_elem_of_lookup_2 | done].
Qed.

(** A task joins a group of its session or its own group. *)
Lemma groups_ok_join s p g :
  groups_ok s -> p ∈ task_list s ->
  g = pid (tsk s p) \/
  (exists q, q ∈ task_list s /\ pgrp (tsk s q) = g /\ session (tsk s q) = session (tsk s p)) ->
  groups_ok (upd_tsk p (fun t => t <| pgrp := g |>) s).
Proof.
  intros (Hc & Hpid & Hgrp & Hname) Hp Hg. unfold groups_ok.
  set (s' := upd_tsk p _ s).
  assert (forall q, pid (tsk s' q) = pid (tsk s q) /\ session (tsk s' q) = session (tsk s q)) as Hsame.
  { intros q. split; subst s'; [by rewrite (tsk_upd_proj pid) | by rewrite (tsk_upd_proj session)]. }
  assert (forall q, pgrp (tsk s' q) = if decide (p = q) then g else pgrp (tsk s q)) as Hpg.
  { intros q. subst s'. rewrite tsk_upd. by case_decide. }
  change (task_list s') with (task_list s). change (current s') with (current s).
  assert (forall q, q ∈ task_list s -> pgrp (tsk s q) = g -> session (tsk s q) = session (tsk s p)) as Hjoin.
  { intros q Hq E. destruct Hg as [-> | (r & Hr & <- & <-)]; [by apply Hname | by apply Hgrp]. }
  assert (forall q, q ∈ task_list s -> pid (tsk s q) = g -> session (tsk s q) = session (tsk s p)) as Hjoin'.
  { intros q Hq E. destruct Hg as [-> | (r & Hr & <- & <-)]; [by rewrite (Hpid q p) |].
    symmetry. by apply Hname. }
  split_and!; [done | ..]; intros q r Hq Hr;
    rewrite ?(proj1 (Hsame q)), ?(proj1 (Hsame r)), ?(proj2 (Hsame q)), ?(proj2 (Hsame r)), ?Hpg.
  - by apply Hpid.
  - repeat case_decide; subst; intros E; auto; symmetry; auto.
  - repeat case_decide; subst; intros E; auto; symmetry; auto.
Qed.

Lemma setpgid_ok pd pgid s : groups_ok s -> groups_ok (sys_setpgid pd pgid s).2.
Proof.
  intros Hok. unfold sys_setpgid.
  set (pd' := if pd =? 0 then _ else pd). set (g := if pgid =? 0 then pd' else pgid).
  destruct (g <? 0); [done |]. destruct (find_pid pd' s) as [p |] eqn:Ef; [| done].
  apply find_pid_spec in Ef as [Hp Epid].
  set (err := if bool_decide _ || _ then _ else _).
  destruct (ctrue err) eqn:Ee; [done |]. destruct (leader (tsk s p)); [done |].
  destruct (negb (g =? pd') && _) eqn:Eg; [done |]. cbn [snd].
  apply groups_ok_join; [done | done |].
  assert (session (tsk s p) = session (cur s)) as Hsess.
  { unfold ctrue in Ee. apply negb_false_iff in Ee. subst err.
    destruct (bool_decide (p_pptr _ = _) || _).
    - destruct (Z.eqb_spec (session (tsk s p)) (session (cur s))); [done | by cbn in Ee].
    - case_bool_decide; [by cbn in Ee |]. by subst p. }
  destruct (Z.eqb_spec g pd') as [-> | Hne]; [by left | right].
  cbn [negb andb] in Eg. apply negb_false_iff, existsb_exists in Eg as (q & Hq & E).
  bool_simp. exists q. split_and!; [by apply list_elem_of_In | done | congruence].
Qed.

Lemma setsid_ok s :
  (forall q, q ∈ task_list s -> q <> current s -> pgrp (tsk s q) <> pid (cur s)) ->
  groups_ok s -> groups_ok (sys_setsid s).2.
Proof.
  intros Hno (Hc & Hpid & Hgrp & Hname). unfold sys_setsid. split_if; [done |]. cbn [snd].
  set (s' := upd_cur _ s). unfold groups_ok.
  change (task_list s') with (task_list s). change (current s') with (current s).
  assert (forall q, pid (tsk s' q) = pid (tsk s q)) as Hp
    by (intros q; subst s'; by apply (tsk_upd_proj pid)).
  assert (forall q, pgrp (tsk s' q) = if decide (current s = q) then pid (cur s) else pgrp (tsk s q)) as Hg
    by (intros q; subst s'; unfold upd_cur; rewrite tsk_upd; by case_decide).
  assert (forall q, session (tsk s' q) = if decide (current s = q) then pid (cur s) else session (tsk s q)) as Hs
    by (intros q; subst s'; unfold upd_cur; rewrite tsk_upd; by case_decide).
  split_and!; [done | ..]; intros q r Hq Hr; rewrite ?Hp, ?Hg, ?Hs; [by apply Hpid | ..];
    repeat case_decide; subst; intros E;
    first [done | by apply Hgrp | by apply Hname
          | match goal with
            | E : _ = pgrp (tsk s ?x) |- _ => by destruct (Hno x)
            | E : pgrp (tsk s ?x) = _ |- _ => by destruct (Hno x)
            | H : current s <> ?x |- _ => exfalso; apply H; by apply Hpid
            end].
Qed.

(** C28: A process group stays inside one session.  [setpgid] with any
    arguments, and [setsid] by a process that does not lead a group with other
    members, keep the process groups and the sessions consistent. *)
Theorem groups_invariant s s' : groups_ok s -> rtc pg_call s s' -> groups_ok s'.
Proof.
  intros H Hs. induction Hs as [| s s1 s2 Hcall _ IH]; [done |]. apply IH.
  destruct Hcall; [by apply setpgid_ok | by apply setsid_ok].
Qed.

Lemma demo_user_ok : groups_ok demo_user.
Proof.
  split_and!; [by left | ..]; intros p q Hp Hq;
    apply demo_user_list in Hp as [-> | [-> | ->]]; apply demo_user_list in Hq as [-> | [-> | ->]];
    vm_compute; congruence.
Qed.

Lemma groups_invariant_witness :
  groups_ok (sys_setpgid 2 1 demo_user).2 /\ pgrp (tsk (sys_setpgid 2 1 demo_user).2 2%nat) = 1.
Proof.
  split; [| reflexivity]. apply (groups_invariant demo_user); [apply demo_user_ok |].
  eapply rtc_l; [apply call_setpgid |]. apply rtc_refl.
Defined.

(** Without that condition [setsid] breaks a group: it refuses only leaders of
    a session, so the leader of a process group can move to a new session and
    leave the other members of its group behind in the old one. *)
Example setsid_splits_group :
  let s := demo_user <| current := 2%nat |> in
  let '(r, s') := sys_setsid s in
  r = 2 /\ pgrp (tsk s' 2%nat) = pgrp (tsk s' 3%nat) /\
  session (tsk s' 2%nat) = 2 /\ session (tsk s' 3%nat) = 1.
Proof. vm_compute. by split_and!. Qed.

(** ** Properties: supplementary groups *)

(** A list of groups in the array: the groups and what follows them. *)
Definition ends (rest : list Z) : Prop := match rest with [] => True | g :: _ => g = NOGROUP end.
Definition gid_ok (g : Z) : Prop := 0 <= g < 65536.

Lemma set_groups_spec l gs :
  Forall gid_ok l -> (length l <= length gs)%nat -> length gs = 32%nat ->
  exists rest, set_groups (Z.of_nat (length l)) l gs = l ++ rest /\ ends rest /\
    length (l ++ rest) = 32%nat.
Proof.
  intros Hl Hle Hlen. unfold set_groups. rewrite Nat2Z.id, firstn_all.
  assert (map u16 l = l) as ->.
  { clear Hle. induction Hl as [| g l Hg Hl IH]; [done |]. cbn. rewrite IH. f_equal.
    unfold gid_ok in Hg. by rewrite u16_small by lia. }
  destruct (Z.ltb_spec (Z.of_nat (length l)) NGROUPS) as [Hlt | Hge]; unfold NGROUPS in *.
  - exists (NOGROUP :: drop (S (length l)) gs).
    rewrite Z.max_r by lia. unfold zupd. destruct (Z.ltb_spec (Z.of_nat (length l)) 0); [lia |].
    rewrite Nat2Z.id. destruct (drop (length l) gs) as [| g rest] eqn:E.
    + apply (f_equal length) in E. rewrite length_drop in E. cbn in E. lia.
    + rewrite insert_app_r_alt by lia. rewrite Nat.sub_diag. cbn [insert list_insert].
      assert (drop (S (length l)) gs = rest) as ->.
      { replace (S (length l)) with (length l + 1)%nat by lia. rewrite <- drop_drop, E. done. }
      split_and!; [done | done |]. apply (f_equal length) in E. rewrite length_drop in E.
      rewrite length_app. cbn [length] in *. lia.
  - exists []. rewrite drop_ge by lia. rewrite app_nil_r. split_and!; [done | done | lia].
Qed.

Lemma getgroups_loop_spec l rest i size :
  Forall gid_ok l -> ends rest -> size <> 0 -> i + Z.of_nat (length l) <= size ->
  getgroups_loop (l ++ rest) i size = (l, i + Z.of_nat (length l)).
Proof.
  intros Hl Hr Hs. revert i. induction Hl as [| g l Hg Hl IH]; intros i Hi; cbn [app getgroups_loop length].
  - destruct rest as [| g rest]; cbn in *; [f_equal; lia |]. subst g. cbn. f_equal. lia.
  - cbn [length] in Hi. unfold gid_ok in Hg.
    destruct (Z.eqb_spec g NOGROUP); [unfold NOGROUP in *; lia |].
    destruct (Z.eqb_spec size 0); [done |]. destruct (Z.leb_spec size i); [lia |].
    rewrite IH by lia. rewrite u16_small by lia. f_equal. lia.
Qed.

Lemma in_groups_spec g l rest :
  Forall gid_ok l -> ends rest -> in_groups g (l ++ rest) = bool_decide (g ∈ l).
Proof.
  intros Hl Hr. induction Hl as [| h l Hh Hl IH]; cbn [app in_groups].
  - rewrite bool_decide_eq_false_2 by set_solver. destruct rest as [| h rest]; [done |].
    cbn in Hr. subst h. done.
  - unfold gid_ok in Hh. destruct (Z.eqb_spec h NOGROUP); [unfold NOGROUP in *; lia |].
    destruct (Z.eqb_spec h g) as [-> | Hne].
    + symmetry. apply bool_decide_eq_true_2. by left.
    + rewrite IH. symmetry. by apply bool_decide_elem_cons_ne.
Qed.

(** Supplementary groups survive a round trip.  After the super user sets
    any list of at most [NGROUPS] group ids, [getgroups] returns exactly that
    list and its length, and [in_group_p] grants exactly those groups and the
    effective group. *)
Theorem setgroups_getgroups l s :
  suser (cur s) = true -> length (groups (cur s)) = 32%nat ->
  Forall gid_ok l -> (length l <= 32)%nat ->
  let '(r, s') := sys_setgroups (Z.of_nat (length l)) l s in
  r = 0 /\ sys_getgroups 32 0 s' = (Z.of_nat (length l), l) /\
  forall g, in_group_p g s' = true <-> g = egid (cur s) \/ g ∈ l.
Proof.
  intros Hsu Hlen Hl Hn. unfold sys_setgroups. rewrite Hsu. cbn [negb].
  destruct (Z.ltb_spec NGROUPS (Z.of_nat (length l))); [unfold NGROUPS in *; lia |].
  destruct (set_groups_spec l (groups (cur s)) Hl ltac:(lia) Hlen) as (rest & E & Hr & Hlen').
  set (s' := upd_cur _ s).
  assert (groups (cur s') = l ++ rest) as Eg by (subst s'; rewrite cur_upd_cur; exact E).
  assert (egid (cur s') = egid (cur s)) as Ee by (subst s'; by rewrite cur_upd_cur).
  assert (firstn (Z.to_nat NGROUPS) (l ++ rest) = l ++ rest) as Ef
    by (rewrite firstn_all2; [done | rewrite Hlen'; done]).
  split_and!; [done | |].
  - unfold sys_getgroups. rewrite Eg, Ef. cbn [ctrue Z.eqb negb andb].
    by rewrite getgroups_loop_spec by (done || lia).
  - intros g. unfold in_group_p. rewrite Eg, Ef, Ee, in_groups_spec by done.
    rewrite orb_true_iff, Z.eqb_eq, bool_decide_eq_true. done.
Qed.

Lemma setgroups_getgroups_witness :
  let s := demo_user <| current := 2%nat |> in
  (sys_getgroups 32 0 (sys_setgroups 2 [5; 65535] s).2).2 = [5; 65535].
Proof.
  cbv zeta. pose proof (setgroups_getgroups [5; 65535] (demo_user <| current := 2%nat |>)) as H.
  cbn [length Z.of_nat] in H. destruct (sys_setgroups _ _ _) as [r s']. cbn [snd].
  destruct H as (_ & -> & _); [reflexivity | reflexivity | | cbn; lia | reflexivity].
  repeat constructor; unfold gid_ok; lia.
Defined.
