(* ===== verification/Exit.v ===== *)
(** Process exit and [wait4] (kernel/exit.c): the process tree, telling the
    parent, reparenting, and reaping. *)

From S2P Require Import Prelude Errno Task Signal Sched Sys.

(** ** Telling the parent *)

(** kernel/exit.c:83-89 [notify_parent] *)
Definition notify_parent (t : tptr) (s : kstate) : kstate :=
  let s := if bool_decide (task_slot s 1 = Some (p_pptr (tsk s t)))
           then upd_tsk t (fun t => t <| exit_signal := SIGCHLD |>) s else s in
  let parent := p_pptr (tsk s t) in
  let s := (send_sig (exit_signal (tsk s t)) (Some parent) 1 s).2 in
  wake_up_interruptible (wait_chldexit (tsk s parent)) s.

(** kernel/exit.c:91-110 [release]; [None] is the panic.  The task's pages are
    freed. *)
Definition release (p : option tptr) (s : kstate) : option kstate :=
  match p with
  | None => Some s
  | Some p =>
      if decide (p = current s) then Some s
      else match list_find (fun i => task_slot s i = Some p) (seqZ 1 (NR_TASKS - 1)) with
           | Some (_, i) =>
               let s := s <| task ::= fun l => zupd l i None |> in
               let s := REMOVE_LINKS p s in
               Some (s <| tasks ::= delete p |>)
           | None => None
           end
  end.

(** ** The consistency check *)

(** kernel/exit.c:117-127 [bad_task_ptr] *)
Definition bad_task_ptr (s : kstate) (p : option tptr) : bool :=
  match p with
  | None => false
  | Some p => negb (existsb (fun i => bool_decide (task_slot s i = Some p)) (seqZ 0 NR_TASKS))
  end.

(** kernel/exit.c:145-200 the warnings of [audit_ptree] about the task in a
    slot, by the position of their text *)
Definition audit_task (s : kstate) (p : tptr) : list Z :=
  let t := tsk s p in
  let warn (n : Z) (b : bool) := if b then [n] else [] in
  let pt (a : option tptr) (b : tptr) := bool_decide (a = Some b) in
  warn 1 (bad_task_ptr s (Some (p_pptr t))) ++ warn 2 (bad_task_ptr s (p_cptr t)) ++
  warn 3 (bad_task_ptr s (p_ysptr t)) ++ warn 4 (bad_task_ptr s (p_osptr t)) ++
  warn 5 (bool_decide (p_pptr t = p)) ++ warn 6 (pt (p_cptr t) p) ++
  warn 7 (pt (p_ysptr t) p) ++ warn 8 (pt (p_osptr t) p) ++
  match p_osptr t with
  | Some o => warn 9 (bool_decide (p_pptr t <> p_pptr (tsk s o))) ++
              warn 10 (negb (pt (p_ysptr (tsk s o)) p))
  | None => []
  end ++
  match p_ysptr t with
  | Some y => warn 11 (bool_decide (p_pptr t <> p_pptr (tsk s y))) ++
              warn 12 (negb (pt (p_osptr (tsk s y)) p))
  | None => []
  end ++
  match p_cptr t with
  | Some c => warn 13 (bool_decide (p_pptr (tsk s c) <> p)) ++
              warn 14 (bool_decide (p_ysptr (tsk s c) <> None))
  | None => []
  end.

(** kernel/exit.c:138-202 [audit_ptree]: the slots with their warnings *)
Definition audit_ptree (s : kstate) : list (Z * list Z) :=
  filter (fun w => w.2 <> []) (omap (fun i => (fun p => (i, audit_task s p)) <$> task_slot s i)
                                 (seqZ 1 (NR_TASKS - 1))).

(** ** Exit *)

(** kernel/exit.c:365-376 [forget_original_parent] *)
Definition forget_original_parent (father : tptr) (s : kstate) : kstate :=
  foldl (fun s p =>
    if decide (p_opptr (tsk s p) = father) then
      upd_tsk p (fun t => t <| p_opptr :=
        match task_slot s 1 with Some init => init | None => default init_task (task_slot s 0) end |>) s
    else s) s (for_each_task s).

(** kernel/exit.c:437-443 the orphaned process group check, for the task [p]
    and the [relative] through which its group was connected; also lines
    476-482 *)
Definition orphan_check (p relative : tptr) (s : kstate) : kstate :=
  let t := tsk s p in
  if negb (pgrp (tsk s relative) =? pgrp t) && (session (tsk s relative) =? session t)
     && is_orphaned_pgrp (pgrp t) s && has_stopped_jobs (pgrp t) s
  then (kill_pg (pgrp t) SIGCONT 1 (kill_pg (pgrp t) SIGHUP 1 s).2).2
  else s.

(** kernel/exit.c:461-464 who adopts the children of the current task *)
Definition new_parent (s : kstate) : tptr :=
  match task_slot s 1 with
  | Some init => if decide (init = current s) then default init_task (task_slot s 0) else init
  | None => default init_task (task_slot s 0)
  end.

(** kernel/exit.c:458-467 the youngest child [p] moves to its new parent;
    [None] is the NULL pointer that line 466 dereferences when the new parent
    has no children *)
Definition adopt (p : tptr) (s : kstate) : option kstate :=
  let c := current s in
  let s := upd_tsk c (fun t => t <| p_cptr := p_osptr (tsk s p) |>) s in
  let s := upd_tsk p (fun t => t <| p_ysptr := None |>
             <| flags ::= fun f => Z.land f (Z.lnot (Z.lor PF_PTRACED PF_TRACESYS)) |>) s in
  let parent := new_parent s in
  let s := upd_tsk p (fun t => t <| p_pptr := parent |>) s in
  let s := upd_tsk p (fun t => t <| p_osptr := p_cptr (tsk s parent) |>) s in
  match p_osptr (tsk s p) with
  | None => None
  | Some older =>
      let s := upd_tsk older (fun t => t <| p_ysptr := Some p |>) s in
      Some (upd_tsk parent (fun t => t <| p_cptr := Some p |>) s)
  end.

(** kernel/exit.c:457-483 the loop over the children; every round takes one
    child away *)
Fixpoint adopt_children (fuel : nat) (s : kstate) : option kstate :=
  match p_cptr (cur s), fuel with
  | None, _ => Some s
  | Some _, O => None
  | Some p, S fuel =>
      s ← adopt p s;
      let s := if state (tsk s p) =? TASK_ZOMBIE then notify_parent p s else s in
      adopt_children fuel (orphan_check p (current s) s)
  end.

(** kernel/exit.c:425-483 [do_exit] after the resources of the task are gone:
    it becomes a zombie, its parent is told, its children are given away *)
Definition exit_task (code : Z) (s : kstate) : option kstate :=
  let c := current s in
  let s := upd_tsk c (fun t => t <| state := TASK_ZOMBIE |> <| exit_code := code |>) s in
  let s := orphan_check c (p_pptr (tsk s c)) s in
  let s := notify_parent c s in
  adopt_children (S (length (task_list s))) s.

Section do_exit.
(** What the other components do when a process exits: [drop_resources] undoes
    semaphores, detaches shared memory and frees pages, files, directories,
    mappings and the LDT (lines 384-391 and 393-423); [disassociate_ctty] is of
    the tty layer. *)
Context (drop_resources : kstate -> kstate) (disassociate_ctty : kstate -> kstate).

(** kernel/exit.c:378-491 [do_exit], up to the [schedule] that does not return *)
Definition do_exit (code : Z) (s : kstate) : option kstate :=
  let s := drop_resources (forget_original_parent (current s) s) in
  s ← exit_task code s;
  let s := if leader (cur s) then disassociate_ctty s else s in
  Some (schedule s).

(** kernel/exit.c:508-511 [sys_exit] *)
Definition sys_exit (error_code : Z) (s : kstate) : option kstate :=
  do_exit (Z.shiftl (Z.land error_code 0xff) 8) s.
End do_exit.

(** ** Wait *)

(** include/linux/wait.h:4-7 the options of [wait4] *)
Definition WNOHANG := 0x00000001.
Definition WUNTRACED := 0x00000002.
Definition __WCLONE := 0x80000000.

(** kernel/exit.c:533-546 is the child [t] of the kind that is waited for? *)
Definition wait_eligible (pd options : Z) (c t : task_struct) : bool :=
  (if 0 <? pd then pid t =? pd
   else if pd =? 0 then pgrp t =? pgrp c
   else if negb (pd =? -1) then pgrp t =? s32 (- pd)
   else true)
  && negb (xorb (negb (exit_signal t =? SIGCHLD)) (flag options __WCLONE)).

(** The outcome of a pass over the children: the value to return with the
    status and the usage stored, or whether some child can be waited for. *)
Inductive wait_result :=
| WaitDone (retval stat : Z) (ru : option rusage) (s : kstate)
| WaitNone (flag : bool)
| WaitPanic.

(** kernel/exit.c:554-561 a stopped child is reported *)
Definition report_stopped (p : tptr) (ru : bool) (va : Z) (s : kstate) : wait_result :=
  let stat := Z.lor (s32 (Z.shiftl (exit_code (tsk s p)) 8)) 0x7f in
  let s := upd_tsk p (fun t => t <| exit_code := 0 |>) s in
  WaitDone (pid (tsk s p)) stat
    (if ru then (getrusage (tsk s p) RUSAGE_BOTH va).2 else None) s.

(** kernel/exit.c:563-583 a dead child is reaped *)
Definition reap (p : tptr) (ru : bool) (va : Z) (s : kstate) : wait_result :=
  let t := tsk s p in
  let s := upd_tsk (current s) (fun c =>
    c <| cutime ::= fun x => s32 (x + s32 (utime t + cutime t)) |>
      <| cstime ::= fun x => s32 (x + s32 (stime t + cstime t)) |>
      <| cmin_flt ::= fun x => u32 (x + u32 (min_flt t + cmin_flt t)) |>
      <| cmaj_flt ::= fun x => u32 (x + u32 (maj_flt t + cmaj_flt t)) |>) s in
  let usage := if ru then (getrusage (tsk s p) RUSAGE_BOTH va).2 else None in
  if bool_decide (p_opptr t <> p_pptr t) then
    let s := REMOVE_LINKS p s in
    let s := upd_tsk p (fun t => t <| p_pptr := p_opptr t |>) s in
    let s := SET_LINKS p s in
    WaitDone (pid t) (exit_code t) usage (notify_parent p s)
  else
    match release (Some p) s with
    | Some s => WaitDone (pid t) (exit_code t) usage s
    | None => WaitPanic
    end.

(** kernel/exit.c:531-587 the pass over the children, from the youngest on;
    [fuel] bounds the length of the list of siblings *)
Fixpoint wait_scan (fuel : nat) (pd options : Z) (ru : bool) (va : Z) (p : option tptr)
    (fl : bool) (s : kstate) : wait_result :=
  match p, fuel with
  | None, _ => WaitNone fl
  | Some _, O => WaitPanic
  | Some p, S fuel =>
      let t := tsk s p in
      let next := wait_scan fuel pd options ru va (p_osptr t) in
      if negb (wait_eligible pd options (cur s) t) then next fl s
      else if state t =? TASK_STOPPED then
        if negb (ctrue (exit_code t)) then next true s
        else if negb (flag options WUNTRACED) && negb (flag (flags t) PF_PTRACED) then next true s
        else report_stopped p ru va s
      else if state t =? TASK_ZOMBIE then reap p ru va s
      else next true s
  end.

(** A [wait4] in progress: finished, or asleep in [schedule]. *)
Inductive wait4_step :=
| Wait4Returns (retval : Z) (stat : option Z) (ru : option rusage) (s : kstate)
| Wait4Sleeps (s : kstate)
| Wait4Panics.

Definition leave_wait (s : kstate) : kstate :=
  upd_cur (fun t => t <| wait_chldexit ::= fun q => remove_wait_queue q (current s) |>) s.

(** kernel/exit.c:527-598 one round of [sys_wait4], and lines 610-613 *)
Definition wait4_round (pd options : Z) (ru : bool) (va : Z) (s : kstate) : wait4_step :=
  match wait_scan (S (length (task_list s))) pd options ru va (p_cptr (cur s)) false s with
  | WaitDone retval stat usage s => Wait4Returns retval (Some stat) usage (leave_wait s)
  | WaitPanic => Wait4Panics
  | WaitNone true =>
      if flag options WNOHANG then Wait4Returns 0 None None (leave_wait s)
      else Wait4Sleeps (schedule (upd_cur (fun t => t <| state := TASK_INTERRUPTIBLE |>) s))
  | WaitNone false => Wait4Returns (- ECHILD) None None (leave_wait s)
  end.

(** kernel/exit.c:514-528 [sys_wait4] from its entry; the status is stored when
    [stat_addr] is not NULL *)
Definition sys_wait4 (pd : Z) (stat_addr : bool) (va_stat options : Z) (ru : bool) (va : Z)
    (s : kstate) : wait4_step :=
  if stat_addr && ctrue va_stat then Wait4Returns va_stat None None s
  else wait4_round pd options ru va
         (upd_cur (fun t => t <| wait_chldexit ::= fun q => add_wait_queue q (current s) |>) s).

(** kernel/exit.c:601-608 [sys_wait4] when the sleeper runs again *)
Definition wait4_resume (pd options : Z) (ru : bool) (va : Z) (s : kstate) : wait4_step :=
  let s := upd_cur (fun t => t <| signal ::= fun m => Z.land m (Z.lnot (sigmask SIGCHLD)) |>) s in
  if signal_pending (cur s) then Wait4Returns (- ERESTARTSYS) None None (leave_wait s)
  else wait4_round pd options ru va s.

(** kernel/exit.c:620-623 [sys_waitpid] *)
Definition sys_waitpid (pd : Z) (stat_addr : bool) (va_stat options : Z) (s : kstate) : wait4_step :=
  sys_wait4 pd stat_addr va_stat options false 0 s.

(** ** Properties: the process tree

    [ch q] lists the children of [q], youngest first.  In a [tree] the four
    links of every task agree with it; for the children of a [loose] task the
    link of the youngest to a younger sibling may be stale (as it is while the
    task gives its children away). *)
Definition links (t : task_struct) := (p_pptr t, p_cptr t, p_ysptr t, p_osptr t).
Definition tree (loose : option tptr) (s : kstate) (ch : tptr -> list tptr) : Prop :=
  (forall q, NoDup (ch q) /\ q ∉ ch q) /\
  (forall q, p_cptr (tsk s q) = ch q !! 0%nat) /\
  (forall q i p, ch q !! i = Some p ->
     p_pptr (tsk s p) = q /\ p_osptr (tsk s p) = ch q !! S i /\
     match i with
     | O => loose <> Some q -> p_ysptr (tsk s p) = None
     | S j => p_ysptr (tsk s p) = ch q !! j
     end).

Lemma tree_links loose s s' ch :
  (forall q, links (tsk s' q) = links (tsk s q)) -> tree loose s ch -> tree loose s' ch.
Proof.
  intros H (Hnd & Hc & Hs). unfold links in H.
  split_and!; [done | |].
  - intros q. rewrite <- Hc. specialize (H q). congruence.
  - intros q i p Hp. specialize (H p). destruct (Hs q i p Hp) as (H1 & H2 & H3).
    split_and!; [congruence | congruence |]. destruct i; [| congruence].
    intros Hl. specialize (H3 Hl). congruence.
Qed.

(** A task is the child of one parent, at one place. *)
Lemma tree_unique loose s ch q r i j p :
  tree loose s ch -> ch q !! i = Some p -> ch r !! j = Some p -> q = r /\ i = j.
Proof.
  intros (Hnd & _ & Hs) Hq Hr. destruct (Hs _ _ _ Hq) as (<- & _), (Hs _ _ _ Hr) as (<- & _).
  split; [done |]. eapply NoDup_lookup; [apply Hnd | done | done].
Qed.

Lemma tree_in loose s ch q i p : tree loose s ch -> ch q !! i = Some p -> p <> q.
Proof.
  intros (Hnd & _ & _) Hq ->. apply (proj2 (Hnd q)). by eapply list_elem_of_lookup_2.
Qed.

(** The children of [q] replaced. *)
Definition set_ch (q : tptr) (l : list tptr) (ch : tptr -> list tptr) : tptr -> list tptr :=
  fun x => if decide (x = q) then l else ch x.

(** Reading one field of one task through several updates. *)
Ltac read_tsk :=
  cbn [upd_opt]; rewrite ?tsk_upd; repeat case_decide; subst; try done; try congruence.

Lemma SET_LINKS_fields p s :
  let q := p_pptr (tsk s p) in let s' := SET_LINKS p s in
  p <> q -> p_cptr (tsk s q) <> Some p ->
  forall x, p_pptr (tsk s' x) = p_pptr (tsk s x) /\
    p_cptr (tsk s' x) = (if decide (x = q) then Some p else p_cptr (tsk s x)) /\
    p_osptr (tsk s' x) = (if decide (x = p) then p_cptr (tsk s q) else p_osptr (tsk s x)) /\
    p_ysptr (tsk s' x) = (if decide (x = p) then None
                          else if decide (Some x = p_cptr (tsk s q)) then Some p
                          else p_ysptr (tsk s x)).
Proof.
  intros q s' Hpq Hold x. subst s' q. unfold SET_LINKS. cbv zeta.
  set (s0 := s <| task_list ::= _ |>). change (tsk s) with (tsk s0) in *. clearbody s0. clear s.
  remember (p_pptr (tsk s0 p)) as q eqn:Eq.
  set (s1 := upd_tsk p (fun t => t <| p_ysptr := None |>) s0).
  assert (p_pptr (tsk s1 p) = q) as -> by (subst s1; read_tsk).
  assert (p_cptr (tsk s1 q) = p_cptr (tsk s0 q)) as -> by (subst s1; read_tsk).
  set (s2 := upd_tsk p _ s1). set (s3 := upd_opt _ _ s2).
  assert (p_pptr (tsk s3 p) = q) as ->.
  { subst s3 s2 s1. destruct (p_cptr (tsk s0 q)); read_tsk. }
  subst s3 s2 s1. destruct (p_cptr (tsk s0 q)) as [o |]; split_and!; read_tsk.
Qed.

Lemma REMOVE_LINKS_fields p s :
  let t := tsk s p in let s' := REMOVE_LINKS p s in
  p_osptr t <> Some p -> p_ysptr t <> Some p -> p_pptr t <> p ->
  forall x, p_pptr (tsk s' x) = p_pptr (tsk s x) /\
    p_cptr (tsk s' x) = (if decide (p_ysptr t = None /\ x = p_pptr t) then p_osptr t
                         else p_cptr (tsk s x)) /\
    p_osptr (tsk s' x) = (if decide (p_ysptr t = Some x) then p_osptr t else p_osptr (tsk s x)) /\
    p_ysptr (tsk s' x) = (if decide (p_osptr t = Some x) then p_ysptr t else p_ysptr (tsk s x)).
Proof.
  intros t s' Ho Hy Hp x. subst s' t. unfold REMOVE_LINKS. cbv zeta.
  set (s0 := s <| task_list ::= _ |>). change (tsk s) with (tsk s0) in *. clearbody s0. clear s.
  set (s1 := upd_opt _ _ s0).
  assert (p_osptr (tsk s1 p) = p_osptr (tsk s0 p)) as ->
    by (subst s1; destruct (p_osptr (tsk s0 p)) as [o |] eqn:E; read_tsk).
  destruct (p_ysptr (tsk s0 p)) as [y |] eqn:Ey; subst s1;
    destruct (p_osptr (tsk s0 p)) as [o |] eqn:Eo; split_and!; read_tsk; intuition congruence.
Qed.

Lemma SET_LINKS_tree s ch p :
  tree None s ch -> p <> p_pptr (tsk s p) -> (forall r, p ∉ ch r) ->
  let q := p_pptr (tsk s p) in tree None (SET_LINKS p s) (set_ch q (p :: ch q) ch).
Proof.
  intros Ht Hpq Hp q. pose proof Ht as (Hnd & Hc & Hs).
  assert (p_cptr (tsk s q) <> Some p) as Hold.
  { rewrite Hc. intros E%list_elem_of_lookup_2. by apply (Hp q). }
  pose proof (SET_LINKS_fields p s Hpq Hold) as F. fold q in F.
  split_and!; unfold set_ch.
  - intros x. case_decide; [subst x | apply Hnd]. destruct (Hnd q). split; [constructor; auto |].
    apply not_elem_of_cons. split; [intros E; by apply Hpq | done].
  - intros x. destruct (F x) as (_ & -> & _). case_decide; [done | apply Hc].
  - intros x i r Hr. destruct (F r) as (-> & _ & -> & ->).
    destruct (decide (x = q)) as [-> |].
    + destruct i as [| j]; cbn in Hr; [injection Hr as <- |].
      * rewrite !decide_True by done. cbn. split_and!; [done | apply Hc | done].
      * assert (r <> p) by (intros ->; by apply (Hp q), list_elem_of_lookup_2 with j).
        destruct (Hs _ _ _ Hr) as (H1 & H2 & H3). rewrite !(decide_False (P := r = p)) by done. split_and!; [done | done |].
        rewrite Hc. case_decide as E.
        -- symmetry in E. destruct (tree_unique _ _ _ _ _ _ _ _ Ht E Hr) as [_ <-]. done.
        -- destruct j as [| k]; [by destruct E | exact H3].
    + assert (r <> p) by (intros ->; by apply (Hp x), list_elem_of_lookup_2 with i).
      destruct (Hs _ _ _ Hr) as (H1 & H2 & H3). rewrite !(decide_False (P := r = p)) by done.
      rewrite decide_False; [done |]. rewrite Hc. intros E. symmetry in E.
      by destruct (tree_unique _ _ _ _ _ _ _ _ Ht E Hr).
Qed.

Lemma REMOVE_LINKS_tree s ch q k p :
  tree None s ch -> ch q !! k = Some p ->
  tree None (REMOVE_LINKS p s) (set_ch q (delete k (ch q)) ch).
Proof.
  intros Ht Hk. pose proof Ht as (Hnd & Hc & Hs). destruct (Hs _ _ _ Hk) as (P1 & P2 & P3).
  assert (p_ysptr (tsk s p) = match k with O => None | S j => ch q !! j end) as P3'
    by (destruct k; [by apply P3 | done]).
  assert (forall i, ch q !! i = Some p -> i = k) as Huniq
    by (intros i Hi; by destruct (tree_unique _ _ _ _ _ _ _ _ Ht Hi Hk)).
  assert (p_osptr (tsk s p) <> Some p) as Ho by (rewrite P2; intros E%Huniq; lia).
  assert (p_ysptr (tsk s p) <> Some p) as Hy
    by (rewrite P3'; destruct k; [done | intros E%Huniq; lia]).
  assert (p_pptr (tsk s p) <> p) as Hpp by (rewrite P1; intros ->; by eapply tree_in).
  pose proof (REMOVE_LINKS_fields p s Ho Hy Hpp) as F. rewrite P1, P2, P3' in F.
  split_and!; unfold set_ch.
  - intros x. case_decide; [subst x | apply Hnd]. destruct (Hnd q). split.
    + eapply sublist_NoDup; [done | apply sublist_delete].
    + intros E. apply H0. eapply elem_of_sublist; [done | apply sublist_delete].
  - intros x. destruct (F x) as (_ & -> & _). destruct (decide (x = q)) as [-> |].
    + destruct k as [| k]; [rewrite decide_True by done; by destruct (ch q) |].
      rewrite decide_False; [rewrite Hc; by destruct (ch q) |].
      intros [E _]. apply lookup_lt_Some in Hk. apply lookup_ge_None in E. lia.
    + rewrite decide_False by tauto. apply Hc.
  - intros x i r Hr. destruct (F r) as (-> & _ & -> & ->).
    destruct (decide (x = q)) as [-> | Hxq].
    + destruct (decide (i < k)%nat) as [Hik | Hik].
      * rewrite list_lookup_delete_lt in Hr by done.
        destruct (Hs _ _ _ Hr) as (H1 & H2 & H3). split_and!; [done | |].
        -- destruct k as [| k]; [lia |]. destruct (decide (ch q !! k = Some r)) as [E |].
           ++ destruct (tree_unique _ _ _ _ _ _ _ _ Ht E Hr) as [_ ->].
              by rewrite list_lookup_delete_ge by lia.
           ++ rewrite H2. rewrite list_lookup_delete_lt; [done |].
              destruct (decide (i = k)); [subst; done | lia].
        -- rewrite (decide_False (P := ch q !! S k = Some r))
             by (intros E; destruct (tree_unique _ _ _ _ _ _ _ _ Ht E Hr); lia).
           destruct i; [done |]. by rewrite list_lookup_delete_lt by lia.
      * rewrite list_lookup_delete_ge in Hr by lia.
        destruct (Hs _ _ _ Hr) as (H1 & H2 & H3). split_and!; [done | |].
        -- rewrite decide_False; [by rewrite list_lookup_delete_ge by lia |].
           destruct k; [done | intros E; destruct (tree_unique _ _ _ _ _ _ _ _ Ht E Hr); lia].
        -- destruct (decide (i = k)) as [-> |].
           ++ rewrite decide_True by done. destruct k; [done |].
              by rewrite list_lookup_delete_lt by lia.
           ++ rewrite decide_False
                by (intros E; destruct (tree_unique _ _ _ _ _ _ _ _ Ht E Hr); lia).
              destruct i; [lia |]. by rewrite list_lookup_delete_ge by lia.
    + destruct (Hs _ _ _ Hr) as (H1 & H2 & H3).
      rewrite !decide_False; [done | |].
      * intros E. by destruct (tree_unique _ _ _ _ _ _ _ _ Ht E Hr).
      * destruct k; [done |]. intros E. by destruct (tree_unique _ _ _ _ _ _ _ _ Ht E Hr).
Qed.

(** Signals and wake-ups leave the links alone. *)
Lemma deliver_links sig t : links (deliver sig t) = links t.
Proof. unfold deliver, sig_side_effects. by repeat split_if. Qed.

Lemma notify_parent_links p s : keeps links s (notify_parent p s).
Proof.
  unfold notify_parent. set (s1 := if bool_decide _ then _ else s).
  assert (keeps links s s1) as H1
    by (subst s1; destruct (bool_decide _); [by apply keeps_upd | apply keeps_refl]).
  eapply keeps_trans; [exact H1 |].
  eapply keeps_trans; [apply send_sig_keeps, deliver_links | by apply wake_up_interruptible_keeps].
Qed.

Lemma orphan_check_links p r s : keeps links s (orphan_check p r s).
Proof.
  unfold orphan_check. split_if; [| apply keeps_refl].
  eapply keeps_trans; apply kill_pg_keeps, deliver_links.
Qed.

(** The youngest child moves to the front of its new parent's children. *)
Lemma adopt_fields p o s :
  let c := current s in let n := new_parent s in
  p <> c -> p <> n -> n <> c -> p_cptr (tsk s n) = Some o -> o <> p ->
  exists s', adopt p s = Some s' /\ same_frame s s' /\
  forall x, p_pptr (tsk s' x) = (if decide (x = p) then n else p_pptr (tsk s x)) /\
    p_cptr (tsk s' x) = (if decide (x = n) then Some p
                         else if decide (x = c) then p_osptr (tsk s p) else p_cptr (tsk s x)) /\
    p_osptr (tsk s' x) = (if decide (x = p) then Some o else p_osptr (tsk s x)) /\
    p_ysptr (tsk s' x) = (if decide (x = o) then Some p
                          else if decide (x = p) then None else p_ysptr (tsk s x)).
Proof.
  intros c n Hpc Hpn Hnc Ho Hop. unfold adopt. cbv zeta.
  set (s1 := upd_tsk (current s) _ s). set (s2 := upd_tsk p _ s1).
  assert (new_parent s2 = n) as -> by done. fold c in s1. clearbody n c.
  set (s3 := upd_tsk p _ s2).
  assert (p_cptr (tsk s3 n) = Some o) as -> by (subst s3 s2 s1; read_tsk).
  set (s4 := upd_tsk p _ s3).
  assert (p_osptr (tsk s4 p) = Some o) as -> by (subst s4; read_tsk).
  eexists. split; [done |]. split; [by repeat split |]. intros x.
  subst s4 s3 s2 s1. split_and!; read_tsk.
Qed.

Lemma adopt_tree ch p l o s :
  let c := current s in let n := new_parent s in
  tree (Some c) s ch -> ch c = p :: l -> n <> c -> n ∉ ch c -> ch n !! 0%nat = Some o ->
  exists s', adopt p s = Some s' /\ same_frame s s' /\
    tree (Some c) s' (set_ch n (p :: ch n) (set_ch c l ch)).
Proof.
  intros c n Ht Hl Hnc Hn Ho. pose proof Ht as (Hnd & Hc & Hs).
  assert (ch c !! 0%nat = Some p) as Hp by by rewrite Hl.
  assert (forall r i, ch r !! i = Some p -> r = c /\ i = 0%nat) as Hup
    by (intros r i Hi; by destruct (tree_unique _ _ _ _ _ _ _ _ Ht Hi Hp)).
  assert (p <> n) as Hpn by (intros ->; apply Hn; rewrite Hl; by left).
  assert (p_cptr (tsk s n) = Some o) as Ho' by by rewrite Hc.
  assert (o <> p) as Hop by (intros ->; by destruct (Hup _ _ Ho)).
  destruct (adopt_fields p o s (tree_in _ _ _ _ _ _ Ht Hp) Hpn Hnc Ho' Hop) as (s' & E & F & H).
  fold c n in H. exists s'. split; [done |]. split; [done |]. unfold set_ch.
  destruct (Hs _ _ _ Hp) as (_ & Hos & _). rewrite Hl in Hos. cbn in Hos.
  split_and!.
  - intros x. destruct (Hnd c) as [Hndc Hcc]. rewrite Hl in Hndc, Hcc.
    apply NoDup_cons in Hndc as [Hpl Hndl].
    repeat case_decide; subst; try apply Hnd; [| split; [done | set_solver]].
    destruct (Hnd n) as [Hndn Hnn]. split; [| set_solver].
    constructor; [| done]. intros [i Hi]%list_elem_of_lookup. by destruct (Hup _ _ Hi).
  - intros x. destruct (H x) as (_ & -> & _). rewrite Hos.
    repeat case_decide; [done | by destruct l | apply Hc].
  - intros x i r Hr. destruct (H r) as (-> & _ & -> & ->). clear H.
    destruct (decide (x = n)) as [-> | Hxn]; [| destruct (decide (x = c)) as [-> | Hxc]].
    + destruct i as [| j]; [injection Hr as <- | change (ch n !! j = Some r) in Hr].
      * rewrite !(decide_True (P := p = p)), (decide_False (P := p = o)) by done.
        split_and!; [done | symmetry; exact Ho | done].
      * assert (r <> p) by (intros ->; by destruct (Hup _ _ Hr)).
        rewrite !(decide_False (P := r = p)) by done. destruct (Hs _ _ _ Hr) as (H1 & H2 & H3).
        split_and!; [done | done |]. destruct (decide (r = o)) as [-> |].
        -- destruct (tree_unique _ _ _ _ _ _ _ _ Ht Ho Hr) as [_ <-]. done.
        -- destruct j as [| k]; [rewrite Ho in Hr; congruence | exact H3].
    + assert (ch c !! S i = Some r) as Hr' by by rewrite Hl.
      destruct (Hs _ _ _ Hr') as (H1 & H2 & H3). rewrite Hl in H2, H3. cbn in H2.
      assert (r <> p) by (intros ->; by destruct (Hup _ _ Hr')).
      assert (r <> o) by (intros ->; by destruct (tree_unique _ _ _ _ _ _ _ _ Ht Ho Hr')).
      rewrite !decide_False by done. split_and!; [done | done |]. destruct i; [done | exact H3].
    + destruct (Hs _ _ _ Hr) as (H1 & H2 & H3).
      assert (r <> p) by (intros ->; by destruct (Hup _ _ Hr)).
      assert (r <> o) by (intros ->; by destruct (tree_unique _ _ _ _ _ _ _ _ Ht Ho Hr)).
      by rewrite !decide_False by done.
Qed.

Lemma tree_ext loose s ch ch' : (forall q, ch q = ch' q) -> tree loose s ch -> tree loose s ch'.
Proof.
  intros E (H1 & H2 & H3). split_and!.
  - intros q. rewrite <- E. apply H1.
  - intros q. rewrite <- E. apply H2.
  - intros q i p. rewrite <- E. apply H3.
Qed.

(** A stale sibling link of a task without children does not matter. *)
Lemma tree_tighten c s ch : tree (Some c) s ch -> ch c = [] -> tree None s ch.
Proof.
  intros (H1 & H2 & H3) Hc. split_and!; [done | done |]. intros q i p Hp.
  destruct (H3 q i p Hp) as (? & ? & H). split_and!; [done | done |]. destruct i; [| done].
  intros _. apply H. intros [= <-]. by rewrite Hc in Hp.
Qed.
Lemma tree_loosen c s ch : tree None s ch -> tree (Some c) s ch.
Proof.
  intros (H1 & H2 & H3). split_and!; [done | done |]. intros q i p Hp.
  destruct (H3 q i p Hp) as (? & ? & H). split_and!; [done | done |]. destruct i; auto.
Qed.

(** All children of [c] given to [n]. *)
Definition given (c n : tptr) (ch : tptr -> list tptr) : tptr -> list tptr :=
  set_ch n (rev (ch c) ++ ch n) (set_ch c [] ch).

Lemma new_parent_frame s s' : same_frame s s' -> new_parent s' = new_parent s.
Proof. intros (_ & Ht & Hc & _). unfold new_parent, task_slot. by rewrite Ht, Hc. Qed.

Lemma adopt_children_tree fuel ch s :
  let c := current s in let n := new_parent s in
  tree (Some c) s ch -> n <> c -> n ∉ ch c -> ch n <> [] -> (length (ch c) <= fuel)%nat ->
  exists s', adopt_children fuel s = Some s' /\ same_frame s s' /\ tree None s' (given c n ch).
Proof.
  intros c n. revert ch s c n. induction fuel as [| fuel IH]; intros ch s c n Ht Hnc Hn Ho Hf.
  - assert (ch c = []) as E by (destruct (ch c); [done | cbn in Hf; lia]).
    pose proof Ht as (_ & Hc & _). cbn. fold c. rewrite Hc, E. cbn. exists s.
    split; [done |]. split; [apply same_frame_refl |]. eapply tree_ext; [| by eapply tree_tighten].
    intros q. unfold given, set_ch. rewrite E. by repeat case_decide; subst.
  - pose proof Ht as (_ & Hc & _). cbn. fold c. rewrite Hc. destruct (ch c) as [| p l] eqn:E.
    { cbn. exists s. split; [done |]. split; [apply same_frame_refl |].
      eapply tree_ext; [| by eapply tree_tighten].
      intros q. unfold given, set_ch. rewrite E. by repeat case_decide; subst. }
    cbn [lookup list_lookup]. destruct (ch n) as [| o k] eqn:En; [done |].
    destruct (adopt_tree ch p l o s Ht E Hnc) as (s1 & E1 & F1 & T1);
      [change (n ∉ ch c); by rewrite E | change (ch n !! 0%nat = Some o); by rewrite En |].
    fold c n in T1. rewrite E1. cbn [mbind option_bind].
    set (s2 := orphan_check _ _ _).
    assert (keeps links s1 s2) as [F2 L2].
    { subst s2. eapply keeps_trans; [| apply orphan_check_links].
      destruct (_ =? _); [apply notify_parent_links | apply keeps_refl]. }
    pose proof (tree_links _ _ _ _ L2 T1) as T2. clearbody s2.
    assert (same_frame s s2) as F by by eapply same_frame_trans.
    pose proof (new_parent_frame _ _ F) as En2. pose proof F as (_ & _ & Hcur & _).
    specialize (IH (set_ch n (p :: ch n) (set_ch c l ch)) s2). cbv zeta in IH.
    rewrite Hcur, En2 in IH. fold c n in IH.
    assert (set_ch n (p :: ch n) (set_ch c l ch) c = l) as El
      by (unfold set_ch; rewrite decide_False, decide_True by done; done).
    rewrite El in IH. destruct IH as (s' & E' & F' & T').
    + exact T2.
    + done.
    + intros Hi. apply Hn. by right.
    + unfold set_ch. by rewrite decide_True by done.
    + cbn in Hf. lia.
    + exists s'. split; [exact E' |]. split; [by eapply same_frame_trans |].
      eapply tree_ext; [| exact T']. intros q. unfold given at 1. rewrite El.
      unfold given, set_ch. rewrite E. cbn [rev].
      repeat case_decide; subst; try done. by rewrite <- app_assoc.
Qed.


(** ** Properties: wait *)

(** A child that [wait4] can report now. *)
Definition reportable (pd options : Z) (c t : task_struct) : bool :=
  wait_eligible pd options c t &&
  (((state t =? TASK_STOPPED) && ctrue (exit_code t) &&
    (flag options WUNTRACED || flag (flags t) PF_PTRACED))
   || (state t =? TASK_ZOMBIE)).

Lemma wait_scan_children loose fuel pd options ru va ch k fl s :
  tree loose s ch -> (length (ch (current s)) - k < fuel)%nat ->
  wait_scan fuel pd options ru va (ch (current s) !! k) fl s
  = match list_find (fun p => reportable pd options (cur s) (tsk s p) = true) (drop k (ch (current s))) with
    | Some (_, p) => if state (tsk s p) =? TASK_STOPPED then report_stopped p ru va s
                     else reap p ru va s
    | None => WaitNone (fl || existsb (fun p => wait_eligible pd options (cur s) (tsk s p))
                                (drop k (ch (current s))))
    end.
Proof.
  intros Ht. revert k fl. induction fuel as [| fuel IH]; intros k fl Hf; [lia |].
  destruct (ch (current s) !! k) as [p |] eqn:Ek; cbn [wait_scan].
  2:{ rewrite drop_ge by by apply lookup_ge_None. cbn. by rewrite orb_false_r. }
  pose proof Ht as (_ & _ & Hs). destruct (Hs _ _ _ Ek) as (_ & Hos & _). rewrite Hos.
  pose proof (lookup_lt_Some _ _ _ Ek) as Hlt.
  rewrite (drop_S _ _ _ Ek). cbn [list_find existsb].
  assert (forall fl', wait_scan fuel pd options ru va (ch (current s) !! S k) fl' s = _) as IH'
    by (intros fl'; apply IH; lia). clear IH. rewrite !IH'. clear IH'.
  set (t := tsk s p). set (next := list_find _ (drop (S k) _)).
  assert (forall b,
    match prod_map S id <$> next with
    | Some (_, q) => if state (tsk s q) =? TASK_STOPPED then report_stopped q ru va s else reap q ru va s
    | None => WaitNone b
    end = match next with
    | Some (_, q) => if state (tsk s q) =? TASK_STOPPED then report_stopped q ru va s else reap q ru va s
    | None => WaitNone b
    end) as Hnext by (intros; by destruct next as [[? ?] |]).
  assert (reportable pd options (cur s) t = true -> if state t =? TASK_STOPPED
    then wait_eligible pd options (cur s) t = true /\ ctrue (exit_code t) = true /\
         negb (flag options WUNTRACED) && negb (flag (flags t) PF_PTRACED) = false
    else wait_eligible pd options (cur s) t = true /\ (state t =? TASK_ZOMBIE) = true) as Hyes.
  { unfold reportable. destruct (wait_eligible _ _ _ t); [| done]. cbn [andb].
    destruct (Z.eqb_spec (state t) TASK_STOPPED) as [-> |]; [| by destruct (_ =? _)].
    destruct (ctrue _), (flag options _), (flag (flags t) _); done. }
  assert (reportable pd options (cur s) t <> true -> wait_eligible pd options (cur s) t = true ->
    if state t =? TASK_STOPPED
    then ctrue (exit_code t) = false \/
         negb (flag options WUNTRACED) && negb (flag (flags t) PF_PTRACED) = true
    else (state t =? TASK_ZOMBIE) = false) as Hno.
  { unfold reportable. intros Hr Hw. rewrite Hw in Hr. cbn [andb] in Hr.
    destruct (Z.eqb_spec (state t) TASK_STOPPED) as [E |]; [| by destruct (_ =? _)].
    rewrite E in Hr. destruct (ctrue _), (flag options _), (flag (flags t) _); naive_solver. }
  destruct (decide (reportable pd options (cur s) t = true)) as [Hr | Hr].
  - specialize (Hyes Hr). fold t. destruct (state t =? TASK_STOPPED).
    + destruct Hyes as (-> & -> & ->). done.
    + destruct Hyes as (-> & ->). done.
  - specialize (Hno Hr). rewrite Hnext.
    destruct (wait_eligible pd options (cur s) t); cbn [negb orb]; [| done].
    rewrite orb_true_r. specialize (Hno eq_refl). destruct (state t =? TASK_STOPPED); [| by rewrite Hno].
    destruct Hno as [-> | ->]; [done | by destruct (negb (ctrue _))].
Qed.

(** [wait4] looks at the right children.  On a consistent tree a pass over
    the children ends, and it reports the youngest child that is dead, or
    stopped and not yet reported (when [WUNTRACED] is given or the child is
    traced), among those that the pid argument and [__WCLONE] select; with no
    such child it says exactly whether there is a child to wait for. *)
Theorem wait_scan_first ch pd options ru va s :
  tree None s ch -> (forall p, p ∈ ch (current s) -> p ∈ task_list s) ->
  wait_scan (S (length (task_list s))) pd options ru va (p_cptr (cur s)) false s
  = match list_find (fun p => reportable pd options (cur s) (tsk s p) = true) (ch (current s)) with
    | Some (_, p) => if state (tsk s p) =? TASK_STOPPED then report_stopped p ru va s
                     else reap p ru va s
    | None => WaitNone (existsb (fun p => wait_eligible pd options (cur s) (tsk s p))
                          (ch (current s)))
    end.
Proof.
  intros Ht Hlive. pose proof Ht as (Hnd & Hc & _). rewrite Hc.
  rewrite (wait_scan_children None _ _ _ _ _ ch 0 false); [done | done |].
  pose proof (NoDup_submseteq _ _ (proj1 (Hnd (current s))) Hlive) as Hs.
  apply submseteq_length in Hs. lia.
Qed.

Lemma REMOVE_LINKS_slots p s :
  task (REMOVE_LINKS p s) = task s /\ current (REMOVE_LINKS p s) = current s.
Proof.
  unfold REMOVE_LINKS. cbv zeta. set (s1 := upd_opt _ _ _).
  assert (task s1 = task s /\ current s1 = current s) as [<- <-].
  { subst s1. by destruct (p_osptr _). }
  clearbody s1. by destruct (p_ysptr _).
Qed.

Lemma REMOVE_LINKS_tasks p f s :
  tasks (REMOVE_LINKS p (s <| task ::= f |>)) = tasks (REMOVE_LINKS p s).
Proof.
  unfold REMOVE_LINKS. cbv zeta. set (s1 := upd_opt _ _ (upd task_list _ (upd task _ _))).
  set (s2 := upd_opt _ _ (upd task_list _ s)).
  assert (tasks s1 = tasks s2) as E.
  { subst s1 s2. change (tsk (upd task_list _ ?x)) with (tsk x). change (tsk (upd task _ ?x)) with (tsk x).
    by destruct (p_osptr (tsk s p)). }
  change (tsk (upd task_list _ ?x)) with (tsk x). change (tsk (upd task _ ?x)) with (tsk x).
  clearbody s1 s2. unfold upd_tsk, tsk. cbn. rewrite E. by destruct (p_ysptr _).
Qed.

(** Unlinking changes nothing but the links. *)
Lemma REMOVE_LINKS_proj {A} (proj : task_struct -> A) p s q :
  (forall t y, proj (t <| p_ysptr := y |>) = proj t) ->
  (forall t o, proj (t <| p_osptr := o |>) = proj t) ->
  (forall t c, proj (t <| p_cptr := c |>) = proj t) ->
  proj (tsk (REMOVE_LINKS p s) q) = proj (tsk s q).
Proof.
  intros Hy Ho Hc. unfold REMOVE_LINKS. cbv zeta. set (s1 := upd_opt _ _ _).
  assert (proj (tsk s1 q) = proj (tsk s q)) as <-.
  { subst s1. destruct (p_osptr _); cbn [upd_opt]; [by rewrite (tsk_upd_proj proj) | done]. }
  clearbody s1. by destruct (p_ysptr _); rewrite (tsk_upd_proj proj).
Qed.

(** An element removed from a list without duplicates. *)
Lemma elem_of_delete_NoDup (l : list tptr) k p x :
  NoDup l -> l !! k = Some p -> x ∈ delete k l <-> x <> p /\ x ∈ l.
Proof.
  intros Hnd Hk. pose proof (delete_Permutation l k p Hk) as Hp.
  rewrite Hp in Hnd. apply NoDup_cons in Hnd as [Hn _]. rewrite Hp at 2.
  rewrite elem_of_cons. split; [| tauto]. intros Hx. split; [by intros -> | by right].
Qed.

Lemma release_spec s i p :
  p <> current s -> 1 <= i < NR_TASKS -> length (task s) = Z.to_nat NR_TASKS ->
  task_slot s i = Some p -> (forall j, task_slot s j = Some p -> j = i) ->
  exists s', release (Some p) s = Some s' /\ task_slot s' i = None /\
    (forall j, 0 <= j -> j <> i -> task_slot s' j = task_slot s j) /\ tasks s' !! p = None /\
    (forall q, q <> p -> tsk s' q = tsk (REMOVE_LINKS p s) q) /\ current s' = current s.
Proof.
  intros Hp Hi Hlen Hslot Huniq. unfold release. rewrite decide_False by done.
  assert (list_find (fun j => task_slot s j = Some p) (seqZ 1 (NR_TASKS - 1)) = Some (Z.to_nat (i - 1), i)) as ->.
  { apply list_find_Some. split_and!; [apply lookup_seqZ; lia | done |].
    intros j y Hy Hj Hslot'. apply lookup_seqZ in Hy as [-> _]. apply Huniq in Hslot'. lia. }
  set (s1 := s <| task ::= _ |>). eexists. split; [done |].
  pose proof REMOVE_LINKS_slots as Ht.
  split_and!.
  - unfold task_slot. change (task (upd tasks _ ?x)) with (task x). rewrite (proj1 (Ht p s1)).
    apply znth_zupd_eq. rewrite Hlen. unfold NR_TASKS in *. lia.
  - intros j Hj Hji. unfold task_slot. change (task (upd tasks _ ?x)) with (task x).
    rewrite (proj1 (Ht p s1)). apply znth_zupd_ne; lia.
  - apply lookup_delete_eq.
  - intros q Hq. unfold tsk. change (tasks (upd tasks _ ?x)) with (delete p (tasks x)).
    rewrite lookup_delete_ne by done. subst s1; by rewrite REMOVE_LINKS_tasks.
  - change (current (upd tasks _ ?x)) with (current x). by rewrite (proj2 (Ht p s1)).
Qed.


(** A small family: task 2, a child of [init], with a live child 4 and a dead
    child 3 that exited with status 1. *)
Definition demo_relative (pd : Z) (parent : tptr) (c y o : option tptr) : task_struct :=
  INIT_TASK <| pid := pd |> <| pgrp := pd |> <| session := 1 |> <| exit_signal := SIGCHLD |>
            <| p_pptr := parent |> <| p_opptr := parent |>
            <| p_cptr := c |> <| p_ysptr := y |> <| p_osptr := o |>.
Definition demo_family : kstate :=
  mk_kstate
    (list_to_map
       [(0%nat, INIT_TASK <| p_cptr := Some 1%nat |>);
        (1%nat, demo_relative 1 0 (Some 2%nat) None None);
        (2%nat, demo_relative 2 1 (Some 4%nat) None None);
        (3%nat, demo_relative 3 2 None (Some 4%nat) None
                  <| state := TASK_ZOMBIE |> <| exit_code := 256 |> <| utime := 7 |>);
        (4%nat, demo_relative 4 2 None None (Some 3%nat))])
    [1%nat; 2%nat; 3%nat; 4%nat]
    (Some 0%nat :: Some 1%nat :: Some 2%nat :: Some 3%nat :: Some 4%nat :: replicate 123 None)
    2%nat false 0 0 0xffffffff 0.
Definition demo_children (q : tptr) : list tptr :=
  match q with 0%nat => [1%nat] | 1%nat => [2%nat] | 2%nat => [4%nat; 3%nat] | _ => [] end.

Lemma demo_stranger q : (5 <= q)%nat -> tsk demo_family q = INIT_TASK.
Proof.
  intros Hq. unfold tsk, demo_family. cbn [tasks list_to_map foldr fst snd uncurry].
  by rewrite !lookup_insert_ne, lookup_empty by lia.
Qed.

Lemma demo_tree : tree None demo_family demo_children.
Proof.
  split_and!.
  - intros [| [| [| q]]]; cbn; (split; [repeat constructor; set_solver | set_solver]).
  - intros [| [| [| [| [| q]]]]]; [reflexivity.. |]. by rewrite demo_stranger by lia.
  - intros [| [| [| q]]] i p Hp; cbn in Hp; [| | | done];
      destruct i as [| [| i]]; cbn in Hp; simplify_eq; split_and!; try done; intros; reflexivity.
Qed.

Lemma demo_live p : p ∈ demo_children (current demo_family) -> p ∈ task_list demo_family.
Proof. cbn. set_solver. Qed.


Lemma wait_scan_first_witness :
  wait_scan 5 (-1) 0 true 0 (p_cptr (cur demo_family)) false demo_family
  = reap 3%nat true 0 demo_family.
Proof.
  pose proof (wait_scan_first demo_children (-1) 0 true 0 demo_family demo_tree) as H.
  change (S (length (task_list demo_family))) with 5%nat in H. rewrite H.
  - assert (list_find (fun p => reportable (-1) 0 (cur demo_family) (tsk demo_family p) = true)
      (demo_children (current demo_family)) = Some (1%nat, 3%nat)) as -> by reflexivity.
    assert ((state (tsk demo_family 3%nat) =? TASK_STOPPED) = false) as -> by reflexivity.
    reflexivity.
  - apply demo_live.
Defined.


(** [send_sig] clears the exit code of its target even when that is a zombie:
    a [SIGKILL] or [SIGCONT] that arrives between exit and [wait4] makes the
    parent see status 0 instead of the one the child exited with.  The
    [SIGCONT] of [orphan_check] does the same to the exiting task itself when
    its own process group becomes orphaned. *)
Example kill_clears_status :
  let status s := match wait4_round (-1) 0 false 0 s with
                  | Wait4Returns retval stat _ _ => Some (retval, stat)
                  | _ => None
                  end in
  status demo_family = Some (3, Some 256) /\
  status (sys_kill 3 SIGKILL demo_family).2 = Some (3, Some 0).
Proof. split; vm_compute; reflexivity. Qed.

(** When the new parent has no children, the loop of [do_exit] dereferences a
    NULL pointer. *)
Example adopt_null_pointer :
  let s := demo_family <| current := 2%nat |> <| task ::= fun l => zupd l 1 (Some 4%nat) |> in
  adopt 3%nat s = None.
Proof. reflexivity. Qed.
