(* ===== verification/Ioport.v ===== *)
(** I/O port permissions and reservations (kernel/ioport.c): ranges of bits in
    an array of 32-bit words. *)

From S2P Require Import Prelude Errno Task Sys.

(** kernel/ioport.c:56-58 the mask of the bits from [low] on, below [length] *)
Definition head_mask (low length : Z) : Z :=
  let mask := Z.shiftl (-1) low in
  if length <? 32 then Z.land mask (Z.lnot (Z.shiftl (-1) length)) else mask.
(** kernel/ioport.c:73-73 the mask of the bits below [length] *)
Definition tail_mask (length : Z) : Z := Z.lnot (Z.shiftl (-1) length).

(** kernel/ioport.c:59-62 the bits of a mask in one word *)
Definition set_word (mask new_value w : Z) : Z :=
  if ctrue new_value then u32 (Z.lor w mask) else Z.land w (Z.lnot mask).

(** kernel/ioport.c:66-78 whole words from index [i] on, and the last bits *)
Fixpoint set_words (n : nat) (i length new_value : Z) (bitmap : list Z) : list Z :=
  match n with
  | S n =>
      if 32 <=? length
      then set_words n (i + 1) (length - 32) new_value
             (zupd bitmap i (if ctrue new_value then 0xffffffff else 0))
      else if 0 <? length
      then zupd bitmap i (set_word (tail_mask length) new_value (znth 0 bitmap i))
      else bitmap
  | O => bitmap
  end.

(** kernel/ioport.c:47-79 [set_bitmap]; [base] and [extent] are shorts *)
Definition set_bitmap (bitmap : list Z) (base extent new_value : Z) : list Z :=
  let i := Z.shiftr base 5 in
  let low_index := Z.land base 0x1f in
  let length := low_index + extent in
  let fuel := S (Z.to_nat (length / 32)) in
  if ctrue low_index then
    set_words fuel (i + 1) (length - 32) new_value
      (zupd bitmap i (set_word (head_mask low_index length) new_value (znth 0 bitmap i)))
  else set_words fuel i length new_value bitmap.

(** kernel/ioport.c:97-108 whole words from index [i] on, and the last bits *)
Fixpoint check_words (n : nat) (i length : Z) (bitmap : list Z) : Z :=
  match n with
  | S n =>
      if 32 <=? length
      then if ctrue (znth 0 bitmap i) then 1 else check_words n (i + 1) (length - 32) bitmap
      else if 0 <? length
      then b2z (flag (znth 0 bitmap i) (tail_mask length))
      else 0
  | O => 0
  end.

(** kernel/ioport.c:82-109 [check_bitmap] *)
Definition check_bitmap (bitmap : list Z) (base extent : Z) : Z :=
  let i := Z.shiftr base 5 in
  let low_index := Z.land base 0x1f in
  let length := low_index + extent in
  let fuel := S (Z.to_nat (length / 32)) in
  if ctrue low_index then
    if flag (znth 0 bitmap i) (head_mask low_index length) then 1
    else check_words fuel (i + 1) (length - 32) bitmap
  else check_words fuel i length bitmap.

(** kernel/ioport.c:114-128 [sys_ioperm]; a set bit forbids the port *)
Definition sys_ioperm (from num turn_on : Z) (s : kstate) : Z * kstate :=
  if u32 (from + num) <=? from then (- EINVAL, s)
  else if IO_BITMAP_SIZE * 32 <? u32 (from + num) then (- EINVAL, s)
  else if negb (suser (cur s)) then (- EPERM, s)
  else (0, upd_cur (fun t => t <| io_bitmap ::= fun b =>
              set_bitmap b (s16 from) (s16 num) (b2z (negb (ctrue turn_on))) |>) s).

(** kernel/ioport.c:142-155 [sys_iopl]: the result and the caller's eflags *)
Definition sys_iopl (su : bool) (ebx eflags : Z) : Z * Z :=
  let level := u32 ebx in
  if 3 <? level then (- EINVAL, eflags)
  else if negb su then (- EPERM, eflags)
  else (0, Z.lor (Z.land eflags 0xffffcfff) (Z.shiftl level 12)).

(** kernel/ioport.c:158-166 [snarf_region] on [ioport_registrar] *)
Definition snarf_region (from num : Z) (registrar : list Z) : list Z :=
  if IO_BITMAP_SIZE * 32 <? from then registrar else
  let num := if IO_BITMAP_SIZE * 32 <? u32 (from + num) then u32 (IO_BITMAP_SIZE * 32 - from) else num in
  set_bitmap registrar (s16 from) (s16 num) 1.

(** kernel/ioport.c:168-175 [check_region] *)
Definition check_region (from num : Z) (registrar : list Z) : Z :=
  if IO_BITMAP_SIZE * 32 <? from then 0 else
  let num := if IO_BITMAP_SIZE * 32 <? u32 (from + num) then u32 (IO_BITMAP_SIZE * 32 - from) else num in
  check_bitmap registrar (s16 from) (s16 num).

(** kernel/ioport.c:178-184 [reserve_setup]: [ints] holds its length and then
    pairs of ports and counts *)
Fixpoint reserve_setup (n : Z) (ints : list Z) (i : Z) (registrar : list Z) : list Z :=
  match ints with
  | from :: num :: ints =>
      if i <? n then reserve_setup n ints (i + 2) (snarf_region (u32 from) (u32 num) registrar)
      else registrar
  | _ => registrar
  end.

(** ** Properties *)

(** Bit [k] of the array. *)
Definition bit (bitmap : list Z) (k : Z) : bool := Z.testbit (znth 0 bitmap (k / 32)) (k mod 32).
(** The words are 32 bits wide. *)
Definition words_ok (bitmap : list Z) : Prop := Forall (fun w => 0 <= w < 2 ^ 32) bitmap.

Lemma testbit_ones_from k j : 0 <= k -> 0 <= j -> Z.testbit (Z.shiftl (-1) k) j = (k <=? j).
Proof.
  intros. rewrite Z.shiftl_spec by lia. destruct (Z.leb_spec k j).
  - by rewrite Z.bits_m1 by lia.
  - by rewrite Z.testbit_neg_r by lia.
Qed.

Lemma tail_mask_spec length j : 0 <= length -> 0 <= j -> Z.testbit (tail_mask length) j = (j <? length).
Proof.
  intros. unfold tail_mask. rewrite Z.lnot_spec, testbit_ones_from by lia.
  destruct (Z.leb_spec length j), (Z.ltb_spec j length); done || lia.
Qed.

Lemma head_mask_spec low length j :
  0 <= low -> 0 <= length -> 0 <= j < 32 ->
  Z.testbit (head_mask low length) j = (low <=? j) && (j <? length).
Proof.
  intros. unfold head_mask. destruct (Z.ltb_spec length 32).
  - rewrite Z.land_spec, Z.lnot_spec, !testbit_ones_from by lia.
    f_equal. destruct (Z.leb_spec length j), (Z.ltb_spec j length); done || lia.
  - rewrite testbit_ones_from by lia. destruct (Z.ltb_spec j length); [| lia].
    by rewrite andb_true_r.
Qed.

Lemma testbit_u32 z j : 0 <= j < 32 -> Z.testbit (u32 z) j = Z.testbit z j.
Proof. intros. unfold uwrap. apply Z.mod_pow2_bits_low. lia. Qed.

Lemma set_word_spec mask v w j :
  0 <= j < 32 ->
  Z.testbit (set_word mask v w) j = if Z.testbit mask j then ctrue v else Z.testbit w j.
Proof.
  intros. unfold set_word. destruct (ctrue v).
  - rewrite testbit_u32, Z.lor_spec by lia. by destruct (Z.testbit w j), (Z.testbit mask j).
  - rewrite Z.land_spec, Z.lnot_spec by lia. by destruct (Z.testbit w j), (Z.testbit mask j).
Qed.

Lemma testbit_high w j : 0 <= w < 2 ^ 32 -> 32 <= j -> Z.testbit w j = false.
Proof. intros Hw Hj. rewrite <- (Z.mod_small w (2 ^ 32)) by done. by apply Z.mod_pow2_bits_high. Qed.

Lemma set_word_ok mask v w : 0 <= w < 2 ^ 32 -> 0 <= set_word mask v w < 2 ^ 32.
Proof.
  intros Hw. unfold set_word. destruct (ctrue v); [apply u32_bounds |].
  enough (Z.land w (Z.lnot mask) = u32 (Z.land w (Z.lnot mask))) as -> by apply u32_bounds.
  apply bits_eq. intros j Hj. destruct (decide (j < 32)); [by rewrite testbit_u32 by lia |].
  unfold uwrap. rewrite Z.mod_pow2_bits_high, Z.land_spec, testbit_high by (lia || done). done.
Qed.

(** A word is 0 when its 32 bits are. *)
Lemma word_zero w : 0 <= w < 2 ^ 32 -> ctrue w = true <-> exists j, 0 <= j < 32 /\ Z.testbit w j = true.
Proof.
  intros Hw. unfold ctrue. rewrite negb_true_iff, Z.eqb_neq. split.
  - intros Hne. destruct (existsb (fun j => Z.testbit w j) (seqZ 0 32)) eqn:E.
    + apply existsb_exists in E as (j & Hj & Hb). exists j.
      apply list_elem_of_In, elem_of_seqZ in Hj. split; [lia | done].
    + exfalso. apply Hne, bits_eq. intros j Hj. rewrite Z.testbit_0_l.
      destruct (decide (j < 32)); [| by apply testbit_high; lia].
      destruct (Z.testbit w j) eqn:Eb; [| done].
      assert (existsb (fun j => Z.testbit w j) (seqZ 0 32) = true) as E'; [| congruence].
      apply existsb_exists. exists j. split; [| done]. apply list_elem_of_In, elem_of_seqZ. lia.
  - intros (j & Hj & Hb) ->. by rewrite Z.testbit_0_l in Hb.
Qed.

Lemma flag_bits w mask :
  0 <= w < 2 ^ 32 ->
  flag w mask = true <-> exists j, 0 <= j < 32 /\ Z.testbit w j = true /\ Z.testbit mask j = true.
Proof.
  intros Hw. unfold flag.
  assert (Z.land w mask = set_word (Z.lnot mask) 0 w) as E.
  { unfold set_word. cbn. by rewrite Z.lnot_involutive. }
  rewrite E, word_zero by by apply set_word_ok. rewrite <- E.
  setoid_rewrite Z.land_spec. setoid_rewrite andb_true_iff. done.
Qed.

(** One word of the array changes. *)
Lemma bit_zupd bitmap i w k :
  0 <= i < Z.of_nat (length bitmap) -> 0 <= k ->
  bit (zupd bitmap i w) k = if k / 32 =? i then Z.testbit w (k mod 32) else bit bitmap k.
Proof.
  intros Hi Hk. unfold bit. destruct (Z.eqb_spec (k / 32) i) as [<- |].
  - by rewrite znth_zupd_eq.
  - rewrite znth_zupd_ne; [done | lia | | done]. Z.to_euclidean_division_equations. lia.
Qed.

Lemma words_ok_zupd bitmap i w : words_ok bitmap -> 0 <= w < 2 ^ 32 -> words_ok (zupd bitmap i w).
Proof. intros. unfold zupd. case_match; [done |]. by apply Forall_insert. Qed.

Lemma words_ok_znth bitmap i : words_ok bitmap -> 0 <= znth 0 bitmap i < 2 ^ 32.
Proof.
  intros H. unfold znth. case_match; [lia |]. rewrite nth_lookup.
  destruct (bitmap !! Z.to_nat i) eqn:E; [| cbn; lia]. by eapply Forall_lookup_1 in H.
Qed.

Lemma div_mod_32 k i j : 0 <= j < 32 -> k = 32 * i + j -> k / 32 = i /\ k mod 32 = j.
Proof. intros. Z.to_euclidean_division_equations. lia. Qed.

(** The index and the offset of a bit. *)
Ltac bit_index k :=
  let q := fresh "q" in let r := fresh "r" in
  pose proof (Z.div_mod k 32 ltac:(lia)); pose proof (Z.mod_pos_bound k 32 ltac:(lia));
  set (q := k / 32) in *; set (r := k mod 32) in *; clearbody q r.

Lemma set_words_spec n i length v bitmap k :
  length < 32 * Z.of_nat n -> 0 <= i -> 32 * i + length <= 32 * Z.of_nat (List.length bitmap) ->
  0 <= k ->
  bit (set_words n i length v bitmap) k
  = if (32 * i <=? k) && (k <? 32 * i + length) then ctrue v else bit bitmap k.
Proof.
  revert i length bitmap. induction n as [| n IH]; intros i len bitmap Hlen Hi Hroom Hk; cbn [set_words].
  { destruct (Z.leb_spec (32 * i) k), (Z.ltb_spec k (32 * i + len)); done || lia. } destruct (Z.leb_spec 32 len).
  - rewrite IH, bit_zupd by (rewrite ?zupd_length; lia).
    bit_index k. 
    destruct (Z.leb_spec (32 * (i + 1)) k), (Z.ltb_spec k (32 * (i + 1) + (len - 32))),
      (Z.leb_spec (32 * i) k), (Z.ltb_spec k (32 * i + len)), (Z.eqb_spec q i); cbn [andb]; try lia; try done.
    destruct (ctrue v); [| apply Z.testbit_0_l]. change 0xffffffff with (Z.ones 32).
    apply Z.ones_spec_low. lia.
  - destruct (Z.ltb_spec 0 len).
    + rewrite bit_zupd by lia. assert (bit bitmap k = Z.testbit (znth 0 bitmap (k / 32)) (k mod 32)) as E
        by done. set (b := bit bitmap k) in *. clearbody b. bit_index k.
      destruct (Z.eqb_spec q i) as [-> |].
      * rewrite set_word_spec, tail_mask_spec, <- E by lia.
        destruct (Z.ltb_spec r len), (Z.leb_spec (32 * i) k), (Z.ltb_spec k (32 * i + len)); done || lia.
      * destruct (Z.leb_spec (32 * i) k), (Z.ltb_spec k (32 * i + len)); done || lia.
    + destruct (Z.leb_spec (32 * i) k), (Z.ltb_spec k (32 * i + len)); done || lia.
Qed.

(** The index and the offset of the first bit. *)
Lemma base_index base : Z.shiftr base 5 = base / 32 /\ Z.land base 0x1f = base mod 32.
Proof.
  split; [by rewrite Z.shiftr_div_pow2 |]. change 0x1f with (Z.ones 5). by rewrite Z.land_ones.
Qed.

Lemma set_bitmap_bits bitmap base extent v k :
  0 <= base -> 0 <= extent -> base + extent <= 32 * Z.of_nat (length bitmap) ->
  0 <= k < 32 * Z.of_nat (length bitmap) ->
  bit (set_bitmap bitmap base extent v) k
  = if (base <=? k) && (k <? base + extent) then ctrue v else bit bitmap k.
Proof.
  intros Hb He Hroom Hk. unfold set_bitmap. destruct (base_index base) as [-> ->]. cbv zeta.
  pose proof (Z.div_mod base 32 ltac:(lia)) as Hdm. pose proof (Z.mod_pos_bound base 32 ltac:(lia)) as Hm.
  set (q := base / 32) in *. set (r := base mod 32) in *. clearbody q r.
  assert (r + extent < 32 * Z.of_nat (S (Z.to_nat ((r + extent) / 32)))) as Hfuel
    by (Z.to_euclidean_division_equations; lia).
  unfold ctrue at 1. destruct (Z.eqb_spec r 0) as [-> | Hr]; cbn [negb].
  - rewrite set_words_spec by lia. by replace (32 * q) with base by lia.
  - rewrite set_words_spec, bit_zupd by (rewrite ?zupd_length; lia).
    assert (bit bitmap k = Z.testbit (znth 0 bitmap (k / 32)) (k mod 32)) as E by done.
    set (b := bit bitmap k) in *. clearbody b. bit_index k.
    destruct (Z.eqb_spec q0 q) as [-> |].
    + rewrite set_word_spec, head_mask_spec, <- E by lia.
      destruct (Z.leb_spec r r0), (Z.ltb_spec r0 (r + extent)), (Z.leb_spec (32 * (q + 1)) k),
        (Z.ltb_spec k (32 * (q + 1) + (r + extent - 32))), (Z.leb_spec base k),
        (Z.ltb_spec k (base + extent)); done || lia.
    + destruct (Z.leb_spec (32 * (q + 1)) k), (Z.ltb_spec k (32 * (q + 1) + (r + extent - 32))),
        (Z.leb_spec base k), (Z.ltb_spec k (base + extent)); done || lia.
Qed.

Lemma set_words_ok n i length v bitmap : words_ok bitmap -> words_ok (set_words n i length v bitmap).
Proof.
  revert i length bitmap. induction n as [| n IH]; intros i len bitmap H; cbn [set_words]; [done |].
  destruct (32 <=? len).
  - apply IH, words_ok_zupd; [done | by destruct (ctrue v)].
  - destruct (0 <? len); [| done]. by apply words_ok_zupd, set_word_ok, words_ok_znth.
Qed.

Lemma set_bitmap_ok bitmap base extent v : words_ok bitmap -> words_ok (set_bitmap bitmap base extent v).
Proof.
  intros H. unfold set_bitmap. cbv zeta. destruct (ctrue _); apply set_words_ok; [| done].
  by apply words_ok_zupd, set_word_ok, words_ok_znth.
Qed.

Lemma set_words_length n i length v bitmap :
  List.length (set_words n i length v bitmap) = List.length bitmap.
Proof.
  revert i length bitmap. induction n as [| n IH]; intros i len bitmap; cbn [set_words]; [done |].
  destruct (32 <=? len); [rewrite IH; apply zupd_length |].
  destruct (0 <? len); [apply zupd_length | done].
Qed.

Lemma set_bitmap_length bitmap base extent v : length (set_bitmap bitmap base extent v) = length bitmap.
Proof.
  unfold set_bitmap. cbv zeta. destruct (ctrue _); rewrite set_words_length; [apply zupd_length | done].
Qed.

(** Checking finds a set bit of the range. *)
Lemma check_words_spec n i length bitmap :
  words_ok bitmap -> length < 32 * Z.of_nat n -> 0 <= i ->
  check_words n i length bitmap = 1 <-> exists k, 32 * i <= k < 32 * i + length /\ bit bitmap k = true.
Proof.
  intros Hok Hlen Hi. revert i length Hlen Hi. induction n as [| n IH]; intros i len Hlen Hi; cbn [check_words].
  { split; [done | intros (k & Hk & _); lia]. }
  pose proof (words_ok_znth bitmap i Hok) as Hw.
  assert (forall j, 0 <= j < 32 -> bit bitmap (32 * i + j) = Z.testbit (znth 0 bitmap i) j) as Hbit.
  { intros j Hj. unfold bit. by destruct (div_mod_32 (32 * i + j) i j Hj eq_refl) as [-> ->]. }
  destruct (Z.leb_spec 32 len).
  - destruct (ctrue (znth 0 bitmap i)) eqn:Ec.
    + apply word_zero in Ec as (j & Hj & Hb); [| done]. split; [| done]. intros _.
      exists (32 * i + j). split; [lia |]. by rewrite Hbit.
    + rewrite IH by lia. split; intros (k & Hk & Hb); exists k; (split; [| done]); [lia |].
      destruct (decide (32 * (i + 1) <= k)); [lia |]. exfalso.
      assert (ctrue (znth 0 bitmap i) = true); [| congruence]. apply word_zero; [done |].
      exists (k - 32 * i). split; [lia |]. rewrite <- Hbit by lia. by replace (32 * i + (k - 32 * i)) with k by lia.
  - destruct (Z.ltb_spec 0 len).
    + destruct (flag (znth 0 bitmap i) (tail_mask len)) eqn:Ef.
      * apply flag_bits in Ef as (j & Hj & Hb & Hm); [| done]. rewrite tail_mask_spec in Hm by lia.
        split; [| done]. intros _. exists (32 * i + j). bool_simp. split; [lia |]. by rewrite Hbit.
      * split; [done |]. intros (k & Hk & Hb). exfalso.
        assert (flag (znth 0 bitmap i) (tail_mask len) = true); [| congruence].
        apply flag_bits; [done |]. exists (k - 32 * i). split; [lia |].
        rewrite <- Hbit, tail_mask_spec by lia. replace (32 * i + (k - 32 * i)) with k by lia.
        split; [done | by apply Z.ltb_lt; lia].
    + split; [done | intros (k & Hk & _); lia].
Qed.

Lemma check_bitmap_bits bitmap base extent :
  words_ok bitmap -> 0 <= base -> 0 <= extent ->
  check_bitmap bitmap base extent = 1
  <-> exists k, base <= k < base + extent /\ bit bitmap k = true.
Proof.
  intros Hok Hb He. unfold check_bitmap. destruct (base_index base) as [-> ->]. cbv zeta.
  pose proof (Z.div_mod base 32 ltac:(lia)) as Hdm. pose proof (Z.mod_pos_bound base 32 ltac:(lia)) as Hm.
  set (q := base / 32) in *. set (r := base mod 32) in *. clearbody q r.
  assert (r + extent < 32 * Z.of_nat (S (Z.to_nat ((r + extent) / 32)))) as Hfuel
    by (Z.to_euclidean_division_equations; lia).
  unfold ctrue. destruct (Z.eqb_spec r 0) as [-> | Hr]; cbn [negb].
  - rewrite check_words_spec by lia || done. by replace (32 * q) with base by lia.
  - pose proof (words_ok_znth bitmap q Hok) as Hw.
    assert (forall j, 0 <= j < 32 -> bit bitmap (32 * q + j) = Z.testbit (znth 0 bitmap q) j) as Hbit.
    { intros j Hj. unfold bit. by destruct (div_mod_32 (32 * q + j) q j Hj eq_refl) as [-> ->]. }
    destruct (flag (znth 0 bitmap q) (head_mask r (r + extent))) eqn:Ef.
    + apply flag_bits in Ef as (j & Hj & Hbj & Hmj); [| done]. rewrite head_mask_spec in Hmj by lia.
      split; [| done]. intros _. exists (32 * q + j). bool_simp. split; [lia |]. by rewrite Hbit.
    + rewrite check_words_spec by lia || done.
      split; intros (k & Hk & Hbk); exists k; (split; [| done]); [lia |].
      destruct (decide (32 * (q + 1) <= k)); [lia |]. exfalso.
      assert (flag (znth 0 bitmap q) (head_mask r (r + extent)) = true); [| congruence].
      apply flag_bits; [done |]. exists (k - 32 * q). split; [lia |].
      rewrite <- Hbit, head_mask_spec by lia. replace (32 * q + (k - 32 * q)) with k by lia.
      split; [done |]. apply andb_true_iff. split; [apply Z.leb_le | apply Z.ltb_lt]; lia.
Qed.

(** C31: Reserved ports are found.  After [snarf_region] reserves a range of
    ports, [check_region] on any range answers 1 exactly when the two ranges
    share a port of the 1024 in the registrar, or the range holds a port that
    was reserved before. *)
Theorem snarf_check_region f m a n registrar :
  length registrar = 32%nat -> words_ok registrar ->
  0 <= f <= 1024 -> 0 <= m -> 0 <= a <= 1024 -> 0 <= n -> f + m < 2 ^ 32 -> a + n < 2 ^ 32 ->
  check_region a n (snarf_region f m registrar) = 1
  <-> exists k, a <= k < Z.min (a + n) 1024 /\ (f <= k < f + m \/ bit registrar k = true).
Proof.
  intros Hlen Hok Hf Hm Ha Hn Hfm Han. unfold check_region, snarf_region.
  change (IO_BITMAP_SIZE * 32) with 1024.
  destruct (Z.ltb_spec 1024 f), (Z.ltb_spec 1024 a); try lia. rewrite !(u32_small (_ + _)) by lia.
  set (m' := if 1024 <? f + m then u32 (1024 - f) else m).
  set (n' := if 1024 <? a + n then u32 (1024 - a) else n).
  assert (0 <= m' /\ f + m' = Z.min (f + m) 1024) as [Hm0 Hm'].
  { subst m'. destruct (Z.ltb_spec 1024 (f + m)); [rewrite u32_small by lia |]; lia. }
  assert (0 <= n' /\ a + n' = Z.min (a + n) 1024) as [Hn0 Hn'].
  { subst n'. destruct (Z.ltb_spec 1024 (a + n)); [rewrite u32_small by lia |]; lia. }
  clearbody m' n'. rewrite !s16_small by lia.
  rewrite check_bitmap_bits by (lia || by apply set_bitmap_ok). rewrite Hn'.
  apply exist_proper. intros k. split.
  - intros [Hk Hb]. split; [done |]. rewrite set_bitmap_bits in Hb by lia.
    destruct (Z.leb_spec f k), (Z.ltb_spec k (f + m')); cbn [andb] in Hb; [left; lia | by right..].
  - intros [Hk Hb]. split; [done |]. rewrite set_bitmap_bits by lia.
    destruct (Z.leb_spec f k), (Z.ltb_spec k (f + m')); cbn [andb]; try done;
      (destruct Hb as [Hb | Hb]; [lia | exact Hb]).
Qed.

Lemma snarf_check_region_witness :
  check_region 0x3ff 1 (snarf_region 0x3f8 8 (replicate 32 0)) = 1 /\
  check_region 0x3f0 8 (snarf_region 0x3f8 8 (replicate 32 0)) <> 1.
Proof.
  split.
  - apply (snarf_check_region 0x3f8 8 0x3ff 1 (replicate 32 0));
      [reflexivity | by apply Forall_replicate | lia | lia | lia | lia | lia | lia |].
    exists 0x3ff. split; [lia | left; lia].
  - vm_compute. congruence.
Defined.

(** [ioperm] changes exactly the requested ports.  The super user can
    change any range inside the 1024 ports of the bitmap (and nobody else, and
    no other range): afterwards each port of the range is permitted or
    forbidden as asked, and every other port is as before. *)
Theorem ioperm_spec from num turn_on s :
  length (io_bitmap (cur s)) = 33%nat -> 0 <= from < 2 ^ 32 -> 0 <= num < 2 ^ 32 ->
  let '(r, s') := sys_ioperm from num turn_on s in
  if (1 <=? num) && (from + num <=? 1024) && suser (cur s)
  then r = 0 /\ forall k, 0 <= k < 1024 ->
    bit (io_bitmap (cur s')) k
    = if (from <=? k) && (k <? from + num) then negb (ctrue turn_on) else bit (io_bitmap (cur s)) k
  else r < 0 /\ s' = s.
Proof.
  intros Hlen Hf Hn. unfold sys_ioperm. change (IO_BITMAP_SIZE * 32) with 1024.
  destruct (decide (from + num < 2 ^ 32)) as [Hw | Hw].
  - rewrite u32_small by lia.
    destruct (Z.leb_spec (from + num) from), (Z.leb_spec 1 num), (Z.ltb_spec 1024 (from + num)),
      (Z.leb_spec (from + num) 1024); try lia; cbn [andb]; try (by split).
    destruct (suser (cur s)); cbn [negb]; [| by split]. split; [done |]. intros k Hk.
    rewrite cur_upd_cur. cbn [io_bitmap upd]. rewrite !s16_small by lia.
    rewrite set_bitmap_bits by lia. by destruct (ctrue turn_on).
  - assert (u32 (from + num) = from + num - 2 ^ 32) as ->.
    { unfold uwrap. symmetry. apply (Z.mod_unique_pos _ _ 1); lia. }
    destruct (Z.leb_spec (from + num - 2 ^ 32) from), (Z.leb_spec 1 num),
      (Z.leb_spec (from + num) 1024); try lia; by split.
Qed.

Lemma ioperm_spec_witness :
  bit (io_bitmap (cur (sys_ioperm 0x60 2 0 (demo_user <| current := 2%nat |>)).2)) 0x61 = true.
Proof.
  pose proof (ioperm_spec 0x60 2 0 (demo_user <| current := 2%nat |>) eq_refl
    ltac:(lia) ltac:(lia)) as H.
  destruct (sys_ioperm 0x60 2 0 (demo_user <| current := 2%nat |>)) as [r s'].
  destruct H as [_ H]. apply (H 0x61). lia.
Defined.
