(* ===== verification/Ipc.v ===== *)
(** What the System V IPC mechanisms share (include/linux/ipc.h, ipc/util.c):
    permissions, the tables of identifiers, and the call numbers. *)

From S2P Require Import Prelude Errno Task Sched Sys.

(** include/linux/ipc.h:8-17 [struct ipc_perm] *)
Record ipc_perm := mk_perm {
  key : Z; p_uid : Z; p_gid : Z; cuid : Z; cgid : Z; mode : Z; seq : Z;
}.
#[export] Instance eta_perm : Eta ipc_perm := fun p =>
  mk_perm (key p) (p_uid p) (p_gid p) (cuid p) (cgid p) (mode p) (seq p).

(** include/linux/ipc.h:6-33 flags and commands *)
Definition IPC_PRIVATE := 0.
Definition IPC_CREAT := 0x200.
Definition IPC_EXCL := 0x400.
Definition IPC_NOWAIT := 0x800.
Definition IPC_RMID := 0.
Definition IPC_SET := 1.
Definition IPC_STAT := 2.
Definition IPC_INFO := 3.

(** include/linux/ipc.h:38-39 an entry of [semary] or [msgque]: unused, being
    allocated, or the address of the object *)
Inductive slot := IPC_UNUSED | IPC_NOID | Ptr (a : nat).
#[export] Instance slot_eq_dec : EqDecision slot.
Proof. solve_decision. Defined.

(** ipc/util.c:51-67 [ipcperms]: is the access allowed (result 0)?  [flag] is
    a short *)
Definition ipcperms (ipcp : ipc_perm) (flag : Z) (s : kstate) : bool :=
  if suser (cur s) then true else
  let flag := s16 flag in
  let requested_mode := Z.lor (Z.lor (Z.shiftr flag 6) (Z.shiftr flag 3)) flag in
  let granted_mode :=
    if (euid (cur s) =? cuid ipcp) || (euid (cur s) =? p_uid ipcp) then Z.shiftr (mode ipcp) 6
    else if in_group_p (cgid ipcp) s || in_group_p (p_gid ipcp) s then Z.shiftr (mode ipcp) 3
    else mode ipcp in
  negb (ctrue (Z.land (Z.land requested_mode (Z.lnot granted_mode)) 7)).

(** The owner, the creator and the super user may change an object. *)
Definition ipc_owner (ipcp : ipc_perm) (s : kstate) : bool :=
  suser (cur s) || (euid (cur s) =? cuid ipcp) || (euid (cur s) =? p_uid ipcp).

(** include/linux/ipc.h:49-59 the call numbers of [sys_ipc] *)
Definition SEMOP := 1.
Definition SEMGET := 2.
Definition SEMCTL := 3.
Definition MSGSND := 11.
Definition MSGRCV := 12.
Definition MSGGET := 13.
Definition MSGCTL := 14.
Definition SHMAT := 21.
Definition SHMDT := 22.
Definition SHMGET := 23.
Definition SHMCTL := 24.

(** A system call that [sys_ipc] forwards to. *)
Inductive ipc_call :=
| CallSemop | CallSemget | CallSemctl
| CallMsgsnd | CallMsgrcv | CallMsgget | CallMsgctl
| CallShmat | CallShmdt | CallShmget | CallShmctl
| CallError.

(** ipc/util.c:69-121 [sys_ipc]: which call; [ptr] tells whether the pointer
    is not NULL *)
Definition sys_ipc (call : Z) (ptr : bool) : ipc_call :=
  if call <=? SEMCTL then
    if call =? SEMOP then CallSemop else if call =? SEMGET then CallSemget
    else if call =? SEMCTL then CallSemctl else CallError
  else if call <=? MSGCTL then
    if call =? MSGSND then CallMsgsnd
    else if call =? MSGRCV then if ptr then CallMsgrcv else CallError
    else if call =? MSGGET then CallMsgget else if call =? MSGCTL then CallMsgctl else CallError
  else if call <=? SHMCTL then
    if call =? SHMAT then CallShmat else if call =? SHMDT then CallShmdt
    else if call =? SHMGET then CallShmget else if call =? SHMCTL then CallShmctl else CallError
  else CallError.

(** ** Tables of identifiers

    Slot [id] of a table of [max] entries with sequence number [seq] has the
    identifier [seq * max + id]. *)
Section table.
Context (size : Z) (Hsize : 0 < size).

Definition make_id (sq id : Z) : Z := s32 (sq * size + id).

Lemma make_id_split sq id :
  0 <= id < size -> 0 <= sq < 65536 -> size <= 2 ^ 14 ->
  make_id sq id / size = sq /\ make_id sq id mod size = id /\ 0 <= make_id sq id.
Proof using Hsize.
  intros Hid Hsq Hs. unfold make_id. rewrite s32_small by nia.
  split_and!; [| | nia].
  - rewrite Z.div_add_l by lia. rewrite Z.div_small by lia. lia.
  - rewrite Z.add_comm, Z.mod_add by lia. by apply Z.mod_small.
Qed.
End table.

(** The used entries of a table. *)
Definition used_ptrs (t : list slot) : list nat :=
  omap (fun x => match x with Ptr a => Some a | _ => None end) t.
Definition slot_at (t : list slot) (id : Z) : slot := znth IPC_UNUSED t id.

(** ipc/sem.c:155-156 the highest used entry moves down to the next one that is
    not unused; also ipc/msg.c:304-305 *)
Fixpoint lower_max (n : nat) (t : list slot) : Z :=
  match n with
  | O => 0
  | S n => if decide (slot_at t (Z.of_nat n) = IPC_UNUSED) then lower_max n t else Z.of_nat n
  end.

Lemma used_ptrs_insert t i x y :
  t !! i = Some y ->
  used_ptrs (<[i := x]> t) ++ used_ptrs [y] ≡ₚ used_ptrs t ++ used_ptrs [x].
Proof.
  intros Hi.
  assert (forall z, used_ptrs (take i t ++ z :: drop (S i) t) =
                    used_ptrs (take i t) ++ used_ptrs [z] ++ used_ptrs (drop (S i) t)) as E.
  { intros z. unfold used_ptrs. rewrite omap_app. by destruct z. }
  rewrite insert_take_drop by (by eapply lookup_lt_Some).
  rewrite <- (take_drop_middle t i y Hi) at 3. rewrite !E.
  generalize (used_ptrs (take i t)), (used_ptrs (drop (S i) t)), (used_ptrs [x]), (used_ptrs [y]).
  intros A B X Y. rewrite <- !app_assoc. apply Permutation_app_head.
  rewrite (Permutation_app_comm X), (Permutation_app_comm Y (B ++ X)), <- !app_assoc.
  apply Permutation_app_head, Permutation_app_comm.
Qed.

Lemma lower_max_spec n t :
  0 <= lower_max n t <= Z.of_nat n /\ ((0 < n)%nat -> lower_max n t < Z.of_nat n) /\
  forall j, lower_max n t < j < Z.of_nat n -> slot_at t j = IPC_UNUSED.
Proof.
  induction n as [| n IH]; cbn [lower_max]; [split_and!; lia |].
  destruct IH as (H1 & H2 & H3). case_decide as Hd; [| split_and!; try lia].
  split_and!; try lia. intros j Hj. destruct (decide (j = Z.of_nat n)) as [-> |]; [done |].
  apply H3. lia.
Qed.

(** The table agrees with its accounts: [pend] are the entries reserved by
    allocations in progress, [dead] the objects that were removed, [fresh] the
    next address, [used] and [mx] the counters of the code. *)
Record table_ok (size : Z) (t : list slot) (pend : list Z) (dead : list nat) (fresh : nat)
    (used mx : Z) : Prop := mk_table_ok {
  tb_len : length t = Z.to_nat size;
  tb_pend : NoDup pend;
  tb_noid : forall id, slot_at t id = IPC_NOID <-> id ∈ pend;
  tb_nodup : NoDup (used_ptrs t);
  tb_live : forall a, a ∈ used_ptrs t -> (a < fresh)%nat /\ a ∉ dead;
  tb_dead : forall a, a ∈ dead -> (a < fresh)%nat;
  tb_used : used = Z.of_nat (length (used_ptrs t));
  tb_max : 0 <= mx < size;
  tb_above : forall id a, slot_at t id = Ptr a -> id <= mx;
}.

Lemma table_fresh_le size t pend dead n n' used mx :
  table_ok size t pend dead n used mx -> (n <= n')%nat -> table_ok size t pend dead n' used mx.
Proof.
  intros [] Hn. constructor; try done.
  - intros a Ha. destruct (tb_live0 a Ha). split; [lia | done].
  - intros a Ha. specialize (tb_dead0 a Ha). lia.
Qed.

Lemma table_init size : 0 < size -> table_ok size (replicate (Z.to_nat size) IPC_UNUSED) [] [] 0 0 0.
Proof.
  intros Hs. assert (forall id, slot_at (replicate (Z.to_nat size) IPC_UNUSED) id = IPC_UNUSED) as Hu.
  { intros id. unfold slot_at, znth. destruct (id <? 0); [done |]. rewrite nth_lookup.
    destruct (replicate _ _ !! _) eqn:E; [| done]. by apply lookup_replicate in E as [-> _]. }
  assert (used_ptrs (replicate (Z.to_nat size) IPC_UNUSED) = []) as E.
  { generalize (Z.to_nat size). intros n. induction n; done. }
  constructor; rewrite ?E; try done; try (by constructor).
  - apply length_replicate.
  - intros id. by rewrite Hu, elem_of_nil.
  - by intros a ?%elem_of_nil.
  - by intros a ?%elem_of_nil.
  - intros id a. by rewrite Hu.
Qed.

Lemma elem_used_ptrs t id a : slot_at t id = Ptr a -> a ∈ used_ptrs t.
Proof.
  unfold slot_at, znth. destruct (id <? 0); [done |]. rewrite nth_lookup.
  destruct (t !! _) eqn:E; cbn; [| done]. intros ->.
  apply list_elem_of_omap. exists (Ptr a). split; [by eapply list_elem_of_lookup_2 | done].
Qed.

Section table_steps.
Context (size : Z) (t : list slot) (pend : list Z) (dead : list nat) (fresh : nat) (used mx : Z).
Context (Ht : table_ok size t pend dead fresh used mx).

Lemma slot_at_range id x : slot_at t id = x -> x <> IPC_UNUSED -> 0 <= id < size.
Proof using Ht.
  unfold slot_at, znth. destruct (id <? 0) eqn:?; [congruence |]. bool_simp.
  rewrite nth_lookup. intros <- Hx.
  destruct (t !! Z.to_nat id) eqn:E; [| done].
  apply lookup_lt_Some in E. rewrite (tb_len _ _ _ _ _ _ _ Ht) in E. lia.
Qed.

Lemma slot_at_zupd id x j :
  0 <= id < size -> slot_at (zupd t id x) j = if decide (j = id) then x else slot_at t j.
Proof using Ht.
  intros Hid. unfold slot_at. case_decide; subst.
  - apply znth_zupd_eq. rewrite (tb_len _ _ _ _ _ _ _ Ht). lia.
  - destruct (decide (0 <= j)); [by apply znth_zupd_ne; lia |].
    unfold znth. destruct (j <? 0) eqn:?; [done | lia].
Qed.

Lemma used_ptrs_zupd id x :
  0 <= id < size ->
  used_ptrs (zupd t id x) ++ used_ptrs [slot_at t id] ≡ₚ used_ptrs t ++ used_ptrs [x].
Proof using Ht.
  intros Hid. unfold zupd, slot_at, znth. destruct (id <? 0) eqn:?; [lia |].
  rewrite nth_lookup.
  destruct (lookup_lt_is_Some_2 t (Z.to_nat id)) as [y Hy].
  { rewrite (tb_len _ _ _ _ _ _ _ Ht). lia. }
  rewrite Hy. by apply used_ptrs_insert.
Qed.

(** An unused entry is reserved. *)
Lemma table_reserve id :
  0 <= id < size -> slot_at t id = IPC_UNUSED ->
  used_ptrs (zupd t id IPC_NOID) ≡ₚ used_ptrs t /\
  table_ok size (zupd t id IPC_NOID) (id :: pend) dead fresh used mx.
Proof using Ht.
  intros Hid Hun. pose proof (slot_at_zupd id IPC_NOID) as Hslot.
  pose proof (used_ptrs_zupd id IPC_NOID Hid) as Hp. rewrite Hun in Hp.
  cbn [used_ptrs omap list_omap] in Hp. rewrite !app_nil_r in Hp. split; [done |].
  destruct Ht. constructor; rewrite ?Hp; try done.
  - by rewrite zupd_length.
  - constructor; [| done]. rewrite <- tb_noid0. congruence.
  - intros j. rewrite Hslot by done. rewrite elem_of_cons, <- tb_noid0. case_decide; naive_solver.
  - intros a. rewrite Hp. apply tb_live0.
  - intros j a. rewrite Hslot by done. case_decide; [done | apply tb_above0].
Qed.

(** A reserved entry is given back. *)
Lemma table_cancel id pend' :
  pend ≡ₚ id :: pend' ->
  used_ptrs (zupd t id IPC_UNUSED) ≡ₚ used_ptrs t /\
  table_ok size (zupd t id IPC_UNUSED) pend' dead fresh used mx.
Proof using Ht.
  intros Hpend.
  assert (slot_at t id = IPC_NOID) as Hno by (apply (tb_noid _ _ _ _ _ _ _ Ht); rewrite Hpend; set_solver).
  assert (0 <= id < size) as Hid by (by eapply slot_at_range).
  pose proof (slot_at_zupd id IPC_UNUSED) as Hslot.
  pose proof (used_ptrs_zupd id IPC_UNUSED Hid) as Hp. rewrite Hno in Hp.
  cbn [used_ptrs omap list_omap] in Hp. rewrite !app_nil_r in Hp. split; [done |].
  destruct Ht. rewrite Hpend, NoDup_cons in tb_pend0.
  constructor; rewrite ?Hp; try done.
  - by rewrite zupd_length.
  - apply tb_pend0.
  - intros j. rewrite Hslot by done. specialize (tb_noid0 j). rewrite Hpend in tb_noid0.
    case_decide; [naive_solver |]. rewrite tb_noid0. set_solver.
  - intros a. rewrite Hp. apply tb_live0.
  - intros j a. rewrite Hslot by done. case_decide; [done | apply tb_above0].
Qed.

(** A reserved entry gets its object. *)
Lemma table_install id pend' :
  pend ≡ₚ id :: pend' ->
  used_ptrs (zupd t id (Ptr fresh)) ≡ₚ fresh :: used_ptrs t /\ fresh ∉ used_ptrs t /\
  table_ok size (zupd t id (Ptr fresh)) pend' dead (S fresh) (used + 1) (Z.max mx id).
Proof using Ht.
  intros Hpend.
  assert (slot_at t id = IPC_NOID) as Hno by (apply (tb_noid _ _ _ _ _ _ _ Ht); rewrite Hpend; set_solver).
  assert (0 <= id < size) as Hid by (by eapply slot_at_range).
  pose proof (slot_at_zupd id (Ptr fresh)) as Hslot.
  pose proof (used_ptrs_zupd id (Ptr fresh) Hid) as Hp. rewrite Hno in Hp.
  cbn [used_ptrs omap list_omap] in Hp. rewrite app_nil_r, (Permutation_app_comm _ [fresh]) in Hp.
  cbn in Hp. split; [done |].
  destruct Ht. rewrite Hpend, NoDup_cons in tb_pend0.
  assert (fresh ∉ used_ptrs t) as Hf by (intros (? & _)%tb_live0; lia).
  split; [done |]. constructor.
  - by rewrite zupd_length.
  - apply tb_pend0.
  - intros j. rewrite Hslot by done. specialize (tb_noid0 j). rewrite Hpend in tb_noid0.
    case_decide; [naive_solver |]. rewrite tb_noid0. set_solver.
  - rewrite Hp. by constructor.
  - intros a. rewrite Hp. intros [-> | Ha]%elem_of_cons; [| destruct (tb_live0 a Ha); split; [lia | done]].
    split; [lia |]. intros Hd. specialize (tb_dead0 _ Hd). lia.
  - intros a Ha. specialize (tb_dead0 _ Ha). lia.
  - rewrite Hp. cbn [length]. lia.
  - lia.
  - intros j a. rewrite Hslot by done. case_decide; [lia |]. intros ?%tb_above0. lia.
Qed.

(** An object is taken out. *)
Lemma table_remove id a :
  slot_at t id = Ptr a ->
  used_ptrs t ≡ₚ a :: used_ptrs (zupd t id IPC_UNUSED) /\
  table_ok size (zupd t id IPC_UNUSED) pend (a :: dead) fresh (used - 1)
    (if id =? mx then lower_max (Z.to_nat mx) t else mx).
Proof using Ht.
  intros Ha. assert (0 <= id < size) as Hid by (by eapply slot_at_range).
  pose proof (slot_at_zupd id IPC_UNUSED) as Hslot.
  pose proof (used_ptrs_zupd id IPC_UNUSED Hid) as Hp. rewrite Ha in Hp.
  cbn [used_ptrs omap list_omap] in Hp. rewrite app_nil_r, (Permutation_app_comm _ [a]) in Hp.
  cbn in Hp. split; [done |].
  pose proof (lower_max_spec (Z.to_nat mx) t) as (L1 & L2 & L3).
  destruct Ht. rewrite <- Hp, NoDup_cons in tb_nodup0. rewrite <- Hp in tb_used0.
  assert (forall b, b ∈ a :: used_ptrs (zupd t id IPC_UNUSED) -> (b < fresh)%nat /\ b ∉ dead) as Hl
    by (intros b; rewrite Hp; apply tb_live0).
  constructor; try done.
  - by rewrite zupd_length.
  - intros j. rewrite Hslot by done. rewrite <- tb_noid0. case_decide; [| done]. subst. by rewrite Ha.
  - apply tb_nodup0.
  - intros b Hb. destruct (Hl b); set_solver.
  - intros b [-> | Hb]%elem_of_cons; [apply Hl; set_solver | by apply tb_dead0].
  - cbn [length] in tb_used0. lia.
  - case_match; lia.
  - intros j b. rewrite Hslot by done. case_decide as Hj; [done |]. intros Hb.
    pose proof (tb_above0 _ _ Hb). case_match; bool_simp; [| done].
    destruct (decide (j <= lower_max (Z.to_nat mx) t)); [done |].
    rewrite L3 in Hb by lia. done.
Qed.
End table_steps.
