(* ===== verification/Sem.v ===== *)
(** System V semaphores (ipc/sem.c).

    The system calls are cut at the places where the process sleeps
    ([interruptible_sleep_on], [schedule], [kmalloc] with [GFP_KERNEL]): each
    definition runs up to its return or to the next sleep, and other processes
    run in between.  Pointers are names in a memory of semaphore sets and undo
    structures, so that a process that sleeps in a set that is removed still
    has it.  A kernel [wake_up] acts on the task state. *)

From S2P Require Import Prelude Errno Task Signal Sched Sys Ipc.

(** include/linux/sem.h:33-45 [struct sem] *)
Record sem := mk_sem { sempid : Z; semval : Z; semncnt : Z; semzcnt : Z }.
#[export] Instance eta_sem : Eta sem := fun x => mk_sem (sempid x) (semval x) (semncnt x) (semzcnt x).

(** include/linux/sem.h:18-29 [struct semid_ds]; [undo] lists the undo
    structures along [id_next] *)
Record semid_ds := mk_semid_ds {
  sem_perm : ipc_perm; sem_otime : Z; sem_ctime : Z; sem_base : list sem;
  eventn : wait_queue; eventz : wait_queue; undo : list nat; sem_nsems : Z;
}.
#[export] Instance eta_semid_ds : Eta semid_ds := fun x =>
  mk_semid_ds (sem_perm x) (sem_otime x) (sem_ctime x) (sem_base x)
    (eventn x) (eventz x) (undo x) (sem_nsems x).

(** include/linux/sem.h:105-112 [struct sem_undo] *)
Record sem_undo := mk_sem_undo { un_semid : Z; semadj : Z; un_sem_num : Z }.
#[export] Instance eta_sem_undo : Eta sem_undo := fun x =>
  mk_sem_undo (un_semid x) (semadj x) (un_sem_num x).

(** include/linux/sem.h:52-56 [struct sembuf] *)
Record sembuf := mk_sembuf { sem_num : Z; sem_op : Z; sem_flg : Z }.

(** include/linux/sem.h:6-15 flags and commands *)
Definition SEM_UNDO := 0x1000.
Definition GETPID := 11.
Definition GETVAL := 12.
Definition GETALL := 13.
Definition GETNCNT := 14.
Definition GETZCNT := 15.
Definition SETVAL := 16.
Definition SETALL := 17.

(** include/linux/sem.h:79-95 limits *)
Definition SEMMNI := 128.
Definition SEMMSL := 32.
Definition SEMMNS := SEMMNI * SEMMSL.
Definition SEMOPM := 32.
Definition SEMVMX := 32767.
Definition SEM_STAT := 18.
Definition SEM_INFO := 19.

(** ipc/sem.c:21-28 the state; [sets] and [undos] are the memory of
    [struct semid_ds] and [struct sem_undo], [semun] the undo list of each
    process along [proc_next], [brk] the next free address *)
Record sem_state := mk_sem_state {
  semary : list slot; used_sems : Z; used_semids : Z; sem_lock : wait_queue;
  max_semid : Z; sem_seq : Z;
  sets : gmap nat semid_ds; undos : gmap nat sem_undo; semun : gmap tptr (list nat);
  brk : nat;
}.
#[export] Instance eta_sem_state : Eta sem_state := fun x =>
  mk_sem_state (semary x) (used_sems x) (used_semids x) (sem_lock x) (max_semid x) (sem_seq x)
    (sets x) (undos x) (semun x) (brk x).

Definition sem0 : sem := mk_sem 0 0 0 0.
Definition set0 : semid_ds := mk_semid_ds (mk_perm 0 0 0 0 0 0 0) 0 0 [] [] [] [] 0.
(** [*sma], an update of it, and the entry [semary[id]]. *)
Definition get_set (m : sem_state) (a : nat) : semid_ds := default set0 (sets m !! a).
Definition upd_set (a : nat) (f : semid_ds -> semid_ds) (m : sem_state) : sem_state :=
  m <| sets ::= fun h => <[a := f (default set0 (h !! a))]> h |>.
Definition sem_slot (m : sem_state) (id : Z) : slot := slot_at (semary m) id.
Definition set_slot (id : Z) (x : slot) (m : sem_state) : sem_state :=
  m <| semary ::= fun t => zupd t id x |>.

(** ipc/sem.c:32-41 [sem_init] *)
Definition sem_init (m : sem_state) : sem_state :=
  m <| sem_lock := [] |> <| used_sems := 0 |> <| used_semids := 0 |> <| max_semid := 0 |>
    <| sem_seq := 0 |> <| semary := replicate (Z.to_nat SEMMNI) IPC_UNUSED |>.

(** A wake-up of a queue that is skipped when it is empty. *)
Definition wake_if (q : wait_queue) (s : kstate) : kstate :=
  match q with [] => s | _ => wake_up q s end.

(** ** Creating a set *)

(** ipc/sem.c:52-60 [findkey] from index [id] on: the index found, -1 when
    there is none, or the index at which the caller goes to sleep on [sem_lock] *)
Inductive find_result := Found (id : Z) | FindSleeps (id : Z).
Fixpoint findkey (n : nat) (k id : Z) (m : sem_state) : find_result :=
  match n with
  | O => Found (-1)
  | S n =>
      if max_semid m <? id then Found (-1) else
      match sem_slot m id with
      | IPC_NOID => FindSleeps id
      | IPC_UNUSED => findkey n k (id + 1) m
      | Ptr a => if k =? key (sem_perm (get_set m a)) then Found id else findkey n k (id + 1) m
      end
  end.

(** ipc/sem.c:71-86 [newary] up to [kmalloc]: an error, or the reserved slot *)
Definition newary_begin (nsems : Z) (m : sem_state) : Z + Z * sem_state :=
  if nsems =? 0 then inl (- EINVAL)
  else if SEMMNS <? used_sems m + nsems then inl (- ENOSPC)
  else match list_find (fun id => sem_slot m id = IPC_UNUSED) (seqZ 0 SEMMNI) with
       | Some (_, id) =>
           inr (id, set_slot id IPC_NOID m <| used_sems ::= fun u => u + nsems |>)
       | None => inl (- ENOSPC)
       end.

(** ipc/sem.c:87-114 [newary] after [kmalloc], which may have failed; [now] is
    [CURRENT_TIME] *)
Definition newary_end (k nsems semflg id : Z) (mem : bool) (now : Z) (m : sem_state) (s : kstate) :
    Z * sem_state * kstate :=
  if negb mem then
    (- ENOMEM,
     set_slot id IPC_UNUSED m <| used_sems ::= fun u => u - nsems |>,
     wake_if (sem_lock m) s)
  else
    let a := brk m in
    let c := cur s in
    let sma := mk_semid_ds
      (mk_perm k (euid c) (egid c) (euid c) (egid c) (Z.land semflg S_IRWXUGO) (sem_seq m))
      0 now (replicate (Z.to_nat nsems) sem0) [] [] [] (u16 nsems) in
    let m := m <| sets ::= <[a := sma]> |> <| brk ::= S |> in
    let m := if max_semid m <? id then m <| max_semid := id |> else m in
    let m := m <| used_semids ::= fun u => u + 1 |> in
    let m := set_slot id (Ptr a) m in
    (make_id SEMMNI (sem_seq m) id, m, wake_if (sem_lock m) s).

(** A [semget] in progress: returned, asleep on [sem_lock] in [findkey], or
    asleep in [kmalloc] with a slot reserved. *)
Inductive semget_step :=
| GetReturns (r : Z)
| GetSleeps (id : Z)
| GetAllocates (id : Z) (m : sem_state).

(** ipc/sem.c:127-141 [sys_semget] from [findkey] at index [id] on; this is
    also where a sleeper resumes *)
Definition semget_find (k nsems semflg id : Z) (m : sem_state) (s : kstate) : semget_step :=
  let create :=
    match newary_begin nsems m with inl e => GetReturns e | inr (id, m) => GetAllocates id m end in
  match findkey (Z.to_nat SEMMNI) k id m with
  | FindSleeps id => GetSleeps id
  | Found id =>
      if id =? -1 then
        if negb (flag semflg IPC_CREAT) then GetReturns (- ENOENT) else create
      else if flag semflg IPC_CREAT && flag semflg IPC_EXCL then GetReturns (- EEXIST)
      else match sem_slot m id with
           | Ptr a =>
               let sma := get_set m a in
               if sem_nsems sma <? nsems then GetReturns (- EINVAL)
               else if negb (ipcperms (sem_perm sma) semflg s) then GetReturns (- EACCES)
               else GetReturns (make_id SEMMNI (seq (sem_perm sma)) id)
           | _ => GetReturns (- EINVAL)
           end
  end.

(** ipc/sem.c:118-142 [sys_semget] *)
Definition sys_semget (k nsems semflg : Z) (m : sem_state) (s : kstate) : semget_step :=
  if (nsems <? 0) || (SEMMSL <? nsems) then GetReturns (- EINVAL)
  else if k =? IPC_PRIVATE then
    match newary_begin nsems m with inl e => GetReturns e | inr (id, m) => GetAllocates id m end
  else semget_find k nsems semflg 0 m s.

(** ** Removing a set *)

(** ipc/sem.c:149-161 [freeary] up to the loop that waits for the sleepers *)
Definition freeary_begin (id : Z) (a : nat) (m : sem_state) : sem_state :=
  let m := upd_set a (fun x => x <| sem_perm ::= fun p => p <| seq ::= fun q => u16 (q + 1) |> |>) m in
  let m := m <| sem_seq ::= fun q => u16 (q + 1) |> in
  let m := m <| used_sems ::= fun u => u - sem_nsems (get_set m a) |> in
  let m := if id =? max_semid m
           then m <| max_semid := lower_max (Z.to_nat (max_semid m)) (semary m) |> else m in
  let m := set_slot id IPC_UNUSED m in
  let m := m <| used_semids ::= fun u => u - 1 |> in
  m <| undos ::= fun h => foldl (fun h u => alter (fun x => x <| semadj := 0 |>) u h) h
                            (undo (get_set m a)) |>.

(** ipc/sem.c:163-170 one round of the loop: the sleepers are woken and the
    caller gives way ([inl]), or the memory is freed ([inr]) *)
Definition freeary_wait (a : nat) (m : sem_state) (s : kstate) : kstate + sem_state :=
  let x := get_set m a in
  match eventz x, eventn x with
  | [], [] => inr (m <| sets ::= delete a |>)
  | _, _ => inl (schedule (wake_if (eventn x) (wake_if (eventz x) s)))
  end.

(** ** [semctl] *)

(** What the call stores through its argument. *)
Inductive semctl_out :=
| OutNone | OutInfo (semusz semaem : Z) | OutSet (x : semid_ds) | OutVals (l : list Z).

(** What the call reads through its argument: whether [arg] is a pointer, the
    [int] it points to (a value, or another pointer), the result of
    [verify_area], the semaphore values and the permissions of the caller's
    buffer. *)
Record semctl_arg := mk_semctl_arg {
  arg : bool; arg_val : Z; arg_va : Z; arg_vals : list Z; arg_perm : Z * Z * Z;
}.
Definition no_buffer (x : semctl_arg) : bool := negb (arg x) || (arg_val x =? 0).

(** ipc/sem.c:188-233 the commands that name a slot, or nothing *)
Definition semctl_info (semid cmd : Z) (x : semctl_arg) (m : sem_state) (s : kstate) :
    Z * semctl_out :=
  if (cmd =? IPC_INFO) || (cmd =? SEM_INFO) then
    if no_buffer x then (- EFAULT, OutNone)
    else if ctrue (arg_va x) then (arg_va x, OutNone)
    else (max_semid m,
          if cmd =? SEM_INFO then OutInfo (used_semids m) (used_sems m)
          else OutInfo 20 (Z.shiftr SEMVMX 1))
  else (* SEM_STAT *)
    if no_buffer x then (- EFAULT, OutNone)
    else if ctrue (arg_va x) then (arg_va x, OutNone)
    else if max_semid m <? semid then (- EINVAL, OutNone)
    else match sem_slot m semid with
         | Ptr a =>
             let sma := get_set m a in
             if negb (ipcperms (sem_perm sma) S_IRUGO s) then (- EACCES, OutNone)
             else (s32 (semid + seq (sem_perm sma) * SEMMNI), OutSet sma)
         | _ => (- EINVAL, OutNone)
         end.

(** ipc/sem.c:235-244 the set an identifier names *)
Definition sem_lookup (semid : Z) (m : sem_state) : Z + nat :=
  match sem_slot m (semid mod SEMMNI) with
  | Ptr a => if seq (sem_perm (get_set m a)) =? semid / SEMMNI then inr a else inl (- EIDRM)
  | _ => inl (- EINVAL)
  end.

(** ipc/sem.c:247-304 the checks of a command before user memory is touched:
    the call returns, removes the set, or goes on *)
Inductive semctl_check := CheckReturns (r : Z) | CheckRemoves | CheckGoesOn.
Definition semctl_checks (a : nat) (semnum cmd : Z) (x : semctl_arg) (m : sem_state) (s : kstate) :
    semctl_check :=
  let sma := get_set m a in
  let curr := znth sem0 (sem_base sma) semnum in
  if existsb (Z.eqb cmd) [GETVAL; GETPID; GETNCNT; GETZCNT; GETALL] then
    if negb (ipcperms (sem_perm sma) S_IRUGO s) then CheckReturns (- EACCES)
    else if cmd =? GETVAL then CheckReturns (semval curr)
    else if cmd =? GETPID then CheckReturns (sempid curr)
    else if cmd =? GETNCNT then CheckReturns (semncnt curr)
    else if cmd =? GETZCNT then CheckReturns (semzcnt curr)
    else if no_buffer x then CheckReturns (- EFAULT)
    else if ctrue (arg_va x) then CheckReturns (arg_va x) else CheckGoesOn
  else if cmd =? SETVAL then
    if negb (arg x) then CheckReturns (- EFAULT)
    else if (SEMVMX <? arg_val x) || (arg_val x <? 0) then CheckReturns (- ERANGE) else CheckGoesOn
  else if cmd =? IPC_RMID then
    if ipc_owner (sem_perm sma) s then CheckRemoves else CheckReturns (- EPERM)
  else if cmd =? SETALL then
    if no_buffer x then CheckReturns (- EFAULT)
    else if ctrue (arg_va x) then CheckReturns (arg_va x)
    else if existsb (fun v => SEMVMX <? v) (firstn (Z.to_nat (sem_nsems sma)) (arg_vals x))
    then CheckReturns (- ERANGE) else CheckGoesOn
  else if (cmd =? IPC_STAT) || (cmd =? IPC_SET) then
    if no_buffer x then CheckReturns (- EFAULT)
    else if ctrue (arg_va x) then CheckReturns (arg_va x) else CheckGoesOn
  else CheckGoesOn.

(** ipc/sem.c:322-324 and 353-354: undo requests are forgotten *)
Definition clear_undo (sel : sem_undo -> bool) (a : nat) (m : sem_state) : sem_state :=
  m <| undos ::= fun h =>
    foldl (fun h u => alter (fun x => if sel x then x <| semadj := 0 |> else x) u h) h
      (undo (get_set m a)) |>.

(** ipc/sem.c:311-364 the command itself; [sma] is still the set of [semid] *)
Definition semctl_act (a : nat) (semnum cmd : Z) (x : semctl_arg) (now : Z) (m : sem_state)
    (s : kstate) : Z * semctl_out * sem_state * kstate :=
  let sma := get_set m a in
  let perm := sem_perm sma in
  if cmd =? GETALL then
    if negb (ipcperms perm S_IRUGO s) then (- EACCES, OutNone, m, s)
    else (0, OutVals (map semval (sem_base sma)), m, s)
  else if cmd =? SETVAL then
    if negb (ipcperms perm S_IWUGO s) then (- EACCES, OutNone, m, s)
    else
      let m := clear_undo (fun u => semnum =? un_sem_num u) a m in
      let m := upd_set a (fun y => y <| sem_ctime := now |>
        <| sem_base ::= fun l => zupd l semnum (znth sem0 l semnum <| semval := arg_val x |>) |>) m in
      (0, OutNone, m, wake_if (eventz sma) (wake_if (eventn sma) s))
  else if cmd =? IPC_SET then
    if ipc_owner perm s then
      let '(u, g, md) := arg_perm x in
      (0, OutNone,
       upd_set a (fun y => y <| sem_ctime := now |> <| sem_perm ::= fun p =>
         p <| p_uid := u |> <| p_gid := g |>
           <| mode ::= fun old => Z.lor (Z.land old (Z.lnot S_IRWXUGO)) (Z.land md S_IRWXUGO) |> |>) m,
       s)
    else (- EPERM, OutNone, m, s)
  else if cmd =? IPC_STAT then
    if negb (ipcperms perm S_IRUGO s) then (- EACCES, OutNone, m, s) else (0, OutSet sma, m, s)
  else if cmd =? SETALL then
    if negb (ipcperms perm S_IWUGO s) then (- EACCES, OutNone, m, s)
    else
      let m := upd_set a (fun y => y <| sem_base ::= fun l =>
        imap (fun i c => c <| semval := znth 0 (arg_vals x) (Z.of_nat i) |>) l |>) m in
      let m := clear_undo (fun _ => true) a m in
      let m := upd_set a (fun y => y <| sem_ctime := now |>) m in
      (0, OutNone, m, wake_if (eventz sma) (wake_if (eventn sma) s))
  else (- EINVAL, OutNone, m, s).

(** A [semctl] in progress: returned, or removing the set at [a]. *)
Inductive semctl_step :=
| CtlReturns (r : Z) (out : semctl_out) (m : sem_state) (s : kstate)
| CtlRemoves (a : nat) (m : sem_state).

(** ipc/sem.c:175-365 [sys_semctl] (copies to and from user memory do not
    sleep in the model) *)
Definition sys_semctl (semid semnum cmd : Z) (x : semctl_arg) (now : Z) (m : sem_state) (s : kstate) :
    semctl_step :=
  if (semid <? 0) || (semnum <? 0) || (cmd <? 0) then CtlReturns (- EINVAL) OutNone m s
  else if existsb (Z.eqb cmd) [IPC_INFO; SEM_INFO; SEM_STAT] then
    let '(r, out) := semctl_info semid cmd x m s in CtlReturns r out m s
  else match sem_lookup semid m with
  | inl e => CtlReturns e OutNone m s
  | inr a =>
      if sem_nsems (get_set m a) <=? semnum then CtlReturns (- EINVAL) OutNone m s
      else match semctl_checks a semnum cmd x m s with
      | CheckReturns r => CtlReturns r OutNone m s
      | CheckRemoves => CtlRemoves a (freeary_begin (semid mod SEMMNI) a m)
      | CheckGoesOn =>
          match sem_lookup semid m with
          | inl _ => CtlReturns (- EIDRM) OutNone m s
          | inr _ => let '(r, out, m, s) := semctl_act a semnum cmd x now m s in CtlReturns r out m s
          end
      end
  end.

(** ** [semop] *)

(** ipc/sem.c:395-408 the first pass over the operations: [None] when a
    semaphore number is too large, else whether there are undos, changes and
    increments *)
Fixpoint semop_scan (nsems : Z) (sops : list sembuf) : option (bool * bool * bool) :=
  match sops with
  | [] => Some (false, false, false)
  | sop :: sops =>
      if nsems <? sem_num sop then None else
      '(undos, alter, incr) ← semop_scan nsems sops;
      Some (flag (sem_flg sop) SEM_UNDO || undos,
            negb (sem_op sop =? 0) || alter,
            (0 <? sem_op sop) || incr)
  end.

(** ipc/sem.c:423-426 the caller's undo structure of a semaphore *)
Definition find_undo (semid num : Z) (m : sem_state) (s : kstate) : option nat :=
  snd <$> list_find (fun u => match undos m !! u with
                              | Some x => (un_semid x =? semid) && (un_sem_num x =? num)
                              | None => false
                              end = true) (default [] (semun m !! current s)).

(** ipc/sem.c:419-441 every operation with [SEM_UNDO] gets an undo structure;
    [mem] tells how many allocations succeed *)
Fixpoint add_undos (semid : Z) (a : nat) (sops : list sembuf) (mem : nat) (m : sem_state) (s : kstate) :
    bool * sem_state :=
  match sops with
  | [] => (true, m)
  | sop :: sops =>
      if negb (flag (sem_flg sop) SEM_UNDO) then add_undos semid a sops mem m s
      else match find_undo semid (sem_num sop) m s, mem with
      | Some _, _ => add_undos semid a sops mem m s
      | None, O => (false, m)
      | None, S mem =>
          let u := brk m in
          let m := m <| undos ::= <[u := mk_sem_undo semid 0 (sem_num sop)]> |> <| brk ::= S |>
                     <| semun ::= fun h => <[current s := u :: default [] (h !! current s)]> h |> in
          add_undos semid a sops mem (upd_set a (fun x => x <| undo ::= cons u |>) m) s
      end
  end.

(** ipc/sem.c:448-476 can all operations be done now?  The semaphore with the
    number of an operation is read even when it is the one after the last
    ([None] is the memory after the array). *)
Inductive semop_verdict :=
| OpsReady
| OpsFail (err : Z)
| OpsSleep (num : Z) (zero : bool).
Fixpoint semop_check (base : list sem) (sops : list sembuf) (pending : bool) : option semop_verdict :=
  match sops with
  | [] => Some OpsReady
  | sop :: sops =>
      curr ← (if sem_num sop <? 0 then None else base !! Z.to_nat (sem_num sop));
      if SEMVMX <? sem_op sop + semval curr then Some (OpsFail (- ERANGE))
      else if (sem_op sop =? 0) && ctrue (semval curr) then
        if flag (sem_flg sop) IPC_NOWAIT then Some (OpsFail (- EAGAIN))
        else if pending then Some (OpsFail (- EINTR))
        else Some (OpsSleep (sem_num sop) true)
      else if sem_op sop + semval curr <? 0 then
        if flag (sem_flg sop) IPC_NOWAIT then Some (OpsFail (- EAGAIN))
        else if pending then Some (OpsFail (- EINTR))
        else Some (OpsSleep (sem_num sop) false)
      else semop_check base sops pending
  end.

(** ipc/sem.c:481-484 one operation on its semaphore *)
Definition apply_op (pd : Z) (sop : sembuf) (c : sem) : sem :=
  c <| sempid := s16 pd |> <| semval ::= fun v => u16 (v + sem_op sop) |>.

(** ipc/sem.c:478-503 the operations are done: the state, whether some
    semaphore became 0, and the value of the last one *)
Fixpoint semop_apply (semid : Z) (a : nat) (sops : list sembuf) (zero : bool) (last : Z)
    (m : sem_state) (s : kstate) : sem_state * bool * Z :=
  match sops with
  | [] => (m, zero, last)
  | sop :: sops =>
      let num := sem_num sop in
      let c := apply_op (pid (cur s)) sop (znth sem0 (sem_base (get_set m a)) num) in
      let m := upd_set a (fun x => x <| sem_base ::= fun l => zupd l num c |>) m in
      let m :=
        if flag (sem_flg sop) SEM_UNDO then
          match find_undo semid num m s with
          | Some u => m <| undos ::= alter (fun x => x <| semadj ::= fun v => s16 (v - sem_op sop) |>) u |>
          | None => m
          end
        else m in
      semop_apply semid a sops (zero || (semval c =? 0)) (semval c) m s
  end.

(** A [semop] in progress: returned, asleep on a queue of the set, reading the
    memory after the semaphores, or task 0 trying to sleep. *)
Inductive semop_step :=
| OpReturns (r : Z) (m : sem_state) (s : kstate)
| OpSleeps (num : Z) (zero : bool) (m : sem_state) (s : kstate)
| OpFaults
| OpPanics.

(** ipc/sem.c:445-510 [sys_semop] from the label [slept] on *)
Definition semop_slept (semid : Z) (a : nat) (sops : list sembuf) (incr : bool) (now : Z)
    (m : sem_state) (s : kstate) : semop_step :=
  let sma := get_set m a in
  if negb (seq (sem_perm sma) =? semid / SEMMNI) then OpReturns (- EIDRM) m s
  else match semop_check (sem_base sma) sops (signal_pending (cur s)) with
  | None => OpFaults
  | Some (OpsFail e) => OpReturns e m s
  | Some (OpsSleep num zero) =>
      let c := znth sem0 (sem_base sma) num in
      let c := if zero then c <| semzcnt ::= fun n => u16 (n + 1) |>
               else c <| semncnt ::= fun n => u16 (n + 1) |> in
      let m := upd_set a (fun x => x <| sem_base ::= fun l => zupd l num c |>) m in
      match interruptible_sleep_on (if zero then eventz sma else eventn sma) s with
      | None => OpPanics
      | Some (q, s) =>
          OpSleeps num zero
            (upd_set a (fun x => if zero then x <| eventz := q |> else x <| eventn := q |>) m) s
      end
  | Some OpsReady =>
      let '(m, zero, last) := semop_apply semid a sops false 0 m s in
      let m := upd_set a (fun x => x <| sem_otime := now |>) m in
      let s := if incr then wake_if (eventn (get_set m a)) s else s in
      let s := if zero then wake_if (eventz (get_set m a)) s else s in
      OpReturns last m s
  end.

(** ipc/sem.c:461-463 and 472-474 the sleeper runs again: it leaves the queue
    and its semaphore's count *)
Definition semop_wakes (semid : Z) (a : nat) (sops : list sembuf) (incr : bool) (num : Z) (zero : bool)
    (now : Z) (m : sem_state) (s : kstate) : semop_step :=
  let m := upd_set a (fun x =>
    let x := if zero then x <| eventz ::= fun q => sleep_exit q s |>
             else x <| eventn ::= fun q => sleep_exit q s |> in
    x <| sem_base ::= fun l =>
      let c := znth sem0 l num in
      zupd l num (if zero then c <| semzcnt ::= fun n => u16 (n - 1) |>
                  else c <| semncnt ::= fun n => u16 (n - 1) |>) |>) m in
  semop_slept semid a sops incr now m s.

(** ipc/sem.c:372-445 [sys_semop] from its entry; [tsops] is [None] for NULL *)
Definition sys_semop (semid : Z) (tsops : option (list sembuf)) (nsops : Z) (mem : nat) (now : Z)
    (m : sem_state) (s : kstate) : semop_step :=
  if (nsops <? 1) || (semid <? 0) then OpReturns (- EINVAL) m s
  else if SEMOPM <? nsops then OpReturns (- E2BIG) m s
  else match tsops with
  | None => OpReturns (- EFAULT) m s
  | Some tsops =>
      let sops := firstn (Z.to_nat nsops) tsops in
      match sem_slot m (semid mod SEMMNI) with
      | Ptr a =>
          match semop_scan (sem_nsems (get_set m a)) sops with
          | None => OpReturns (- EFBIG) m s
          | Some (undos, alter, incr) =>
              if negb (ipcperms (sem_perm (get_set m a)) (if alter then S_IWUGO else S_IRUGO) s)
              then OpReturns (- EACCES) m s
              else
                let '(ok, m) := if undos then add_undos semid a sops mem m s else (true, m) in
                if negb ok then OpReturns (- ENOMEM) m s
                else semop_slept semid a sops incr now m s
          end
      | _ => OpReturns (- EINVAL) m s
      end
  end.

(** ** Exit *)

(** ipc/sem.c:549-571 one round of the loop that gives back an adjustment:
    [None] when the caller must wait *)
Definition sem_exit_try (u a : nat) (now : Z) (m : sem_state) (s : kstate) :
    option (sem_state * kstate) :=
  match undos m !! u with
  | None => Some (m, s)
  | Some un =>
      let sma := get_set m a in
      if negb (seq (sem_perm sma) =? un_semid un / SEMMNI) then Some (m, s) else
      let c := znth sem0 (sem_base sma) (un_sem_num un) in
      if 0 <=? semval c + semadj un then
        let c := c <| semval := u16 (semval c + semadj un) |> <| sempid := s16 (pid (cur s)) |> in
        let m := upd_set a (fun x => x <| sem_base ::= fun l => zupd l (un_sem_num un) c |>
                                       <| sem_otime := now |>) m in
        let s := if 0 <? semadj un then wake_if (eventn sma) s else s in
        let s := if semval c =? 0 then wake_if (eventz sma) s else s in
        Some (m, s)
      else if signal_pending (cur s) then Some (m, s)
      else None
  end.

(** Unlinking one element of a singly linked list. *)
Definition remove_first (u : nat) (l : list nat) : list nat :=
  match list_find (fun v => v = u) l with
  | Some (i, _) => delete i l
  | None => l
  end.

(** ipc/sem.c:528-528 the head of the list is removed and freed *)
Definition drop_undo (u : nat) (rest : list nat) (m : sem_state) (s : kstate) : sem_state :=
  m <| semun ::= <[current s := rest]> |> <| undos ::= delete u |>.

(** A [sem_exit] in progress: done, asleep in the queue [eventn] of the set at
    [a] with the adjustment [u], or task 0 trying to sleep. *)
Inductive sem_exit_step :=
| ExitDone (m : sem_state) (s : kstate)
| ExitSleeps (u a : nat) (m : sem_state) (s : kstate)
| ExitPanics.

(** ipc/sem.c:572-573 the caller goes to sleep *)
Definition sem_exit_sleep (u a : nat) (m : sem_state) (s : kstate) : sem_exit_step :=
  let num := match undos m !! u with Some un => un_sem_num un | None => 0 end in
  let m := upd_set a (fun x => x <| sem_base ::= fun l =>
    zupd l num (znth sem0 l num <| semncnt ::= fun n => u16 (n + 1) |>) |>) m in
  match interruptible_sleep_on (eventn (get_set m a)) s with
  | None => ExitPanics
  | Some (q, s) => ExitSleeps u a (upd_set a (fun x => x <| eventn := q |>) m) s
  end.

(** ipc/sem.c:521-580 [sem_exit] with the undo structures [us] left *)
Fixpoint sem_exit_list (us : list nat) (now : Z) (m : sem_state) (s : kstate) : sem_exit_step :=
  let done m := ExitDone (m <| semun ::= <[current s := []]> |>) in
  match us with
  | [] => done m s
  | u :: rest =>
      match undos m !! u with
      | None => done m s
      | Some un =>
          match sem_lookup (un_semid un) m with
          | inl _ => sem_exit_list rest now (drop_undo u rest m s) s
          | inr a =>
              if bool_decide (u ∈ undo (get_set m a)) then
                let m := upd_set a (fun x => x <| undo ::= fun l => remove_first u l |>) m in
                if semadj un =? 0 then sem_exit_list rest now (drop_undo u rest m s) s
                else match sem_exit_try u a now m s with
                | Some (m, s) => sem_exit_list rest now (drop_undo u rest m s) s
                | None => sem_exit_sleep u a m s
                end
              else done m s
          end
      end
  end.

(** ipc/sem.c:521-580 [sem_exit] *)
Definition sem_exit (now : Z) (m : sem_state) (s : kstate) : sem_exit_step :=
  sem_exit_list (default [] (semun m !! current s)) now m s.

(** ipc/sem.c:572-577 the sleeper of [sem_exit] runs again *)
Definition sem_exit_wakes (u a : nat) (now : Z) (m : sem_state) (s : kstate) : sem_exit_step :=
  let num := match undos m !! u with Some un => un_sem_num un | None => 0 end in
  let m := upd_set a (fun x => x <| eventn ::= fun q => sleep_exit q s |>
    <| sem_base ::= fun l => zupd l num (znth sem0 l num <| semncnt ::= fun n => u16 (n - 1) |>) |>) m in
  match sem_exit_try u a now m s with
  | Some (m, s) =>
      let rest := tail (default [] (semun m !! current s)) in
      sem_exit_list rest now (drop_undo u rest m s) s
  | None => sem_exit_sleep u a m s
  end.

(** * Properties *)

Lemma get_set_upd_set a f m b :
  get_set (upd_set a f m) b = if decide (a = b) then f (get_set m a) else get_set m b.
Proof.
  unfold get_set, upd_set. cbn. case_decide; subst.
  - by rewrite lookup_insert_eq.
  - by rewrite lookup_insert_ne.
Qed.
Lemma get_set_upd_set_eq a f m : get_set (upd_set a f m) a = f (get_set m a).
Proof. by rewrite get_set_upd_set, decide_True. Qed.

(** ** The accounts of the table *)

(** What the operations on semaphores leave alone. *)
Record sem_frame (m m' : sem_state) : Prop := mk_sem_frame {
  fr_semary : semary m' = semary m;
  fr_used : used_sems m' = used_sems m;
  fr_ids : used_semids m' = used_semids m;
  fr_max : max_semid m' = max_semid m;
  fr_brk : (brk m <= brk m')%nat;
  fr_nsems : forall a, sem_nsems (get_set m' a) = sem_nsems (get_set m a);
}.

Lemma sem_frame_refl m : sem_frame m m.
Proof. by constructor. Qed.
Lemma sem_frame_trans m1 m2 m3 : sem_frame m1 m2 -> sem_frame m2 m3 -> sem_frame m1 m3.
Proof. intros [] []. constructor; try lia; try congruence. Qed.
Lemma sem_frame_upd_set a f m :
  (forall x, sem_nsems (f x) = sem_nsems x) -> sem_frame m (upd_set a f m).
Proof.
  intros Hf. constructor; try done. intros b. rewrite get_set_upd_set.
  case_decide; subst; auto.
Qed.
Lemma sem_frame_undo m us n sn :
  (brk m <= n)%nat ->
  sem_frame m (mk_sem_state (semary m) (used_sems m) (used_semids m) (sem_lock m) (max_semid m)
                 (sem_seq m) (sets m) us sn n).
Proof. by constructor. Qed.
#[export] Hint Resolve sem_frame_refl : kernel.

(** A change of the undo structures, or of one set but not of its size. *)
Ltac frame_step :=
  first [ match goal with |- sem_frame ?m _ => tryif is_evar m then fail else apply sem_frame_refl end
        | apply sem_frame_upd_set; intros ?; repeat case_match; reflexivity
        | unfold clear_undo; cbn; apply sem_frame_undo; cbn; lia
        | apply sem_frame_undo; cbn; lia ].
Ltac frame_then := eapply sem_frame_trans; [| frame_step].

Definition op_state (r : semop_step) : option sem_state :=
  match r with OpReturns _ m _ | OpSleeps _ _ m _ => Some m | _ => None end.
Definition exit_state (r : sem_exit_step) : option sem_state :=
  match r with ExitDone m _ | ExitSleeps _ _ m _ => Some m | _ => None end.

Lemma add_undos_frame semid a sops mem m s : sem_frame m (add_undos semid a sops mem m s).2.
Proof.
  revert mem m. induction sops as [| o sops IH]; intros mem m; cbn -[upd_set]; [frame_step |].
  destruct (negb _); [apply IH |].
  destruct (find_undo _ _ _ _); [apply IH |]. destruct mem; [frame_step |].
  eapply sem_frame_trans; [| apply IH]. frame_then. frame_step.
Qed.

Lemma semop_apply_frame semid a sops z l m s :
  sem_frame m (semop_apply semid a sops z l m s).1.1.
Proof.
  revert z l m. induction sops as [| o sops IH]; intros z l m; cbn -[upd_set]; [frame_step |].
  eapply sem_frame_trans; [| apply IH].
  repeat case_match; try frame_step; frame_then; frame_step.
Qed.

Lemma semop_slept_frame semid a sops incr now m s m' :
  op_state (semop_slept semid a sops incr now m s) = Some m' -> sem_frame m m'.
Proof.
  unfold semop_slept. destruct (negb _); cbn; [intros [= <-]; frame_step |].
  destruct (semop_check _ _ _) as [[| |num z] |]; cbn -[upd_set]; try done.
  - pose proof (semop_apply_frame semid a sops false 0 m s) as H.
    destruct (semop_apply semid a sops false 0 m s) as [[m1 z1] l1]. cbn -[upd_set].
    intros [= <-]. eapply sem_frame_trans; [exact H |]. frame_step.
  - intros [= <-]. frame_step.
  - destruct (interruptible_sleep_on _ _) as [[q s'] |]; cbn -[upd_set]; [| done].
    intros [= <-]. frame_then. frame_step.
Qed.

Lemma semop_wakes_frame semid a sops incr num z now m s m' :
  op_state (semop_wakes semid a sops incr num z now m s) = Some m' -> sem_frame m m'.
Proof. intros H%semop_slept_frame. eapply sem_frame_trans; [| exact H]. frame_step. Qed.

Lemma sys_semop_frame semid tsops nsops mem now m s m' :
  op_state (sys_semop semid tsops nsops mem now m s) = Some m' -> sem_frame m m'.
Proof.
  unfold sys_semop.
  destruct ((nsops <? 1) || (semid <? 0)); cbn; [intros [= <-]; frame_step |].
  destruct (SEMOPM <? nsops); cbn; [intros [= <-]; frame_step |].
  destruct tsops as [l |]; cbn; [| intros [= <-]; frame_step].
  destruct (sem_slot m (semid mod SEMMNI)) as [| | a]; cbn; try (intros [= <-]; frame_step).
  destruct (semop_scan _ _) as [[[b1 b2] b3] |]; cbn; [| intros [= <-]; frame_step].
  destruct (negb (ipcperms _ _ _)); cbn; [intros [= <-]; frame_step |].
  pose proof (add_undos_frame semid a (firstn (Z.to_nat nsops) l) mem m s) as H'.
  destruct (add_undos _ _ _ _ _ _) as [ok m1]. cbn in H'.
  destruct b1, ok; cbn; try (by intros [= <-]); try (intros [= <-]; frame_step);
    intros H%semop_slept_frame; by eauto using sem_frame_trans.
Qed.

Lemma sem_exit_try_frame u a now m s m' s' :
  sem_exit_try u a now m s = Some (m', s') -> sem_frame m m'.
Proof.
  unfold sem_exit_try. intros H. repeat case_match; simplify_eq; try frame_step.
Qed.

Lemma sem_exit_sleep_frame u a m s m' :
  exit_state (sem_exit_sleep u a m s) = Some m' -> sem_frame m m'.
Proof.
  unfold sem_exit_sleep. destruct (interruptible_sleep_on _ _) as [[q s'] |]; cbn -[upd_set]; [| done].
  intros [= <-]. frame_then. frame_step.
Qed.

Lemma sem_exit_list_frame us now m s m' :
  exit_state (sem_exit_list us now m s) = Some m' -> sem_frame m m'.
Proof.
  revert m s. induction us as [| u us IH]; intros m s.
  { cbn -[upd_set]. intros [= <-]. frame_step. }
  cbn -[upd_set sem_lookup sem_exit_try drop_undo].
  assert (forall m1 s1, sem_frame m m1 ->
    exit_state (sem_exit_list us now (drop_undo u us m1 s1) s1) = Some m' -> sem_frame m m') as Hrest.
  { intros m1 s1 H1 H2%IH. eapply sem_frame_trans; [exact H1 |].
    eapply sem_frame_trans; [| exact H2]. unfold drop_undo. cbn. frame_step. }
  repeat case_match; cbn -[upd_set sem_exit_list drop_undo];
    try (intros [= <-]; frame_step); try (apply Hrest; frame_step).
  - apply Hrest. eapply sem_frame_trans; [| by eapply sem_exit_try_frame]. frame_step.
  - intros H'%sem_exit_sleep_frame. eapply sem_frame_trans; [| exact H']. frame_step.
Qed.

Lemma sem_exit_wakes_frame u a now m s m' :
  exit_state (sem_exit_wakes u a now m s) = Some m' -> sem_frame m m'.
Proof.
  unfold sem_exit_wakes. case_match eqn:E; [destruct p as [m1 s1] |].
  - intros H%sem_exit_list_frame. eapply sem_frame_trans; [| exact H].
    eapply sem_frame_trans; [| unfold drop_undo; cbn; frame_step].
    eapply sem_frame_trans; [| by eapply sem_exit_try_frame]. frame_step.
  - intros H%sem_exit_sleep_frame. eapply sem_frame_trans; [| exact H]. frame_step.
Qed.

Lemma semctl_act_frame a semnum cmd x now m s : sem_frame m (semctl_act a semnum cmd x now m s).1.2.
Proof.
  unfold semctl_act. destruct (arg_perm x) as [[u g] md].
  repeat (case_match; cbn -[upd_set clear_undo]; try frame_step);
    repeat (frame_then; try frame_step); frame_step.
Qed.

(** The table, the allocations in progress (slot and size) and the sets that
    were removed. *)
Definition sem_sys : Type := sem_state * list (Z * Z) * list nat.

(** Everything that happens to the semaphores: system calls and their
    continuations, in any order and by any process. *)
Inductive sem_step : sem_sys -> sem_sys -> Prop :=
| StepGet k nsems flg m s id m' p d :
    sys_semget k nsems flg m s = GetAllocates id m' ->
    sem_step (m, p, d) (m', (id, nsems) :: p, d)
| StepGetResumes k nsems flg id0 m s id m' p d :
    0 <= nsems <= SEMMSL ->
    semget_find k nsems flg id0 m s = GetAllocates id m' ->
    sem_step (m, p, d) (m', (id, nsems) :: p, d)
| StepAllocated k flg id n mem now m s p1 p2 d :
    sem_step (m, p1 ++ (id, n) :: p2, d) ((newary_end k n flg id mem now m s).1.2, p1 ++ p2, d)
| StepRemove semid semnum cmd x now m s a m' p d :
    sys_semctl semid semnum cmd x now m s = CtlRemoves a m' ->
    sem_step (m, p, d) (m', p, a :: d)
| StepFree a m s m' p d :
    a ∈ d -> freeary_wait a m s = inr m' -> sem_step (m, p, d) (m', p, d)
| StepCtl semid semnum cmd x now m s r out m' s' p d :
    sys_semctl semid semnum cmd x now m s = CtlReturns r out m' s' ->
    sem_step (m, p, d) (m', p, d)
| StepOp semid tsops nsops mem now m s m' p d :
    op_state (sys_semop semid tsops nsops mem now m s) = Some m' -> sem_step (m, p, d) (m', p, d)
| StepOpWakes semid a sops incr num z now m s m' p d :
    op_state (semop_wakes semid a sops incr num z now m s) = Some m' ->
    sem_step (m, p, d) (m', p, d)
| StepExit now m s m' p d :
    exit_state (sem_exit now m s) = Some m' -> sem_step (m, p, d) (m', p, d)
| StepExitWakes u a now m s m' p d :
    exit_state (sem_exit_wakes u a now m s) = Some m' -> sem_step (m, p, d) (m', p, d).

Definition set_size (m : sem_state) (a : nat) : Z := sem_nsems (get_set m a).

(** The accounts agree with the table. *)
Record sem_accounts (x : sem_sys) : Prop := mk_sem_accounts {
  sa_table : table_ok SEMMNI (semary x.1.1) x.1.2.*1 x.2 (brk x.1.1)
               (used_semids x.1.1) (max_semid x.1.1);
  sa_sizes : Forall (fun q => 0 < q.2 <= SEMMSL) x.1.2;
  sa_sets : forall a, a ∈ used_ptrs (semary x.1.1) -> 0 < set_size x.1.1 a <= SEMMSL;
  sa_sems : used_sems x.1.1 =
      zsum (set_size x.1.1) (used_ptrs (semary x.1.1)) + zsum snd x.1.2;
  sa_limit : used_sems x.1.1 <= SEMMNS;
}.

Lemma newary_begin_spec n m id m' :
  newary_begin n m = inr (id, m') ->
  n <> 0 /\ used_sems m + n <= SEMMNS /\ 0 <= id < SEMMNI /\ sem_slot m id = IPC_UNUSED /\
  m' = set_slot id IPC_NOID m <| used_sems ::= fun u => u + n |>.
Proof.
  unfold newary_begin. intros H. destruct (n =? 0) eqn:?; [done |]. destruct (SEMMNS <? used_sems m + n) eqn:?; [done |].
  destruct (list_find _ _) as [[i id'] |] eqn:?; [| done]. injection H as <- <-. bool_simp.
  match goal with H : list_find _ _ = _ |- _ => apply list_find_Some in H as (Hi & ? & _) end.
  apply list_elem_of_lookup_2, elem_of_seqZ in Hi. split_and!; try done; lia.
Qed.

Lemma semget_find_allocates k n flg id0 m s id m' :
  semget_find k n flg id0 m s = GetAllocates id m' -> newary_begin n m = inr (id, m').
Proof.
  unfold semget_find. generalize (findkey (Z.to_nat SEMMNI) k id0 m). intros [i | i]; [| done].
  destruct (i =? -1); [destruct (negb _); [done |] |].
  - destruct (newary_begin n m) as [| [? ?]]; [done | by intros [= <- <-]].
  - destruct (_ && _); [done |]. destruct (sem_slot m i); try done.
    destruct (_ <? _); [done |]. by destruct (negb _).
Qed.

Lemma sys_semget_allocates k n flg m s id m' :
  sys_semget k n flg m s = GetAllocates id m' ->
  0 <= n <= SEMMSL /\ newary_begin n m = inr (id, m').
Proof.
  unfold sys_semget. intros H. destruct (_ || _) eqn:E; [done |]. bool_simp.
  split; [lia |].
  destruct (k =? IPC_PRIVATE).
  { destruct (newary_begin n m) as [| [? ?]]; [done | by injection H as <- <-]. }
  by eapply semget_find_allocates.
Qed.

Lemma sys_semctl_removes semid semnum cmd x now m s a m' :
  sys_semctl semid semnum cmd x now m s = CtlRemoves a m' ->
  sem_slot m (semid mod SEMMNI) = Ptr a /\ m' = freeary_begin (semid mod SEMMNI) a m.
Proof.
  unfold sys_semctl. intros H. destruct (_ || _); [done |].
  destruct (existsb _ _); [by destruct (semctl_info _ _ _ _ _) |].
  destruct (sem_lookup semid m) as [| b] eqn:E; [done |].
  destruct (_ <=? _); [done |].
  destruct (semctl_checks _ _ _ _ _ _); [done | | by destruct (semctl_act _ _ _ _ _ _ _) as [[[? ?] ?] ?]].
  injection H as <- <-. split; [| done].
  unfold sem_lookup in E. destruct (sem_slot m (semid mod SEMMNI)); try done.
  destruct (_ =? _); [by injection E as -> | done].
Qed.

Lemma sys_semctl_frame semid semnum cmd x now m s r out m' s' :
  sys_semctl semid semnum cmd x now m s = CtlReturns r out m' s' -> sem_frame m m'.
Proof.
  unfold sys_semctl. intros H. destruct (_ || _); [injection H as <- <- <- <-; frame_step |].
  destruct (existsb _ _).
  { destruct (semctl_info _ _ _ _ _). injection H as <- <- <- <-. frame_step. }
  destruct (sem_lookup semid m) as [| b] eqn:E; [injection H as <- <- <- <-; frame_step |].
  destruct (_ <=? _); [injection H as <- <- <- <-; frame_step |].
  destruct (semctl_checks _ _ _ _ _ _); [injection H as <- <- <- <-; frame_step | done |].
  pose proof (semctl_act_frame b semnum cmd x now m s) as Hf.
  destruct (semctl_act _ _ _ _ _ _ _) as [[[? ?] ?] ?]. by injection H as <- <- <- <-.
Qed.

Lemma freeary_begin_size id a m b : set_size (freeary_begin id a m) b = set_size m b.
Proof.
  unfold freeary_begin, set_size. cbn -[upd_set get_set set_slot].
  transitivity (sem_nsems (get_set (upd_set a (fun x => x <| sem_perm ::= fun p =>
    p <| seq ::= fun q => u16 (q + 1) |> |>) m) b)); [by case_match |].
  rewrite get_set_upd_set. by case_decide; subst.
Qed.
Lemma freeary_begin_table id a m :
  semary (freeary_begin id a m) = zupd (semary m) id IPC_UNUSED /\
  used_semids (freeary_begin id a m) = used_semids m - 1 /\
  used_sems (freeary_begin id a m) = used_sems m - set_size m a /\
  brk (freeary_begin id a m) = brk m /\
  max_semid (freeary_begin id a m) =
    if id =? max_semid m then lower_max (Z.to_nat (max_semid m)) (semary m) else max_semid m.
Proof.
  unfold freeary_begin, set_size. cbn -[get_set lower_max].
  split_and!; case_match; cbn -[get_set lower_max]; try done.
  all: f_equal; unfold get_set; cbn; by rewrite lookup_insert_eq.
Qed.

Lemma accounts_init m0 : sem_accounts (sem_init m0, [], []).
Proof.
  assert (used_ptrs (semary (sem_init m0)) = []) as E by done.
  constructor; cbn [fst snd]; rewrite ?E; try done.
  - eapply table_fresh_le; [by apply (table_init SEMMNI) | lia].
  - by intros a ?%elem_of_nil.
Qed.

Lemma accounts_frame m m' p d : sem_accounts (m, p, d) -> sem_frame m m' -> sem_accounts (m', p, d).
Proof.
  intros [] [Hs Hu Hi Hm Hb Hn]. cbn [fst snd] in *.
  assert (forall a, set_size m' a = set_size m a) as Hsz by apply Hn.
  constructor; cbn [fst snd]; rewrite ?Hs, ?Hu, ?Hi, ?Hm; try done.
  - eapply table_fresh_le; [done | lia].
  - intros a Ha. rewrite Hsz. by apply sa_sets0.
  - rewrite sa_sems0. f_equal. by apply zsum_ext.
Qed.

Section accounts.
Context (m : sem_state) (p : list (Z * Z)) (d : list nat) (Hacc : sem_accounts (m, p, d)).

Lemma accounts_begin n id m' :
  0 <= n <= SEMMSL -> newary_begin n m = inr (id, m') -> sem_accounts (m', (id, n) :: p, d).
Proof using Hacc.
  intros Hn (Hn0 & Hlim & Hid & Hun & ->)%newary_begin_spec. destruct Hacc. cbn [fst snd] in *.
  destruct (table_reserve _ _ _ _ _ _ _ sa_table0 id Hid Hun) as [Hp Htab].
  set (m' := upd _ _ _). constructor; cbn [fst snd].
  - exact Htab.
  - constructor; [cbn; lia | done].
  - intros a. change (semary m') with (zupd (semary m) id IPC_NOID). rewrite Hp. apply sa_sets0.
  - change (semary m') with (zupd (semary m) id IPC_NOID). rewrite (zsum_perm _ _ _ Hp).
    change (used_sems m') with (used_sems m + n). change (set_size m') with (set_size m).
    change (zsum snd ((id, n) :: p)) with (n + zsum snd p). lia.
  - cbn. lia.
Qed.

(** The reservation [(id, n)] ends. *)
Lemma accounts_pend id n p1 p2 :
  p = p1 ++ (id, n) :: p2 ->
  p.*1 ≡ₚ id :: (p1 ++ p2).*1 /\ zsum snd p = n + zsum snd (p1 ++ p2) /\
  0 < n <= SEMMSL /\ Forall (fun q => 0 < q.2 <= SEMMSL) (p1 ++ p2).
Proof using Hacc.
  intros Hp. assert (p ≡ₚ (id, n) :: p1 ++ p2) as Hperm.
  { rewrite Hp. symmetry. apply Permutation_middle. }
  pose proof (sa_sizes _ Hacc) as Hsz. cbn [fst snd] in Hsz. rewrite Hperm in Hsz.
  apply Forall_cons in Hsz as [Hn Hsz]. split_and!; try done; try apply Hn.
  - by rewrite Hperm.
  - by rewrite (zsum_perm _ _ _ Hperm).
Qed.

Lemma accounts_failed id n p1 p2 m' :
  p = p1 ++ (id, n) :: p2 ->
  m' = set_slot id IPC_UNUSED m <| used_sems ::= fun u => u - n |> ->
  sem_accounts (m', p1 ++ p2, d).
Proof using Hacc.
  intros Hp ->. destruct (accounts_pend id n p1 p2 Hp) as (Hperm & Hsum & Hn & Hsz).
  destruct Hacc. cbn [fst snd] in *.
  destruct (table_cancel _ _ _ _ _ _ _ sa_table0 id _ Hperm) as [Hu Htab].
  set (m' := upd _ _ _). constructor; cbn [fst snd].
  - exact Htab.
  - done.
  - intros a. change (semary m') with (zupd (semary m) id IPC_UNUSED). rewrite Hu. apply sa_sets0.
  - change (semary m') with (zupd (semary m) id IPC_UNUSED). rewrite (zsum_perm _ _ _ Hu).
    change (used_sems m') with (used_sems m - n). change (set_size m') with (set_size m). lia.
  - cbn. lia.
Qed.

Lemma newary_end_table k n flg id now s m' :
  0 < n <= SEMMSL -> m' = (newary_end k n flg id true now m s).1.2 ->
  semary m' = zupd (semary m) id (Ptr (brk m)) /\ used_sems m' = used_sems m /\
  used_semids m' = used_semids m + 1 /\ brk m' = S (brk m) /\
  max_semid m' = Z.max (max_semid m) id /\
  forall b, set_size m' b = if decide (b = brk m) then n else set_size m b.
Proof using Type.
  unfold SEMMSL. intros Hn ->. unfold newary_end, set_size, get_set. cbn.
  split_and!; try by case_match.
  - case_match; bool_simp; cbn; lia.
  - intros b. transitivity (sem_nsems (default set0 (<[brk m := mk_semid_ds
      (mk_perm k (euid (cur s)) (egid (cur s)) (euid (cur s)) (egid (cur s))
         (Z.land flg S_IRWXUGO) (sem_seq m))
      0 now (replicate (Z.to_nat n) sem0) [] [] [] (u16 n)]> (sets m) !! b))); [by case_match |].
    case_decide; subst; [rewrite lookup_insert_eq; cbn; apply u16_small; lia |].
    by rewrite lookup_insert_ne.
Qed.

Lemma accounts_allocated k n flg id now s p1 p2 m' :
  p = p1 ++ (id, n) :: p2 -> m' = (newary_end k n flg id true now m s).1.2 ->
  sem_accounts (m', p1 ++ p2, d).
Proof using Hacc.
  intros Hp Hm'. destruct (accounts_pend id n p1 p2 Hp) as (Hperm & Hsum & Hn & Hsz).
  apply newary_end_table in Hm' as (Hary & Hus & Hids & Hbrk & Hmx & Hsize); [| done].
  destruct Hacc. cbn [fst snd] in *.
  destruct (table_install _ _ _ _ _ _ _ sa_table0 id _ Hperm) as (Hu & Hfresh & Htab).
  rewrite <- Hary in Hu.
  constructor; cbn [fst snd].
  - by rewrite Hary, Hids, Hbrk, Hmx.
  - done.
  - intros a. rewrite Hu, Hsize. intros [-> | Ha]%elem_of_cons; [by rewrite decide_True |].
    rewrite decide_False by (by intros ->). by apply sa_sets0.
  - rewrite (zsum_perm _ _ _ Hu). change (zsum ?f (?x :: ?l)) with (f x + zsum f l).
    rewrite Hus, Hsize, decide_True by done.
    rewrite (zsum_ext (set_size m') (set_size m)); [lia |].
    intros a Ha. rewrite Hsize, decide_False; [done | by intros ->].
  - by rewrite Hus.
Qed.

Lemma accounts_removed id a :
  sem_slot m id = Ptr a -> sem_accounts (freeary_begin id a m, p, a :: d).
Proof using Hacc.
  intros Ha. pose proof (freeary_begin_size id a m) as Hsize.
  destruct (freeary_begin_table id a m) as (Hary & Hids & Hsems & Hbrk & Hmax).
  set (m' := freeary_begin id a m) in *. clearbody m'.
  destruct Hacc. cbn [fst snd] in *.
  destruct (table_remove _ _ _ _ _ _ _ sa_table0 id a Ha) as [Hu Htab].
  rewrite <- Hary in Hu. rewrite (zsum_perm _ _ _ Hu) in sa_sems0. cbn in sa_sems0.
  pose proof (sa_sets0 a ltac:(rewrite Hu; set_solver)).
  constructor; cbn [fst snd].
  - by rewrite Hary, Hids, Hbrk, Hmax.
  - done.
  - intros b Hb. rewrite Hsize. apply sa_sets0. rewrite Hu. set_solver.
  - rewrite Hsems, (zsum_ext (set_size m') (set_size m)) by auto. unfold zsum in *. lia.
  - lia.
Qed.

Lemma accounts_freed a s m' :
  a ∈ d -> freeary_wait a m s = inr m' -> sem_accounts (m', p, d).
Proof using Hacc.
  intros Ha Hm. assert (m' = m <| sets ::= delete a |>) as ->.
  { unfold freeary_wait in Hm. repeat case_match; by simplify_eq. }
  destruct Hacc. cbn [fst snd] in *.
  assert (forall b, b ∈ used_ptrs (semary m) -> set_size (m <| sets ::= delete a |>) b = set_size m b)
    as Hsize.
  { intros b (_ & Hb)%(tb_live _ _ _ _ _ _ _ sa_table0). unfold set_size, get_set. cbn.
    rewrite lookup_delete_ne; [done | by intros ->]. }
  constructor; cbn [fst snd]; try done.
  - intros b Hb. rewrite Hsize by done. by apply sa_sets0.
  - rewrite (zsum_ext _ (set_size m)) by done. done.
Qed.
End accounts.

Lemma sem_step_accounts x y : sem_step x y -> sem_accounts x -> sem_accounts y.
Proof.
  intros H Hx; destruct H.
  - apply sys_semget_allocates in H as [Hn H]. by eapply accounts_begin.
  - apply semget_find_allocates in H0. by eapply accounts_begin.
  - destruct mem.
    + by eapply (accounts_allocated m (p1 ++ (id, n) :: p2) d Hx).
    + by eapply (accounts_failed m (p1 ++ (id, n) :: p2) d Hx).
  - apply sys_semctl_removes in H as [Ha ->]. by eapply accounts_removed.
  - by eapply accounts_freed.
  - eapply accounts_frame; [exact Hx | by eapply sys_semctl_frame].
  - eapply accounts_frame; [exact Hx | by eapply sys_semop_frame].
  - eapply accounts_frame; [exact Hx | by eapply semop_wakes_frame].
  - eapply accounts_frame; [exact Hx | by eapply sem_exit_list_frame].
  - eapply accounts_frame; [exact Hx | by eapply sem_exit_wakes_frame].
Qed.

(** C32: in every interleaving of [semget], [semctl], [semop] and process exits
    the accounts of ipc/sem.c agree with its table: [used_semids] is the number
    of sets, [used_sems] the number of their semaphores and of those of the
    sets being allocated and never more than [SEMMNS], no two entries share a
    set, none points to a removed one, and no set is above [max_semid]. *)
Theorem sem_accounts_invariant m0 x :
  rtc sem_step (sem_init m0, [], []) x -> sem_accounts x.
Proof.
  intros H. remember (sem_init m0, [], []) as y eqn:Hy.
  assert (sem_accounts y) as Hacc by (subst; apply accounts_init). clear Hy m0.
  induction H; [done |]. eauto using sem_step_accounts.
Qed.

(** An empty table, a set of 3 semaphores being allocated, and allocated. *)
Definition demo_sem0 : sem_state := sem_init (mk_sem_state [] 0 0 [] 0 0 ∅ ∅ ∅ 0%nat).
Definition demo_sem1 : sem_state :=
  match sys_semget IPC_PRIVATE 3 0x180 demo_sem0 demo_user with
  | GetAllocates _ m => m
  | _ => demo_sem0
  end.
Definition demo_sem2 : sem_state := (newary_end IPC_PRIVATE 3 0x180 0 true 7 demo_sem1 demo_user).1.2.

Lemma sem_accounts_invariant_witness :
  used_sems demo_sem2 = 3 /\ used_semids demo_sem2 = 1 /\ sem_accounts (demo_sem2, [], []).
Proof.
  split; [by vm_compute |]. split; [by vm_compute |].
  apply (sem_accounts_invariant (mk_sem_state [] 0 0 [] 0 0 ∅ ∅ ∅ 0%nat)).
  apply (rtc_l sem_step _ (demo_sem1, [(0, 3)], [])).
  - apply (StepGet IPC_PRIVATE 3 0x180 demo_sem0 demo_user). by vm_compute.
  - apply rtc_once.
    apply (StepAllocated IPC_PRIVATE 0x180 0 3 true 7 demo_sem1 demo_user [] [] []).
Defined.

(** Two processes create a set with the same key: the second one does not see
    the entry that the first one has reserved above [max_semid], and the key
    gets two sets. *)
Example semget_duplicate_key :
  let m := demo_sem2 in
  match sys_semget 42 1 (Z.lor IPC_CREAT 0x180) m demo_user with
  | GetAllocates id1 m1 =>
      match sys_semget 42 1 (Z.lor IPC_CREAT 0x180) m1 demo_user with
      | GetAllocates id2 m2 =>
          let m3 := (newary_end 42 1 0x180 id2 true 8 m2 demo_user).1.2 in
          let m4 := (newary_end 42 1 0x180 id1 true 8 m3 demo_user).1.2 in
          id1 <> id2 /\
          map (fun a => key (sem_perm (get_set m4 a))) (used_ptrs (semary m4)) = [IPC_PRIVATE; 42; 42]
      | _ => False
      end
  | _ => False
  end.
Proof. by vm_compute. Qed.

(** ** [semop] *)

(** The value of semaphore [i] of the set at [a]. *)
Definition value (m : sem_state) (a : nat) (i : Z) : Z := semval (znth sem0 (sem_base (get_set m a)) i).

(** Can the operation be done on a semaphore with value [v]? *)
Definition op_possible (v : Z) (o : sembuf) : Prop :=
  0 <= v + sem_op o <= SEMVMX /\ (sem_op o = 0 -> v = 0).

(** The operations name semaphores of the set, and each at most one. *)
Definition ops_ok (m : sem_state) (a : nat) (sops : list sembuf) : Prop :=
  NoDup (map sem_num sops) /\
  (forall o, o ∈ sops -> 0 <= sem_num o < Z.of_nat (length (sem_base (get_set m a)))) /\
  (forall c, c ∈ sem_base (get_set m a) -> 0 <= semval c <= SEMVMX).

Lemma value_upd m a l i :
  value (upd_set a (fun x => x <| sem_base := l |>) m) a i = semval (znth sem0 l i).
Proof. unfold value. by rewrite get_set_upd_set_eq. Qed.

Lemma semop_check_spec base sops pending :
  (forall o, o ∈ sops -> 0 <= sem_num o < Z.of_nat (length base)) ->
  (forall c, c ∈ base -> 0 <= semval c <= SEMVMX) ->
  match semop_check base sops pending with
  | Some OpsReady => forall o, o ∈ sops -> op_possible (semval (znth sem0 base (sem_num o))) o
  | Some (OpsFail e) =>
      (e = - ERANGE \/ e = - EAGAIN \/ e = - EINTR /\ pending = true) /\
      exists o, o ∈ sops /\ ~ op_possible (semval (znth sem0 base (sem_num o))) o
  | Some (OpsSleep num zero) =>
      pending = false /\ 0 <= num < Z.of_nat (length base) /\
      exists o, o ∈ sops /\ sem_num o = num /\ zero = (sem_op o =? 0) /\
           ~ op_possible (semval (znth sem0 base num)) o
  | None => False
  end.
Proof.
  intros Hnum Hval. induction sops as [| o sops IH]; cbn; [by intros o ?%elem_of_nil |].
  pose proof (Hnum o ltac:(set_solver)) as Ho.
  destruct (lookup_lt_is_Some_2 base (Z.to_nat (sem_num o))) as [c Hc]; [lia |].
  assert (znth sem0 base (sem_num o) = c) as Ez.
  { unfold znth. destruct (sem_num o <? 0) eqn:?; [lia |]. by rewrite nth_lookup, Hc. }
  pose proof (Hval c ltac:(by eapply list_elem_of_lookup_2)) as Hv.
  destruct (sem_num o <? 0) eqn:?; [lia |]. rewrite Hc. cbn.
  unfold op_possible in *. rewrite <- Ez in *.
  destruct (SEMVMX <? _) eqn:?; bool_simp.
  { split; [by left |]. exists o. split; [set_solver | lia]. }
  destruct (_ && _) eqn:?; unfold ctrue in *; bool_simp.
  { destruct (flag _ _); [| destruct pending].
    1-2: split; [naive_solver |]; exists o; split; [set_solver | lia].
    split_and!; [done | lia | lia |].
    exists o. split_and!; [set_solver | done | symmetry; lia | lia]. }
  destruct (_ <? 0) eqn:?; bool_simp.
  { destruct (flag _ _); [| destruct pending].
    1-2: split; [naive_solver |]; exists o; split; [set_solver | lia].
    split_and!; [done | lia | lia |].
    exists o. split_and!; [set_solver | done | | lia].
    destruct (sem_op o =? 0) eqn:?; bool_simp; [lia | done]. }
  specialize (IH ltac:(set_solver)).
  assert (op_possible (semval (znth sem0 base (sem_num o))) o) as Hp.
  { unfold op_possible. split; [lia |]. intros H0.
    match goal with H : (sem_op o =? 0) && _ = false |- _ =>
      apply andb_false_iff in H as [H | H]; bool_simp; lia end. }
  destruct (semop_check base sops pending) as [[| e | num zero] |]; [| | | done].
  - intros o' [-> | Ho']%elem_of_cons; [done | by apply IH].
  - destruct IH as (He & o' & Ho' & Hn). split; [done |]. exists o'. split; [set_solver | done].
  - destruct IH as (? & ? & o' & Ho' & Hn). split_and!; try done; try lia.
    exists o'. split; [set_solver | done].
Qed.

Lemma semop_apply_cons semid a o sops z l m s :
  exists m1 c, semop_apply semid a (o :: sops) z l m s =
      semop_apply semid a sops (z || (semval c =? 0)) (semval c) m1 s /\
    c = apply_op (pid (cur s)) o (znth sem0 (sem_base (get_set m a)) (sem_num o)) /\
    sem_base (get_set m1 a) = zupd (sem_base (get_set m a)) (sem_num o) c.
Proof.
  exists (let c := apply_op (pid (cur s)) o (znth sem0 (sem_base (get_set m a)) (sem_num o)) in
          let m := upd_set a (fun x => x <| sem_base ::= fun l => zupd l (sem_num o) c |>) m in
          if flag (sem_flg o) SEM_UNDO then
            match find_undo semid (sem_num o) m s with
            | Some u => m <| undos ::= alter (fun x => x <| semadj ::= fun v => s16 (v - sem_op o) |>) u |>
            | None => m
            end
          else m).
  eexists. split; [reflexivity |]. split; [reflexivity |]. cbv zeta.
  repeat case_match; unfold get_set; cbn; by rewrite lookup_insert_eq.
Qed.

Lemma semop_apply_spec semid a sops z l m s :
  ops_ok m a sops ->
  (forall o, o ∈ sops -> op_possible (value m a (sem_num o)) o) ->
  let r := semop_apply semid a sops z l m s in
  (forall o, o ∈ sops -> value r.1.1 a (sem_num o) = value m a (sem_num o) + sem_op o) /\
  (forall i, 0 <= i -> i ∉ map sem_num sops -> value r.1.1 a i = value m a i) /\
  (sops <> [] -> exists o, last sops = Some o /\ r.2 = value r.1.1 a (sem_num o)).
Proof.
  unfold ops_ok. revert z l m. induction sops as [| o sops IH]; intros z l m (Hnd & Hnum & Hval) Hp.
  { cbn. split; [by intros ? ?%elem_of_nil |]. done. }
  destruct (semop_apply_cons semid a o sops z l m s) as (m1 & c & E & Hc & Hb).
  rewrite E. clear E. set (base := sem_base (get_set m a)) in *.
  cbn in Hnd. apply NoDup_cons in Hnd as [Ho Hnd].
  pose proof (Hnum o ltac:(set_solver)) as Hno. pose proof (Hp o ltac:(set_solver)) as Hpo.
  assert (semval c = value m a (sem_num o) + sem_op o) as Ec.
  { subst c. unfold apply_op. cbn. fold (value m a (sem_num o)).
    unfold op_possible, SEMVMX in Hpo. apply u16_small. lia. }
  assert (forall i, 0 <= i -> i <> sem_num o -> value m1 a i = value m a i) as Hother.
  { intros i Hi Hne. unfold value. rewrite Hb, znth_zupd_ne by lia. done. }
  assert (value m1 a (sem_num o) = value m a (sem_num o) + sem_op o) as Hthis.
  { unfold value at 1. by rewrite Hb, znth_zupd_eq. }
  specialize (IH (z || (semval c =? 0)) (semval c) m1) as (I1 & I2 & I3).
  - split_and!; [done | |].
    + intros o' Ho'. rewrite Hb, zupd_length. apply Hnum. set_solver.
    + intros c'. rewrite Hb. intros [-> | Hc']%elem_of_zupd; [| by apply Hval].
      rewrite Ec. unfold op_possible in Hpo. lia.
  - intros o' Ho'. rewrite Hother; [apply Hp; set_solver | apply Hnum; set_solver |].
    intros Heq. apply Ho. rewrite <- Heq. apply list_elem_of_fmap. by exists o'.
  - split_and!.
    + intros o' [-> | Ho']%elem_of_cons; [rewrite I2 by (done || lia); done |].
      rewrite I1 by done. rewrite Hother; [done | apply Hnum; set_solver |].
      intros Heq. apply Ho. rewrite <- Heq. apply list_elem_of_fmap. by exists o'.
    + cbn. intros i Hi Hin. rewrite I2 by (try done; set_solver). apply Hother; set_solver.
    + intros _. destruct sops as [| o' sops]; [| by apply I3].
      exists o. split; [done |]. cbn. by rewrite Hthis.
Qed.

(** C33: [semop] is atomic.  On distinct semaphores of a set either all
    operations are done, each value changes by its operation and stays within
    0..[SEMVMX], the other values stay and the last new value is returned; or
    some operation is impossible and no value changes: an error is returned
    with the state as it was, or the caller sleeps with no signal pending. *)
Theorem semop_atomic semid a sops incr now m s :
  seq (sem_perm (get_set m a)) = semid / SEMMNI ->
  sops <> [] -> ops_ok m a sops ->
  let possible := forall o, o ∈ sops -> op_possible (value m a (sem_num o)) o in
  match semop_slept semid a sops incr now m s with
  | OpReturns r m' s' =>
      (possible /\
       (forall o, o ∈ sops -> value m' a (sem_num o) = value m a (sem_num o) + sem_op o) /\
       (forall i, 0 <= i -> i ∉ map sem_num sops -> value m' a i = value m a i) /\
       exists o, last sops = Some o /\ r = value m' a (sem_num o)) \/
      (~ possible /\ m' = m /\ s' = s /\ (r = - ERANGE \/ r = - EAGAIN \/ r = - EINTR))
  | OpSleeps num zero m' _ =>
      ~ possible /\ signal_pending (cur s) = false /\ (forall i, 0 <= i -> value m' a i = value m a i)
  | OpPanics => ~ possible
  | OpFaults => False
  end.
Proof.
  intros Hseq Hne Hok possible. unfold semop_slept. rewrite Hseq, Z.eqb_refl. cbn [negb].
  pose proof Hok as (Hnd & Hnum & Hval).
  pose proof (semop_check_spec _ _ (signal_pending (cur s)) Hnum Hval) as Hc.
  destruct (semop_check _ _ _) as [[| e | num zero] |].
  - pose proof (semop_apply_spec semid a sops false 0 m s Hok Hc) as (H1 & H2 & H3).
    destruct (semop_apply semid a sops false 0 m s) as [[m' z'] l'].
    cbn [fst snd] in H1, H2, H3. destruct (H3 Hne) as (o & Hl & ->).
    assert (forall i, value (upd_set a (fun x => x <| sem_otime := now |>) m') a i = value m' a i) as Ev.
    { intros i. unfold value. by rewrite get_set_upd_set_eq. }
    cbv zeta. left. split; [exact Hc |]. split_and!.
    + intros o' Ho'. rewrite Ev. by apply H1.
    + intros i Hi Hin. rewrite Ev. by apply H2.
    + exists o. by rewrite Ev.
  - destruct Hc as (He & o & Ho & Hn). right. split_and!; try done; [| tauto].
    intros Hp. by apply Hn, Hp.
  - destruct Hc as (Hpend & Hr & o & Ho & Ho' & _ & Hn). subst num.
    destruct (interruptible_sleep_on _ _) as [[q s'] |]; [| intros Hp; by apply Hn, Hp].
    cbv zeta. split_and!; [intros Hp; by apply Hn, Hp | done |].
    intros i Hi. unfold value. rewrite get_set_upd_set_eq, get_set_upd_set_eq.
    match goal with |- semval (znth _ (sem_base ?x) _) = _ =>
      replace (sem_base x) with (zupd (sem_base (get_set m a)) (sem_num o)
        (if zero then znth sem0 (sem_base (get_set m a)) (sem_num o) <| semzcnt ::= fun n => u16 (n + 1) |>
         else znth sem0 (sem_base (get_set m a)) (sem_num o) <| semncnt ::= fun n => u16 (n + 1) |>))
        by (by destruct zero) end.
    destruct (decide (i = sem_num o)) as [-> | Hne'].
    + rewrite znth_zupd_eq by lia. by destruct zero.
    + by rewrite znth_zupd_ne by lia.
  - done.
Qed.

(** The demonstration set with the values 2, 0 and 5. *)
Definition demo_sem3 : sem_state :=
  upd_set 0 (fun x => x <| sem_base := [mk_sem 0 2 0 0; mk_sem 0 0 0 0; mk_sem 0 5 0 0] |>) demo_sem2.

Lemma semop_atomic_witness :
  let ops := [mk_sembuf 0 (-2) 0; mk_sembuf 1 3 0] in
  (ops_ok demo_sem3 0 ops /\ seq (sem_perm (get_set demo_sem3 0)) = 0 / SEMMNI) /\
  match semop_slept 0 0 ops true 9 demo_sem3 demo_user with
  | OpReturns r m' _ =>
      r = 3 /\ value m' 0 0 = value demo_sem3 0 0 - 2 /\ value m' 0 1 = value demo_sem3 0 1 + 3 /\
      value m' 0 2 = value demo_sem3 0 2
  | _ => False
  end.
Proof.
  intros ops. assert (ops_ok demo_sem3 0 ops) as Hok.
  { unfold ops_ok, ops. split_and!.
    - by apply (bool_decide_eq_true_1 _).
    - assert (length (sem_base (get_set demo_sem3 0)) = 3%nat) as -> by reflexivity.
      intros o [-> | [-> | ?%elem_of_nil]%elem_of_cons]%elem_of_cons; cbn; done || lia.
    - assert (sem_base (get_set demo_sem3 0) = [mk_sem 0 2 0 0; mk_sem 0 0 0 0; mk_sem 0 5 0 0])
        as -> by reflexivity.
      unfold SEMVMX.
      intros o [-> | [-> | [-> | ?%elem_of_nil]%elem_of_cons]%elem_of_cons]%elem_of_cons; cbn; done || lia. }
  split; [split; [done | by vm_compute] |].
  pose proof (semop_atomic 0 0 ops true 9 demo_sem3 demo_user eq_refl ltac:(done) Hok) as H.
  cbv zeta in H.
  assert (match semop_slept 0 0 ops true 9 demo_sem3 demo_user with OpReturns r _ _ => r = 3 | _ => False end)
    as C by (by vm_compute).
  destruct (semop_slept 0 0 ops true 9 demo_sem3 demo_user); try done.
  subst. destruct H as [(_ & H1 & H2 & _) | (_ & _ & _ & [H | [H | H]])]; try done.
  split_and!; [done | | |].
  - apply (H1 (mk_sembuf 0 (-2) 0)). set_solver.
  - apply (H1 (mk_sembuf 1 3 0)). set_solver.
  - apply H2; [done |]. cbn. set_solver.
Defined.

(** The number after the last semaphore passes the first pass, and [semop]
    reads behind the array. *)
Example semop_reads_behind : 
  match sys_semop 0 (Some [mk_sembuf 3 1 0]) 1 0 9 demo_sem3 (demo_user <| current := 1%nat |>) with
  | OpFaults => True
  | _ => False
  end.
Proof. by vm_compute. Qed.

(** Two operations on one semaphore are checked one by one: taking 2 twice from
    a value of 2 "succeeds" and leaves 65534. *)
Example semop_duplicate_wraps :
  match semop_slept 0 0 [mk_sembuf 0 (-2) 0; mk_sembuf 0 (-2) 0] false 9 demo_sem3 demo_user with
  | OpReturns r m' _ => r = 65534 /\ value m' 0 0 = 65534
  | _ => False
  end.
Proof. by vm_compute. Qed.
