(* ===== verification/Msg.v ===== *)
(** System V message queues (ipc/msg.c).

    As in [Sem], the system calls are cut where the process sleeps
    ([interruptible_sleep_on], [schedule], [kmalloc] and copies that may sleep).
    A queue is the list of its messages along [msg_next]; [msg_last] is the last
    of them. *)

From S2P Require Import Prelude Errno Task Signal Sched Sys Ipc.

(** include/linux/msg.h:11-16 [struct msg] *)
Record msg := mk_msg { msg_type : Z; msg_spot : list Z; msg_ts : Z }.

(** include/linux/msg.h:19-33 [struct msqid_ds] *)
Record msqid_ds := mk_msqid_ds {
  msg_perm : ipc_perm; msgs : list msg; msg_stime : Z; msg_rtime : Z; msg_ctime : Z;
  wwait : wait_queue; rwait : wait_queue;
  msg_cbytes : Z; msg_qnum : Z; msg_qbytes : Z; msg_lspid : Z; msg_lrpid : Z;
}.
#[export] Instance eta_msqid_ds : Eta msqid_ds := fun x =>
  mk_msqid_ds (msg_perm x) (msgs x) (msg_stime x) (msg_rtime x) (msg_ctime x)
    (wwait x) (rwait x) (msg_cbytes x) (msg_qnum x) (msg_qbytes x) (msg_lspid x) (msg_lrpid x).

(** include/linux/msg.h:6-7 options of [msgrcv] *)
Definition MSG_NOERROR := 0x1000.
Definition MSG_EXCEPT := 0x2000.

(** include/linux/msg.h:54-56 limits *)
Definition MSGMNI := 128.
Definition MSGMAX := 4056.
Definition MSGMNB := 16384.

(** include/linux/msg.h:69-70 commands *)
Definition MSG_STAT := 11.
Definition MSG_INFO := 12.

(** ipc/msg.c:20-27 the state; [queues] is the memory of [struct msqid_ds],
    [fresh] the next free address, and [blocks] the number of messages that
    [kmalloc] has given and [kfree_s] has not taken back *)
Record msg_state := mk_msg_state {
  msgque : list slot; msgbytes : Z; msghdrs : Z; msg_seq : Z; used_queues : Z; max_msqid : Z;
  msg_lock : wait_queue; queues : gmap nat msqid_ds; fresh : nat; blocks : Z;
}.
#[export] Instance eta_msg_state : Eta msg_state := fun x =>
  mk_msg_state (msgque x) (msgbytes x) (msghdrs x) (msg_seq x) (used_queues x) (max_msqid x)
    (msg_lock x) (queues x) (fresh x) (blocks x).

Definition queue0 : msqid_ds := mk_msqid_ds (mk_perm 0 0 0 0 0 0 0) [] 0 0 0 [] [] 0 0 0 0 0.
Definition get_queue (m : msg_state) (a : nat) : msqid_ds := default queue0 (queues m !! a).
Definition upd_queue (a : nat) (f : msqid_ds -> msqid_ds) (m : msg_state) : msg_state :=
  m <| queues ::= alter f a |>.
Definition msg_slot (m : msg_state) (id : Z) : slot := slot_at (msgque m) id.
Definition set_slot (id : Z) (x : slot) (m : msg_state) : msg_state :=
  m <| msgque ::= fun t => zupd t id x |>.
Definition wake_if (q : wait_queue) (s : kstate) : kstate :=
  match q with [] => s | _ => wake_up q s end.

(** ipc/msg.c:30-39 [msg_init] *)
Definition msg_init (m : msg_state) : msg_state :=
  m <| msgque := replicate (Z.to_nat MSGMNI) IPC_UNUSED |>
    <| msgbytes := 0 |> <| msghdrs := 0 |> <| msg_seq := 0 |> <| max_msqid := 0 |>
    <| used_queues := 0 |> <| msg_lock := [] |>.

(** ** Sending *)

(** A [msgsnd] in progress: returned, asleep in [wwait], allocating the message,
    reading the header of a queue that is gone, or task 0 trying to sleep. *)
Inductive snd_step :=
| SndReturns (r : Z) (m : msg_state) (s : kstate)
| SndSleeps (m : msg_state) (s : kstate)
| SndAllocates
| SndFaults
| SndPanics.

(** ipc/msg.c:64-78 [sys_msgsnd] from the label [slept] to [kmalloc] *)
Definition msgsnd_slept (msqid : Z) (a : nat) (msgsz msgflg : Z) (m : msg_state) (s : kstate) : snd_step :=
  let msq := get_queue m a in
  if negb (seq (msg_perm msq) =? msqid / MSGMNI) then SndReturns (- EIDRM) m s
  else if negb (ipcperms (msg_perm msq) S_IWUGO s) then SndReturns (- EACCES) m s
  else if msg_qbytes msq <? msgsz + msg_cbytes msq then
    if flag msgflg IPC_NOWAIT then SndReturns (- EAGAIN) m s
    else if signal_pending (cur s) then SndReturns (- EINTR) m s
    else match interruptible_sleep_on (wwait msq) s with
         | None => SndPanics
         | Some (q, s) => SndSleeps (upd_queue a (fun x => x <| wwait := q |>) m) s
         end
  else SndAllocates.

(** ipc/msg.c:76-77 the sleeper runs again *)
Definition msgsnd_wakes (msqid : Z) (a : nat) (msgsz msgflg : Z) (m : msg_state) (s : kstate) : snd_step :=
  msgsnd_slept msqid a msgsz msgflg (upd_queue a (fun x => x <| wwait ::= fun q => sleep_exit q s |>) m) s.

(** ipc/msg.c:41-62 [sys_msgsnd] from its entry; [msgp] is [None] for NULL, or
    the type of the message; [va] is the result of [verify_area] *)
Definition sys_msgsnd (msqid : Z) (msgp : option Z) (va msgsz msgflg : Z) (m : msg_state) (s : kstate) :
    snd_step :=
  if (MSGMAX <? msgsz) || (msgsz <? 0) || (msqid <? 0) then SndReturns (- EINVAL) m s
  else match msgp with
  | None => SndReturns (- EFAULT) m s
  | Some mtype =>
      if ctrue va then SndReturns va m s
      else if mtype <? 1 then SndReturns (- EINVAL) m s
      else match msg_slot m (msqid mod MSGMNI) with
           | Ptr a => msgsnd_slept msqid a msgsz msgflg m s
           | _ => SndReturns (- EINVAL) m s
           end
  end.

(** ipc/msg.c:80-110 [sys_msgsnd] after [kmalloc] and the copy of the text, in
    which it may have slept *)
Definition msgsnd_deliver (msqid : Z) (a : nat) (mtype : Z) (text : list Z) (mem : bool) (now : Z)
    (m : msg_state) (s : kstate) : snd_step :=
  let msgsz := Z.of_nat (length text) in
  if negb mem then SndReturns (- ENOMEM) m s
  else match msg_slot m (msqid mod MSGMNI), queues m !! a with
  | Ptr _, None => SndFaults
  | Ptr _, Some msq =>
      if negb (seq (msg_perm msq) =? msqid / MSGMNI) then SndReturns (- EIDRM) m s
      else
        let msq := msq <| msgs ::= fun l => l ++ [mk_msg mtype text msgsz] |>
          <| msg_cbytes ::= fun b => u16 (b + msgsz) |> <| msg_qnum ::= fun n => u16 (n + 1) |>
          <| msg_lspid := u16 (pid (cur s)) |> <| msg_stime := now |> in
        SndReturns msgsz
          (m <| queues ::= <[a := msq]> |> <| msgbytes ::= fun b => s32 (b + msgsz) |>
             <| msghdrs ::= fun h => s32 (h + 1) |> <| blocks ::= fun n => n + 1 |>)
          (wake_if (rwait msq) s)
  | _, _ => SndReturns (- EIDRM) m s
  end.

(** ** Receiving *)

(** ipc/msg.c:163-166 the first message with the least type: [leastp] after the
    loop, [b] being the one so far with its type *)
Fixpoint find_least (i : nat) (b : nat * Z) (l : list msg) : nat * Z :=
  match l with
  | [] => b
  | x :: l => find_least (S i) (if msg_type x <? b.2 then (i, msg_type x) else b) l
  end.

(** ipc/msg.c:145-169 the message that is asked for: its place in the queue *)
Definition find_msg (msgtyp msgflg : Z) (l : list msg) : option nat :=
  if msgtyp =? 0 then match l with [] => None | _ => Some O end
  else if 0 <? msgtyp then
    if flag msgflg MSG_EXCEPT then fst <$> list_find (fun x => msg_type x <> msgtyp) l
    else fst <$> list_find (fun x => msg_type x = msgtyp) l
  else match l with
       | [] => None
       | x :: _ =>
           let '(i, least) := find_least 0 (O, msg_type x) l in
           if least <=? s32 (- msgtyp) then Some i else None
       end.

(** A [msgrcv] in progress: returned with the type and the text stored, asleep
    in [rwait], or task 0 trying to sleep. *)
Inductive rcv_step :=
| RcvReturns (r : Z) (out : option (Z * list Z)) (m : msg_state) (s : kstate)
| RcvSleeps (m : msg_state) (s : kstate)
| RcvPanics.

(** ipc/msg.c:171-200 the message at place [i] is taken out; [kfree_s] refuses
    a block when it is given the wrong size.  The message is unlinked; when the
    counter of messages comes to 0 the queue is made empty. *)
Definition msgrcv_take (a : nat) (i : nat) (x : msg) (msgsz msgflg now : Z) (m : msg_state) (s : kstate) :
    rcv_step :=
  if (msgsz <? msg_ts x) && negb (flag msgflg MSG_NOERROR) then RcvReturns (- E2BIG) None m s
  else
    let msgsz := if msg_ts x <? msgsz then msg_ts x else msgsz in
    let msq := get_queue m a in
    let qnum := u16 (msg_qnum msq - 1) in
    let m := upd_queue a (fun q =>
      q <| msgs ::= fun l => if qnum =? 0 then [] else delete i l |> <| msg_qnum := qnum |>
        <| msg_rtime := now |> <| msg_lrpid := u16 (pid (cur s)) |>
        <| msg_cbytes ::= fun b => u16 (b - msg_ts x) |>) m in
    let m := m <| msgbytes ::= fun b => s32 (b - msg_ts x) |> <| msghdrs ::= fun h => s32 (h - 1) |>
               <| blocks ::= fun n => if msgsz =? msg_ts x then n - 1 else n |> in
    RcvReturns msgsz (Some (msg_type x, firstn (Z.to_nat msgsz) (msg_spot x))) m
      (wake_if (wwait msq) s).

(** ipc/msg.c:140-208 one round of the loop of [sys_msgrcv] *)
Definition msgrcv_round (msqid : Z) (a : nat) (msgsz msgtyp msgflg now : Z) (m : msg_state) (s : kstate) :
    rcv_step :=
  let msq := get_queue m a in
  if negb (seq (msg_perm msq) =? msqid / MSGMNI) then RcvReturns (- EIDRM) None m s
  else if negb (ipcperms (msg_perm msq) S_IRUGO s) then RcvReturns (- EACCES) None m s
  else match (i ← find_msg msgtyp msgflg (msgs msq); x ← msgs msq !! i; Some (i, x)) with
  | Some (i, x) => msgrcv_take a i x msgsz msgflg now m s
  | None =>
      if flag msgflg IPC_NOWAIT then RcvReturns (- ENOMSG) None m s
      else if signal_pending (cur s) then RcvReturns (- EINTR) None m s
      else match interruptible_sleep_on (rwait msq) s with
           | None => RcvPanics
           | Some (q, s) => RcvSleeps (upd_queue a (fun x => x <| rwait := q |>) m) s
           end
  end.

(** ipc/msg.c:206-208 the sleeper runs again *)
Definition msgrcv_wakes (msqid : Z) (a : nat) (msgsz msgtyp msgflg now : Z) (m : msg_state) (s : kstate) :
    rcv_step :=
  msgrcv_round msqid a msgsz msgtyp msgflg now
    (upd_queue a (fun x => x <| rwait ::= fun q => sleep_exit q s |>) m) s.

(** ipc/msg.c:113-132 [sys_msgrcv] from its entry *)
Definition sys_msgrcv (msqid : Z) (msgp : bool) (va msgsz msgtyp msgflg now : Z) (m : msg_state)
    (s : kstate) : rcv_step :=
  if (msqid <? 0) || (msgsz <? 0) then RcvReturns (- EINVAL) None m s
  else if negb msgp then RcvReturns (- EFAULT) None m s
  else if ctrue va then RcvReturns va None m s
  else match msg_slot m (msqid mod MSGMNI) with
       | Ptr a => msgrcv_round msqid a msgsz msgtyp msgflg now m s
       | _ => RcvReturns (- EINVAL) None m s
       end.

(** ** Creating and removing *)

(** ipc/msg.c:213-227 [findkey] from index [id] on: the index found, -1, or the
    index at which the caller sleeps on [msg_lock] *)
Inductive find_result := Found (id : Z) | FindSleeps (id : Z).
Fixpoint findkey (n : nat) (k id : Z) (m : msg_state) : find_result :=
  match n with
  | O => Found (-1)
  | S n =>
      if max_msqid m <? id then Found (-1) else
      match msg_slot m id with
      | IPC_NOID => FindSleeps id
      | IPC_UNUSED => findkey n k (id + 1) m
      | Ptr a => if k =? key (msg_perm (get_queue m a)) then Found id else findkey n k (id + 1) m
      end
  end.

(** ipc/msg.c:229-241 [newque] up to [kmalloc]: an error, or the reserved slot *)
Definition newque_begin (m : msg_state) : Z + Z * msg_state :=
  match list_find (fun id => msg_slot m id = IPC_UNUSED) (seqZ 0 MSGMNI) with
  | Some (_, id) => inr (id, set_slot id IPC_NOID m)
  | None => inl (- ENOSPC)
  end.

(** ipc/msg.c:242-272 [newque] after [kmalloc] *)
Definition newque_end (k msgflg id : Z) (mem : bool) (now : Z) (m : msg_state) (s : kstate) :
    Z * msg_state * kstate :=
  if negb mem then (- ENOMEM, set_slot id IPC_UNUSED m, wake_if (msg_lock m) s)
  else
    let c := cur s in
    let msq := mk_msqid_ds
      (mk_perm k (euid c) (egid c) (euid c) (egid c) (Z.land msgflg S_IRWXUGO) (msg_seq m))
      [] 0 0 now [] [] 0 0 MSGMNB 0 0 in
    let a := fresh m in
    let m := m <| queues ::= <[a := msq]> |> <| fresh ::= S |> in
    let m := if max_msqid m <? id then m <| max_msqid := id |> else m in
    let m := set_slot id (Ptr a) m <| used_queues ::= fun u => u + 1 |> in
    (make_id MSGMNI (msg_seq m) id, m, wake_if (msg_lock m) s).

(** A [msgget] in progress. *)
Inductive msgget_step :=
| GetReturns (r : Z)
| GetSleeps (id : Z)
| GetAllocates (id : Z) (m : msg_state).

Definition msgget_new (m : msg_state) : msgget_step :=
  match newque_begin m with inl e => GetReturns e | inr (id, m) => GetAllocates id m end.

(** ipc/msg.c:281-294 [sys_msgget] from [findkey] at index [id] on *)
Definition msgget_find (k msgflg id : Z) (m : msg_state) (s : kstate) : msgget_step :=
  match findkey (Z.to_nat MSGMNI) k id m with
  | FindSleeps id => GetSleeps id
  | Found id =>
      if id =? -1 then
        if negb (flag msgflg IPC_CREAT) then GetReturns (- ENOENT) else msgget_new m
      else if flag msgflg IPC_CREAT && flag msgflg IPC_EXCL then GetReturns (- EEXIST)
      else match msg_slot m id with
           | Ptr a =>
               if negb (ipcperms (msg_perm (get_queue m a)) msgflg s) then GetReturns (- EACCES)
               else GetReturns (make_id MSGMNI (seq (msg_perm (get_queue m a))) id)
           | _ => GetReturns (- EIDRM)
           end
  end.

(** ipc/msg.c:274-294 [sys_msgget] *)
Definition sys_msgget (k msgflg : Z) (m : msg_state) (s : kstate) : msgget_step :=
  if k =? IPC_PRIVATE then msgget_new m else msgget_find k msgflg 0 m s.

(** ipc/msg.c:296-307 [freeque] up to the loop that waits for the sleepers *)
Definition freeque_begin (id : Z) (a : nat) (m : msg_state) : msg_state :=
  let m := upd_queue a (fun x => x <| msg_perm ::= fun p => p <| seq ::= fun q => u16 (q + 1) |> |>) m in
  let m := m <| msg_seq ::= fun q => u16 (q + 1) |> in
  let m := m <| msgbytes ::= fun b => s32 (b - msg_cbytes (get_queue m a)) |> in
  let m := if id =? max_msqid m
           then m <| max_msqid := lower_max (Z.to_nat (max_msqid m)) (msgque m) |> else m in
  set_slot id IPC_UNUSED m <| used_queues ::= fun u => u - 1 |>.

(** ipc/msg.c:308-321 one round of the loop: the sleepers are woken and the
    caller gives way ([inl]), or the messages and the queue are freed *)
Definition freeque_wait (a : nat) (m : msg_state) (s : kstate) : kstate + msg_state :=
  let x := get_queue m a in
  match rwait x, wwait x with
  | [], [] =>
      let n := Z.of_nat (length (msgs x)) in
      inr (m <| msghdrs ::= fun h => s32 (h - n) |> <| blocks ::= fun b => b - n |>
             <| queues ::= delete a |>)
  | _, _ => inl (schedule (wake_if (wwait x) (wake_if (rwait x) s)))
  end.

(** ** [msgctl] *)

(** What the call stores in the caller's buffer. *)
Inductive msgctl_out :=
| OutNone | OutInfo (pool map tql : Z) | OutQueue (x : msqid_ds).

(** A [msgctl] in progress: returned, or removing the queue at [a]. *)
Inductive msgctl_step :=
| CtlReturns (r : Z) (out : msgctl_out) (m : msg_state) (s : kstate)
| CtlRemoves (a : nat) (m : msg_state).

(** The caller's buffer: is it there, the result of [verify_area], and the
    user, group, mode and size it holds. *)
Record msgctl_arg := mk_msgctl_arg { buf : bool; buf_va : Z; buf_set : Z * Z * Z * Z }.

(** ipc/msg.c:331-371 the commands that name a slot, or nothing *)
Definition msgctl_info (msqid cmd : Z) (x : msgctl_arg) (m : msg_state) (s : kstate) : Z * msgctl_out :=
  if negb (buf x) then (- EFAULT, OutNone)
  else if ctrue (buf_va x) then (buf_va x, OutNone)
  else if (cmd =? IPC_INFO) || (cmd =? MSG_INFO) then
    (max_msqid m,
     if cmd =? MSG_INFO then OutInfo (used_queues m) (msghdrs m) (msgbytes m)
     else OutInfo (MSGMNI * MSGMNB / 1024) MSGMNB MSGMNB)
  else (* MSG_STAT *)
    if max_msqid m <? msqid then (- EINVAL, OutNone)
    else match msg_slot m msqid with
         | Ptr a =>
             let msq := get_queue m a in
             if negb (ipcperms (msg_perm msq) S_IRUGO s) then (- EACCES, OutNone)
             else (s32 (msqid + seq (msg_perm msq) * MSGMNI), OutQueue msq)
         | _ => (- EINVAL, OutNone)
         end.

(** ipc/msg.c:387-393 the queue an identifier names *)
Definition msg_lookup (msqid : Z) (m : msg_state) : Z + nat :=
  match msg_slot m (msqid mod MSGMNI) with
  | Ptr a => if seq (msg_perm (get_queue m a)) =? msqid / MSGMNI then inr a else inl (- EIDRM)
  | _ => inl (- EINVAL)
  end.

(** ipc/msg.c:395-424 the command on the queue at [a] *)
Definition msgctl_act (msqid : Z) (a : nat) (cmd : Z) (x : msgctl_arg) (now : Z) (m : msg_state)
    (s : kstate) : msgctl_step :=
  let msq := get_queue m a in
  if cmd =? IPC_STAT then
    if negb (ipcperms (msg_perm msq) S_IRUGO s) then CtlReturns (- EACCES) OutNone m s
    else CtlReturns 0 (OutQueue msq) m s
  else if (cmd =? IPC_RMID) || (cmd =? IPC_SET) then
    if negb (ipc_owner (msg_perm msq) s) then CtlReturns (- EPERM) OutNone m s
    else if cmd =? IPC_RMID then CtlRemoves a (freeque_begin (msqid mod MSGMNI) a m)
    else
      let '(u, g, md, qb) := buf_set x in
      if (MSGMNB <? qb) && negb (suser (cur s)) then CtlReturns (- EPERM) OutNone m s
      else CtlReturns 0 OutNone
        (upd_queue a (fun y => y <| msg_qbytes := qb |> <| msg_ctime := now |> <| msg_perm ::= fun p =>
           p <| p_uid := u |> <| p_gid := g |>
             <| mode ::= fun old => Z.lor (Z.land old (Z.lnot S_IRWXUGO)) (Z.land S_IRWXUGO md) |> |>) m) s
  else CtlReturns (- EINVAL) OutNone m s.

(** ipc/msg.c:323-424 [sys_msgctl] (copies to and from user memory do not sleep
    in the model) *)
Definition sys_msgctl (msqid cmd : Z) (x : msgctl_arg) (now : Z) (m : msg_state) (s : kstate) : msgctl_step :=
  if (msqid <? 0) || (cmd <? 0) then CtlReturns (- EINVAL) OutNone m s
  else if existsb (Z.eqb cmd) [IPC_INFO; MSG_INFO; MSG_STAT] then
    let '(r, out) := msgctl_info msqid cmd x m s in CtlReturns r out m s
  else if ((cmd =? IPC_SET) || (cmd =? IPC_STAT)) && negb (buf x) then CtlReturns (- EFAULT) OutNone m s
  else if (cmd =? IPC_STAT) && ctrue (buf_va x) then CtlReturns (buf_va x) OutNone m s
  else match msg_lookup msqid m with
       | inl e => CtlReturns e OutNone m s
       | inr a => msgctl_act msqid a cmd x now m s
       end.

(** * Properties *)

Lemma queues_upd a f m b :
  queues (upd_queue a f m) !! b = if decide (a = b) then f <$> queues m !! b else queues m !! b.
Proof.
  unfold upd_queue. cbn. case_decide; subst.
  - by rewrite lookup_alter_eq.
  - by rewrite lookup_alter_ne.
Qed.
Lemma queues_upd_some a f m q :
  queues m !! a = Some q -> queues (upd_queue a f m) = <[a := f q]> (queues m).
Proof.
  intros Hq. apply map_eq. intros b. rewrite queues_upd. case_decide; subst.
  - by rewrite Hq, lookup_insert_eq.
  - by rewrite lookup_insert_ne.
Qed.
Lemma get_queue_some m a q : queues m !! a = Some q -> get_queue m a = q.
Proof. unfold get_queue. by intros ->. Qed.

(** What counts about a queue: its messages, their bytes and number, and its
    sequence number. *)
Definition core (q : msqid_ds) : list msg * Z * Z * Z :=
  (msgs q, msg_cbytes q, msg_qnum q, seq (msg_perm q)).

(** What the operations that move no message leave alone. *)
Record msg_frame (m m' : msg_state) : Prop := mk_msg_frame {
  mf_que : msgque m' = msgque m;
  mf_bytes : msgbytes m' = msgbytes m;
  mf_hdrs : msghdrs m' = msghdrs m;
  mf_used : used_queues m' = used_queues m;
  mf_max : max_msqid m' = max_msqid m;
  mf_fresh : fresh m' = fresh m;
  mf_core : forall a, core <$> queues m' !! a = core <$> queues m !! a;
}.

Lemma msg_frame_refl m : msg_frame m m.
Proof. by constructor. Qed.
Lemma msg_frame_trans m1 m2 m3 : msg_frame m1 m2 -> msg_frame m2 m3 -> msg_frame m1 m3.
Proof. intros [] []. constructor; congruence. Qed.
Lemma msg_frame_upd a f m : (forall q, core (f q) = core q) -> msg_frame m (upd_queue a f m).
Proof.
  intros Hf. constructor; try done. intros b. rewrite queues_upd. case_decide; subst; [| done].
  rewrite <- option_fmap_compose. apply option_fmap_ext. auto.
Qed.
#[export] Hint Resolve msg_frame_refl : kernel.

Definition snd_state (m : msg_state) (r : snd_step) : msg_state :=
  match r with SndReturns _ m _ | SndSleeps m _ => m | _ => m end.
Definition rcv_state (m : msg_state) (r : rcv_step) : msg_state :=
  match r with RcvReturns _ _ m _ | RcvSleeps m _ => m | _ => m end.

Lemma msgsnd_slept_frame msqid a sz flg m s : msg_frame m (snd_state m (msgsnd_slept msqid a sz flg m s)).
Proof.
  unfold msgsnd_slept. repeat (case_match; cbn -[upd_queue]; try apply msg_frame_refl).
  by apply msg_frame_upd.
Qed.
Lemma msgsnd_wakes_frame msqid a sz flg m s : msg_frame m (snd_state m (msgsnd_wakes msqid a sz flg m s)).
Proof.
  unfold msgsnd_wakes. set (m1 := upd_queue _ _ _).
  assert (msg_frame m m1) as H1 by (by apply msg_frame_upd).
  pose proof (msgsnd_slept_frame msqid a sz flg m1 s) as H2.
  destruct (msgsnd_slept _ _ _ _ _ _); cbn in *; try apply msg_frame_refl;
    by eapply msg_frame_trans.
Qed.
Lemma sys_msgsnd_frame msqid msgp va sz flg m s :
  msg_frame m (snd_state m (sys_msgsnd msqid msgp va sz flg m s)).
Proof.
  unfold sys_msgsnd. repeat (case_match; cbn; try apply msg_frame_refl).
  apply msgsnd_slept_frame.
Qed.
Lemma sys_msgctl_frame msqid cmd x now m s r out m' s' :
  sys_msgctl msqid cmd x now m s = CtlReturns r out m' s' -> msg_frame m m'.
Proof.
  unfold sys_msgctl, msgctl_act. destruct (buf_set x) as [[[u g] md] qb]. intros H.
  repeat (case_match; simplify_eq; try apply msg_frame_refl).
  by apply msg_frame_upd.
Qed.

Lemma msgget_find_allocates k flg id0 m s id m' :
  msgget_find k flg id0 m s = GetAllocates id m' -> newque_begin m = inr (id, m').
Proof.
  unfold msgget_find, msgget_new. generalize (findkey (Z.to_nat MSGMNI) k id0 m). intros [i | i]; [| done].
  destruct (i =? -1); [destruct (negb _); [done |] |].
  - destruct (newque_begin m) as [| [? ?]]; [done | by intros [= <- <-]].
  - destruct (_ && _); [done |]. destruct (msg_slot m i); try done. by destruct (negb _).
Qed.

Lemma sys_msgctl_removes msqid cmd x now m s a m' :
  sys_msgctl msqid cmd x now m s = CtlRemoves a m' ->
  msg_slot m (msqid mod MSGMNI) = Ptr a /\ m' = freeque_begin (msqid mod MSGMNI) a m.
Proof.
  unfold sys_msgctl. intros H. destruct (_ || _); [done |].
  destruct (existsb _ _); [by destruct (msgctl_info _ _ _ _ _) |].
  destruct (_ && _); [done |]. destruct (_ && _); [done |].
  unfold msg_lookup in H. destruct (msg_slot m (msqid mod MSGMNI)) as [| | b]; try done.
  destruct (_ =? _); [| done].
  unfold msgctl_act in H. destruct (buf_set x) as [[[u g] md] qb].
  repeat case_match; simplify_eq. done.
Qed.

(** The table, the allocations in progress, the queues that were removed, and
    the calls that have looked up a queue and may still use it. *)
Definition msg_sys : Type := msg_state * list Z * list nat * list (Z * nat).

Definition holds_of (msqid : Z) (m : msg_state) : list (Z * nat) :=
  match msg_lookup msqid m with inr a => [(msqid, a)] | inl _ => [] end.

(** Everything that happens to the queues: system calls and their
    continuations, in any order and by any process. *)
Inductive msg_step : msg_sys -> msg_sys -> Prop :=
| StepGet k flg m s id m' p d h :
    sys_msgget k flg m s = GetAllocates id m' -> msg_step (m, p, d, h) (m', id :: p, d, h)
| StepGetResumes k flg id0 m s id m' p d h :
    msgget_find k flg id0 m s = GetAllocates id m' -> msg_step (m, p, d, h) (m', id :: p, d, h)
| StepAllocated k flg id mem now m s p1 p2 d h :
    msg_step (m, p1 ++ id :: p2, d, h) ((newque_end k flg id mem now m s).1.2, p1 ++ p2, d, h)
| StepRemove msqid cmd x now m s a m' p d h :
    sys_msgctl msqid cmd x now m s = CtlRemoves a m' -> msg_step (m, p, d, h) (m', p, a :: d, h)
| StepFree a m s m' p d h :
    a ∈ d -> freeque_wait a m s = inr m' -> msg_step (m, p, d, h) (m', p, d, h)
| StepCtl msqid cmd x now m s r out m' s' p d h :
    sys_msgctl msqid cmd x now m s = CtlReturns r out m' s' -> msg_step (m, p, d, h) (m', p, d, h)
| StepSnd msqid msgp va sz flg m s p d h :
    msg_step (m, p, d, h)
      (snd_state m (sys_msgsnd msqid msgp va sz flg m s), p, d, holds_of msqid m ++ h)
| StepSndWakes msqid a sz flg m s p d h :
    (msqid, a) ∈ h -> msg_step (m, p, d, h) (snd_state m (msgsnd_wakes msqid a sz flg m s), p, d, h)
| StepDeliver msqid a mtype text mem now m s p d h :
    (msqid, a) ∈ h -> Z.of_nat (length text) <= MSGMAX ->
    msg_step (m, p, d, h) (snd_state m (msgsnd_deliver msqid a mtype text mem now m s), p, d, h)
| StepRcv msqid msgp va sz typ flg now m s p d h :
    msg_step (m, p, d, h)
      (rcv_state m (sys_msgrcv msqid msgp va sz typ flg now m s), p, d, holds_of msqid m ++ h)
| StepRcvWakes msqid a sz typ flg now m s p d h :
    (msqid, a) ∈ h ->
    msg_step (m, p, d, h) (rcv_state m (msgrcv_wakes msqid a sz typ flg now m s), p, d, h).

Definition queue_bytes (q : msqid_ds) : Z := zsum msg_ts (msgs q).
Definition queue_len (m : msg_state) (a : nat) : Z := Z.of_nat (length (msgs (get_queue m a))).

(** No queue holds as many messages or bytes as its 16-bit counters cannot
    count. *)
Definition roomy (m : msg_state) : Prop :=
  map_Forall (fun _ q => queue_bytes q < 65536 /\ Z.of_nat (length (msgs q)) < 65536) (queues m).
#[export] Instance roomy_dec m : Decision (roomy m).
Proof. unfold roomy. apply _. Defined.

(** A queue's own accounts. *)
Definition queue_ok (q : msqid_ds) : Prop :=
  msg_cbytes q = queue_bytes q /\ msg_qnum q = Z.of_nat (length (msgs q)) /\
  Forall (fun x => 0 <= msg_ts x <= MSGMAX /\ msg_ts x = Z.of_nat (length (msg_spot x))) (msgs q).

(** A queue that a call holds is still in the table under the identifier it
    was called with, or was removed and its sequence number tells. *)
Definition hold_ok (m : msg_state) (d : list nat) (x : Z * nat) : Prop :=
  (msg_slot m (x.1 mod MSGMNI) = Ptr x.2 /\ seq (msg_perm (get_queue m x.2)) = x.1 / MSGMNI) \/
  (x.2 ∈ d /\ forall q, queues m !! x.2 = Some q -> seq (msg_perm q) <> x.1 / MSGMNI).

Record msg_accounts (x : msg_sys) : Prop := mk_msg_accounts {
  ma_table : table_ok MSGMNI (msgque x.1.1.1) x.1.1.2 x.1.2 (fresh x.1.1.1)
               (used_queues x.1.1.1) (max_msqid x.1.1.1);
  ma_dead : NoDup x.1.2;
  ma_mem : forall a, a ∈ used_ptrs (msgque x.1.1.1) -> is_Some (queues x.1.1.1 !! a);
  ma_queues : forall a q, queues x.1.1.1 !! a = Some q -> (a < fresh x.1.1.1)%nat /\ queue_ok q;
  ma_bytes : msgbytes x.1.1.1 =
      s32 (zsum (fun a => queue_bytes (get_queue x.1.1.1 a)) (used_ptrs (msgque x.1.1.1)));
  ma_hdrs : msghdrs x.1.1.1 =
      s32 (zsum (queue_len x.1.1.1) (used_ptrs (msgque x.1.1.1) ++ x.1.2));
  ma_holds : forall y, y ∈ x.2 -> hold_ok x.1.1.1 x.1.2 y;
}.

Lemma core_get m m' a : core <$> queues m' !! a = core <$> queues m !! a ->
  core (get_queue m' a) = core (get_queue m a).
Proof.
  unfold get_queue. destruct (queues m' !! a), (queues m !! a); cbn -[core]; congruence.
Qed.
Lemma core_ok q q' : core q' = core q -> queue_ok q -> queue_ok q'.
Proof. unfold core, queue_ok, queue_bytes. intros [= -> -> -> _]. done. Qed.
Lemma core_bytes q q' : core q' = core q -> queue_bytes q' = queue_bytes q.
Proof. unfold core, queue_bytes. by intros [= -> _ _ _]. Qed.
Lemma core_seq q q' : core q' = core q -> seq (msg_perm q') = seq (msg_perm q).
Proof. unfold core. by intros [= _ _ _ ->]. Qed.
Lemma core_len m m' a : core (get_queue m' a) = core (get_queue m a) -> queue_len m' a = queue_len m a.
Proof. unfold core, queue_len. by intros [= -> _ _ _]. Qed.
Lemma fmap_some_inv {A B} (f : A -> B) (x y : option A) b :
  f <$> x = f <$> y -> x = Some b -> exists b', y = Some b' /\ f b = f b'.
Proof. intros H ->. destruct y as [b' |]; [| done]. exists b'. split; [done |]. by injection H. Qed.

Lemma msg_accounts_init : msg_accounts (msg_init (mk_msg_state [] 0 0 0 0 0 [] ∅ 0 0), [], [], []).
Proof.
  constructor; cbn -[msg_slot].
  - by apply (table_init MSGMNI).
  - constructor.
  - by intros a ?%elem_of_nil.
  - by intros a q.
  - done.
  - done.
  - by intros y ?%elem_of_nil.
Qed.

Lemma msg_accounts_frame m m' p d h :
  msg_accounts (m, p, d, h) -> msg_frame m m' -> msg_accounts (m', p, d, h).
Proof.
  intros [] [Hq Hb Hh Hu Hm Hf Hc]. cbn [fst snd] in *.
  assert (forall a, core (get_queue m' a) = core (get_queue m a)) as Hg
    by (intros a; apply core_get, Hc).
  constructor; cbn [fst snd]; rewrite ?Hq, ?Hb, ?Hh, ?Hu, ?Hm, ?Hf; try done.
  - intros a Ha. apply ma_mem0 in Ha as [q Hq'].
    destruct (fmap_some_inv core _ _ _ (eq_sym (Hc a)) Hq') as (? & -> & _). by eexists.
  - intros a q Hq'. destruct (fmap_some_inv core _ _ _ (Hc a) Hq') as (q0 & Hq0 & E).
    destruct (ma_queues0 a q0 Hq0). split; [done | by eapply core_ok].
  - rewrite ma_bytes0. f_equal. apply zsum_ext. intros a _. symmetry. by apply core_bytes.
  - rewrite ma_hdrs0. f_equal. apply zsum_ext. intros a _. symmetry. by apply core_len.
  - intros y Hy. destruct (ma_holds0 y Hy) as [[Hs E] | [Hd E]].
    + left. unfold msg_slot. rewrite Hq. by rewrite (core_seq _ _ (Hg y.2)).
    + right. split; [done |]. intros q Hq'.
      destruct (fmap_some_inv core _ _ _ (Hc y.2) Hq') as (q0 & Hq0 & E'%core_seq).
      rewrite E'. by apply E.
Qed.

Section msg_accounts.
Context (m : msg_state) (p : list Z) (d : list nat) (h : list (Z * nat)).
Context (Hacc : msg_accounts (m, p, d, h)).

Lemma msg_accounts_hold msqid : msg_accounts (m, p, d, holds_of msqid m ++ h).
Proof using Hacc.
  destruct Hacc. cbn [fst snd] in *. constructor; cbn [fst snd]; try done.
  intros y [Hy | Hy]%elem_of_app; [| by apply ma_holds0].
  unfold holds_of, msg_lookup in Hy.
  destruct (msg_slot m (msqid mod MSGMNI)) as [| | a] eqn:E; try by apply elem_of_nil in Hy.
  destruct (_ =? _) eqn:E'; [| by apply elem_of_nil in Hy]. bool_simp.
  apply list_elem_of_singleton in Hy as ->. left. by split.
Qed.

(** The slots of the queues in the table stay where they are. *)
Lemma holds_slot m' id x :
  (forall j, msg_slot m' j = if decide (j = id) then x else msg_slot m j) ->
  (forall a, msg_slot m id <> Ptr a) ->
  (forall y, y ∈ h -> forall q, queues m' !! y.2 = Some q -> queues m !! y.2 = Some q) ->
  (forall y, y ∈ h -> msg_slot m (y.1 mod MSGMNI) = Ptr y.2 -> get_queue m' y.2 = get_queue m y.2) ->
  forall y, y ∈ h -> hold_ok m' d y.
Proof using Hacc.
  intros Hs Hno Hq Hg y Hy. destruct (ma_holds _ Hacc y Hy) as [[Hs' E] | [Hd E]]; cbn [fst snd] in *.
  - left. rewrite Hs, Hg by done. rewrite decide_False; [done |]. intros Heq. rewrite Heq in Hs'.
    by eapply Hno.
  - right. split; [done |]. intros q Hq'. apply E. by apply Hq.
Qed.

Lemma msg_accounts_reserve id m' :
  newque_begin m = inr (id, m') -> msg_accounts (m', id :: p, d, h).
Proof using Hacc.
  unfold newque_begin. destruct (list_find _ _) as [[i id'] |] eqn:E; [| done].
  intros [= <- <-]. apply list_find_Some in E as (Hi & Hun & _).
  apply list_elem_of_lookup_2, elem_of_seqZ in Hi.
  assert (0 <= id' < MSGMNI) as Hid by lia.
  set (m' := set_slot _ _ _).
  destruct (table_reserve _ _ _ _ _ _ _ (ma_table _ Hacc) id' Hid Hun) as [Hp Htab].
  cbn [fst snd] in *. change (zupd (msgque m) id' IPC_NOID) with (msgque m') in *.
  pose proof Hacc as []. cbn [fst snd] in *. constructor; cbn [fst snd]; rewrite ?Hp; try done.
  - intros a. rewrite Hp. apply ma_mem0.
  - by rewrite (zsum_perm _ _ _ Hp).
  - rewrite (zsum_perm _ (used_ptrs (msgque m') ++ d) (used_ptrs (msgque m) ++ d)) by (by rewrite Hp).
    done.
  - apply (holds_slot m' id' IPC_NOID); try done.
    + intros j. by eapply slot_at_zupd.
    + intros a. by rewrite Hun.
Qed.

Lemma msg_accounts_cancel id p' m' :
  p ≡ₚ id :: p' -> m' = set_slot id IPC_UNUSED m -> msg_accounts (m', p', d, h).
Proof using Hacc.
  intros Hp ->. set (m' := set_slot _ _ _).
  destruct (table_cancel _ _ _ _ _ _ _ (ma_table _ Hacc) id p' Hp) as [Hu Htab].
  cbn [fst snd] in *. change (zupd (msgque m) id IPC_UNUSED) with (msgque m') in *.
  pose proof Hacc as []. cbn [fst snd] in *.
  assert (slot_at (msgque m) id = IPC_NOID) as Hno
    by (apply (tb_noid _ _ _ _ _ _ _ ma_table0); rewrite Hp; set_solver).
  constructor; cbn [fst snd]; rewrite ?Hu; try done.
  - intros a. rewrite Hu. apply ma_mem0.
  - by rewrite (zsum_perm _ _ _ Hu).
  - rewrite (zsum_perm _ (used_ptrs (msgque m') ++ d) (used_ptrs (msgque m) ++ d)) by (by rewrite Hu).
    done.
  - apply (holds_slot m' id IPC_UNUSED); try done.
    + intros j. eapply slot_at_zupd; [exact ma_table0 |].
      by eapply (slot_at_range _ _ _ _ _ _ _ ma_table0 id).
    + intros a. unfold msg_slot. by rewrite Hno.
Qed.

Lemma newque_end_table k flg id now s m' :
  m' = (newque_end k flg id true now m s).1.2 ->
  msgque m' = zupd (msgque m) id (Ptr (fresh m)) /\ msgbytes m' = msgbytes m /\
  msghdrs m' = msghdrs m /\ used_queues m' = used_queues m + 1 /\ fresh m' = S (fresh m) /\
  max_msqid m' = Z.max (max_msqid m) id /\
  exists q, queues m' = <[fresh m := q]> (queues m) /\ msgs q = [] /\ msg_cbytes q = 0 /\ msg_qnum q = 0.
Proof using Type.
  intros ->. unfold newque_end. cbn. split_and!; try by case_match.
  - case_match; bool_simp; cbn; lia.
  - eexists. split; [by case_match |]. done.
Qed.

Lemma msg_accounts_install k flg id now s p' m' :
  p ≡ₚ id :: p' -> m' = (newque_end k flg id true now m s).1.2 -> msg_accounts (m', p', d, h).
Proof using Hacc.
  intros Hp Hm'. apply newque_end_table in Hm' as (Hq & Hb & Hh & Hus & Hf & Hmx & q & Hqs & Hq1 & Hq2 & Hq3).
  destruct (table_install _ _ _ _ _ _ _ (ma_table _ Hacc) id p' Hp) as (Hu & Hfresh & Htab).
  pose proof Hacc as []. cbn [fst snd] in *. rewrite <- Hq in Hu.
  assert (slot_at (msgque m) id = IPC_NOID) as Hno
    by (apply (tb_noid _ _ _ _ _ _ _ ma_table0); rewrite Hp; set_solver).
  assert (forall a, a <> fresh m -> get_queue m' a = get_queue m a) as Hg.
  { intros a Ha. unfold get_queue. by rewrite Hqs, lookup_insert_ne. }
  assert (get_queue m' (fresh m) = q) as Hgq by (unfold get_queue; by rewrite Hqs, lookup_insert_eq).
  assert (forall y, hold_ok m d y -> y.2 <> fresh m) as Hold.
  { intros y Hy Heq. unfold hold_ok in Hy. rewrite Heq in Hy. destruct Hy as [[Hs _] | [Hd _]].
    - by apply Hfresh, (elem_used_ptrs _ (y.1 mod MSGMNI)).
    - apply (tb_dead _ _ _ _ _ _ _ ma_table0) in Hd. lia. }
  constructor; cbn [fst snd]; rewrite ?Hb, ?Hh, ?Hus, ?Hf, ?Hmx; try done.
  - by rewrite Hq.
  - intros a. rewrite Hu. intros [-> | Ha]%elem_of_cons; rewrite Hqs.
    + rewrite lookup_insert_eq. by eexists.
    + rewrite lookup_insert_ne by (by intros <-). by apply ma_mem0.
  - intros a q'. rewrite Hqs. destruct (decide (a = fresh m)) as [-> | Hne].
    + rewrite lookup_insert_eq. intros [= <-]. split; [lia |].
      unfold queue_ok, queue_bytes. rewrite Hq1, Hq2, Hq3. split_and!; done.
    + rewrite lookup_insert_ne by done. intros Hq'. destruct (ma_queues0 a q' Hq'). split; [lia | done].
  - rewrite ma_bytes0. f_equal. rewrite (zsum_perm _ _ _ Hu).
    change (zsum ?f (?x :: ?l)) with (f x + zsum f l). cbv beta. rewrite Hgq.
    unfold queue_bytes at 2. rewrite Hq1. cbn [zsum foldr]. rewrite Z.add_0_l.
    apply zsum_ext. intros a Ha. rewrite Hg; [done | by intros ->].
  - rewrite ma_hdrs0. f_equal.
    rewrite (zsum_perm _ (used_ptrs (msgque m') ++ d) (fresh m :: used_ptrs (msgque m) ++ d)) by (by rewrite Hu).
    change (zsum ?f (?x :: ?l)) with (f x + zsum f l). unfold queue_len at 2. rewrite Hgq, Hq1.
    cbn [length]. rewrite Z.add_0_l. apply zsum_ext. intros a Ha. unfold queue_len. rewrite Hg; [done |].
    intros ->. apply elem_of_app in Ha as [Ha | Ha]; [done |].
    apply (tb_dead _ _ _ _ _ _ _ ma_table0) in Ha. lia.
  - apply (holds_slot m' id (Ptr (fresh m))).
    + intros j. unfold msg_slot. rewrite Hq. eapply slot_at_zupd; [exact ma_table0 |].
      by eapply (slot_at_range _ _ _ _ _ _ _ ma_table0 id).
    + intros a. unfold msg_slot. by rewrite Hno.
    + intros y Hin q'. rewrite Hqs, lookup_insert_ne; [done |]. apply not_eq_sym. by apply Hold, ma_holds0.
    + intros y Hin _. apply Hg, Hold, ma_holds0, Hin.
Qed.

Lemma freeque_begin_table id a q :
  queues m !! a = Some q ->
  let m' := freeque_begin id a m in
  let q' := q <| msg_perm ::= fun p => p <| seq ::= fun x => u16 (x + 1) |> |> in
  msgque m' = zupd (msgque m) id IPC_UNUSED /\ used_queues m' = used_queues m - 1 /\
  fresh m' = fresh m /\ msghdrs m' = msghdrs m /\ msgbytes m' = s32 (msgbytes m - msg_cbytes q) /\
  queues m' = <[a := q']> (queues m) /\
  max_msqid m' = if id =? max_msqid m then lower_max (Z.to_nat (max_msqid m)) (msgque m) else max_msqid m.
Proof using Type.
  intros Hq m' q'. subst m'. unfold freeque_begin. cbn -[get_queue lower_max].
  pose proof (queues_upd_some a (fun x => x <| msg_perm ::= fun p => p <| seq ::= fun x => u16 (x + 1) |> |>)
    m q Hq) as E.
  cbn in E.
  split_and!; try (case_match; cbn -[get_queue lower_max]; done).
  - case_match; cbn -[get_queue]; unfold get_queue; cbn; by rewrite E, lookup_insert_eq.
Qed.

(** The messages of one queue of the table change. *)
Lemma msg_accounts_change a q q' m' :
  a ∈ used_ptrs (msgque m) -> queues m !! a = Some q -> queues m' = <[a := q']> (queues m) ->
  queue_ok q' -> seq (msg_perm q') = seq (msg_perm q) ->
  msgque m' = msgque m -> used_queues m' = used_queues m -> fresh m' = fresh m ->
  max_msqid m' = max_msqid m ->
  msgbytes m' = s32 (msgbytes m + (queue_bytes q' - queue_bytes q)) ->
  msghdrs m' = s32 (msghdrs m + (Z.of_nat (length (msgs q')) - Z.of_nat (length (msgs q)))) ->
  msg_accounts (m', p, d, h).
Proof using Hacc.
  intros Ha Hq Hqs Hok Hseq Hque Hus Hf Hmx Hb Hh. pose proof Hacc as []. cbn [fst snd] in *.
  assert (forall b, b <> a -> get_queue m' b = get_queue m b) as Hne.
  { intros b Hb'. unfold get_queue. by rewrite Hqs, lookup_insert_ne. }
  assert (get_queue m' a = q') as Heq by (apply get_queue_some; by rewrite Hqs, lookup_insert_eq).
  pose proof (get_queue_some m a q Hq) as Heq0.
  assert (NoDup (used_ptrs (msgque m) ++ d)) as Hnd.
  { apply NoDup_app. split_and!; [apply ma_table0 | | done]. intros x Hx. by destruct (tb_live _ _ _ _ _ _ _ ma_table0 x Hx). }
  constructor; cbn [fst snd]; rewrite ?Hque, ?Hus, ?Hf, ?Hmx; try done.
  - intros b Hb'. rewrite Hqs. destruct (decide (a = b)) as [<- |].
    + rewrite lookup_insert_eq. by eexists.
    + rewrite lookup_insert_ne by done. by apply ma_mem0.
  - intros b qb. rewrite Hqs. destruct (decide (a = b)) as [<- |].
    + rewrite lookup_insert_eq. intros [= <-]. split; [by apply (ma_queues0 a q) | done].
    + rewrite lookup_insert_ne by done. apply ma_queues0.
  - rewrite Hb, ma_bytes0, s32_add_l. f_equal.
    rewrite (zsum_change (fun b => queue_bytes (get_queue m b)) (fun b => queue_bytes (get_queue m' b)) _ a);
      [| apply ma_table0 | done | intros b _ Hb'; by rewrite Hne].
    cbv beta. rewrite Heq, Heq0. lia.
  - rewrite Hh, ma_hdrs0, s32_add_l. f_equal.
    rewrite (zsum_change (queue_len m) (queue_len m') _ a);
      [| done | set_solver | intros b _ Hb'; unfold queue_len; by rewrite Hne].
    unfold queue_len at 3 4. rewrite Heq, Heq0. lia.
  - intros y Hy. destruct (ma_holds0 y Hy) as [[Hs E] | [Hd E]].
    + left. unfold msg_slot. rewrite Hque. split; [done |].
      destruct (decide (y.2 = a)) as [Hya | Hya]; [| by rewrite Hne].
      rewrite Hya in E |- *. rewrite Heq, Hseq. by rewrite Heq0 in E.
    + right. split; [done |]. intros q0. rewrite Hqs, lookup_insert_ne; [apply E |].
      intros Hya. rewrite Hya in Ha. by apply (tb_live _ _ _ _ _ _ _ ma_table0) in Ha as [_ ?].
Qed.

Lemma msg_accounts_remove id a :
  msg_slot m id = Ptr a -> msg_accounts (freeque_begin id a m, p, a :: d, h).
Proof using Hacc.
  intros Ha. pose proof Hacc as []. cbn [fst snd] in *.
  assert (a ∈ used_ptrs (msgque m)) as Hua by by eapply elem_used_ptrs.
  destruct (ma_mem0 a Hua) as [q Hq].
  destruct (freeque_begin_table id a q Hq) as (Hque & Hus & Hf & Hh & Hb & Hqs & Hmx).
  destruct (table_remove _ _ _ _ _ _ _ ma_table0 id a Ha) as [Hu Htab].
  set (m' := freeque_begin id a m) in *. clearbody m'. rewrite <- Hque in Hu.
  destruct (ma_queues0 a q Hq) as [Hlt Hok].
  assert (forall b, b <> a -> get_queue m' b = get_queue m b) as Hne.
  { intros b Hb'. unfold get_queue. by rewrite Hqs, lookup_insert_ne. }
  assert (forall b, msgs (get_queue m' b) = msgs (get_queue m b)) as Hmsgs.
  { intros b. unfold get_queue. rewrite Hqs. destruct (decide (a = b)) as [<- |].
    - by rewrite lookup_insert_eq, Hq.
    - by rewrite lookup_insert_ne. }
  assert (a ∉ d) as Had by by destruct (tb_live _ _ _ _ _ _ _ ma_table0 a Hua).
  assert (a ∉ used_ptrs (msgque m')) as Hau.
  { pose proof (tb_nodup _ _ _ _ _ _ _ ma_table0) as Hnd. rewrite Hu in Hnd. by apply NoDup_cons in Hnd as [? _]. }
  constructor; cbn [fst snd].
  - by rewrite Hque, Hus, Hf, Hmx.
  - by constructor.
  - intros b Hb'. rewrite Hqs, lookup_insert_ne by (by intros <-). apply ma_mem0. rewrite Hu. set_solver.
  - intros b qb. rewrite Hqs, Hf. destruct (decide (a = b)) as [<- |].
    + rewrite lookup_insert_eq. by intros [= <-].
    + rewrite lookup_insert_ne by done. apply ma_queues0.
  - rewrite Hb, ma_bytes0, s32_sub_l. f_equal. rewrite (zsum_perm _ _ _ Hu).
    change (zsum ?f (?x :: ?l)) with (f x + zsum f l). cbv beta.
    rewrite (get_queue_some m a q Hq). destruct Hok as [-> _].
    rewrite (zsum_ext (fun b => queue_bytes (get_queue m' b)) (fun b => queue_bytes (get_queue m b))); [lia |].
    intros b _. unfold queue_bytes. by rewrite Hmsgs.
  - rewrite Hh, ma_hdrs0. f_equal.
    rewrite (zsum_perm _ (used_ptrs (msgque m) ++ d) (used_ptrs (msgque m') ++ a :: d)).
    + apply zsum_ext. intros b _. unfold queue_len. by rewrite Hmsgs.
    + rewrite Hu. cbn. apply Permutation_middle.
  - intros y Hy. destruct (ma_holds0 y Hy) as [[Hs E] | [Hd E]].
    + destruct (decide (y.2 = a)) as [Hya | Hya].
      * right. split; [rewrite Hya; set_solver |]. rewrite Hya, Hqs, lookup_insert_eq. intros q' [= <-].
        cbn. rewrite Hya, (get_queue_some m a q Hq) in E. rewrite <- E.
        pose proof (u16_bounds (seq (msg_perm q) + 1)). intros Heq.
        pose proof (Z.div_mod (seq (msg_perm q) + 1) 65536 ltac:(lia)) as Hdm.
        change (u16 (seq (msg_perm q) + 1)) with ((seq (msg_perm q) + 1) mod 65536) in Heq. lia.
      * left. rewrite Hne by done. split; [| done]. unfold msg_slot. rewrite Hque.
        rewrite (slot_at_zupd _ _ _ _ _ _ _ ma_table0).
        -- rewrite decide_False; [done |]. intros Heq. rewrite Heq in Hs. congruence.
        -- by eapply (slot_at_range _ _ _ _ _ _ _ ma_table0 id).
    + right. split; [set_solver |]. intros q0.
      rewrite Hqs, lookup_insert_ne; [apply E |]. intros Hya. by rewrite <- Hya in Hd.
Qed.

Lemma msg_accounts_free a s m' :
  a ∈ d -> freeque_wait a m s = inr m' -> msg_accounts (m', p, d, h).
Proof using Hacc.
  intros Ha Hm. pose proof Hacc as []. cbn [fst snd] in *.
  assert (m' = m <| msghdrs := s32 (msghdrs m - queue_len m a) |> <| blocks := blocks m - queue_len m a |>
                 <| queues := delete a (queues m) |>) as ->.
  { unfold freeque_wait in Hm. destruct (rwait _), (wwait _); try done. by injection Hm as <-. }
  set (m' := upd _ _ _).
  assert (forall b, b <> a -> get_queue m' b = get_queue m b) as Hne.
  { intros b Hb'. unfold get_queue. cbn. by rewrite lookup_delete_ne. }
  assert (forall b, b ∈ used_ptrs (msgque m) -> b <> a) as Hua.
  { intros b Hb ->. by apply (tb_live _ _ _ _ _ _ _ ma_table0) in Hb as [_ ?]. }
  constructor; cbn [fst snd]; try done.
  - intros b Hb. cbn. rewrite lookup_delete_ne by (apply not_eq_sym; auto). by apply ma_mem0.
  - intros b q. cbn. intros [_ Hq]%lookup_delete_Some. by apply ma_queues0.
  - cbn. rewrite ma_bytes0. f_equal. apply zsum_ext. intros b Hb. by rewrite Hne by auto.
  - change (msghdrs m') with (s32 (msghdrs m - queue_len m a)). change (msgque m') with (msgque m).
    rewrite ma_hdrs0, s32_sub_l. f_equal.
    rewrite (zsum_change (queue_len m) (queue_len m') _ a).
    + assert (queue_len m' a = 0) as ->; [| lia].
      unfold queue_len, get_queue. cbn. by rewrite lookup_delete_eq.
    + apply NoDup_app. split_and!; [apply ma_table0 | | done].
      intros x Hx. by destruct (tb_live _ _ _ _ _ _ _ ma_table0 x Hx).
    + set_solver.
    + intros b _ Hb. unfold queue_len. by rewrite Hne.
  - intros y Hy. destruct (ma_holds0 y Hy) as [[Hs E] | [Hd E]].
    + left. split; [exact Hs |]. rewrite Hne; [done |]. apply Hua. by eapply elem_used_ptrs.
    + right. split; [done |]. intros q. cbn. intros [_ Hq]%lookup_delete_Some. by apply E.
Qed.

Lemma msg_accounts_deliver msqid a mtype text mem now s :
  (msqid, a) ∈ h -> Z.of_nat (length text) <= MSGMAX ->
  let m' := snd_state m (msgsnd_deliver msqid a mtype text mem now m s) in
  roomy m' -> msg_accounts (m', p, d, h).
Proof using Hacc.
  intros Hin Hlen. unfold msgsnd_deliver. destruct mem; [| done]. cbn [negb].
  destruct (msg_slot m (msqid mod MSGMNI)) eqn:Hs; try done.
  destruct (queues m !! a) as [q |] eqn:Hq; [| done].
  destruct (seq (msg_perm q) =? msqid / MSGMNI) eqn:Hseq; [| done]. bool_simp. cbv zeta. cbn [negb snd_state].
  set (sz := Z.of_nat (length text)). set (q' := upd msg_stime _ _). set (m' := upd blocks _ _).
  intros Hroom.
  assert (queues m' = <[a := q']> (queues m)) as Hqs by done.
  destruct (Hroom a q') as [Hb Hl]; [by rewrite Hqs, lookup_insert_eq |].
  destruct (ma_queues _ Hacc a q Hq) as [_ (Hok1 & Hok2 & Hok3)].
  assert (queue_bytes q' = queue_bytes q + sz) as Eb.
  { unfold queue_bytes. change (msgs q') with (msgs q ++ [mk_msg mtype text sz]).
    rewrite zsum_app. change (zsum msg_ts [mk_msg mtype text sz]) with (sz + 0). lia. }
  assert (Z.of_nat (length (msgs q')) = Z.of_nat (length (msgs q)) + 1) as El.
  { change (msgs q') with (msgs q ++ [mk_msg mtype text sz]). rewrite length_app. cbn [length]. lia. }
  assert (0 <= queue_bytes q).
  { apply zsum_nonneg. intros x Hx. rewrite Forall_forall in Hok3. by apply Hok3. }
  apply (msg_accounts_change a q q'); try done.
  - destruct (ma_holds _ Hacc _ Hin) as [[Hs' _] | [_ E]]; cbn [fst snd] in *.
    + by eapply elem_used_ptrs.
    + by destruct (E q Hq).
  - unfold queue_ok. rewrite Eb, El. unfold q'. cbn. rewrite Hok1, Hok2. fold sz. split_and!.
    + apply u16_small. lia.
    + apply u16_small. lia.
    + apply Forall_app. split; [done |]. constructor; [cbn; lia | done].
  - rewrite Eb. cbn. fold sz. f_equal. lia.
  - rewrite El. cbn. f_equal. lia.
Qed.

Lemma msgrcv_take_spec a i x sz flg now s q :
  queues m !! a = Some q -> queue_ok q -> msgs q !! i = Some x ->
  Z.of_nat (length (msgs q)) < 65536 -> queue_bytes q < 65536 ->
  let m' := rcv_state m (msgrcv_take a i x sz flg now m s) in
  m' = m \/
  exists q', queues m' = <[a := q']> (queues m) /\ msgs q' = delete i (msgs q) /\ queue_ok q' /\
    seq (msg_perm q') = seq (msg_perm q) /\
    msgque m' = msgque m /\ used_queues m' = used_queues m /\ fresh m' = fresh m /\
    max_msqid m' = max_msqid m /\ queue_bytes q' = queue_bytes q - msg_ts x /\
    msgbytes m' = s32 (msgbytes m - msg_ts x) /\ msghdrs m' = s32 (msghdrs m - 1).
Proof using Type.
  intros Hq (Hok1 & Hok2 & Hok3) Hi Hl Hb m'. subst m'. unfold msgrcv_take.
  destruct (_ && _); [by left |]. right. cbv zeta. cbn [rcv_state].
  rewrite (get_queue_some m a q Hq).
  pose proof (delete_Permutation _ _ _ Hi) as Hp.
  pose proof (Permutation_length Hp) as Hlen. cbn in Hlen.
  assert (u16 (msg_qnum q - 1) = Z.of_nat (length (delete i (msgs q)))) as En.
  { rewrite Hok2, Hlen. rewrite u16_small by lia. lia. }
  rewrite En.
  assert ((if Z.of_nat (length (delete i (msgs q))) =? 0 then [] else delete i (msgs q)) = delete i (msgs q))
    as Ed.
  { destruct (_ =? 0) eqn:E0; [| done]. bool_simp. symmetry. apply nil_length_inv. lia. }
  assert (queue_bytes q = msg_ts x + zsum msg_ts (delete i (msgs q))) as Eb.
  { unfold queue_bytes. by rewrite (zsum_perm _ _ _ Hp). }
  assert (Forall (fun x => 0 <= msg_ts x <= MSGMAX /\ msg_ts x = Z.of_nat (length (msg_spot x)))
            (delete i (msgs q))) as Hok by (rewrite Hp in Hok3; by apply Forall_cons in Hok3 as [_ ?]).
  assert (0 <= msg_ts x) by (rewrite Hp in Hok3; apply Forall_cons in Hok3 as [? _]; lia).
  assert (0 <= zsum msg_ts (delete i (msgs q))).
  { apply zsum_nonneg. intros y Hy. rewrite Forall_forall in Hok. by apply Hok. }
  match goal with |- context [upd_queue a ?f m] => set (q' := f q);
    pose proof (queues_upd_some a f m q Hq) as Hqs end.
  assert (msgs q' = delete i (msgs q)) as Em by (unfold q'; cbn; exact Ed).
  exists q'. split; [exact Hqs |]. unfold queue_ok, queue_bytes in *. rewrite Em.
  split_and!; try done.
  - change (msg_cbytes q') with (u16 (msg_cbytes q - msg_ts x)). rewrite Hok1, u16_small by lia. lia.
  - lia.
Qed.

Lemma msg_accounts_round msqid a sz typ flg now s :
  (forall q, queues m !! a = Some q -> seq (msg_perm q) = msqid / MSGMNI -> a ∈ used_ptrs (msgque m)) ->
  roomy m -> msg_accounts (rcv_state m (msgrcv_round msqid a sz typ flg now m s), p, d, h).
Proof using Hacc.
  intros Hlive Hroom. unfold msgrcv_round.
  destruct (seq _ =? msqid / MSGMNI) eqn:Hseq; [| done]. bool_simp. cbn [negb].
  destruct (negb (ipcperms _ _ _)); [done |].
  destruct (find_msg _ _ _) as [i |] eqn:Hf; cbn [mbind option_bind]; [destruct (msgs _ !! i) as [x |] eqn:Hx |].
  - cbn. destruct (queues m !! a) as [q |] eqn:Hq.
    + rewrite (get_queue_some m a q Hq) in *.
      destruct (Hroom a q Hq) as [Hb Hl]. destruct (ma_queues _ Hacc a q Hq) as [_ Hok].
      destruct (msgrcv_take_spec a i x sz flg now s q Hq Hok Hx Hl Hb)
        as [-> | (q' & Hqs & Hms & Hok' & Hseq' & H1 & H2 & H3 & H4 & H5 & H6 & H7)]; [done |].
      pose proof (Permutation_length (delete_Permutation _ _ _ Hx)) as Hlen. cbn in Hlen.
      apply (msg_accounts_change a q q'); try done.
      * by apply (Hlive q).
      * rewrite H6, H5. f_equal. lia.
      * rewrite H7, Hms, Hlen. f_equal. lia.
    + unfold get_queue in Hx. rewrite Hq in Hx. done.
  - cbn. repeat case_match; cbn -[upd_queue]; try done. eapply msg_accounts_frame; [done |]. by apply msg_frame_upd.
  - cbn. repeat case_match; cbn -[upd_queue]; try done. eapply msg_accounts_frame; [done |]. by apply msg_frame_upd.
Qed.
End msg_accounts.

Lemma msg_accounts_wakes m p d h msqid a sz typ flg now s :
  msg_accounts (m, p, d, h) -> (msqid, a) ∈ h -> roomy m ->
  msg_accounts (rcv_state m (msgrcv_wakes msqid a sz typ flg now m s), p, d, h).
Proof.
  intros Hacc Hin Hroom. unfold msgrcv_wakes. set (m1 := upd_queue _ _ _).
  assert (msg_frame m m1) as Hf by (by apply msg_frame_upd).
  assert (msg_accounts (m1, p, d, h)) as Hacc1 by (by eapply msg_accounts_frame).
  assert (msg_accounts (rcv_state m1 (msgrcv_round msqid a sz typ flg now m1 s), p, d, h)) as H.
  - apply msg_accounts_round; [done | |].
    + intros q Hq Hseq. destruct (ma_holds _ Hacc1 _ Hin) as [[Hs _] | [_ E]]; cbn [fst snd] in *.
      * by eapply elem_used_ptrs.
      * by destruct (E q Hq).
    + intros b q Hq. destruct (fmap_some_inv core _ _ _ (mf_core _ _ Hf b) Hq) as (q0 & Hq0 & Hc).
      unfold queue_bytes. assert (msgs q = msgs q0) as -> by (unfold core in Hc; congruence).
      by apply (Hroom b).
  - by destruct (msgrcv_round msqid a sz typ flg now m1 s).
Qed.

Lemma msg_step_accounts x y :
  msg_step x y -> roomy x.1.1.1 -> roomy y.1.1.1 -> msg_accounts x -> msg_accounts y.
Proof.
  intros H Hrx Hry Hx; destruct H; cbn [fst snd] in *.
  - unfold sys_msgget, msgget_new in H. destruct (k =? IPC_PRIVATE).
    + destruct (newque_begin m) as [| [? ?]] eqn:E; [done |]. injection H as <- <-.
      by eapply msg_accounts_reserve.
    + apply msgget_find_allocates in H. by eapply msg_accounts_reserve.
  - apply msgget_find_allocates in H. by eapply msg_accounts_reserve.
  - assert (p1 ++ id :: p2 ≡ₚ id :: p1 ++ p2) as Hp by (symmetry; apply Permutation_middle).
    destruct mem.
    + by eapply (msg_accounts_install m _ d h Hx).
    + by eapply (msg_accounts_cancel m _ d h Hx).
  - apply sys_msgctl_removes in H as [Ha ->]. by eapply msg_accounts_remove.
  - by eapply msg_accounts_free.
  - eapply msg_accounts_frame; [exact Hx | by eapply sys_msgctl_frame].
  - eapply msg_accounts_frame; [by apply msg_accounts_hold | apply sys_msgsnd_frame].
  - eapply msg_accounts_frame; [exact Hx | apply msgsnd_wakes_frame].
  - by apply msg_accounts_deliver.
  - unfold sys_msgrcv. pose proof (msg_accounts_hold m p d h Hx msqid) as Hx'.
    destruct (_ || _); [done |]. destruct msgp; [| done]. cbn [negb].
    destruct (ctrue va); [done |]. destruct (msg_slot m (msqid mod MSGMNI)) eqn:E; try done.
    apply msg_accounts_round; [done | | done]. intros q Hq Hseq. by eapply elem_used_ptrs.
  - by apply msg_accounts_wakes.
Qed.

(** C34: in every interleaving of [msgget], [msgsnd], [msgrcv] and [msgctl] in
    which no queue outgrows its 16-bit counters, the accounts of ipc/msg.c are
    right: each queue counts exactly its messages and their bytes, [msgbytes]
    and [msghdrs] are the sums over the queues, [used_queues] is the number of
    queues, none is above [max_msqid], and a call that still holds a removed
    queue can tell. *)
Theorem msg_accounts_invariant x :
  rtc (fun x y => msg_step x y /\ roomy x.1.1.1 /\ roomy y.1.1.1)
    (msg_init (mk_msg_state [] 0 0 0 0 0 [] ∅ 0 0), [], [], []) x -> msg_accounts x.
Proof.
  intros H. remember (msg_init _, [], [], []) as y eqn:Hy.
  assert (msg_accounts y) as Hacc by (subst; apply msg_accounts_init). clear Hy.
  induction H as [| x y z (Hs & Hr & Hr')]; [done |]. eauto using msg_step_accounts.
Qed.

(** ** Which message is received *)

(** [msgtyp] 0 asks for any message, a positive one for its type (or any
    other type), a negative one for the least type up to its absolute value. *)
Definition wanted (msgtyp msgflg : Z) (l : list msg) (x : msg) : Prop :=
  if msgtyp =? 0 then True
  else if 0 <? msgtyp then
    if flag msgflg MSG_EXCEPT then msg_type x <> msgtyp else msg_type x = msgtyp
  else msg_type x <= - msgtyp /\ forall y, y ∈ l -> msg_type x <= msg_type y.

(** [x] at place [i] is the first wanted message. *)
Definition first_wanted (msgtyp msgflg : Z) (l : list msg) (i : nat) (x : msg) : Prop :=
  l !! i = Some x /\ wanted msgtyp msgflg l x /\
  forall j y, (j < i)%nat -> l !! j = Some y -> ~ wanted msgtyp msgflg l y.

Lemma find_least_spec l pre b :
  (exists x, pre !! b.1 = Some x /\ msg_type x = b.2) ->
  (forall j y, pre !! j = Some y -> b.2 <= msg_type y) ->
  (forall j y, (j < b.1)%nat -> pre !! j = Some y -> b.2 < msg_type y) ->
  let r := find_least (length pre) b l in
  (exists x, (pre ++ l) !! r.1 = Some x /\ msg_type x = r.2) /\
  (forall j y, (pre ++ l) !! j = Some y -> r.2 <= msg_type y) /\
  (forall j y, (j < r.1)%nat -> (pre ++ l) !! j = Some y -> r.2 < msg_type y).
Proof.
  revert pre b. induction l as [| x l IH]; intros pre b H1 H2 H3 r; subst r.
  { cbn. rewrite app_nil_r. done. }
  cbn [find_least]. set (b' := if _ <? _ then _ else _).
  specialize (IH (pre ++ [x]) b'). rewrite length_app in IH. cbn [length] in IH.
  rewrite Nat.add_1_r, <- app_assoc in IH. apply IH; clear IH; subst b'.
  - destruct (msg_type x <? b.2) eqn:?.
    + exists x. cbn. by rewrite lookup_app_r, Nat.sub_diag by lia.
    + destruct H1 as (y & Hy & Ht). exists y. split; [| done].
      rewrite lookup_app_l; [done | by eapply lookup_lt_Some].
  - intros j y [Hj | [_ Hj]]%lookup_app_Some.
    + specialize (H2 j y Hj). destruct (_ <? _) eqn:?; cbn; lia.
    + apply list_lookup_singleton_Some in Hj as [_ <-]. destruct (_ <? _) eqn:?; cbn; lia.
  - intros j y Hj Hl. destruct (msg_type x <? b.2) eqn:?; cbn in *.
    + rewrite lookup_app_l in Hl by done. specialize (H2 j y Hl). lia.
    + destruct H1 as (z & Hz & _). apply lookup_lt_Some in Hz.
      rewrite lookup_app_l in Hl by lia. by apply (H3 j).
Qed.

Lemma list_find_first (P : msg -> Prop) `{!forall x, Decision (P x)} l :
  match fst <$> list_find P l with
  | Some i => exists x, l !! i = Some x /\ P x /\ forall j y, (j < i)%nat -> l !! j = Some y -> ~ P y
  | None => forall x, x ∈ l -> ~ P x
  end.
Proof.
  destruct (list_find P l) as [[i x] |] eqn:E; cbn.
  - apply list_find_Some in E as (H1 & H2 & H3). exists x. split_and!; [done | done |].
    intros j y Hj Hy. by eapply H3.
  - apply list_find_None in E. rewrite Forall_forall in E. done.
Qed.

Lemma find_msg_spec msgtyp msgflg l :
  - 2 ^ 31 < msgtyp < 2 ^ 31 ->
  match find_msg msgtyp msgflg l with
  | Some i => exists x, first_wanted msgtyp msgflg l i x
  | None => forall x, x ∈ l -> ~ wanted msgtyp msgflg l x
  end.
Proof.
  intros Hr. unfold find_msg, first_wanted, wanted.
  destruct (msgtyp =? 0) eqn:E0.
  { destruct l as [| x l]; [by intros x ?%elem_of_nil |]. exists x. split_and!; try done. intros j y Hj. lia. }
  destruct (0 <? msgtyp) eqn:E1.
  { destruct (flag msgflg MSG_EXCEPT).
    - by apply list_find_first.
    - by apply list_find_first. }
  bool_simp. destruct l as [| x l]; [by intros x ?%elem_of_nil |].
  pose proof (find_least_spec l [x] (0%nat, msg_type x)) as H.
  cbn [length] in H. assert (find_least 0 (0%nat, msg_type x) (x :: l) = find_least 1 (0%nat, msg_type x) l) as E.
  { cbn. by destruct (msg_type x <? msg_type x). }
  rewrite E. clear E. destruct (find_least 1 (0%nat, msg_type x) l) as [i v]. cbn [fst snd app] in H.
  destruct H as ((y & Hy & Ht) & H2 & H3).
  - by exists x.
  - intros j y [_ <-]%list_lookup_singleton_Some. lia.
  - intros j y Hj. lia.
  - rewrite s32_small by lia. destruct (v <=? - msgtyp) eqn:E; bool_simp.
    + exists y. split_and!; [done | lia | |].
      * intros z [j Hj]%list_elem_of_lookup. specialize (H2 j z Hj). lia.
      * intros j z Hj Hz [_ Hle]. specialize (H3 j z Hj Hz).
        specialize (Hle y ltac:(by eapply list_elem_of_lookup_2)). lia.
    + intros z [j Hj]%list_elem_of_lookup [Hz _]. specialize (H2 j z Hj). lia.
Qed.


(** ** Concrete runs *)

(** An empty table; a queue being allocated, allocated, and with two messages. *)
Definition demo_msg0 : msg_state := msg_init (mk_msg_state [] 0 0 0 0 0 [] ∅ 0 0).
Definition demo_msg1 : msg_state :=
  match sys_msgget IPC_PRIVATE 0x180 demo_msg0 demo_user with GetAllocates _ m => m | _ => demo_msg0 end.
Definition demo_msg2 : msg_state := (newque_end IPC_PRIVATE 0x180 0 true 7 demo_msg1 demo_user).1.2.
Definition demo_send (ty : Z) (text : list Z) (m : msg_state) : msg_state :=
  snd_state m (msgsnd_deliver 0 0 ty text true 8 m demo_user).
Definition demo_msg3 : msg_state := demo_send 2 [30; 31] (demo_send 5 [10; 11; 12] demo_msg2).

Lemma msg_accounts_invariant_witness :
  msgbytes demo_msg3 = 5 /\ msghdrs demo_msg3 = 2 /\ msg_accounts (demo_msg3, [], [], [(0, 0%nat)]).
Proof.
  split; [by vm_compute |]. split; [by vm_compute |].
  assert (roomy demo_msg0 /\ roomy demo_msg1 /\ roomy demo_msg2 /\
          roomy (demo_send 5 [10; 11; 12] demo_msg2) /\ roomy demo_msg3) as (R0 & R1 & R2 & R3 & R4).
  { split_and!; match goal with |- ?P => refine (bool_decide_eq_true_1 P _); by vm_compute end. }
  apply msg_accounts_invariant.
  eapply (rtc_l _ _ (demo_msg1, [0], [], [])).
  { split; [| by split]. apply (StepGet IPC_PRIVATE 0x180 demo_msg0 demo_user). by vm_compute. }
  eapply (rtc_l _ _ (demo_msg2, [], [], [])).
  { split; [| by split]. apply (StepAllocated IPC_PRIVATE 0x180 0 true 7 demo_msg1 demo_user [] []). }
  eapply (rtc_l _ _ (demo_msg2, [], [], [(0, 0%nat)])).
  { split; [| by split]. pose proof (StepSnd 0 (Some 5) 0 3 0 demo_msg2 demo_user [] [] []) as H.
    assert (snd_state demo_msg2 (sys_msgsnd 0 (Some 5) 0 3 0 demo_msg2 demo_user) = demo_msg2) as E
      by (by vm_compute).
    assert (holds_of 0 demo_msg2 = [(0, 0%nat)]) as E' by (by vm_compute).
    rewrite E, E' in H. exact H. }
  eapply (rtc_l _ _ (demo_send 5 [10; 11; 12] demo_msg2, [], [], [(0, 0%nat)])).
  { split; [| by split]. apply (StepDeliver 0 0 5 [10; 11; 12] true 8 demo_msg2 demo_user); [set_solver | done]. }
  apply rtc_once. split; [| by split].
  apply (StepDeliver 0 0 2 [30; 31] true 8 _ demo_user); [set_solver | done].
Defined.


(** A message that is received in part is never freed: [kfree_s] is given the
    size that was copied and refuses. *)
Example msgrcv_truncation_leaks :
  match msgrcv_round 0 0 1 5 MSG_NOERROR 9 demo_msg3 demo_user with
  | RcvReturns r _ m' _ =>
      r = 1 /\ length (msgs (get_queue m' 0)) = 1%nat /\ blocks m' = blocks demo_msg3
  | _ => False
  end.
Proof. by vm_compute. Qed.

(** Two senders that both found room and slept in [kmalloc] overfill the
    queue: nothing is checked again. *)
Example msgsnd_overfills :
  let text := replicate 4000 0 in
  let m := demo_send 1 text (demo_send 1 text (demo_send 1 text demo_msg2)) in
  match msgsnd_slept 0 0 4000 0 m demo_user with
  | SndAllocates =>
      let m := demo_send 1 text (demo_send 1 text m) in
      MSGMNB < msg_cbytes (get_queue m 0)
  | _ => False
  end.
Proof. by vm_compute. Qed.

(** Messages of size 0 are limited by nothing; with 65537 of them the counter
    is 1, and receiving one message empties the queue. *)
Example msgrcv_loses_messages x q :
  msg_ts x = 0 -> msg_spot x = [] -> msg_qnum q = u16 65537 -> msgs q = replicate (Z.to_nat 65537) x ->
  forall m s, queues m !! 0%nat = Some q ->
  match msgrcv_take 0 0 x 0 0 9 m s with
  | RcvReturns r _ m' _ => r = 0 /\ msgs (get_queue m' 0) = []
  | _ => False
  end.
Proof.
  intros Hts Hsp Hn Hm m s Hq. unfold msgrcv_take. rewrite Hts. cbn [Z.ltb Z.compare andb].
  split; [done |]. rewrite (get_queue_some m 0 q Hq), Hn.
  unfold get_queue. cbn. by rewrite lookup_alter_eq, Hq.
Qed.

(** A sender that slept in [kmalloc] while its queue was removed and freed, and
    the entry was taken by another queue, reads the freed header. *)
Example msgsnd_reads_freed :
  let removed := freeque_begin 0 0 demo_msg2 in
  match freeque_wait 0 removed demo_user with
  | inr freed =>
      match sys_msgget IPC_PRIVATE 0x180 freed demo_user with
      | GetAllocates id m =>
          let m := (newque_end IPC_PRIVATE 0x180 id true 9 m demo_user).1.2 in
          msgsnd_deliver 0 0 5 [1] true 10 m demo_user = SndFaults
      | _ => False
      end
  | _ => False
  end.
Proof. by vm_compute. Qed.
