(* ===== verification/Locks.v ===== *)
(** Advisory record locks (fs/locks.c): [fcntl] F_GETLK, F_SETLK, F_SETLKW.

    The locks of a file are the list along [fl_next] from [i_flock]; a lock is
    named by its place in [file_lock_table], and the queue of the processes
    that wait for it stays with that place.  The pointers of [lock_it] are
    positions in the list: [pre] are the locks before [*before], [rest] the
    locks from [*before] on. *)

From Stdlib Require Import Sorted.
From S2P Require Import Prelude Errno Task Signal Sched.

(** fs/locks.c:23-23 [OFFSET_MAX] *)
Definition OFFSET_MAX := 0x7fffffff.
(** include/linux/fs.h:33-33 [NR_FILE_LOCKS] *)
Definition NR_FILE_LOCKS := 64.
(** include/linux/fs.h:26-26 [NR_OPEN] *)
Definition NR_OPEN := 256.

(** include/linux/fcntl.h:23-40 commands and lock types *)
Definition F_GETLK := 5.
Definition F_SETLK := 6.
Definition F_SETLKW := 7.
Definition F_RDLCK := 0.
Definition F_WRLCK := 1.
Definition F_UNLCK := 2.
Definition F_EXLCK := 4.
Definition F_SHLCK := 8.

(** include/linux/fcntl.h:42-48 [struct flock] *)
Record flock := mk_flock { l_type : Z; l_whence : Z; l_start : Z; l_len : Z; l_pid : Z }.

(** include/linux/fs.h:234-243 [struct file_lock]; [fl_id] is its place in the
    table *)
Record file_lock := mk_file_lock {
  fl_id : nat; fl_owner : tptr; fl_fd : Z; fl_type : Z; fl_whence : Z; fl_start : Z; fl_end : Z;
}.
#[export] Instance eta_file_lock : Eta file_lock := fun x =>
  mk_file_lock (fl_id x) (fl_owner x) (fl_fd x) (fl_type x) (fl_whence x) (fl_start x) (fl_end x).

(** fs/locks.c:35-36 the state: the locks of a file, the free list, and the
    queues [fl_wait] *)
Record lock_state := mk_lock_state {
  i_flock : list file_lock; file_lock_free_list : list nat; fl_wait : gmap nat wait_queue;
}.
#[export] Instance eta_lock_state : Eta lock_state := fun x =>
  mk_lock_state (i_flock x) (file_lock_free_list x) (fl_wait x).

(** What the calls read of a [struct file] and its inode. *)
Record lfile := mk_lfile { f_inode : bool; f_mode : Z; f_pos : Z; i_mode : Z; i_size : Z }.

(** fs/locks.c:43-53 [fcntl_init_locks] *)
Definition fcntl_init_locks : lock_state := mk_lock_state [] (seq 0 (Z.to_nat NR_FILE_LOCKS)) ∅.

Definition wait_of (w : gmap nat wait_queue) (id : nat) : wait_queue := default [] (w !! id).
Definition wake_locks (w : gmap nat wait_queue) (ids : list nat) (s : kstate) : kstate :=
  foldl (fun s id => wake_up (wait_of w id) s) s ids.

(** fs/locks.c:206-236 [copy_flock] by task [c] *)
Definition copy_flock (filp : lfile) (c : tptr) (l : flock) (fd : Z) : option file_lock :=
  if negb (f_inode filp) || negb (S_ISREG (i_mode filp)) then None
  else if negb (existsb (Z.eqb (l_type l)) [F_UNLCK; F_RDLCK; F_WRLCK; F_SHLCK; F_EXLCK]) then None
  else
    start ← (if l_whence l =? 0 then Some 0
             else if l_whence l =? 1 then Some (f_pos filp)
             else if l_whence l =? 2 then Some (i_size filp) else None);
    let start := s32 (start + l_start l) in
    if (start <? 0) || (l_len l <? 0) then None
    else
      let e := s32 (start + l_len l - 1) in
      Some (mk_file_lock 0 c fd (l_type l) 0 start (if (l_len l =? 0) || (e <? 0) then OFFSET_MAX else e)).

(** fs/locks.c:263-266 [overlap] *)
Definition overlap (fl1 fl2 : file_lock) : bool :=
  (fl_start fl2 <=? fl_end fl1) && (fl_start fl1 <=? fl_end fl2).

(** Do two locks belong to the same task and file descriptor? *)
Definition same_owner (a b : file_lock) : bool :=
  bool_decide (fl_owner a = fl_owner b) && (fl_fd a =? fl_fd b).

(** fs/locks.c:242-259 [conflict] *)
Definition conflict (caller_fl sys_fl : file_lock) : bool :=
  if same_owner caller_fl sys_fl then false
  else if negb (overlap caller_fl sys_fl) then false
  else if fl_type caller_fl =? F_RDLCK then negb (fl_type sys_fl =? F_RDLCK)
  else fl_type caller_fl =? F_WRLCK.

(** fs/locks.c:60-97 [fcntl_getlk]; [filp] is [None] for a bad descriptor; the
    result and the [struct flock] stored for the caller *)
Definition fcntl_getlk (fd : Z) (filp : option lfile) (va : Z) (l : flock) (m : lock_state) (s : kstate) :
    Z * option flock :=
  if NR_OPEN <=? fd then (- EBADF, None) else
  match filp with
  | None => (- EBADF, None)
  | Some filp =>
      if ctrue va then (va, None)
      else if l_type l =? F_UNLCK then (- EINVAL, None)
      else match copy_flock filp (current s) l fd with
      | None => (- EINVAL, None)
      | Some file_lock =>
          match list_find (fun fl => conflict file_lock fl = true) (i_flock m) with
          | Some (_, fl) =>
              (0, Some (mk_flock (fl_type fl) (fl_whence fl) (fl_start fl)
                         (if fl_end fl =? OFFSET_MAX then 0 else s32 (fl_end fl - fl_start fl + 1))
                         (pid (tsk s (fl_owner fl)))))
          | None => (0, Some (mk_flock F_UNLCK (l_whence l) (l_start l) (l_len l) (l_pid l)))
          end
      end
  end.

(** fs/locks.c:425-449 [alloc_lock]: a copy of [fl] with a free place, for the
    caller to link in; the new lock has nobody waiting *)
Definition alloc_lock (fl : file_lock) (c : tptr) (fd : Z) (free : list nat) (w : gmap nat wait_queue) :
    option (file_lock * list nat * gmap nat wait_queue) :=
  match free with
  | [] => None
  | id :: free => Some (fl <| fl_id := id |> <| fl_owner := c |> <| fl_fd := fd |>, free, <[id := []]> w)
  end.

(** ** [lock_it] *)

(** fs/locks.c:288-294 the variables of [lock_it]: [caller] is the request, or
    the lock at position [at] of [pre] once the request was merged into it;
    [left] is a position in [pre], or the head of [rest]; [right] is the head
    of [rest]; [woken] are the locks whose waiters were woken *)
Record walk := mk_walk {
  pre : list file_lock; rest : list file_lock; caller : file_lock; at_ : option nat; added : bool;
  left : option nat; right : bool; free : list nat; woken : list nat;
}.
#[export] Instance eta_walk : Eta walk := fun x =>
  mk_walk (pre x) (rest x) (caller x) (at_ x) (added x) (left x) (right x) (free x) (woken x).

(** The lock that [caller] points at changes with it. *)
Definition set_caller (c : file_lock) (x : walk) : walk :=
  x <| caller := c |>
    <| pre ::= fun l => match at_ x with Some i => alter (fun _ => c) i l | None => l end |>.

(** fs/locks.c:300-304 the locks before the first one of the same owner *)
Fixpoint find_owner (c : file_lock) (l : list file_lock) : list file_lock * list file_lock :=
  match l with
  | [] => ([], [])
  | fl :: l' =>
      if same_owner c fl then ([], l)
      else let '(a, b) := find_owner c l' in (fl :: a, b)
  end.

(** fs/locks.c:316-341 a lock of the same type: [None] leaves the loop *)
Definition walk_same (fl : file_lock) (rest' : list file_lock) (x : walk) : option walk :=
  let c := caller x in
  if fl_end fl <? s32 (fl_start c - 1) then
    Some (x <| pre ::= fun l => l ++ [fl] |> <| rest := rest' |>)
  else if s32 (fl_end c + 1) <? fl_start fl then None
  else
    let lo := if fl_start c <? fl_start fl then fl_start c else fl_start fl in
    let hi := if fl_end fl <? fl_end c then fl_end c else fl_end fl in
    let x := set_caller (c <| fl_start := lo |> <| fl_end := hi |>) x in
    let fl := fl <| fl_start := lo |> <| fl_end := hi |> in
    if added x then
      Some (x <| rest := rest' |> <| free ::= cons (fl_id fl) |> <| woken ::= fun l => l ++ [fl_id fl] |>)
    else
      Some (x <| caller := fl |> <| at_ := Some (length (pre x)) |> <| added := true |>
              <| pre ::= fun l => l ++ [fl] |> <| rest := rest' |>).

(** fs/locks.c:345-379 a lock of another type: the state of the loop, and
    whether it goes on *)
Definition walk_other (fl : file_lock) (rest' : list file_lock) (x : walk) : walk * bool :=
  let c := caller x in
  let next x := (x <| pre ::= fun l => l ++ [fl] |> <| rest := rest' |>, true) in
  if fl_end fl <? fl_start c then next x
  else if fl_end c <? fl_start fl then (x, false)
  else
    let x := if fl_type c =? F_UNLCK then x <| added := true |> else x in
    let x := if fl_start fl <? fl_start c then x <| left := Some (length (pre x)) |> else x in
    if fl_end c <? fl_end fl then (x <| right := true |>, false)
    else if fl_start c <=? fl_start fl then
      if added x then
        (x <| rest := rest' |> <| free ::= cons (fl_id fl) |> <| woken ::= fun l => l ++ [fl_id fl] |>, true)
      else
        let fl := fl <| fl_start := fl_start c |> <| fl_end := fl_end c |> <| fl_type := fl_type c |> in
        (x <| woken ::= fun l => l ++ [fl_id fl] |> <| caller := fl |> <| at_ := Some (length (pre x)) |>
           <| added := true |> <| pre ::= fun l => l ++ [fl] |> <| rest := rest' |>, true)
    else next x.

(** fs/locks.c:310-385 the loop over the locks of the owner; one round takes
    the head of [rest] away *)
Fixpoint walk_locks (fuel : nat) (x : walk) : walk :=
  match fuel, rest x with
  | S fuel, fl :: rest' =>
      if negb (same_owner (caller x) fl) then x
      else if fl_type (caller x) =? fl_type fl then
        match walk_same fl rest' x with Some x => walk_locks fuel x | None => x end
      else
        match walk_other fl rest' x with (x, true) => walk_locks fuel x | (x, false) => x end
  | _, _ => x
  end.

(** fs/locks.c:404-410 the ends of the locks beside the new one *)
Definition cut_right (x : walk) : walk :=
  if right x then
    x <| rest ::= fun l => match l with
                           | fl :: l => fl <| fl_start := s32 (fl_end (caller x) + 1) |> :: l
                           | [] => [] end |>
  else x.
Definition cut_left (i : option nat) (x : walk) : walk :=
  match i with
  | Some i => x <| pre ::= alter (fun fl => fl <| fl_end := s32 (fl_start (caller x) - 1) |>) i |>
  | None => x
  end.

(** fs/locks.c:387-392 the new lock, unless the request was merged into an old
    one or only removed locks; else the error *)
Definition lock_place (t : tptr) (fd : Z) (w : gmap nat wait_queue) (x : walk) :
    Z + (list file_lock * list nat * gmap nat wait_queue) :=
  if added x then inr ([], free x, w)
  else if fl_type (caller x) =? F_UNLCK then inl (- EINVAL)
  else match alloc_lock (caller x) t fd (free x) w with
       | None => inl (- ENOLCK)
       | Some (new, free, w) => inr ([new], free, w)
       end.

(** fs/locks.c:387-412 [lock_it] after the loop, for task [t] *)
Definition lock_finish (t : tptr) (fd : Z) (w : gmap nat wait_queue) (x : walk) :
    Z * walk * gmap nat wait_queue :=
  match lock_place t fd w x with
  | inl e => (e, x, w)
  | inr (new, free', w) =>
      let x' := x <| free := free' |> in
      match left x, right x with
      | Some i, true =>
          if decide (i = length (pre x)) then
            (* the old lock is cut in two *)
            match rest x with
            | [] => (0, x', w)
            | r :: _ =>
                match alloc_lock r t fd (free x') w with
                | None =>
                    (- ENOLCK,
                     x' <| free ::= fun f => map fl_id new ++ f |>, w)
                | Some (l, free', w) =>
                    let x := x' <| free := free' |> <| pre ::= fun p => p ++ l :: new |> in
                    (0, cut_left (Some i) (cut_right x), w)
                end
            end
          else (0, cut_left (Some i) (cut_right (x' <| pre ::= fun p => p ++ new |>)), w)
      | i, _ => (0, cut_left i (cut_right (x' <| pre ::= fun p => p ++ new |>)), w)
      end
  end.

(** fs/locks.c:288-413 [lock_it] by task [current s] *)
Definition lock_it (c : file_lock) (fd : Z) (m : lock_state) (s : kstate) : Z * lock_state * kstate :=
  let '(a, b) := find_owner c (i_flock m) in
  let x := walk_locks (length b) (mk_walk a b c None false None false (file_lock_free_list m) []) in
  let '(r, x, w) := lock_finish (current s) fd (fl_wait m) x in
  (r, mk_lock_state (pre x ++ rest x) (free x) w, wake_locks (fl_wait m) (woken x) s).

(** ** The calls *)

(** fs/locks.c:126-148 the type that a request asks for, when the file is open
    for it *)
Definition setlk_type (fmode ty : Z) : option Z :=
  if ty =? F_RDLCK then if flag fmode 1 then Some F_RDLCK else None
  else if ty =? F_WRLCK then if flag fmode 2 then Some F_WRLCK else None
  else if ty =? F_SHLCK then if flag fmode 3 then Some F_RDLCK else None
  else if ty =? F_EXLCK then if flag fmode 3 then Some F_WRLCK else None
  else Some ty.

(** A [setlk] in progress: returned, asleep in the queue of a lock, or task 0
    trying to sleep. *)
Inductive setlk_step :=
| SetReturns (r : Z) (m : lock_state) (s : kstate)
| SetSleeps (id : nat) (m : lock_state) (s : kstate)
| SetPanics.

(** fs/locks.c:154-180 [fcntl_setlk] from the scan on *)
Definition setlk_try (fd cmd : Z) (fl : file_lock) (m : lock_state) (s : kstate) : setlk_step :=
  let go := let '(r, m, s) := lock_it fl fd m s in SetReturns r m s in
  if fl_type fl =? F_UNLCK then go
  else match list_find (fun x => conflict fl x = true) (i_flock m) with
  | None => go
  | Some (_, x) =>
      if cmd =? F_SETLKW then
        if signal_pending (cur s) then SetReturns (- ERESTARTSYS) m s
        else match interruptible_sleep_on (wait_of (fl_wait m) (fl_id x)) s with
             | None => SetPanics
             | Some (q, s) => SetSleeps (fl_id x) (m <| fl_wait ::= <[fl_id x := q]> |>) s
             end
      else SetReturns (- EAGAIN) m s
  end.

(** fs/locks.c:167-170 the sleeper runs again *)
Definition setlk_wakes (id : nat) (fd cmd : Z) (fl : file_lock) (m : lock_state) (s : kstate) : setlk_step :=
  let m := m <| fl_wait ::= fun w => <[id := sleep_exit (wait_of w id) s]> w |> in
  if signal_pending (cur s) then SetReturns (- ERESTARTSYS) m s else setlk_try fd cmd fl m s.

(** fs/locks.c:103-180 [fcntl_setlk] *)
Definition fcntl_setlk (fd cmd : Z) (filp : option lfile) (va : Z) (l : flock) (m : lock_state) (s : kstate) :
    setlk_step :=
  if NR_OPEN <=? fd then SetReturns (- EBADF) m s else
  match filp with
  | None => SetReturns (- EBADF) m s
  | Some filp =>
      if ctrue va then SetReturns va m s
      else match copy_flock filp (current s) l fd with
      | None => SetReturns (- EINVAL) m s
      | Some fl =>
          match setlk_type (f_mode filp) (fl_type fl) with
          | None => SetReturns (- EBADF) m s
          | Some ty => setlk_try fd cmd (fl <| fl_type := ty |>) m s
          end
      end
  end.

(** fs/locks.c:195-198 the locks of the owner at the head of the list are freed *)
Fixpoint free_owned (c : file_lock) (l : list file_lock) : list nat * list file_lock :=
  match l with
  | fl :: l' =>
      if same_owner c fl then let '(ids, r) := free_owned c l' in (fl_id fl :: ids, r) else ([], l)
  | [] => ([], [])
  end.

(** fs/locks.c:182-199 [fcntl_remove_locks] *)
Definition fcntl_remove_locks (t : tptr) (fd : Z) (m : lock_state) (s : kstate) : lock_state * kstate :=
  let c := mk_file_lock 0 t fd F_UNLCK 0 0 0 in
  let '(a, b) := find_owner c (i_flock m) in
  let '(ids, b) := free_owned c b in
  (m <| i_flock := a ++ b |> <| file_lock_free_list ::= fun f => rev ids ++ f |>,
   wake_locks (fl_wait m) ids s).

(** * Properties *)

(** A lock of the list. *)
Definition lock_ok (l : file_lock) : Prop :=
  0 <= fl_start l <= fl_end l /\ fl_end l <= OFFSET_MAX /\ (fl_type l = F_RDLCK \/ fl_type l = F_WRLCK).
(** The locks of one owner are in the order of their bytes and do not overlap. *)
Definition chain : list file_lock -> Prop := StronglySorted (fun a b => fl_end a < fl_start b).
Definition covers (l : file_lock) (b : Z) : Prop := fl_start l <= b <= fl_end l.
(** Byte [b] is locked with type [t] by a lock of the list. *)
Definition locked (l : list file_lock) (b t : Z) : Prop := exists x, x ∈ l /\ covers x b /\ fl_type x = t.

Lemma chain_app l k :
  chain (l ++ k) <-> chain l /\ chain k /\ forall x y, x ∈ l -> y ∈ k -> fl_end x < fl_start y.
Proof.
  unfold chain. induction l as [| a l IH]; cbn.
  - split; [intros H; split_and!; [constructor | done | by intros x y ?%elem_of_nil] | by intros (_ & ? & _)].
  - split.
    + intros [H1 H2]%StronglySorted_inv. apply IH in H1 as (H3 & H4 & H5).
      rewrite Forall_app in H2. destruct H2 as [H6 H7]. rewrite Forall_forall in H7.
      split_and!; [by constructor | done |]. intros x y [-> | Hx]%elem_of_cons Hy; auto.
    + intros (H1 & H2 & H3). apply StronglySorted_inv in H1 as [H4 H5].
      constructor; [apply IH; split_and!; [done | done | set_solver] |].
      apply Forall_app. split; [done |]. rewrite Forall_forall. set_solver.
Qed.
Lemma chain_single x : chain [x].
Proof. repeat constructor. Qed.
Lemma chain_nil : chain [].
Proof. constructor. Qed.
Lemma locked_app l k b t : locked (l ++ k) b t <-> locked l b t \/ locked k b t.
Proof. unfold locked. setoid_rewrite elem_of_app. naive_solver. Qed.
Lemma locked_single x b t : locked [x] b t <-> covers x b /\ fl_type x = t.
Proof. unfold locked. setoid_rewrite list_elem_of_singleton. naive_solver. Qed.
Lemma locked_nil b t : locked [] b t <-> False.
Proof. unfold locked. setoid_rewrite elem_of_nil. naive_solver. Qed.

Lemma same_owner_spec a b : same_owner a b = true <-> fl_owner a = fl_owner b /\ fl_fd a = fl_fd b.
Proof. unfold same_owner. rewrite andb_true_iff, bool_decide_eq_true, Z.eqb_eq. done. Qed.

Section lock_it.
#[local] Set Default Proof Using "All".
(** The request, and the list of the file's locks: those before the first lock
    of the owner, the owner's, and the others. *)
Context (q : file_lock) (A O B : list file_lock).
Let own (l : file_lock) : Prop := same_owner q l = true.
Let S_ := fl_start q.
Let E_ := fl_end q.
Let T := fl_type q.
Context (HB : forall l, l ∈ B -> ~ own l) (HO : forall l, l ∈ O -> own l).
Context (Hchain : chain O) (Hok : forall l, l ∈ O -> lock_ok l).
Context (Hq : 0 <= S_ <= E_ /\ E_ <= OFFSET_MAX).
Context (HT : T = F_RDLCK \/ T = F_WRLCK \/ T = F_UNLCK).
Context (Hmax : E_ < OFFSET_MAX \/ forall l, l ∈ O -> fl_type l <> T).

(** The loop: [P] was passed, [Lf] holds the lock that [left] points at, [D]
    was merged into the new lock [N] or freed, [R] is still to come. *)
Record walk_inv (x : walk) (P Lf D N R : list file_lock) : Prop := mk_walk_inv {
  wi_pre : pre x = A ++ P ++ Lf ++ N;
  wi_rest : rest x = R ++ B;
  wi_split : O = P ++ Lf ++ D ++ R;
  wi_left : (Lf = [] /\ left x = None) \/
    (exists f, Lf = [f] /\ left x = Some (length (A ++ P)) /\ fl_start f < S_ <= fl_end f /\ fl_end f <= E_ /\
       fl_type f <> T /\ fl_start (caller x) = S_);
  wi_new : (N = [] /\ at_ x = None /\ (added x = true -> T = F_UNLCK) /\ (T <> F_UNLCK -> D = [])) \/
    (N = [caller x] /\ at_ x = Some (length (A ++ P ++ Lf)) /\ added x = true /\ T <> F_UNLCK /\ D <> []);
  wi_old : added x = false -> D = [];
  wi_unlck : T = F_UNLCK -> (added x = false -> Lf = []);
  wi_caller : fl_type (caller x) = T /\ own (caller x);
  wi_range : 0 <= fl_start (caller x) <= S_ /\ E_ <= fl_end (caller x) <= OFFSET_MAX;
  wi_cover : forall b, covers (caller x) b -> S_ <= b <= E_ \/ exists d, d ∈ D /\ covers d b /\ fl_type d = T;
  wi_dead : forall d, d ∈ D ->
    (fl_type d = T -> fl_start (caller x) <= fl_start d /\ fl_end d <= fl_end (caller x)) /\
    (fl_type d <> T -> S_ <= fl_start d /\ fl_end d <= E_);
  wi_passed : forall d, d ∈ P -> fl_end d < fl_start (caller x);
  wi_max : fl_end (caller x) < OFFSET_MAX \/ forall l, l ∈ R -> fl_type l <> T;
  wi_right : right x = false;
}.

(** The order of the locks, around a lock [fl] that comes next. *)
Lemma split_order P Lf D R fl :
  O = P ++ Lf ++ D ++ fl :: R ->
  lock_ok fl /\ own fl /\
  (forall x, x ∈ P \/ x ∈ Lf \/ x ∈ D -> fl_end x < fl_start fl) /\
  (forall x, x ∈ R -> fl_end fl < fl_start x) /\
  (forall x, x ∈ R -> lock_ok x).
Proof using All.
  intros E. pose proof Hchain as Hc. rewrite E in Hc.
  rewrite !app_assoc, chain_app in Hc. destruct Hc as (_ & Hc & H1).
  apply StronglySorted_inv in Hc as [_ Hc]. rewrite Forall_forall in Hc.
  split_and!.
  - apply Hok. rewrite E. in_list.
  - apply HO. rewrite E. in_list.
  - intros x Hx. apply H1; [| in_list]. rewrite !elem_of_app. tauto.
  - exact Hc.
  - intros x Hx. apply Hok. rewrite E. in_list.
Qed.

(** A byte between two that are covered by the new lock but not by it before. *)
Lemma inv_range x P Lf D N R :
  walk_inv x P Lf D N R -> D = [] -> fl_start (caller x) = S_ /\ fl_end (caller x) = E_.
Proof using All.
  intros [] ->. split.
  - destruct (wi_cover0 (fl_start (caller x))) as [? | (? & ?%elem_of_nil & _)];
      [unfold covers; lia | lia | done].
  - destruct (wi_cover0 (fl_end (caller x))) as [? | (? & ?%elem_of_nil & _)];
      [unfold covers; lia | lia | done].
Qed.

(** When the next lock starts before the new one, nothing was done yet. *)
Lemma inv_starts x P Lf D N R fl :
  walk_inv x P Lf D N (fl :: R) -> fl_start fl < fl_start (caller x) ->
  Lf = [] /\ D = [] /\ N = [].
Proof using All.
  intros Hi Hlt. destruct (split_order _ _ _ _ _ (wi_split _ _ _ _ _ _ Hi)) as (Hfl & _ & Hb & _).
  unfold lock_ok in Hfl.
  assert (D = []) as ->.
  { destruct D as [| d D']; [done |]. exfalso.
    pose proof (Hb d ltac:(in_list)). destruct (wi_dead _ _ _ _ _ _ Hi d ltac:(in_list)) as [H1 H2].
    pose proof (wi_range _ _ _ _ _ _ Hi) as [Hr _].
    assert (d ∈ O) as Hd by (rewrite (wi_split _ _ _ _ _ _ Hi); rewrite ?elem_of_app, ?elem_of_cons; tauto).
    destruct (Hok d Hd) as [? _]. destruct (decide (fl_type d = T)) as [Ht | Ht]; [destruct (H1 Ht) | destruct (H2 Ht)]; lia. }
  split_and!; [| done |].
  - destruct (wi_left _ _ _ _ _ _ Hi) as [[-> _] | (f & -> & _ & Hf & _ & _ & Hs)]; [done |].
    pose proof (Hb f ltac:(in_list)). lia.
  - destruct (wi_new _ _ _ _ _ _ Hi) as [[-> _] | (_ & _ & _ & _ & Hd)]; done.
Qed.

Lemma inv_pass x P Lf D N R fl :
  walk_inv x P Lf D N (fl :: R) -> fl_end fl < fl_start (caller x) ->
  walk_inv (x <| pre ::= fun l => l ++ [fl] |> <| rest := R ++ B |>) (P ++ [fl]) [] [] [] R.
Proof using All.
  intros Hi Hlt. destruct (inv_starts _ _ _ _ _ _ _ Hi) as (-> & -> & ->).
  { destruct (split_order _ _ _ _ _ (wi_split _ _ _ _ _ _ Hi)) as ((Hfl & _) & _). lia. }
  destruct Hi.
  constructor; cbn; try done.
  - rewrite wi_pre0. cbn. by rewrite !app_nil_r, app_assoc.
  - by rewrite wi_split0, <- app_assoc.
  - left. split; [done |]. destruct wi_left0 as [[_ ?] | (f & ? & _)]; done.
  - destruct wi_new0 as [(_ & ? & ? & _) | (_ & _ & _ & _ & ?)]; [left; naive_solver | done].
  - intros d [Hd | ->%list_elem_of_singleton]%elem_of_app; [by apply wi_passed0 | done].
  - destruct wi_max0 as [? | Hm]; [by left | right; intros l Hl; apply Hm; in_list].
Qed.

Lemma inv_extend x x' P Lf D N R fl c :
  walk_inv x P Lf D N (fl :: R) -> fl_type fl = T ->
  fl_start (caller x) - 1 <= fl_end fl -> fl_start fl <= fl_end (caller x) + 1 ->
  pre x' = A ++ P ++ Lf ++ [c] -> rest x' = R ++ B -> left x' = left x -> right x' = right x ->
  caller x' = c -> at_ x' = Some (length (A ++ P ++ Lf)) -> added x' = true ->
  fl_type c = T -> own c ->
  fl_start c = Z.min (fl_start (caller x)) (fl_start fl) ->
  fl_end c = Z.max (fl_end (caller x)) (fl_end fl) ->
  walk_inv x' P Lf (D ++ [fl]) [c] R.
Proof using All.
  intros Hi Hty Ha Hb Hpre Hrest Hleft Hright Hc Hat Hadd Hct Hco Hlo Hhi.
  destruct (split_order _ _ _ _ _ (wi_split _ _ _ _ _ _ Hi)) as ((Hfl1 & Hfl2 & Hfl3) & Hflo & Hbef & Haft & HR).
  assert (T <> F_UNLCK) as HTu by (unfold F_UNLCK, F_RDLCK, F_WRLCK in *; lia).
  destruct Hi. constructor; rewrite ?Hpre, ?Hrest, ?Hleft, ?Hright, ?Hc, ?Hat, ?Hadd; try done.
  - by rewrite wi_split0, <- !app_assoc.
  - destruct wi_left0 as [? | (f & -> & ? & ? & ? & ? & Hs)]; [by left |]. right. exists f.
    pose proof (Hbef f ltac:(in_list)). split_and!; try done; lia.
  - right. split_and!; try done. by destruct D.
  - rewrite Hlo, Hhi. lia.
  - intros b Hcov. unfold covers in Hcov. rewrite Hlo, Hhi in Hcov.
    destruct (decide (covers (caller x) b)) as [Hcb | Hcb].
    + destruct (wi_cover0 b Hcb) as [? | (d & ? & ?)]; [by left | right; exists d; split; [in_list | done]].
    + right. exists fl. split; [in_list |]. split; [| done]. unfold covers in *. lia.
  - intros d [Hd | ->%list_elem_of_singleton]%elem_of_app.
    + destruct (wi_dead0 d Hd) as [H1 H2]. split; [intros Ht; specialize (H1 Ht); lia | done].
    + split; [lia | done].
  - intros d Hd. rewrite Hlo. specialize (wi_passed0 d Hd). pose proof (Hbef d ltac:(in_list)). lia.
  - rewrite Hhi. destruct wi_max0 as [Hm | Hm]; [| by destruct (Hm fl ltac:(in_list))].
    destruct (decide (fl_end fl < OFFSET_MAX)); [left; lia | right].
    intros l Hl. pose proof (Haft l Hl). destruct (HR l Hl) as (? & ? & _). lia.
Qed.

(** The number of places in use. *)
Definition places (x : walk) : nat := length (pre x) + length (rest x) + length (free x).

Lemma inv_same x P Lf D N R fl :
  walk_inv x P Lf D N (fl :: R) -> fl_type fl = T ->
  match walk_same fl (R ++ B) x with
  | Some x' => (exists P' Lf' D' N', walk_inv x' P' Lf' D' N' R) /\ places x' = places x
  | None => fl_end (caller x) < fl_start fl
  end.
Proof using All.
  intros Hi Hty.
  destruct (split_order _ _ _ _ _ (wi_split _ _ _ _ _ _ Hi)) as ((Hfl1 & Hfl2 & Hfl3) & Hflo & Hbef & Haft & HR).
  pose proof (wi_range _ _ _ _ _ _ Hi) as [Hr1 Hr2]. unfold walk_same.
  assert (fl_end (caller x) < OFFSET_MAX) as Hm.
  { destruct (wi_max _ _ _ _ _ _ Hi) as [? | Hm]; [done | by destruct (Hm fl ltac:(in_list))]. }
  unfold OFFSET_MAX in Hm. rewrite !s32_small by (unfold OFFSET_MAX in *; lia).
  assert (length (rest x) = S (length (R ++ B))) as Hrl by (by rewrite (wi_rest _ _ _ _ _ _ Hi)).
  destruct (fl_end fl <? fl_start (caller x) - 1) eqn:E1; bool_simp.
  { split; [exists (P ++ [fl]), [], [], []; apply (inv_pass x P Lf D N); [exact Hi | lia] |].
    unfold places. cbn. rewrite length_app, Hrl. cbn. lia. }
  destruct (fl_end (caller x) + 1 <? fl_start fl) eqn:E2; bool_simp; [lia |].
  set (lo := if fl_start (caller x) <? fl_start fl then _ else _).
  set (hi := if fl_end fl <? fl_end (caller x) then _ else _).
  assert (lo = Z.min (fl_start (caller x)) (fl_start fl)) as Elo.
  { unfold lo. destruct (fl_start (caller x) <? fl_start fl) eqn:?; bool_simp; lia. }
  assert (hi = Z.max (fl_end (caller x)) (fl_end fl)) as Ehi.
  { unfold hi. destruct (fl_end fl <? fl_end (caller x)) eqn:?; bool_simp; lia. }
  destruct (wi_caller _ _ _ _ _ _ Hi) as [Hct Hco].
  cbv zeta. destruct (added (set_caller _ x)) eqn:Hadd; cbn in Hadd.
  - destruct (wi_new _ _ _ _ _ _ Hi) as [(_ & _ & Hu & _) | (HN & Hat & _ & _)].
    { specialize (Hu Hadd). unfold F_UNLCK, F_RDLCK, F_WRLCK in *. lia. }
    assert (pre (set_caller (caller x <| fl_start := lo |> <| fl_end := hi |>) x) =
            A ++ P ++ Lf ++ [caller x <| fl_start := lo |> <| fl_end := hi |>]) as Epre.
    { unfold set_caller. cbn. rewrite Hat, (wi_pre _ _ _ _ _ _ Hi), HN.
      replace (A ++ P ++ Lf ++ [caller x]) with ((A ++ P ++ Lf) ++ [caller x]) by (by rewrite <- !app_assoc).
      rewrite alter_app_r_alt, Nat.sub_diag by lia. cbn. by rewrite <- !app_assoc. }
    split.
    + eexists P, Lf, (D ++ [fl]), _. eapply (inv_extend x); try done; cbn; try lia.
    + unfold places. cbn -[set_caller]. unfold set_caller. cbn. rewrite Hat, length_alter, Hrl. lia.
  - destruct (wi_new _ _ _ _ _ _ Hi) as [(HN & Hat & _ & HD) | (_ & _ & Hadd' & _)]; [| congruence].
    split.
    + eexists P, Lf, (D ++ [fl]), _. eapply (inv_extend x); try done; cbn; try lia.
      * rewrite Hat, (wi_pre _ _ _ _ _ _ Hi), HN. by rewrite app_nil_r, <- !app_assoc.
      * rewrite Hat, (wi_pre _ _ _ _ _ _ Hi), HN. by rewrite app_nil_r.
    + unfold places. cbn. rewrite Hat, length_app, Hrl. cbn. lia.
Qed.

(** The loop ends before a lock behind the new one, or at one that the end of
    the new lock cuts. *)
Definition stop_behind (x : walk) (P Lf D N R : list file_lock) : Prop :=
  walk_inv x P Lf D N R /\ forall r, r ∈ R -> fl_end (caller x) < fl_start r.
Definition stop_cuts (x : walk) (P Lf D N R : list file_lock) : Prop := exists l0 r R',
  R = r :: R' /\ walk_inv (x <| right := false |> <| left := l0 |>) P Lf D N R /\
  right x = true /\ fl_type r <> T /\ fl_start r <= fl_end (caller x) < fl_end r /\
  (T = F_UNLCK -> added x = true) /\
  ((left x = l0 /\ fl_start (caller x) <= fl_start r) \/
   (left x = Some (length (pre x)) /\ fl_start r < fl_start (caller x) /\ Lf = [] /\ D = [] /\ N = [])).

Lemma inv_added x P Lf D N R : walk_inv x P Lf D N R -> T = F_UNLCK ->
  walk_inv (x <| added := true |>) P Lf D N R.
Proof.
  intros [] HTu. constructor; cbn; try done.
  destruct wi_new0 as [(? & ? & _ & ?) | (? & ? & _ & ? & _)]; [left | done]. done.
Qed.

(** A lock that the new one covers is freed. *)
Lemma inv_free x P Lf D N R fl :
  walk_inv x P Lf D N (fl :: R) -> fl_type fl <> T -> added x = true ->
  fl_start (caller x) <= fl_start fl -> fl_end fl <= fl_end (caller x) ->
  walk_inv (x <| rest := R ++ B |> <| free ::= cons (fl_id fl) |> <| woken ::= fun l => l ++ [fl_id fl] |>)
    P Lf (D ++ [fl]) N R.
Proof.
  intros Hi Hty Hadd Ha Hb.
  destruct (split_order _ _ _ _ _ (wi_split _ _ _ _ _ _ Hi)) as ((Hfl1 & Hfl2 & Hfl3) & Hflo & Hbef & Haft & HR).
  assert (forall b, covers fl b -> S_ <= b <= E_) as Hin.
  { intros b Hcb. destruct (wi_cover _ _ _ _ _ _ Hi b) as [? | (d & Hd & Hdb & _)]; [unfold covers in *; lia | done |].
    pose proof (Hbef d ltac:(in_list)). unfold covers in *. lia. }
  destruct Hi. constructor; cbn; try done.
  - by rewrite wi_split0, <- !app_assoc.
  - destruct wi_new0 as [(? & ? & ? & HD) | (? & ? & ? & ? & ?)]; [left | right; split_and!; try done; by destruct D].
    split_and!; try done. intros HTu. by destruct (HTu (H1 Hadd)).
  - intros Hf. congruence.
  - intros b Hcb. destruct (wi_cover0 b Hcb) as [? | (d & ? & ?)]; [by left | right; exists d; split; [in_list | done]].
  - intros d [Hd | ->%list_elem_of_singleton]%elem_of_app; [by apply wi_dead0 |].
    split; [done |]. intros _. pose proof (Hin (fl_start fl)). pose proof (Hin (fl_end fl)).
    unfold covers in *. lia.
  - destruct wi_max0 as [? | Hm]; [by left | right; intros l Hl; apply Hm; in_list].
Qed.

(** A lock that the new one covers becomes the new one. *)
Lemma inv_replace x P Lf D N R fl :
  walk_inv x P Lf D N (fl :: R) -> fl_type fl <> T -> added x = false -> T <> F_UNLCK ->
  fl_start (caller x) <= fl_start fl -> fl_end fl <= fl_end (caller x) ->
  let fl' := fl <| fl_start := fl_start (caller x) |> <| fl_end := fl_end (caller x) |>
                <| fl_type := T |> in
  walk_inv (x <| woken ::= fun l => l ++ [fl_id fl'] |> <| caller := fl' |> <| at_ := Some (length (pre x)) |>
             <| added := true |> <| pre ::= fun l => l ++ [fl'] |> <| rest := R ++ B |>)
    P Lf [fl] [fl'] R.
Proof.
  intros Hi Hty Hadd HTu Ha Hb fl'.
  destruct (split_order _ _ _ _ _ (wi_split _ _ _ _ _ _ Hi)) as ((Hfl1 & Hfl2 & Hfl3) & Hflo & Hbef & Haft & HR).
  assert (D = []) as -> by (by apply (wi_old _ _ _ _ _ _ Hi)).
  destruct (inv_range _ _ _ _ _ _ Hi eq_refl) as [Es Ee].
  destruct (wi_new _ _ _ _ _ _ Hi) as [(-> & Hat & _) | (_ & _ & ? & _)]; [| congruence].
  destruct Hi. cbn in wi_split0. constructor; cbn; try done.
  - by rewrite wi_pre0, app_nil_r, <- !app_assoc.
  - right. split_and!; try done. by rewrite wi_pre0, app_nil_r.
  - intros b Hcb. left. unfold covers in Hcb. cbn in Hcb. lia.
  - intros d ->%list_elem_of_singleton. split; [done |]. lia.
  - destruct wi_max0 as [? | Hm]; [by left | right; intros l Hl; apply Hm; in_list].
Qed.

(** A lock that only reaches into the new one is the one to its left. *)
Lemma inv_left x P Lf D N R fl :
  walk_inv x P Lf D N (fl :: R) -> fl_type fl <> T -> (T = F_UNLCK -> added x = true) ->
  fl_start fl < fl_start (caller x) -> fl_start (caller x) <= fl_end fl <= fl_end (caller x) ->
  walk_inv (x <| left := Some (length (pre x)) |> <| pre ::= fun l => l ++ [fl] |> <| rest := R ++ B |>)
    P [fl] D N R /\ Lf = [] /\ D = [] /\ N = [].
Proof.
  intros Hi Hty Hu Ha Hb.
  destruct (split_order _ _ _ _ _ (wi_split _ _ _ _ _ _ Hi)) as ((Hfl1 & Hfl2 & Hfl3) & Hflo & Hbef & Haft & HR).
  destruct (inv_starts _ _ _ _ _ _ _ Hi Ha) as (-> & -> & ->).
  destruct (inv_range _ _ _ _ _ _ Hi eq_refl) as [Es Ee].
  destruct Hi. cbn in wi_split0. split; [| done]. constructor; cbn; try done.
  - by rewrite wi_pre0, !app_nil_r, <- !app_assoc.
  - right. exists fl. rewrite wi_pre0, !app_nil_r. split_and!; try done; lia.
  - destruct wi_new0 as [(_ & ? & ? & _) | (_ & _ & _ & _ & ?)]; [| done]. left. done.
  - intros HTu Hf. by rewrite Hu in Hf.
  - destruct wi_max0 as [? | Hm]; [by left | right; intros l Hl; apply Hm; in_list].
Qed.

Lemma walk_eta x : x <| right := right x |> <| left := left x |> = x.
Proof. by destruct x. Qed.

Lemma inv_other x P Lf D N R fl :
  walk_inv x P Lf D N (fl :: R) -> fl_type fl <> T ->
  let r := walk_other fl (R ++ B) x in
  places r.1 = places x /\
  if r.2 then exists P' Lf' D' N', walk_inv r.1 P' Lf' D' N' R
  else stop_behind r.1 P Lf D N (fl :: R) \/ stop_cuts r.1 P Lf D N (fl :: R).
Proof.
  intros Hi Hty r. subst r. unfold walk_other.
  destruct (split_order _ _ _ _ _ (wi_split _ _ _ _ _ _ Hi)) as ((Hfl1 & Hfl2 & Hfl3) & Hflo & Hbef & Haft & HR).
  assert (length (rest x) = S (length (R ++ B))) as Hrl by (by rewrite (wi_rest _ _ _ _ _ _ Hi)).
  destruct (wi_caller _ _ _ _ _ _ Hi) as [Hct _]. rewrite Hct.
  destruct (fl_end fl <? fl_start (caller x)) eqn:E1; bool_simp.
  { cbn [fst snd]. split; [unfold places; cbn; rewrite length_app, Hrl; cbn; lia |].
    exists (P ++ [fl]), [], [], []. by eapply inv_pass. }
  destruct (fl_end (caller x) <? fl_start fl) eqn:E2; bool_simp.
  { cbn [fst snd]. split; [done |]. left. split; [done |].
    intros r [-> | Hr]%elem_of_cons; [lia |]. pose proof (Haft r Hr). lia. }
  set (x1 := if T =? F_UNLCK then _ else x).
  assert (walk_inv x1 P Lf D N (fl :: R) /\ (T = F_UNLCK -> added x1 = true) /\ caller x1 = caller x /\
          rest x1 = rest x /\ places x1 = places x /\ right x1 = false) as (Hi1 & Hu & Hc1 & Hr1 & Hp1 & Hrt).
  { unfold x1. destruct (T =? F_UNLCK) eqn:ET; bool_simp.
    - split_and!; try done; [by apply inv_added | apply (wi_right _ _ _ _ _ _ Hi)].
    - split_and!; try done. apply (wi_right _ _ _ _ _ _ Hi). }
  clearbody x1. clear Hi. unfold places in Hp1 |- *. rewrite <- Hc1 in *. rewrite <- Hr1 in Hrl.
  destruct (fl_start fl <? fl_start (caller x1)) eqn:E3; bool_simp.
  - destruct (inv_starts _ _ _ _ _ _ _ Hi1 E3) as (-> & -> & ->).
    destruct (fl_end (caller x1) <? fl_end fl) eqn:E4; bool_simp; cbn [fst snd].
    + split; [cbn; lia |]. right. exists (left x1), fl, R.
      assert (walk_inv (x1 <| left := Some (length (pre x1)) |> <| right := true |> <| right := false |>
                           <| left := left x1 |>) P [] [] [] (fl :: R)) as Hi2.
      { pose proof (walk_eta x1) as Ee. rewrite Hrt in Ee. cbn in Ee |- *. by rewrite Ee. }
      split_and!; try done; try (cbn; lia). right. cbn. split_and!; done || lia.
    + assert (fl_start (caller x1) <=? fl_start fl = false) as -> by (apply Z.leb_gt; lia).
      cbn [fst snd]. split; [cbn; rewrite length_app; cbn; lia |].
      eexists P, [fl], [], []. by eapply (inv_left x1 P [] [] [] R fl).
  - destruct (fl_end (caller x1) <? fl_end fl) eqn:E4; bool_simp; cbn [fst snd].
    + split; [cbn; lia |]. right. exists (left x1), fl, R.
      assert (walk_inv (x1 <| right := true |> <| right := false |> <| left := left x1 |>) P Lf D N (fl :: R)) as Hi2.
      { pose proof (walk_eta x1) as Ee. rewrite Hrt in Ee. cbn in Ee |- *. by rewrite Ee. }
      split_and!; try done; try (cbn; lia). left. cbn. split; [done | lia].
    + assert (fl_start (caller x1) <=? fl_start fl = true) as -> by (apply Z.leb_le; lia).
      destruct (added x1) eqn:Hadd; cbn [fst snd].
      * split; [cbn; lia |]. eexists P, Lf, (D ++ [fl]), N. by apply inv_free.
      * split; [cbn; rewrite length_app; cbn; lia |].
        eexists P, Lf, [fl], _. apply (inv_replace x1 P Lf D N R fl); try done; try lia.
Qed.

Lemma walk_locks_inv n x P Lf D N R :
  walk_inv x P Lf D N R -> (length R <= n)%nat ->
  let x' := walk_locks n x in
  places x' = places x /\
  exists P' Lf' D' N' R', stop_behind x' P' Lf' D' N' R' \/ stop_cuts x' P' Lf' D' N' R'.
Proof.
  revert x P Lf D N R. induction n as [| n IH]; intros x P Lf D N R Hi Hn; cbn [walk_locks].
  { split; [done |]. exists P, Lf, D, N, R. left. split; [done |].
    destruct R; [by intros r ?%elem_of_nil | cbn in Hn; lia]. }
  rewrite (wi_rest _ _ _ _ _ _ Hi). destruct R as [| fl R].
  - cbn. assert (match B with [] => x | fl :: rest' => if negb (same_owner (caller x) fl) then x else
        if fl_type (caller x) =? fl_type fl
        then match walk_same fl rest' x with Some x => walk_locks n x | None => x end
        else match walk_other fl rest' x with (x, true) => walk_locks n x | (x, false) => x end end = x) as ->.
    { destruct B as [| b B'] eqn:EB; [done |].
      assert (same_owner (caller x) b = false) as ->; [| done].
      apply not_true_iff_false. intros Hs. apply (HB b); [constructor |]. unfold own.
      destruct (wi_caller _ _ _ _ _ _ Hi) as [_ Ho]. unfold own in Ho.
      rewrite same_owner_spec in *. intuition congruence. }
    split; [done |]. exists P, Lf, D, N, []. left. split; [done |]. by intros r ?%elem_of_nil.
  - cbn [app]. destruct (wi_caller _ _ _ _ _ _ Hi) as [Hct Hco].
    destruct (split_order _ _ _ _ _ (wi_split _ _ _ _ _ _ Hi)) as (Hflok & Hflo & Hbef & Haft & HR).
    assert (same_owner (caller x) fl = true) as ->.
    { unfold own in *. rewrite same_owner_spec in *. intuition congruence. }
    cbn [negb]. rewrite Hct. destruct (T =? fl_type fl) eqn:ET; bool_simp.
    + pose proof (inv_same _ _ _ _ _ _ _ Hi (eq_sym ET)) as Hs.
      destruct (walk_same fl (R ++ B) x) as [x' |].
      * destruct Hs as ((P' & Lf' & D' & N' & Hi') & Hp). rewrite <- Hp.
        eapply IH; [done |]. cbn in Hn. lia.
      * split; [done |]. exists P, Lf, D, N, (fl :: R). left. split; [done |].
        intros r [-> | Hr]%elem_of_cons; [done |]. pose proof (Haft r Hr). unfold lock_ok in Hflok. lia.
    + pose proof (inv_other _ _ _ _ _ _ _ Hi (not_eq_sym ET)) as [Hp Hs].
      destruct (walk_other fl (R ++ B) x) as [x' b]. cbn [fst snd] in *. rewrite <- Hp. destruct b.
      * destruct Hs as (P' & Lf' & D' & N' & Hi'). eapply IH; [done |]. cbn in Hn. lia.
      * split; [done |]. exists P, Lf, D, N, (fl :: R). done.
Qed.

(** The list in the end: the lock to the left is cut, [M] is the new lock, and
    the one to the right is cut. *)
Definition left_end (c : file_lock) (Lf D R L : list file_lock) : Prop :=
  (Lf = [] /\ L = [] /\ forall r, r ∈ R -> fl_start c <= fl_start r) \/
  (exists f, Lf = [f] /\ L = [f <| fl_end := fl_start c - 1 |>] /\ forall r, r ∈ R -> fl_start c <= fl_start r) \/
  (exists r R2 l, R = r :: R2 /\ Lf = [] /\ D = [] /\ fl_start r < fl_start c /\ L = [l] /\
     fl_start l = fl_start r /\ fl_type l = fl_type r /\ own l /\ fl_end l = fl_start c - 1).
Definition right_end (c : file_lock) (R R' : list file_lock) : Prop :=
  (R' = R /\ forall r, r ∈ R -> fl_end c < fl_start r) \/
  (exists r R2, R = r :: R2 /\ R' = r <| fl_start := fl_end c + 1 |> :: R2 /\
     fl_type r <> T /\ fl_start r <= fl_end c < fl_end r).
Definition new_end (c : file_lock) (M : list file_lock) : Prop :=
  (T = F_UNLCK /\ M = []) \/
  (T <> F_UNLCK /\ exists c', M = [c'] /\ fl_start c' = fl_start c /\ fl_end c' = fl_end c /\
     fl_type c' = T /\ own c').

Definition lock_result (O' : list file_lock) : Prop :=
  chain O' /\ (forall l, l ∈ O' -> own l /\ lock_ok l) /\
  forall b t, locked O' b t <-> (S_ <= b <= E_ /\ t = T /\ T <> F_UNLCK) \/ (~ S_ <= b <= E_ /\ locked O b t).

Section final.
Context (x : walk) (P Lf D N R L M R' : list file_lock) (Hi : walk_inv x P Lf D N R).
Let c := caller x.
Context (HL : left_end c Lf D R L) (HR : right_end c R R') (HM : new_end c M).

Lemma final_parts :
  (forall l, l ∈ P -> own l /\ lock_ok l /\ fl_end l < fl_start c) /\
  (forall l, l ∈ L -> own l /\ lock_ok l /\ fl_end l = fl_start c - 1 /\ forall p, p ∈ P -> fl_end p < fl_start l) /\
  (forall l, l ∈ M -> own l /\ lock_ok l /\ fl_start l = fl_start c /\ fl_end l = fl_end c) /\
  (forall l, l ∈ R' -> own l /\ lock_ok l /\ fl_end c < fl_start l) /\ chain P /\ chain R'.
Proof.
  pose proof Hchain as Hc. rewrite (wi_split _ _ _ _ _ _ Hi) in Hc.
  rewrite !chain_app in Hc. destruct Hc as (HcP & (HcL & (HcD & HcR & _) & HcLR) & HcPR).
  assert (forall l, l ∈ P \/ l ∈ Lf \/ l ∈ D \/ l ∈ R -> own l /\ lock_ok l) as Hall.
  { intros l Hl. assert (l ∈ O) by (rewrite (wi_split _ _ _ _ _ _ Hi); rewrite ?elem_of_app, ?elem_of_cons; tauto). auto. }
  pose proof (wi_range _ _ _ _ _ _ Hi) as [Hr1 Hr2]. fold c in Hr1, Hr2.
  split_and!.
  - intros l Hl. destruct (Hall l) as [? ?]; [by left |].
    split_and!; try done. by apply (wi_passed _ _ _ _ _ _ Hi).
  - intros l Hl. destruct HL as [(_ & -> & _) | [(f & -> & -> & _) | (r & R2 & l' & -> & -> & -> & Hlt & -> & E1 & E2 & Ho & E3)]].
    + by apply elem_of_nil in Hl.
    + apply list_elem_of_singleton in Hl as ->.
      destruct (wi_left _ _ _ _ _ _ Hi) as [[? _] | (f' & [= <-] & _ & Hf & _ & _ & Hs)]; [done |]. fold c in Hs.
      destruct (Hall f) as [Hof (Hk1 & Hk2 & Hk3)]; [right; left; constructor |].
      assert (lock_ok (f <| fl_end := fl_start c - 1 |>)) by (unfold lock_ok; cbn; lia).
      split_and!; [exact Hof | done | done |]. intros p Hp. apply (HcPR p f); [done |]. constructor.
    + apply list_elem_of_singleton in Hl as ->.
      destruct (Hall r) as [Hof (Hk1 & Hk2 & Hk3)]; [do 3 right; constructor |].
      assert (lock_ok l') by (unfold lock_ok; rewrite E1, E2, E3; lia).
      split_and!; [done | done | done |]. intros p Hp. rewrite E1. apply (HcPR p r); [done |]. constructor.
  - intros l Hl. destruct HM as [[_ ->] | (HTu & c' & -> & E1 & E2 & E3 & Ho)]; [by apply elem_of_nil in Hl |].
    apply list_elem_of_singleton in Hl as ->.
    assert (lock_ok c') by (unfold lock_ok; rewrite E1, E2, E3; split_and!; try lia; tauto).
    done.
  - intros l Hl. destruct HR as [[-> Hb] | (r & R2 & -> & -> & Ht & Hb)].
    + destruct (Hall l) as [? ?]; [by do 3 right |]. auto.
    + apply elem_of_cons in Hl as [-> | Hl].
      * destruct (Hall r) as [Hof (Hk1 & Hk2 & Hk3)]; [do 3 right; constructor |].
        assert (lock_ok (r <| fl_start := fl_end c + 1 |>)) by (unfold lock_ok; cbn; lia).
        split_and!; [exact Hof | done | cbn; lia].
      * destruct (Hall l) as [? ?]; [do 3 right; by constructor |]. split_and!; try done.
        apply StronglySorted_inv in HcR as [_ HcR]. rewrite Forall_forall in HcR. specialize (HcR l Hl). lia.
  - done.
  - destruct HR as [[-> _] | (r & R2 & -> & -> & _)]; [done |].
    apply StronglySorted_inv in HcR as [HcR1 HcR2]. by constructor.
Qed.

Lemma final_chain : chain (P ++ L ++ M ++ R') /\ forall l, l ∈ P ++ L ++ M ++ R' -> own l /\ lock_ok l.
Proof.
  destruct final_parts as (F1 & F2 & F3 & F4 & F5 & F6).
  pose proof (wi_range _ _ _ _ _ _ Hi) as [Hr1 Hr2]. fold c in Hr1, Hr2.
  split; [| intros l [Hl | [Hl | [Hl | Hl]%elem_of_app]%elem_of_app]%elem_of_app;
    [by destruct (F1 l Hl) as (? & ? & _) | by destruct (F2 l Hl) as (? & ? & _)
    | by destruct (F3 l Hl) as (? & ? & _) | by destruct (F4 l Hl) as (? & ? & _)]].
  rewrite !chain_app. split_and!; try done.
  - destruct HL as [(_ & -> & _) | [(f & _ & -> & _) | (r & R2 & l & _ & _ & _ & _ & -> & _)]];
      (apply chain_nil || apply chain_single).
  - destruct HM as [[_ ->] | (_ & c' & -> & _)]; (apply chain_nil || apply chain_single).
  - intros a b Ha Hb. destruct (F3 a Ha) as (_ & _ & ? & ?), (F4 b Hb) as (_ & _ & ?). lia.
  - intros a b Ha [Hb | Hb]%elem_of_app; destruct (F2 a Ha) as (_ & _ & ? & _);
      [destruct (F3 b Hb) as (_ & _ & ? & _) | destruct (F4 b Hb) as (_ & _ & ?)]; lia.
  - intros a b Ha Hb. destruct (F1 a Ha) as (_ & _ & ?).
    rewrite !elem_of_app in Hb. destruct Hb as [Hb | [Hb | Hb]].
    + destruct (F2 b Hb) as (_ & _ & _ & ?). auto.
    + destruct (F3 b Hb) as (_ & _ & ? & _). lia.
    + destruct (F4 b Hb) as (_ & _ & ?). lia.
Qed.

Lemma types_not_unlck l : l ∈ O -> fl_type l <> F_UNLCK.
Proof. intros Hl. destruct (Hok l Hl) as (_ & _ & [-> | ->]); done. Qed.

(** Nothing is locked twice or lost. *)
Lemma final_locked_from b t :
  locked (P ++ L ++ M ++ R') b t -> (S_ <= b <= E_ /\ t = T /\ T <> F_UNLCK) \/ (~ S_ <= b <= E_ /\ locked O b t).
Proof.
  pose proof (wi_range _ _ _ _ _ _ Hi) as [Hr1 Hr2]. fold c in Hr1, Hr2.
  rewrite (wi_split _ _ _ _ _ _ Hi). intros (l & Hl & Hb & <-). unfold covers in Hb.
  destruct final_parts as (F1 & F2 & F3 & F4 & _ & _). rewrite !elem_of_app in Hl.
  destruct Hl as [Hl | [Hl | [Hl | Hl]]].
  - destruct (F1 l Hl) as (_ & _ & He). right. split; [lia |]. exists l. split; [in_list | done].
  - destruct (F2 l Hl) as (_ & _ & He & _). right. split; [lia |].
    destruct HL as [(_ & -> & _) | [(f & -> & -> & _) | (r & R2 & l' & -> & -> & -> & Hlt & -> & E1 & E2 & _)]].
    + by apply elem_of_nil in Hl.
    + apply list_elem_of_singleton in Hl as ->. exists f. split; [in_list |]. split; [| done].
      destruct (wi_left _ _ _ _ _ _ Hi) as [[? _] | (f' & [= <-] & _ & Hf & _ & _ & Hs)]; [done |].
      fold c in Hs. unfold covers. cbn in Hb. lia.
    + apply list_elem_of_singleton in Hl as ->. exists r. split; [in_list |]. split; [| done].
      assert (r ∈ O) as Hro by (rewrite (wi_split _ _ _ _ _ _ Hi); in_list).
      unfold covers. destruct HR as [[_ Hbe] | (r2 & R3 & [= <- <-] & _ & _ & Hcut)]; [| lia].
      pose proof (Hbe r ltac:(in_list)). lia.
  - destruct (F3 l Hl) as (_ & _ & Es & Ee).
    destruct HM as [[_ ->] | (HTu & c' & -> & _ & _ & Et & _)]; [by apply elem_of_nil in Hl |].
    apply list_elem_of_singleton in Hl as ->. destruct (decide (S_ <= b <= E_)) as [Hin | Hin]; [by left | right].
    split; [done |]. destruct (wi_cover _ _ _ _ _ _ Hi b) as [? | (d & Hd & Hdb & Hdt)];
      [unfold covers; fold c; lia | done |].
    exists d. split; [in_list |]. split; [done | by rewrite Et].
  - destruct (F4 l Hl) as (_ & _ & He). right. split; [lia |].
    destruct HR as [[-> _] | (r & R2 & -> & -> & Ht & Hcut)].
    + exists l. split; [in_list | done].
    + apply elem_of_cons in Hl as [-> | Hl]; [| exists l; split; [in_list | done]].
      exists r. split; [in_list |]. split; [| done]. unfold covers. cbn in Hb. lia.
Qed.

Lemma final_locked_to b t :
  (S_ <= b <= E_ /\ t = T /\ T <> F_UNLCK) \/ (~ S_ <= b <= E_ /\ locked O b t) -> locked (P ++ L ++ M ++ R') b t.
Proof.
  pose proof (wi_range _ _ _ _ _ _ Hi) as [Hr1 Hr2]. fold c in Hr1, Hr2.
  assert (T <> F_UNLCK -> covers c b -> locked (P ++ L ++ M ++ R') b T) as Hnew.
  { intros HTu Hcb. destruct HM as [[? _] | (_ & c' & -> & E1 & E2 & E3 & _)]; [done |].
    exists c'. split; [in_list |]. unfold covers in *. split; [lia | done]. }
  intros [(Hb & -> & HTu) | (Hout & l & Hl & Hb & <-)]; [apply Hnew; [done | unfold covers; lia] |].
  pose proof (types_not_unlck l Hl) as Hlu. rewrite (wi_split _ _ _ _ _ _ Hi), !elem_of_app in Hl.
  destruct Hl as [Hl | [Hl | [Hl | Hl]]].
  - exists l. split; [in_list | done].
  - destruct HL as [(-> & _ & _) | [(f & -> & -> & _) | (r & R2 & l' & _ & -> & _)]]; try by apply elem_of_nil in Hl.
    apply list_elem_of_singleton in Hl as ->.
    destruct (wi_left _ _ _ _ _ _ Hi) as [[? _] | (f' & [= <-] & _ & Hf & Hfe & _ & Hs)]; [done |]. fold c in Hs.
    eexists. split; [in_list |]. split; [| done]. unfold covers in *. cbn. lia.
  - destruct (wi_dead _ _ _ _ _ _ Hi l Hl) as [H1 H2]. fold c in H1. unfold covers in Hb.
    destruct (decide (fl_type l = T)) as [Ht | Ht]; [| destruct (H2 Ht); lia].
    rewrite Ht. destruct (H1 Ht). apply Hnew; [by rewrite <- Ht | unfold covers; lia].
  - destruct HR as [[-> _] | (r & R2 & -> & -> & Ht & Hcut)]; [exists l; split; [in_list | done] |].
    apply elem_of_cons in Hl as [-> | Hl]; [| exists l; split; [in_list | done]].
    unfold covers in Hb. destruct (decide (fl_end c < b)).
    { eexists. split; [rewrite !elem_of_app, elem_of_cons; right; right; right; left; reflexivity |].
      unfold covers. cbn. split; [lia | done]. }
    destruct (decide (b < fl_start c)).
    + destruct HL as [(_ & _ & Hge) | [(f & _ & _ & Hge) | (r2 & R3 & l' & [= <- <-] & _ & _ & _ & -> & E1 & E2 & _ & E3)]];
        [pose proof (Hge r ltac:(in_list)); lia | pose proof (Hge r ltac:(in_list)); lia |].
      exists l'. split; [in_list |]. unfold covers. split; [lia | done].
    + exfalso. destruct (wi_cover _ _ _ _ _ _ Hi b) as [? | (d & Hd & Hdb & _)]; [unfold covers; fold c; lia | done |].
      pose proof Hchain as Hc. rewrite (wi_split _ _ _ _ _ _ Hi), !app_assoc, chain_app in Hc.
      destruct Hc as (_ & _ & Hc). specialize (Hc d r ltac:(in_list) ltac:(in_list)). unfold covers in Hdb. lia.
Qed.

Lemma final_result : lock_result (P ++ L ++ M ++ R').
Proof.
  destruct final_chain as [H1 H2]. split_and!; [done | done |].
  intros b t. split; [apply final_locked_from | apply final_locked_to].
Qed.
End final.

Lemma cut_left_at i x X f Y :
  pre x = X ++ f :: Y -> i = length X ->
  let x' := cut_left (Some i) x in
  pre x' = X ++ f <| fl_end := s32 (fl_start (caller x) - 1) |> :: Y /\ rest x' = rest x /\ free x' = free x.
Proof.
  intros Hp -> x'. subst x'. cbn. rewrite Hp. split; [| done].
  rewrite alter_app_r_alt, Nat.sub_diag by lia. done.
Qed.

Lemma cut_right_at x r R2 :
  right x = true -> rest x = r :: R2 ->
  let x' := cut_right x in
  pre x' = pre x /\ rest x' = r <| fl_start := s32 (fl_end (caller x) + 1) |> :: R2 /\ free x' = free x /\
  caller x' = caller x.
Proof. intros Hr Hs x'. subst x'. unfold cut_right. rewrite Hr. cbn. by rewrite Hs. Qed.

(** What [lock_finish] makes of [Lf], [N] and [R] without a split. *)
Lemma finish_cuts x P Lf D N R new c :
  (stop_behind x P Lf D N R \/ stop_cuts x P Lf D N R) -> left x <> Some (length (pre x)) ->
  c = caller x -> new_end c (N ++ new) ->
  let x' := cut_left (left x) (cut_right (x <| pre ::= fun p => p ++ new |>)) in
  exists O', pre x' ++ rest x' = A ++ O' ++ B /\ lock_result O' /\
    (length (pre x') + length (rest x') = length (pre x) + length (rest x) + length new)%nat /\ free x' = free x.
Proof.
  intros Hstop Hleft Hc Hnew x'.
  assert (exists x0, walk_inv x0 P Lf D N R /\ caller x0 = c /\ pre x0 = pre x /\ rest x0 = rest x /\ left x0 = left x)
    as (x0 & Hi & Hc0 & Hp0 & Hr0 & Hl0).
  { destruct Hstop as [[Hi _] | (l0 & r & R2 & ER & Hi & _ & _ & _ & _ & [[Hl _] | [Hl _]])]; [by exists x | | done].
    eexists. split; [exact Hi |]. by subst. }
  pose proof (wi_range _ _ _ _ _ _ Hi) as [Hr1 Hr2]. rewrite Hc0 in Hr1, Hr2.
  pose proof (wi_pre _ _ _ _ _ _ Hi) as Hpre. pose proof (wi_rest _ _ _ _ _ _ Hi) as Hrest.
  rewrite Hp0 in Hpre. rewrite Hr0 in Hrest.
  set (y := x <| pre ::= fun p => p ++ new |>) in *.
  (* the right end *)
  assert (exists R', right_end c R R' /\ rest (cut_right y) = R' ++ B /\ pre (cut_right y) = pre x ++ new /\
      length R' = length R /\ free (cut_right y) = free x /\ caller (cut_right y) = c /\
      (forall r, r ∈ R -> fl_start c <= fl_start r)) as (R' & HR & Erest & Epre & Elen & Efree & Ecal & Hge).
  { destruct Hstop as [[Hi' Hb] | (l0 & r & R2 & ER & Hi' & Hrt & Hty & Hcut & _ & Hl)].
    - exists R. unfold cut_right. change (right y) with (right x). rewrite (wi_right _ _ _ _ _ _ Hi').
      split_and!; try done; [left; split; [done | by subst] |].
      intros r Hr. pose proof (Hb r Hr). subst. lia.
    - destruct Hl as [[Hl Hge] | [Hl _]]; [| done].
      rewrite ER in Hrest. destruct (cut_right_at y r (R2 ++ B) Hrt Hrest) as (E1 & E2 & E3 & E4).
      assert (r ∈ O) as Hro by (rewrite (wi_split _ _ _ _ _ _ Hi), ER; in_list).
      destruct (Hok r Hro) as (? & ? & _).
      change (caller y) with (caller x) in *. rewrite <- Hc in *. unfold OFFSET_MAX in *. rewrite s32_small in E2 by lia.
      exists (r <| fl_start := fl_end c + 1 |> :: R2). split_and!; try done.
      + right. exists r, R2. split_and!; done || lia.
      + by rewrite ER.
      + intros r' Hr'. rewrite ER in Hr'. apply elem_of_cons in Hr' as [-> | Hr']; [done |].
        pose proof Hchain as Hch. rewrite (wi_split _ _ _ _ _ _ Hi), ER in Hch.
        rewrite !app_assoc, chain_app in Hch. destruct Hch as (_ & Hch & _).
        apply StronglySorted_inv in Hch as [_ Hch]. rewrite Forall_forall in Hch. specialize (Hch r' Hr'). lia. }
  set (y' := cut_right y) in *. subst x'.
  destruct (wi_left _ _ _ _ _ _ Hi) as [[-> Hn] | (f & -> & Hsome & _ & _ & _ & Hs)].
  - rewrite <- Hl0, Hn. cbn [cut_left].
    exists (P ++ [] ++ (N ++ new) ++ R'). split_and!.
    + rewrite Epre, Erest, Hpre. cbn. by rewrite <- !app_assoc.
    + eapply (final_result x0); [exact Hi | rewrite Hc0 | rewrite Hc0 | rewrite Hc0]; try done. left. done.
    + rewrite Epre, Erest, Hrest, !length_app, Elen. lia.
    + done.
  - rewrite <- Hl0, Hsome.
    destruct (cut_left_at (length (A ++ P)) y' (A ++ P) f (N ++ new)) as (E1 & E2 & E3); [| done |].
    { rewrite Epre, Hpre. cbn. by rewrite <- !app_assoc. }
    rewrite Ecal in E1. unfold OFFSET_MAX in *. rewrite s32_small in E1 by lia.
    exists (P ++ [f <| fl_end := fl_start c - 1 |>] ++ (N ++ new) ++ R'). split_and!.
    + rewrite E1, E2, Erest. rewrite <- !app_assoc. cbn. by rewrite <- !app_assoc.
    + eapply (final_result x0); [exact Hi | rewrite Hc0 | rewrite Hc0 | rewrite Hc0]; try done.
      right; left. exists f. done.
    + rewrite E1, E2, Erest, Hrest, Hpre, !length_app, Elen. cbn. rewrite length_app. lia.
    + by rewrite E3.
Qed.

(** The lock that is cut in two: [l] is the copy to the left. *)
Lemma finish_split x P R r R2 l new c :
  stop_cuts x P [] [] [] R -> rest x = r :: R2 -> fl_start r < fl_start (caller x) ->
  c = caller x -> new_end c new ->
  fl_start l = fl_start r -> fl_end l = fl_end r -> fl_type l = fl_type r -> own l ->
  let x' := cut_left (Some (length (pre x))) (cut_right (x <| pre ::= fun p => p ++ l :: new |>)) in
  exists O', pre x' ++ rest x' = A ++ O' ++ B /\ lock_result O' /\
    (length (pre x') + length (rest x') = length (pre x) + length (rest x) + S (length new))%nat /\ free x' = free x.
Proof.
  intros (l0 & r' & R3 & ER & Hi & Hrt & Hty & Hcut & _) Hrest Hlt Hc Hnew E1 E2 E3 Ho x'.
  pose proof (wi_range _ _ _ _ _ _ Hi) as [Hr1 Hr2]. cbn in Hr1, Hr2. rewrite <- Hc in Hr1, Hr2, Hlt, Hcut.
  pose proof (wi_rest _ _ _ _ _ _ Hi) as Hrest'. cbn in Hrest'. rewrite Hrest, ER in Hrest'.
  injection Hrest' as <- HR2. pose proof (wi_pre _ _ _ _ _ _ Hi) as Hpre. cbn in Hpre.
  assert (r ∈ O) as Hro by (rewrite (wi_split _ _ _ _ _ _ Hi), ER; in_list).
  destruct (Hok r Hro) as (? & ? & _).
  set (y := x <| pre ::= fun p => p ++ l :: new |>) in *.
  destruct (cut_right_at y r R2 Hrt Hrest) as (D1 & D2 & D3 & D4).
  change (caller y) with (caller x) in *. rewrite <- Hc in *.
  destruct (cut_left_at (length (pre x)) (cut_right y) (pre x) l new) as (F1 & F2 & F3); [by rewrite D1 | done |].
  rewrite D4 in F1. unfold OFFSET_MAX in *. rewrite s32_small in D2, F1 by lia. subst x'.
  exists (P ++ [l <| fl_end := fl_start c - 1 |>] ++ new ++ (r <| fl_start := fl_end c + 1 |> :: R3)). split_and!.
  - rewrite F1, F2, D2, Hpre, HR2, !app_nil_r. rewrite <- !app_assoc. cbn. by rewrite <- ?app_assoc.
  - eapply (final_result (x <| right := false |> <| left := l0 |>)); [exact Hi | | |]; cbn; rewrite <- Hc.
    + right; right. exists r, R3, (l <| fl_end := fl_start c - 1 |>). by split_and!.
    + right. exists r, R3. split_and!; done || lia.
    + done.
  - rewrite F1, F2, D2, Hrest, length_app. cbn. lia.
  - by rewrite F3, D3.
Qed.

(** A request that fails before anything was changed. *)
Lemma untouched x P Lf R : walk_inv x P Lf [] [] R -> pre x ++ rest x = A ++ O ++ B.
Proof.
  intros []. rewrite wi_pre0, wi_rest0, wi_split0. rewrite app_nil_r, <- !app_assoc. done.
Qed.

(** The walk before the loop stopped. *)
Lemma stop_inv x P Lf D N R :
  stop_behind x P Lf D N R \/ stop_cuts x P Lf D N R ->
  exists x0, walk_inv x0 P Lf D N R /\ pre x0 = pre x /\ rest x0 = rest x /\ caller x0 = caller x /\
    added x0 = added x.
Proof. intros [[Hi _] | (l0 & r & R2 & ER & Hi & _)]; [by exists x | by eexists]. Qed.

Lemma own_task t fd l : fl_owner q = t -> fl_fd q = fd -> fl_owner l = t -> fl_fd l = fd -> own l.
Proof. intros E1 E2 E3 E4. apply same_owner_spec. by rewrite E1, E2. Qed.

Lemma lock_place_spec t fd w x P Lf D N R :
  fl_owner q = t -> fl_fd q = fd -> stop_behind x P Lf D N R \/ stop_cuts x P Lf D N R ->
  match lock_place t fd w x with
  | inl e => added x = false /\ ((e = - EINVAL /\ T = F_UNLCK) \/ (e = - ENOLCK /\ free x = []))
  | inr (new, free', _) => new_end (caller x) (N ++ new) /\
      (length new + length free' = length (free x))%nat /\ (new = [] \/ D = [] /\ N = [] /\ T <> F_UNLCK)
  end.
Proof.
  intros Hqt Hqf Hstop. destruct (stop_inv _ _ _ _ _ _ Hstop) as (x0 & Hi & _ & _ & Hc0 & Ha0).
  destruct (wi_caller _ _ _ _ _ _ Hi) as [HcT Hco]. rewrite Hc0 in HcT, Hco.
  unfold lock_place. destruct (added x) eqn:Hadd.
  - split_and!; [| done | by left]. rewrite app_nil_r.
    destruct (wi_new _ _ _ _ _ _ Hi) as [(-> & _ & Hu & _) | (-> & _ & _ & HTu & _)].
    + left. split; [apply Hu; congruence | done].
    + right. split; [done |]. exists (caller x). rewrite Hc0. by split_and!.
  - rewrite HcT. destruct (T =? F_UNLCK) eqn:ET; bool_simp; [split; [done |]; by left |].
    unfold alloc_lock. destruct (free x) as [| id f]; [split; [done |]; by right |].
    assert (D = []) by (apply (wi_old _ _ _ _ _ _ Hi); congruence).
    destruct (wi_new _ _ _ _ _ _ Hi) as [(-> & _) | (_ & _ & ? & _)]; [| congruence].
    split_and!; [| done | by right]. right. split; [done |]. eexists. split; [reflexivity |].
    split_and!; try done. by apply (own_task t fd).
Qed.

(** Nothing was found to unlock: no byte of the request is locked. *)
Lemma stop_unlocked x P Lf D N R b ty :
  stop_behind x P Lf D N R \/ stop_cuts x P Lf D N R ->
  added x = false -> T = F_UNLCK -> S_ <= b <= E_ -> ~ locked O b ty.
Proof.
  intros Hstop Hadd HTu Hb (l & Hl & Hlb & _).
  destruct (stop_inv _ _ _ _ _ _ Hstop) as (x0 & Hi & _ & _ & Hc0 & Ha0).
  assert (D = []) as -> by (apply (wi_old _ _ _ _ _ _ Hi); congruence).
  destruct (inv_range _ _ _ _ _ _ Hi eq_refl) as [Es Ee].
  assert (Lf = []) as -> by (apply (wi_unlck _ _ _ _ _ _ Hi); [done | congruence]).
  rewrite (wi_split _ _ _ _ _ _ Hi), !elem_of_app in Hl. unfold covers in Hlb.
  destruct Hl as [Hl | [Hl | [Hl | Hl]]]; try by apply elem_of_nil in Hl.
  - pose proof (wi_passed _ _ _ _ _ _ Hi l Hl). lia.
  - destruct Hstop as [[_ Hbe] | (l0 & r & R2 & _ & _ & _ & _ & _ & Hu & _)]; [| by rewrite Hu in Hadd].
    pose proof (Hbe l Hl). rewrite <- Hc0 in *. lia.
Qed.

Lemma lock_finish_spec t fd w x P Lf D N R :
  fl_owner q = t -> fl_fd q = fd ->
  stop_behind x P Lf D N R \/ stop_cuts x P Lf D N R ->
  let '(r, x', _) := lock_finish t fd w x in
  places x' = places x /\
  ((r = 0 /\ exists O', pre x' ++ rest x' = A ++ O' ++ B /\ lock_result O') \/
   (pre x' ++ rest x' = A ++ O ++ B /\
    ((r = - EINVAL /\ T = F_UNLCK /\ forall b t, S_ <= b <= E_ -> ~ locked O b t) \/
     (r = - ENOLCK /\ (length (free x') <= 1)%nat)))).
Proof.
  intros Hqt Hqf Hstop. pose proof (lock_place_spec t fd w x P Lf D N R Hqt Hqf Hstop) as Hplace.
  pose proof (fun b ty => stop_unlocked x P Lf D N R b ty Hstop) as Hunl.
  destruct (stop_inv _ _ _ _ _ _ Hstop) as (x0 & Hi & Hp0 & Hr0 & Hc0 & Ha0).
  unfold lock_finish. destruct (lock_place t fd w x) as [e | [[new free'] w']].
  { destruct Hplace as [Hadd He].
    assert (D = []) as -> by (apply (wi_old _ _ _ _ _ _ Hi); congruence).
    destruct (wi_new _ _ _ _ _ _ Hi) as [(-> & _) | (_ & _ & ? & _)]; [| congruence].
    split; [done |]. right. rewrite <- Hp0, <- Hr0. split; [by eapply untouched |].
    destruct He as [[-> HTu] | [-> Hf]]; [left | right; rewrite Hf; split; [done | cbn; lia]].
    split_and!; try done. intros b ty. by apply Hunl. }
  destruct Hplace as (Hnew & Hlen & HDN).
  assert (left x <> Some (length (pre x)) -> let x' := cut_left (left x)
      (cut_right (x <| free := free' |> <| pre ::= fun p => p ++ new |>)) in
    places x' = places x /\ (exists O', pre x' ++ rest x' = A ++ O' ++ B /\ lock_result O')) as Hcuts.
  { intros Hl x'. destruct (finish_cuts (x <| free := free' |>) P Lf D N R new (caller x)) as (O' & E1 & E2 & E3 & E4);
      try done.
    - destruct Hstop as [[Hi' Hb] | (l0 & r & R2 & ER & Hi' & Hrest)]; [left | right].
      + split; [by destruct Hi' | done].
      + exists l0, r, R2. split_and!; try apply Hrest; try done. by destruct Hi'.
    - split; [| by exists O']. unfold places. subst x'. cbn in E3, E4 |- *. rewrite E4. lia. }
  destruct (left x) as [i |] eqn:El; [destruct (right x) eqn:Er; [destruct (decide (i = length (pre x))) as [-> | Hne] |] |].
  - destruct Hstop as [[Hi' _] | Hcut]; [by rewrite (wi_right _ _ _ _ _ _ Hi') in Er |].
    pose proof Hcut as (l0 & r & R2 & ER & Hi' & _ & Hty & Hrc & Hu & Hl).
    pose proof (wi_rest _ _ _ _ _ _ Hi') as Hrest. cbn in Hrest. rewrite ER in Hrest. cbn in Hrest.
    destruct Hl as [[Hl _] | (_ & Hlt & -> & -> & ->)].
    { exfalso. destruct (wi_left _ _ _ _ _ _ Hi') as [[_ Hl'] | (f & -> & Hl' & _)]; cbn in Hl'; rewrite <- Hl, El in Hl'; [done |].
      injection Hl' as Hl'. pose proof (wi_pre _ _ _ _ _ _ Hi') as Hpre. cbn in Hpre.
      rewrite Hpre in Hl'. rewrite !length_app in Hl'. cbn in Hl'. lia. }
    cbn [app] in Hnew. rewrite Hrest. unfold alloc_lock. cbn [free upd].
    destruct free' as [| id f'].
    + split; [unfold places; cbn; rewrite ?length_app, ?length_map; cbn [length] in *; lia |].
      right. cbn. rewrite <- Hp0. rewrite <- Hr0.
      split; [by eapply untouched |]. right. split; [done |].
      destruct Hnew as [[_ ->] | (_ & c' & -> & _)]; cbn; lia.
    + destruct (finish_split (x <| free := f' |>) P R r (R2 ++ B)
        (r <| fl_id := id |> <| fl_owner := t |> <| fl_fd := fd |>) new (caller x)) as (O' & E1 & E2 & E3 & E4);
        try done.
      * exists l0, r, R2. split_and!; try done; first [by destruct Hi' | cbn; lia | right; by split_and!].
      * by apply (own_task t fd).
      * cbn in E1, E3, E4, Hlen |- *. split; [| left; split; [done |]; by exists O'].
        unfold places. cbn. rewrite E4. lia.
  - destruct Hcuts as [H1 H2]; [congruence |]. split; [exact H1 | by left].
  - destruct Hcuts as [H1 H2].
    { intros [= ->]. destruct Hstop as [[Hi' _] | (l0 & r & R2 & _ & _ & Hrt & _)]; [| congruence].
      destruct (wi_left _ _ _ _ _ _ Hi') as [[_ Hl'] | (f & -> & Hl' & _)]; [congruence |].
      rewrite El in Hl'. injection Hl' as Hl'. rewrite (wi_pre _ _ _ _ _ _ Hi') in Hl'.
      rewrite !length_app in Hl'. cbn in Hl'. lia. }
    split; [exact H1 | by left].
  - destruct Hcuts as [H1 H2]; [done |]. split; [exact H1 | by left].
Qed.
End lock_it.

Lemma find_owner_spec q A O B :
  (forall l, l ∈ A -> same_owner q l = false) -> (forall l, l ∈ O -> same_owner q l = true) -> (O = [] -> B = []) ->
  find_owner q (A ++ O ++ B) = (A, O ++ B).
Proof.
  intros HA HO HB. induction A as [| a A IH]; cbn [app find_owner].
  - destruct O as [| o O]; [by rewrite HB |]. cbn [app find_owner]. by rewrite HO by constructor.
  - rewrite HA by constructor. rewrite IH; [done |]. intros l Hl. apply HA. by constructor.
Qed.

Lemma lock_it_sets q fd m s A O B :
  fl_owner q = current s -> fl_fd q = fd ->
  i_flock m = A ++ O ++ B -> (O = [] -> B = []) ->
  (forall l, l ∈ A \/ l ∈ B -> same_owner q l = false) -> (forall l, l ∈ O -> same_owner q l = true) ->
  chain O -> (forall l, l ∈ O -> lock_ok l) ->
  0 <= fl_start q <= fl_end q /\ fl_end q <= OFFSET_MAX ->
  fl_type q = F_RDLCK \/ fl_type q = F_WRLCK \/ fl_type q = F_UNLCK ->
  fl_end q < OFFSET_MAX \/ (forall l, l ∈ O -> fl_type l <> fl_type q) ->
  let '(r, m', _) := lock_it q fd m s in
  (length (i_flock m') + length (file_lock_free_list m') =
   length (i_flock m) + length (file_lock_free_list m))%nat /\
  ((r = 0 /\ exists O', i_flock m' = A ++ O' ++ B /\ lock_result q O O') \/
   (i_flock m' = i_flock m /\
    ((r = - EINVAL /\ fl_type q = F_UNLCK /\ forall b t, fl_start q <= b <= fl_end q -> ~ locked O b t) \/
     (r = - ENOLCK /\ (length (file_lock_free_list m) <= 1)%nat)))).
Proof.
  intros Ho Hf Hl HOB HAB HO Hch Hok Hq HT Hmax. unfold lock_it. rewrite Hl, find_owner_spec by auto.
  set (x0 := mk_walk _ _ _ _ _ _ _ _ _).
  assert (walk_inv q A O B x0 [] [] [] [] O) as Hi.
  { constructor; cbn; try done; try lia; try (by left).
    - by rewrite app_nil_r.
    - split; [done |]. by apply same_owner_spec.
    - by intros d ?%elem_of_nil.
    - by intros d ?%elem_of_nil. }
  destruct (walk_locks_inv q A O B) with (n := length (O ++ B)) (x := x0)
    (P := @nil file_lock) (Lf := @nil file_lock) (D := @nil file_lock) (N := @nil file_lock) (R := O)
    as (Hpl & P & Lf & D & N & R & Hstop); try done.
  { intros l Hl' Hown. rewrite HAB in Hown by auto. done. }
  { rewrite length_app. lia. }
  set (x := walk_locks (length (O ++ B)) x0) in *. clearbody x.
  pose proof (lock_finish_spec q A O B) as Hfin.
  specialize (Hfin ltac:(intros l Hl' Hown; rewrite HAB in Hown by auto; done) HO Hch Hok Hq HT Hmax
    (current s) fd (fl_wait m) x P Lf D N R Ho Hf Hstop).
  destruct (lock_finish (current s) fd (fl_wait m) x) as [[r x'] w]. cbn [i_flock file_lock_free_list].
  destruct Hfin as [Hp Hfin]. rewrite Hpl in Hp. unfold places in Hp. cbn in Hp.
  rewrite !length_app in *. split; [lia |]. destruct Hfin as [Hres | [Hsame Herr]]; [by left | right].
  split; [done |]. destruct Herr as [? | [-> Hfree]]; [by left | right]. split; [done |].
  apply (f_equal length) in Hsame. rewrite !length_app in Hsame. lia.
Qed.


(** ** Exclusion *)

Definition owner_key (l : file_lock) : tptr * Z := (fl_owner l, fl_fd l).

Lemma same_owner_key a b : same_owner a b = true <-> owner_key a = owner_key b.
Proof.
  rewrite same_owner_spec. unfold owner_key. split; [by intros [-> ->] | by intros [= -> ->]].
Qed.
Lemma same_owner_key_ne a b : same_owner a b = false <-> owner_key a <> owner_key b.
Proof. rewrite <- same_owner_key. by rewrite not_true_iff_false. Qed.

(** The list of a file consists of one group of locks for each owner, ordered
    and disjoint. *)
Definition group : Type := (tptr * Z) * list file_lock.
Definition group_ok (g : group) : Prop :=
  g.2 <> [] /\ chain g.2 /\ forall l, l ∈ g.2 -> owner_key l = g.1 /\ lock_ok l.
Definition grouped (ls : list file_lock) : Prop := exists gs : list group,
  ls = concat (map snd gs) /\ NoDup (map fst gs) /\ forall g, g ∈ gs -> group_ok g.

(** Two owners share a byte only for reading. *)
Definition exclusive (ls : list file_lock) : Prop := forall x y b,
  x ∈ ls -> y ∈ ls -> owner_key x <> owner_key y -> covers x b -> covers y b ->
  fl_type x = F_RDLCK /\ fl_type y = F_RDLCK.

Lemma elem_of_groups gs l :
  l ∈ concat (map snd gs) <-> exists g : group, g ∈ gs /\ l ∈ g.2.
Proof.
  rewrite list_elem_of_In, in_concat. split.
  - intros (ls & Hls & Hl). apply in_map_iff in Hls as (g & <- & Hg).
    exists g. by rewrite !list_elem_of_In.
  - intros (g & Hg & Hl). exists g.2. rewrite <- list_elem_of_In. split; [| by apply list_elem_of_In].
    by apply list_elem_of_fmap_2.
Qed.

(** The locks of one owner, with the groups before and after them. *)
Lemma grouped_split ls q : grouped ls ->
  exists gs1 gs2 O, ls = concat (map snd gs1) ++ O ++ concat (map snd gs2) /\
    (O = [] -> gs2 = []) /\ chain O /\ (forall l, l ∈ O -> owner_key l = owner_key q /\ lock_ok l) /\
    NoDup (owner_key q :: map fst (gs1 ++ gs2)) /\ (forall g, g ∈ gs1 ++ gs2 -> group_ok g).
Proof.
  intros (gs & -> & Hnd & Hok). destruct (decide (owner_key q ∈ map fst gs)) as [Hin | Hin].
  - apply list_elem_of_fmap in Hin as ([k O] & Hk & Hg). cbn in Hk. subst k.
    apply list_elem_of_split in Hg as (gs1 & gs2 & ->). exists gs1, gs2, O.
    destruct (Hok (owner_key q, O)) as (Hne & Hch & Hl); [set_solver |].
    rewrite map_app, concat_app. cbn. split_and!; try done.
    + rewrite map_app in *. cbn in Hnd. by rewrite <- Permutation_middle in Hnd.
    + intros g Hg. apply Hok. set_solver.
  - exists gs, [], []. cbn. rewrite !app_nil_r.
    split_and!; [done | done | constructor | by intros l ?%elem_of_nil | by constructor | done].
Qed.

Lemma grouped_join (gs1 gs2 : list group) q O :
  chain O -> (forall l, l ∈ O -> owner_key l = owner_key q /\ lock_ok l) ->
  NoDup (owner_key q :: map fst (gs1 ++ gs2)) -> (forall g, g ∈ gs1 ++ gs2 -> group_ok g) ->
  grouped (concat (map snd gs1) ++ O ++ concat (map snd gs2)).
Proof.
  intros Hch Hl Hnd Hok. destruct (decide (O = [])) as [-> | Hne].
  - exists (gs1 ++ gs2). apply NoDup_cons in Hnd as [_ Hnd].
    split_and!; [by rewrite map_app, concat_app | done | done].
  - exists (gs1 ++ (owner_key q, O) :: gs2). split_and!.
    + rewrite map_app, concat_app. done.
    + rewrite map_app in *. cbn. by rewrite <- Permutation_middle.
    + intros g [Hg | [-> | Hg]%elem_of_cons]%elem_of_app; [apply Hok; set_solver | done | apply Hok; set_solver].
Qed.

Definition request_ok (q : file_lock) : Prop :=
  0 <= fl_start q <= fl_end q /\ fl_end q <= OFFSET_MAX /\
  (fl_type q = F_RDLCK \/ fl_type q = F_WRLCK \/ fl_type q = F_UNLCK).
(** The request does not run into the overflow of [fl_end + 1]. *)
Definition request_fits (q : file_lock) (ls : list file_lock) : Prop :=
  fl_end q < OFFSET_MAX \/ forall l, l ∈ ls -> owner_key l = owner_key q -> fl_type l <> fl_type q.

Lemma lock_it_exclusive q fd m s :
  fl_owner q = current s -> fl_fd q = fd -> request_ok q -> request_fits q (i_flock m) ->
  (fl_type q <> F_UNLCK -> forall l, l ∈ i_flock m -> conflict q l = false) ->
  grouped (i_flock m) -> exclusive (i_flock m) ->
  let '(_, m', _) := lock_it q fd m s in grouped (i_flock m') /\ exclusive (i_flock m').
Proof.
  intros Ho Hf (Hq1 & Hq2 & HT) Hfit Hcf Hgr Hex.
  destruct (grouped_split (i_flock m) q Hgr) as (gs1 & gs2 & O & Hls & HO & Hch & HOl & Hnd & Hok).
  assert (forall l, l ∈ concat (map snd gs1) \/ l ∈ concat (map snd gs2) -> owner_key l <> owner_key q) as Hother.
  { intros l Hl. assert (exists g, g ∈ gs1 ++ gs2 /\ l ∈ g.2) as (g & Hg & Hlg).
    { destruct Hl as [(g & ? & ?)%elem_of_groups | (g & ? & ?)%elem_of_groups]; exists g; set_solver. }
    destruct (Hok g Hg) as (_ & _ & Hkey). destruct (Hkey l Hlg) as [-> _]. intros Heq.
    apply NoDup_cons in Hnd as [Hnd _]. apply Hnd. rewrite <- Heq. by apply list_elem_of_fmap_2. }
  pose proof (lock_it_sets q fd m s _ O _ Ho Hf Hls) as H.
  destruct (lock_it q fd m s) as [[r m'] s']. destruct H as [_ H].
  { intros HO'. by rewrite HO. }
  { intros l Hl. apply same_owner_key_ne. apply not_eq_sym. by apply Hother. }
  { intros l Hl. apply same_owner_key. symmetry. by apply HOl. }
  { done. }
  { intros l Hl. by apply HOl. }
  { done. }
  { done. }
  { destruct Hfit as [? | Hfit]; [by left | right]. intros l Hl. apply Hfit; [| by apply HOl].
    rewrite Hls, !elem_of_app. tauto. }
  destruct H as [(_ & O' & Hm' & Hch' & HO' & Hlk) | [-> _]]; [| done].
  assert (forall l, l ∈ O' -> owner_key l = owner_key q /\ lock_ok l) as HOl'.
  { intros l Hl. destruct (HO' l Hl) as [Hk ?]. by apply same_owner_key in Hk. }
  rewrite Hm'. split; [by eapply grouped_join |].
  (* a lock of the owner and one of another *)
  assert (forall x y b, x ∈ O' -> y ∈ concat (map snd gs1) \/ y ∈ concat (map snd gs2) ->
            covers x b -> covers y b -> fl_type x = F_RDLCK /\ fl_type y = F_RDLCK) as Hpair.
  { intros x y b Hx Hy Hbx Hby. assert (y ∈ i_flock m) as Hyl by (rewrite Hls, !elem_of_app; tauto).
    assert (locked O' b (fl_type x)) as Hl by (by exists x).
    apply Hlk in Hl as [(Hb & -> & HTu) | (_ & l & Hl & Hbl & <-)].
    - specialize (Hcf HTu y Hyl). unfold conflict in Hcf.
      assert (same_owner q y = false) as E by (apply same_owner_key_ne, not_eq_sym, Hother; done).
      assert (overlap q y = true) as E'.
      { unfold overlap, covers in *. apply andb_true_iff. split; apply Z.leb_le; lia. }
      rewrite E, E' in Hcf. cbn [negb] in Hcf.
      destruct (fl_type q =? F_RDLCK) eqn:E1; bool_simp; [done |]. destruct HT as [? | [? | ?]]; done.
    - apply (Hex l y b); try done.
      + rewrite Hls, !elem_of_app. tauto.
      + destruct (HOl l Hl) as [-> _]. apply not_eq_sym. by apply Hother. }
  intros x y b Hx Hy Hne Hbx Hby. rewrite !elem_of_app in Hx, Hy.
  assert (x ∈ O' \/ (x ∈ concat (map snd gs1) \/ x ∈ concat (map snd gs2))) as [Hx' | Hx'] by tauto;
    assert (y ∈ O' \/ (y ∈ concat (map snd gs1) \/ y ∈ concat (map snd gs2))) as [Hy' | Hy'] by tauto.
  - destruct (HOl' x Hx') as [E1 _], (HOl' y Hy') as [E2 _]. congruence.
  - by apply (Hpair x y b).
  - destruct (Hpair y x b) as [? ?]; done.
  - apply (Hex x y b); try done; rewrite Hls, !elem_of_app; tauto.
Qed.

Lemma copy_flock_ok filp c l fd q :
  - 2 ^ 31 <= l_len l < 2 ^ 31 -> copy_flock filp c l fd = Some q ->
  0 <= fl_start q <= fl_end q /\ fl_end q <= OFFSET_MAX /\ fl_owner q = c /\ fl_fd q = fd /\
  (fl_type q = F_UNLCK \/ fl_type q = F_RDLCK \/ fl_type q = F_WRLCK \/ fl_type q = F_SHLCK \/ fl_type q = F_EXLCK).
Proof.
  intros Hlen. unfold copy_flock. destruct (_ || _); [done |].
  destruct (existsb _ _) eqn:Ety; [| done]. cbn [negb].
  destruct (if l_whence l =? 0 then _ else _) as [base |]; [| done]. cbn [mbind option_bind].
  set (st := s32 (base + l_start l)). destruct (_ || _) eqn:E; [done |]. bool_simp.
  pose proof (s32_bounds (base + l_start l)) as Hst. fold st in Hst.
  intros [= <-]. cbn. unfold OFFSET_MAX.
  apply existsb_exists in Ety as (x & Hx & Hxt). bool_simp. subst x.
  assert (s32 (st + l_len l - 1) = st + l_len l - 1 \/ s32 (st + l_len l - 1) < 0 \/ l_len l = 0) as Hw.
  { destruct (decide (l_len l = 0)); [by right; right |].
    destruct (decide (st + l_len l - 1 < 2 ^ 31)); [left; apply s32_small; lia | right; left].
    unfold swrap. rewrite (Zmod_eq_full) by lia.
    assert ((st + l_len l - 1 + 2 ^ (32 - 1)) / 2 ^ 32 = 1) as -> by (symmetry; apply Z.div_unique with (st + l_len l - 1 + 2 ^ (32 - 1) - 2 ^ 32); lia).
    lia. }
  pose proof (s32_bounds (st + l_len l - 1)).
  split_and!; try done; try lia.
  - destruct ((l_len l =? 0) || (s32 (st + l_len l - 1) <? 0)) eqn:E2; [lia |]. bool_simp. lia.
  - destruct ((l_len l =? 0) || (s32 (st + l_len l - 1) <? 0)) eqn:E2; [lia |]. lia.
  - cbn in Hx. destruct Hx as [<- | [<- | [<- | [<- | [<- | []]]]]]; tauto.
Qed.

(** The lock that a call of [fcntl_setlk] asks for. *)
Definition request_of (filp : lfile) (c : tptr) (l : flock) (fd : Z) : option file_lock :=
  q ← copy_flock filp c l fd; ty ← setlk_type (f_mode filp) (fl_type q); Some (q <| fl_type := ty |>).

Definition set_state (m : lock_state) (r : setlk_step) : lock_state :=
  match r with SetReturns _ m _ | SetSleeps _ m _ => m | SetPanics => m end.

Definition locks_ok (m : lock_state) : Prop := grouped (i_flock m) /\ exclusive (i_flock m).

Lemma setlk_try_ok fd cmd q m s :
  fl_owner q = current s -> fl_fd q = fd -> request_ok q -> request_fits q (i_flock m) ->
  locks_ok m -> locks_ok (set_state m (setlk_try fd cmd q m s)).
Proof.
  intros Ho Hf Hq Hfit [Hgr Hex]. unfold setlk_try.
  assert ((fl_type q <> F_UNLCK -> forall l, l ∈ i_flock m -> conflict q l = false) ->
          locks_ok (set_state m (let '(r, m, s) := lock_it q fd m s in SetReturns r m s))) as Hgo.
  { intros Hcf. pose proof (lock_it_exclusive q fd m s Ho Hf Hq Hfit Hcf Hgr Hex) as H.
    by destruct (lock_it q fd m s) as [[r m'] s']. }
  destruct (fl_type q =? F_UNLCK) eqn:E; bool_simp; [by apply Hgo |].
  destruct (list_find _ _) as [[i x] |] eqn:Efind.
  - destruct (cmd =? F_SETLKW); [| done]. destruct (signal_pending (cur s)); [done |].
    destruct (interruptible_sleep_on _ _) as [[w s'] |]; done.
  - apply Hgo. intros _ l Hl. apply list_find_None in Efind. rewrite Forall_forall in Efind.
    apply not_true_iff_false. by apply Efind.
Qed.

Lemma free_owned_spec c O B :
  (forall l, l ∈ O -> same_owner c l = true) -> (forall l, l ∈ B -> same_owner c l = false) ->
  free_owned c (O ++ B) = (map fl_id O, B).
Proof.
  intros HO HB. induction O as [| o O IH]; cbn [app free_owned map].
  - destruct B as [| b B]; [done |]. cbn. by rewrite HB by constructor.
  - rewrite HO by constructor. rewrite IH; [done |]. intros l Hl. apply HO. by constructor.
Qed.

Lemma remove_locks_ok t fd m s : locks_ok m -> locks_ok (fcntl_remove_locks t fd m s).1.
Proof.
  intros [Hgr Hex]. unfold fcntl_remove_locks. set (c := mk_file_lock _ _ _ _ _ _ _).
  destruct (grouped_split (i_flock m) c Hgr) as (gs1 & gs2 & O & Hls & HO & Hch & HOl & Hnd & Hok).
  assert (forall l, l ∈ concat (map snd gs1) \/ l ∈ concat (map snd gs2) -> same_owner c l = false) as Hother.
  { intros l Hl. apply same_owner_key_ne.
    assert (exists g, g ∈ gs1 ++ gs2 /\ l ∈ g.2) as (g & Hg & Hlg).
    { destruct Hl as [(g & ? & ?)%elem_of_groups | (g & ? & ?)%elem_of_groups]; exists g; set_solver. }
    destruct (Hok g Hg) as (_ & _ & Hkey). destruct (Hkey l Hlg) as [-> _]. intros Heq.
    apply NoDup_cons in Hnd as [Hnd _]. apply Hnd. rewrite Heq. by apply list_elem_of_fmap_2. }
  assert (forall l, l ∈ O -> same_owner c l = true) as HOc.
  { intros l Hl. apply same_owner_key. symmetry. by apply HOl. }
  rewrite Hls, find_owner_spec; [| by auto | done | intros HO'; by rewrite HO].
  rewrite free_owned_spec by auto. cbn [fst]. split.
  - apply (grouped_join gs1 gs2 c []); [constructor | by intros l ?%elem_of_nil | done | done].
  - intros x y b Hx Hy. cbn in Hx, Hy. apply Hex; rewrite Hls, !elem_of_app; rewrite elem_of_app in Hx, Hy; tauto.
Qed.

(** Everything that happens to the locks of a file. *)
Inductive lock_step (m : lock_state) : lock_state -> Prop :=
| StepSetlk fd cmd filp va l s :
    - 2 ^ 31 <= l_len l < 2 ^ 31 ->
    (forall f q, filp = Some f -> request_of f (current s) l fd = Some q -> request_fits q (i_flock m)) ->
    lock_step m (set_state m (fcntl_setlk fd cmd filp va l m s))
| StepWakes id fd cmd q s :
    fl_owner q = current s -> fl_fd q = fd -> request_ok q -> request_fits q (i_flock m) ->
    lock_step m (set_state m (setlk_wakes id fd cmd q m s))
| StepRemove t fd s : lock_step m (fcntl_remove_locks t fd m s).1.

Lemma lock_step_ok m m' : lock_step m m' -> locks_ok m -> locks_ok m'.
Proof.
  intros [fd cmd filp va l s Hlen Hfit | id fd cmd q s Ho Hf Hq Hfit | t fd s] Hok.
  - unfold fcntl_setlk. destruct (_ <=? _); [done |]. destruct filp as [f |]; [| done].
    destruct (ctrue va); [done |]. specialize (Hfit f). unfold request_of in Hfit.
    destruct (copy_flock f (current s) l fd) as [q |] eqn:Ec; [| done].
    destruct (copy_flock_ok _ _ _ _ _ Hlen Ec) as (H1 & H2 & H3 & H4 & H5). cbn in Hfit.
    destruct (setlk_type (f_mode f) (fl_type q)) as [ty |] eqn:Et; [| done]. cbn in Hfit.
    apply setlk_try_ok; try done; [| by apply Hfit].
    split_and!; try done; cbn; try lia. unfold setlk_type in Et.
    destruct H5 as [E | [E | [E | [E | E]]]]; rewrite E in Et; cbn in Et;
      repeat (case_match; simplify_eq); simplify_eq; tauto.
  - unfold setlk_wakes. set (m1 := upd _ _ _). assert (locks_ok m1) by done.
    destruct (signal_pending (cur s)); [done |].
    pose proof (setlk_try_ok fd cmd q m1 s) as H'. destruct (setlk_try fd cmd q m1 s); by apply H'.
  - by apply remove_locks_ok.
Qed.


(** ** Witnesses and examples *)

Definition demo_file : lfile := mk_lfile true 3 0 S_IFREG 100.
(** The requests of [who] on descriptor 3: lock type, first byte, length. *)
Definition demo_setlk (who : tptr) (ty st len : Z) (m : lock_state) : lock_state :=
  set_state m (fcntl_setlk 3 F_SETLK (Some demo_file) 0 (mk_flock ty 0 st len 0) m
                 (demo_sched <| current := who |>)).
Definition spans (m : lock_state) : list (tptr * Z * Z * Z) :=
  map (fun l => (fl_owner l, fl_type l, fl_start l, fl_end l)) (i_flock m).
Definition demo_locks : lock_state :=
  demo_setlk 1 F_WRLCK 40 10 (demo_setlk 1 F_RDLCK 10 20 (demo_setlk 2 F_RDLCK 20 5 fcntl_init_locks)).



(** A lock up to the end of the file runs into the overflow of [fl_end + 1]:
    the owner's two read locks overlap, and byte 12 stays locked after it was
    unlocked. *)
Example offset_max_overlaps :
  let m := demo_setlk 1 F_RDLCK 5 0 (demo_setlk 1 F_RDLCK 10 11 fcntl_init_locks) in
  spans m = [(1%nat, F_RDLCK, 5, OFFSET_MAX); (1%nat, F_RDLCK, 10, 20)] /\
  In (1%nat, F_RDLCK, 10, 20) (spans (demo_setlk 1 F_UNLCK 12 4 m)).
Proof. vm_compute. tauto. Qed.

(** F_GETLK with F_EXLCK reports no conflict where F_SETLK with it is refused. *)
Example getlk_exlck_blind :
  let s := demo_sched <| current := 2%nat |> in
  let l := mk_flock F_EXLCK 0 10 5 0 in
  fcntl_getlk 3 (Some demo_file) 0 l demo_locks s = (0, Some (mk_flock F_UNLCK 0 10 5 0)) /\
  match fcntl_setlk 3 F_SETLK (Some demo_file) 0 l demo_locks s with
  | SetReturns r _ _ => r = - EAGAIN | _ => False end.
Proof. by vm_compute. Qed.
