(* ===== verification/Pipe.v ===== *)
(** Pipes and FIFOs (fs/pipe.c, fs/fifo.c): the ring buffer of a page behind
    a pipe inode, its lock, and the calls on the two ends.

    A call is cut where it sleeps: in the queue of the pipe, and in the copies
    to and from user memory, which may fault a page in while the pipe is
    locked.  The rest of a call is a constructor of its outcome. *)

From S2P Require Import Prelude Errno Task Signal Sched.

(** include/linux/limits.h:15-15 [PIPE_BUF], the size of the page *)
Definition PIPE_BUF := 4096.
(** include/linux/fcntl.h:14-14 [O_NONBLOCK] *)
Definition O_NONBLOCK := 2048 (* 04000 *).
(** include/linux/fs.h:59-61 the conditions of [select] *)
Definition SEL_IN := 1.
Definition SEL_OUT := 2.
Definition SEL_EX := 4.
(** include/linux/termios.h:32-32 [FIONREAD] *)
Definition FIONREAD := 0x541B.

(** include/linux/pipe_fs_i.h:5-15 [struct pipe_inode_info]; [base] is [None]
    for NULL *)
Record pipe_inode_info := mk_pipe {
  p_wait : wait_queue; base : option (list Z); start : Z; len : Z; lock : Z;
  rd_openers : Z; wr_openers : Z; readers : Z; writers : Z;
}.
#[export] Instance eta_pipe : Eta pipe_inode_info := fun x =>
  mk_pipe (p_wait x) (base x) (start x) (len x) (lock x) (rd_openers x) (wr_openers x) (readers x) (writers x).

(** include/linux/pipe_fs_i.h:28-34 what is left and where *)
Definition PIPE_EMPTY (i : pipe_inode_info) : bool := len i =? 0.
Definition PIPE_FULL (i : pipe_inode_info) : bool := len i =? PIPE_BUF.
Definition PIPE_FREE (i : pipe_inode_info) : Z := u32 (PIPE_BUF - len i).
Definition PIPE_END (i : pipe_inode_info) : Z := Z.land (u32 (start i + len i)) (PIPE_BUF - 1).
Definition PIPE_MAX_RCHUNK (i : pipe_inode_info) : Z := u32 (PIPE_BUF - start i).
Definition PIPE_MAX_WCHUNK (i : pipe_inode_info) : Z := u32 (PIPE_BUF - PIPE_END i).

(** Bytes of the page, as [memcpy_tofs] reads and [memcpy_fromfs] writes them. *)
Definition page_read (i : pipe_inode_info) (off chars : Z) : list Z :=
  take (Z.to_nat chars) (drop (Z.to_nat off) (default [] (base i))).
Definition page_write (off : Z) (data : list Z) (i : pipe_inode_info) : pipe_inode_info :=
  i <| base ::= fmap (fun b => take (Z.to_nat off) b ++ data ++ drop (Z.to_nat off + length data) b) |>.

(** [x? :-e]: [x] unless it is 0. *)
Definition or_error (x e : Z) : Z := if ctrue x then x else - e.

(** ** Reading *)

(** A read: returned, asleep in the queue of the pipe, task 0 trying to sleep,
    or about to copy [chars] bytes from [off], with [count] bytes to go and
    [read] bytes read. *)
Inductive read_step :=
| ReadReturns (r : Z) (i : pipe_inode_info) (s : kstate)
| ReadSleeps (i : pipe_inode_info) (s : kstate)
| ReadPanics
| ReadCopies (off chars count read : Z) (i : pipe_inode_info) (s : kstate).

(** fs/pipe.c:50-72 [pipe_read] from the test of the loop on *)
Definition pipe_read_loop (count read : Z) (i : pipe_inode_info) (s : kstate) : read_step :=
  let size := len i in
  if (0 <? count) && ctrue size then
    let chars := PIPE_MAX_RCHUNK i in
    let chars := if count <? chars then count else chars in
    let chars := if size <? chars then size else chars in
    let off := start i in
    ReadCopies off chars (count - chars) (s32 (read + chars))
      (i <| start ::= fun st => Z.land (u32 (st + chars)) (PIPE_BUF - 1) |> <| len ::= fun l => u32 (l - chars) |>) s
  else
    let i := i <| lock ::= fun l => u32 (l - 1) |> in
    let s := wake_up_interruptible (p_wait i) s in
    ReadReturns (if ctrue read then read else if ctrue (writers i) then - EAGAIN else 0) i s.

(** fs/pipe.c:24-73 [pipe_read] *)
Definition pipe_read (nonblock : bool) (count : Z) (i : pipe_inode_info) (s : kstate) : read_step :=
  let go := pipe_read_loop count 0 (i <| lock ::= fun l => u32 (l + 1) |>) s in
  if nonblock then
    if ctrue (lock i) then ReadReturns (- EAGAIN) i s
    else if PIPE_EMPTY i then ReadReturns (if ctrue (writers i) then - EAGAIN else 0) i s
    else go
  else if PIPE_EMPTY i || ctrue (lock i) then
    if PIPE_EMPTY i && negb (ctrue (writers i)) then ReadReturns 0 i s
    else if signal_pending (cur s) then ReadReturns (- ERESTARTSYS) i s
    else match interruptible_sleep_on (p_wait i) s with
         | None => ReadPanics
         | Some (q, s) => ReadSleeps (i <| p_wait := q |>) s
         end
  else go.

(** A sleeper leaves the queue. *)
Definition leave_queue (i : pipe_inode_info) (s : kstate) : pipe_inode_info :=
  i <| p_wait ::= fun q => sleep_exit q s |>.

(** fs/pipe.c:38-46 the reader runs again: back to the test of the first loop *)
Definition pipe_read_wakes (count : Z) (i : pipe_inode_info) (s : kstate) : read_step :=
  pipe_read false count (leave_queue i s) s.

(** fs/pipe.c:62-64 the copy, and on: the bytes that the reader gets *)
Definition pipe_read_copied (off chars count read : Z) (i : pipe_inode_info) (s : kstate) : list Z * read_step :=
  (page_read i off chars, pipe_read_loop count read i s).

(** ** Writing *)

(** A write: [WriteCopies off chars rest written] is about to copy the first
    [chars] bytes of [rest] to [off]; [WriteStuck] is the end of the fuel. *)
Inductive write_step :=
| WriteReturns (r : Z) (i : pipe_inode_info) (s : kstate)
| WriteSleeps (free : Z) (rest : list Z) (written : Z) (i : pipe_inode_info) (s : kstate)
| WritePanics
| WriteCopies (off chars : Z) (rest : list Z) (written : Z) (i : pipe_inode_info) (s : kstate)
| WriteStuck.

(** fs/pipe.c:103-118 the inner loop; [next] is the code behind it *)
Definition write_chunk (next : Z -> list Z -> Z -> pipe_inode_info -> kstate -> write_step)
    (rest : list Z) (written : Z) (i : pipe_inode_info) (s : kstate) : write_step :=
  let count := Z.of_nat (length rest) in
  let free := PIPE_FREE i in
  if (0 <? count) && ctrue free then
    let chars := PIPE_MAX_WCHUNK i in
    let chars := if count <? chars then count else chars in
    let chars := if free <? chars then free else chars in
    let off := PIPE_END i in
    WriteCopies off chars rest (s32 (written + chars)) (i <| len ::= fun l => u32 (l + chars) |>) s
  else
    let i := i <| lock ::= fun l => u32 (l - 1) |> in
    let s := wake_up_interruptible (p_wait i) s in
    next 1 rest written i s.

(** fs/pipe.c:90-120 the outer loop; a round that takes the lock copies *)
Fixpoint write_wait (fuel : nat) (nonblock : bool) (free : Z) (rest : list Z) (written : Z)
    (i : pipe_inode_info) (s : kstate) : write_step :=
  match fuel with
  | O => WriteStuck
  | S fuel =>
      if 0 <? Z.of_nat (length rest) then
        if (PIPE_FREE i <? u32 free) || ctrue (lock i) then
          if negb (ctrue (readers i)) then
            let '(_, s) := send_sig SIGPIPE (Some (current s)) 0 s in
            WriteReturns (or_error written EPIPE) i s
          else if signal_pending (cur s) then WriteReturns (or_error written ERESTARTSYS) i s
          else if nonblock then WriteReturns (or_error written EAGAIN) i s
          else match interruptible_sleep_on (p_wait i) s with
               | None => WritePanics
               | Some (q, s) => WriteSleeps free rest written (i <| p_wait := q |>) s
               end
        else write_chunk (write_wait fuel nonblock) rest written (i <| lock ::= fun l => u32 (l + 1) |>) s
      else WriteReturns written i s
  end.

(** Enough fuel: a round that takes the lock stops at the copy. *)
Definition write_fuel : nat := 2.

(** fs/pipe.c:76-121 [pipe_write] of the bytes [buf] *)
Definition pipe_write (nonblock : bool) (buf : list Z) (i : pipe_inode_info) (s : kstate) : write_step :=
  if negb (ctrue (readers i)) then
    let '(_, s) := send_sig SIGPIPE (Some (current s)) 0 s in WriteReturns (- EPIPE) i s
  else
    let count := Z.of_nat (length buf) in
    write_wait write_fuel nonblock (if count <=? PIPE_BUF then count else 1) buf 0 i s.

(** fs/pipe.c:91-101 the writer runs again *)
Definition pipe_write_wakes (free : Z) (rest : list Z) (written : Z) (i : pipe_inode_info) (s : kstate) : write_step :=
  write_wait write_fuel false free rest written (leave_queue i s) s.

(** fs/pipe.c:113-118 the copy, and on *)
Definition pipe_write_copied (nonblock : bool) (off chars : Z) (rest : list Z) (written : Z)
    (i : pipe_inode_info) (s : kstate) : write_step :=
  write_chunk (write_wait write_fuel nonblock) (drop (Z.to_nat chars) rest) written
    (page_write off (take (Z.to_nat chars) rest) i) s.

(** ** The other operations on an end *)

(** fs/pipe.c:274-368 the operations of a file on a pipe *)
Inductive pipe_fops :=
| connecting_fifo_fops | read_fifo_fops | write_fifo_fops | rdwr_fifo_fops
| read_pipe_fops | write_pipe_fops | rdwr_pipe_fops.
#[export] Instance pipe_fops_eq_dec : EqDecision pipe_fops.
Proof. solve_decision. Defined.

(** fs/pipe.c:123-137 [pipe_lseek], [pipe_readdir], [bad_pipe_rw] *)
Definition pipe_lseek : Z := - ESPIPE.
Definition pipe_readdir : Z := - ENOTDIR.
Definition bad_pipe_rw : Z := - EBADF.

(** fs/pipe.c:138-152 [pipe_ioctl]: the result, and the number stored *)
Definition pipe_ioctl (cmd va : Z) (i : pipe_inode_info) : Z * option Z :=
  if cmd =? FIONREAD then (va, if ctrue va then None else Some (len i)) else (- EINVAL, None).

(** The queue that [select_wait] enters. *)
Inductive select_queue := OnPipe | OnInode.

(** fs/pipe.c:154-174 [pipe_select] *)
Definition pipe_select (sel_type : Z) (i : pipe_inode_info) : Z * option select_queue :=
  if sel_type =? SEL_IN then
    if negb (PIPE_EMPTY i) || negb (ctrue (writers i)) then (1, None) else (0, Some OnPipe)
  else if sel_type =? SEL_OUT then
    if negb (PIPE_FULL i) || negb (ctrue (readers i)) then (1, None) else (0, Some OnPipe)
  else if sel_type =? SEL_EX then
    if negb (ctrue (readers i)) || negb (ctrue (writers i)) then (1, None) else (0, Some OnInode)
  else (0, None).

(** fs/pipe.c:180-200 [fifo_select] *)
Definition fifo_select (sel_type : Z) (i : pipe_inode_info) : Z * option select_queue :=
  if sel_type =? SEL_IN then
    if negb (PIPE_EMPTY i) then (1, None) else (0, Some OnPipe)
  else if sel_type =? SEL_OUT then
    if negb (PIPE_FULL i) || negb (ctrue (readers i)) then (1, None) else (0, Some OnPipe)
  else if sel_type =? SEL_EX then
    if negb (ctrue (readers i)) || negb (ctrue (writers i)) then (1, None) else (0, Some OnInode)
  else (0, None).

(** fs/pipe.c:223-245 [connect_select]: the result, and the new operations of
    the file *)
Definition connect_select (sel_type : Z) (i : pipe_inode_info) : Z * option select_queue * pipe_fops :=
  if sel_type =? SEL_IN then
    if negb (PIPE_EMPTY i) then (1, None, read_fifo_fops) else (0, Some OnPipe, connecting_fifo_fops)
  else if sel_type =? SEL_OUT then
    if negb (PIPE_FULL i) then (1, None, connecting_fifo_fops) else (0, Some OnPipe, connecting_fifo_fops)
  else if sel_type =? SEL_EX then
    if negb (ctrue (readers i)) || negb (ctrue (writers i)) then (1, None, connecting_fifo_fops)
    else (0, Some OnInode, connecting_fifo_fops)
  else (0, None, connecting_fifo_fops).

(** A read from a FIFO that may still lack a writer: [Connected] has switched
    the file to [read_fifo_fops]. *)
Inductive connect_step :=
| Connected (r : read_step)
| ConnectReturns (r : Z) (i : pipe_inode_info) (s : kstate)
| ConnectSleeps (i : pipe_inode_info) (s : kstate)
| ConnectPanics.

(** fs/pipe.c:207-221 [connect_read] *)
Definition connect_read (nonblock : bool) (count : Z) (i : pipe_inode_info) (s : kstate) : connect_step :=
  if negb (ctrue (len i)) && negb (ctrue (writers i)) then
    if nonblock then ConnectReturns (- EAGAIN) i s
    else
      let s := wake_up_interruptible (p_wait i) s in
      if signal_pending (cur s) then ConnectReturns (- ERESTARTSYS) i s
      else match interruptible_sleep_on (p_wait i) s with
           | None => ConnectPanics
           | Some (q, s) => ConnectSleeps (i <| p_wait := q |>) s
           end
  else Connected (pipe_read nonblock count i s).

(** fs/pipe.c:209-218 the reader runs again *)
Definition connect_read_wakes (count : Z) (i : pipe_inode_info) (s : kstate) : connect_step :=
  connect_read false count (leave_queue i s) s.

(** fs/pipe.c:251-255 [pipe_read_release] *)
Definition pipe_read_release (i : pipe_inode_info) (s : kstate) : pipe_inode_info * kstate :=
  (i <| readers ::= fun n => u32 (n - 1) |>, wake_up_interruptible (p_wait i) s).
(** fs/pipe.c:257-261 [pipe_write_release] *)
Definition pipe_write_release (i : pipe_inode_info) (s : kstate) : pipe_inode_info * kstate :=
  (i <| writers ::= fun n => u32 (n - 1) |>, wake_up_interruptible (p_wait i) s).
(** fs/pipe.c:263-268 [pipe_rdwr_release] *)
Definition pipe_rdwr_release (i : pipe_inode_info) (s : kstate) : pipe_inode_info * kstate :=
  (i <| readers ::= fun n => u32 (n - 1) |> <| writers ::= fun n => u32 (n - 1) |>,
   wake_up_interruptible (p_wait i) s).

(** fs/pipe.c:274-368 the [read] member *)
Inductive read_op := OpConnectRead | OpPipeRead | OpBadRead.
Definition fop_read (f : pipe_fops) : read_op :=
  match f with
  | connecting_fifo_fops => OpConnectRead
  | read_fifo_fops | rdwr_fifo_fops | read_pipe_fops | rdwr_pipe_fops => OpPipeRead
  | write_fifo_fops | write_pipe_fops => OpBadRead
  end.
(** fs/pipe.c:274-368 the [write] member: [pipe_write] or [bad_pipe_rw] *)
Definition fop_can_write (f : pipe_fops) : bool :=
  match f with
  | write_fifo_fops | rdwr_fifo_fops | write_pipe_fops | rdwr_pipe_fops => true
  | connecting_fifo_fops | read_fifo_fops | read_pipe_fops => false
  end.
(** fs/pipe.c:274-368 the [select] member *)
Definition fop_select (f : pipe_fops) (sel_type : Z) (i : pipe_inode_info) : Z * option select_queue * pipe_fops :=
  match f with
  | connecting_fifo_fops => connect_select sel_type i
  | read_fifo_fops | write_fifo_fops | rdwr_fifo_fops => (fifo_select sel_type i, f)
  | read_pipe_fops | write_pipe_fops | rdwr_pipe_fops => (pipe_select sel_type i, f)
  end.
(** fs/pipe.c:274-368 the [release] member *)
Definition fop_release (f : pipe_fops) : pipe_inode_info -> kstate -> pipe_inode_info * kstate :=
  match f with
  | connecting_fifo_fops | read_fifo_fops | read_pipe_fops => pipe_read_release
  | write_fifo_fops | write_pipe_fops => pipe_write_release
  | rdwr_fifo_fops | rdwr_pipe_fops => pipe_rdwr_release
  end.

(** ** Opening a FIFO *)

(** fs/inode.c:484-493 the pipe of [get_pipe_inode], with its page *)
Definition new_pipe (page : list Z) : pipe_inode_info := mk_pipe [] (Some page) 0 0 0 0 0 1 1.

(** fs/fifo.c:152-162 [init_fifo] *)
Definition init_fifo : pipe_inode_info := mk_pipe [] None 0 0 0 0 0 0 0.

(** Where an open of a FIFO sleeps. *)
Inductive fifo_pc :=
| RdOpening | RdDraining (retval : Z) | WrOpening | WrDraining (retval : Z)
| RwDraining | RwDraining2.

(** An open: returned, asleep, task 0 trying to sleep, or in [__get_free_page].
    The file's operations are kept beside it. *)
Inductive fifo_step :=
| FifoReturns (r : Z) (f : option pipe_fops) (i : pipe_inode_info) (s : kstate)
| FifoSleeps (pc : fifo_pc) (f : option pipe_fops) (i : pipe_inode_info) (s : kstate)
| FifoPanics
| FifoAllocates (f : option pipe_fops) (i : pipe_inode_info) (s : kstate).

Definition wake_pipe (i : pipe_inode_info) (s : kstate) : kstate := wake_up_interruptible (p_wait i) s.
(** [interruptible_sleep_on] of an open. *)
Definition fifo_sleep (pc : fifo_pc) (f : option pipe_fops) (i : pipe_inode_info) (s : kstate) : fifo_step :=
  match interruptible_sleep_on (p_wait i) s with
  | None => FifoPanics
  | Some (q, s) => FifoSleeps pc f (i <| p_wait := q |>) s
  end.

(** fs/fifo.c:100-102 the end of [fifo_open], up to the allocation *)
Definition fifo_end (retval : Z) (f : option pipe_fops) (i : pipe_inode_info) (s : kstate) : fifo_step :=
  if ctrue retval || match base i with Some _ => true | None => false end then FifoReturns retval f i s
  else FifoAllocates f i s.

(** fs/fifo.c:103-112 [fifo_open] with the page *)
Definition fifo_alloc_end (page : option (list Z)) (f : option pipe_fops) (i : pipe_inode_info) (s : kstate) : fifo_step :=
  match base i, page with
  | Some _, _ => FifoReturns 0 f i s
  | None, None => FifoReturns (- ENOMEM) f i s
  | None, Some p => FifoReturns 0 f (i <| lock := 0 |> <| start := 0 |> <| len := 0 |> <| base := Some p |>) s
  end.

(** fs/fifo.c:40-46 a reader lets the waiting writers in *)
Definition fifo_rd_drain (retval : Z) (f : option pipe_fops) (i : pipe_inode_info) (s : kstate) : fifo_step :=
  if ctrue (wr_openers i) then fifo_sleep (RdDraining retval) f i s
  else
    let f := if ctrue (writers i) then Some read_fifo_fops else f in
    let i := if ctrue retval then i <| readers ::= fun n => u32 (n - 1) |> else i in
    let s := if ctrue retval && negb (ctrue (readers i)) then wake_pipe i s else s in
    fifo_end retval f i s.

(** fs/fifo.c:37-38 a reader is no longer waiting for a writer *)
Definition fifo_rd_opened (retval : Z) (f : option pipe_fops) (i : pipe_inode_info) (s : kstate) : fifo_step :=
  let i := i <| rd_openers ::= fun n => u32 (n - 1) |> in
  let s := if ctrue (rd_openers i) then s else wake_pipe i s in
  fifo_rd_drain retval f i s.

(** fs/fifo.c:30-36 the loop of a reader that waits for a writer *)
Definition fifo_rd_wait (f : option pipe_fops) (i : pipe_inode_info) (s : kstate) : fifo_step :=
  if ctrue (writers i) then fifo_rd_opened 0 f i s
  else if signal_pending (cur s) then fifo_rd_opened (- ERESTARTSYS) f i s
  else fifo_sleep RdOpening f i s.

(** fs/fifo.c:73-77 a writer lets the waiting readers in *)
Definition fifo_wr_drain (retval : Z) (f : option pipe_fops) (i : pipe_inode_info) (s : kstate) : fifo_step :=
  if ctrue (rd_openers i) then fifo_sleep (WrDraining retval) f i s
  else
    let i := if ctrue retval then i <| writers ::= fun n => u32 (n - 1) |> else i in
    let s := if ctrue retval && negb (ctrue (writers i)) then wake_pipe i s else s in
    fifo_end retval f i s.

(** fs/fifo.c:70-71 a writer is no longer waiting for a reader *)
Definition fifo_wr_opened (retval : Z) (f : option pipe_fops) (i : pipe_inode_info) (s : kstate) : fifo_step :=
  let i := i <| wr_openers ::= fun n => u32 (n - 1) |> in
  let s := if ctrue (wr_openers i) then s else wake_pipe i s in
  fifo_wr_drain retval f i s.

(** fs/fifo.c:63-69 the loop of a writer that waits for a reader *)
Definition fifo_wr_wait (f : option pipe_fops) (i : pipe_inode_info) (s : kstate) : fifo_step :=
  if ctrue (readers i) then fifo_wr_opened 0 f i s
  else if signal_pending (cur s) then fifo_wr_opened (- ERESTARTSYS) f i s
  else fifo_sleep WrOpening f i s.

(** fs/fifo.c:26-27 one more reader *)
Definition add_reader (i : pipe_inode_info) (s : kstate) : pipe_inode_info * kstate :=
  (i <| readers ::= fun n => u32 (n + 1) |>, if ctrue (readers i) then s else wake_pipe i s).
(** fs/fifo.c:59-60 one more writer *)
Definition add_writer (i : pipe_inode_info) (s : kstate) : pipe_inode_info * kstate :=
  (i <| writers ::= fun n => u32 (n + 1) |>, if ctrue (writers i) then s else wake_pipe i s).

(** fs/fifo.c:93-95 the end of an open for both *)
Definition fifo_rw_drain2 (f : option pipe_fops) (i : pipe_inode_info) (s : kstate) : fifo_step :=
  if ctrue (rd_openers i) then fifo_sleep RwDraining2 f i s else fifo_end 0 f i s.
(** fs/fifo.c:89-92 an open for both lets the waiting writers in *)
Definition fifo_rw_drain (f : option pipe_fops) (i : pipe_inode_info) (s : kstate) : fifo_step :=
  if ctrue (wr_openers i) then fifo_sleep RwDraining f i s
  else let '(i, s) := add_writer i s in fifo_rw_drain2 f i s.

(** fs/fifo.c:12-98 [fifo_open] of a file with [f_mode] *)
Definition fifo_open (f_mode : Z) (nonblock : bool) (f : option pipe_fops) (i : pipe_inode_info) (s : kstate) : fifo_step :=
  if f_mode =? 1 then
    let f := Some connecting_fifo_fops in
    let '(i, s) := add_reader i s in
    if negb nonblock && negb (ctrue (writers i)) then
      fifo_rd_wait f (i <| rd_openers ::= fun n => u32 (n + 1) |>) s
    else fifo_rd_drain 0 f i s
  else if f_mode =? 2 then
    if nonblock && negb (ctrue (readers i)) then fifo_end (- ENXIO) f i s
    else
      let f := Some write_fifo_fops in
      let '(i, s) := add_writer i s in
      if negb (ctrue (readers i)) then fifo_wr_wait f (i <| wr_openers ::= fun n => u32 (n + 1) |>) s
      else fifo_wr_drain 0 f i s
  else if f_mode =? 3 then
    let f := Some rdwr_fifo_fops in
    let '(i, s) := add_reader i s in
    fifo_rw_drain f i s
  else fifo_end (- EINVAL) f i s.

(** fs/fifo.c:35-94 an open runs again *)
Definition fifo_wakes (pc : fifo_pc) (f : option pipe_fops) (i : pipe_inode_info) (s : kstate) : fifo_step :=
  let i := leave_queue i s in
  match pc with
  | RdOpening => fifo_rd_wait f i s
  | RdDraining retval => fifo_rd_drain retval f i s
  | WrOpening => fifo_wr_wait f i s
  | WrDraining retval => fifo_wr_drain retval f i s
  | RwDraining => fifo_rw_drain f i s
  | RwDraining2 => fifo_rw_drain2 f i s
  end.

(** * A pipe and its callers

    Every call is a thread; [blocks] are the runs of bytes that the writers
    put into the pipe with one hold of the lock, [out] are the bytes that the
    readers got, both in the order of the copies. *)

Inductive pipe_thread :=
| TReadSleeps (count : Z)
| TConnectSleeps (count : Z)
| TReadCopies (off chars count read : Z)
| TWriteSleeps (call : list Z) (free : Z) (rest : list Z) (written : Z)
| TWriteCopies (nonblock : bool) (call : list Z) (off chars : Z) (rest : list Z) (written : Z)
| TOpenSleeps (pc : fifo_pc) (f : option pipe_fops)
| TOpenAllocates (f : option pipe_fops).

(** Bytes [b_data] of the call to write [b_call], from [b_from] on. *)
Record block := mk_block { b_call : list Z; b_from : nat; b_data : list Z }.

Record psys := mk_psys {
  sp : pipe_inode_info; threads : gmap tptr pipe_thread; blocks : list block; out : list Z;
}.
#[export] Instance eta_psys : Eta psys := fun x => mk_psys (sp x) (threads x) (blocks x) (out x).

(** A call of task [t] goes on as its outcome says; a panic stops everything. *)
Definition read_goes (t : tptr) (count : Z) (r : read_step) (x : psys) : psys :=
  match r with
  | ReadReturns _ i _ => x <| sp := i |> <| threads ::= delete t |>
  | ReadSleeps i _ => x <| sp := i |> <| threads ::= <[t := TReadSleeps count]> |>
  | ReadPanics => x
  | ReadCopies off chars count read i _ =>
      x <| sp := i |> <| threads ::= <[t := TReadCopies off chars count read]> |>
  end.
Definition connect_goes (t : tptr) (count : Z) (r : connect_step) (x : psys) : psys :=
  match r with
  | Connected r => read_goes t count r x
  | ConnectReturns _ i _ => x <| sp := i |> <| threads ::= delete t |>
  | ConnectSleeps i _ => x <| sp := i |> <| threads ::= <[t := TConnectSleeps count]> |>
  | ConnectPanics => x
  end.
(** The block that a writer starts when it has the lock. *)
Definition new_block (call rest : list Z) (fresh : bool) (bs : list block) : list block :=
  if fresh then bs ++ [mk_block call (length call - length rest) []] else bs.
Definition write_goes (t : tptr) (nonblock : bool) (call : list Z) (fresh : bool) (r : write_step) (x : psys) : psys :=
  match r with
  | WriteReturns _ i _ => x <| sp := i |> <| threads ::= delete t |>
  | WriteSleeps free rest written i _ =>
      x <| sp := i |> <| threads ::= <[t := TWriteSleeps call free rest written]> |>
  | WriteCopies off chars rest written i _ =>
      x <| sp := i |> <| threads ::= <[t := TWriteCopies nonblock call off chars rest written]> |>
        <| blocks ::= new_block call rest fresh |>
  | WritePanics | WriteStuck => x
  end.
Definition open_goes (t : tptr) (r : fifo_step) (x : psys) : psys :=
  match r with
  | FifoReturns _ _ i _ => x <| sp := i |> <| threads ::= delete t |>
  | FifoSleeps pc f i _ => x <| sp := i |> <| threads ::= <[t := TOpenSleeps pc f]> |>
  | FifoPanics => x
  | FifoAllocates f i _ => x <| sp := i |> <| threads ::= <[t := TOpenAllocates f]> |>
  end.
(** The bytes that were copied belong to the last block. *)
Definition extend_last (data : list Z) (bs : list block) : list block :=
  match last bs with
  | Some b => removelast bs ++ [mk_block (b_call b) (b_from b) (b_data b ++ data)]
  | None => bs
  end.

(** Between two steps everything else may happen: each step starts in a kernel
    state of its own. *)
Inductive pipe_step (x : psys) : psys -> Prop :=
| StepRead t nonblock count s :
    threads x !! t = None -> base (sp x) <> None ->
    pipe_step x (read_goes t count (pipe_read nonblock count (sp x) s) x)
| StepReadWakes t count s :
    threads x !! t = Some (TReadSleeps count) ->
    pipe_step x (read_goes t count (pipe_read_wakes count (sp x) s) x)
| StepConnect t nonblock count s :
    threads x !! t = None -> base (sp x) <> None ->
    pipe_step x (connect_goes t count (connect_read nonblock count (sp x) s) x)
| StepConnectWakes t count s :
    threads x !! t = Some (TConnectSleeps count) ->
    pipe_step x (connect_goes t count (connect_read_wakes count (sp x) s) x)
| StepReadCopied t off chars count read s data r :
    threads x !! t = Some (TReadCopies off chars count read) ->
    pipe_read_copied off chars count read (sp x) s = (data, r) ->
    pipe_step x (read_goes t count r (x <| out ::= fun o => o ++ data |>))
| StepWrite t nonblock buf s :
    threads x !! t = None -> base (sp x) <> None -> Z.of_nat (length buf) < 2 ^ 31 ->
    pipe_step x (write_goes t nonblock buf true (pipe_write nonblock buf (sp x) s) x)
| StepWriteWakes t call free rest written s :
    threads x !! t = Some (TWriteSleeps call free rest written) ->
    pipe_step x (write_goes t false call true (pipe_write_wakes free rest written (sp x) s) x)
| StepWriteCopied t nonblock call off chars rest written s r :
    threads x !! t = Some (TWriteCopies nonblock call off chars rest written) ->
    pipe_write_copied nonblock off chars rest written (sp x) s = r -> r <> WritePanics ->
    pipe_step x (write_goes t nonblock call false r
                   (x <| blocks ::= extend_last (take (Z.to_nat chars) rest) |>))
| StepRelease f s : pipe_step x (x <| sp := (fop_release f (sp x) s).1 |>)
| StepOpen t f_mode nonblock f s :
    threads x !! t = None -> pipe_step x (open_goes t (fifo_open f_mode nonblock f (sp x) s) x)
| StepOpenWakes t pc f s :
    threads x !! t = Some (TOpenSleeps pc f) ->
    pipe_step x (open_goes t (fifo_wakes pc f (sp x) s) x)
| StepOpenAllocated t page f s :
    threads x !! t = Some (TOpenAllocates f) ->
    (forall p, page = Some p -> length p = Z.to_nat PIPE_BUF) ->
    pipe_step x (open_goes t (fifo_alloc_end page f (sp x) s) x).

(** A fresh pipe, or a FIFO before its first open. *)
Inductive pipe_start : psys -> Prop :=
| StartPipe page : length page = Z.to_nat PIPE_BUF -> pipe_start (mk_psys (new_pipe page) ∅ [] [])
| StartFifo : pipe_start (mk_psys init_fifo ∅ [] []).

(** ** The ring *)

(** [n] bytes of the page from [st] on, around its end. *)
Definition ring (p : list Z) (st n : nat) : list Z := take n (drop st (p ++ p)).

Lemma ring_lookup p P st n k : length p = P -> (st < P)%nat -> (n <= P)%nat -> (k < n)%nat ->
  ring p st n !! k = p !! (if decide (st + k < P) then st + k else st + k - P)%nat.
Proof.
  intros Hp Hst Hn Hk. unfold ring. rewrite lookup_take_lt, lookup_drop by done. case_decide.
  - by rewrite lookup_app_l by lia.
  - rewrite lookup_app_r by lia. by rewrite Hp.
Qed.

Lemma ring_length p P st n : length p = P -> (st < P)%nat -> (n <= P)%nat -> length (ring p st n) = n.
Proof. intros. unfold ring. rewrite length_take, length_drop, length_app. lia. Qed.

Section ring.
Context (p : list Z) (P st n : nat) (Hp : length p = P) (Hst : (st < P)%nat) (Hn : (n <= P)%nat).
#[local] Set Default Proof Using "All".

(** Bytes up to the end of the page leave the ring at its start. *)
Lemma ring_read c : (c <= n)%nat -> (st + c <= P)%nat ->
  take c (drop st p) ++ ring p (if decide (st + c = P) then 0 else st + c)%nat (n - c) = ring p st n.
Proof.
  intros Hc Hend. unfold ring.
  assert (take c (drop st p) = take c (drop st (p ++ p))) as ->.
  { rewrite drop_app_le by lia. rewrite take_app_le; [done |]. rewrite length_drop. lia. }
  assert (take (n - c) (drop (if decide (st + c = P) then 0 else st + c)%nat (p ++ p)) =
          take (n - c) (drop c (drop st (p ++ p)))) as ->.
  { rewrite drop_drop. case_decide as E; [| f_equal; f_equal; lia].
    rewrite E. rewrite drop_0, drop_app_ge by lia. rewrite Hp, Nat.sub_diag, drop_0.
    rewrite take_app_le by lia. done. }
  rewrite (take_drop_commute _ (n - c) c). replace (c + (n - c))%nat with n by lia.
  etrans; [| apply (take_drop c)]. f_equal. rewrite take_take. f_equal. lia.
Qed.

(** Bytes up to the end of the page enter the ring at its end. *)
Lemma ring_write d e :
  e = (if decide (st + n < P) then st + n else st + n - P)%nat ->
  (e + length d <= P)%nat -> (n + length d <= P)%nat ->
  ring (take e p ++ d ++ drop (e + length d) p) st (n + length d) = ring p st n ++ d.
Proof.
  intros He Hend Hfit. set (p' := take e p ++ d ++ drop (e + length d) p).
  assert (length p' = P) as Hp' by (unfold p'; rewrite !length_app, length_take, length_drop; lia).
  assert (forall k, p' !! k = if decide (k < e)%nat then p !! k
            else if decide (k < e + length d)%nat then d !! (k - e)%nat else p !! k) as Hk.
  { clear He. intros k. unfold p'. repeat case_decide.
    - rewrite lookup_app_l by (rewrite length_take; lia). by apply lookup_take_lt.
    - rewrite lookup_app_r by (rewrite length_take; lia). rewrite length_take.
      rewrite lookup_app_l by lia. f_equal. lia.
    - rewrite lookup_app_r by (rewrite length_take; lia). rewrite length_take.
      rewrite lookup_app_r by lia. rewrite lookup_drop. f_equal. lia. }
  assert (length (ring p st n) = n) as Hlen by (by eapply ring_length).
  apply list_eq. intros k. destruct (decide (k < n + length d)%nat) as [Hlt |].
  - rewrite (ring_lookup p' P) by (done || lia). rewrite Hk. clear Hk. destruct (decide (k < n)%nat).
    + rewrite lookup_app_l by lia. rewrite (ring_lookup p P) by (done || lia).
      repeat case_decide; try done; try lia; subst e; repeat case_decide; lia.
    + rewrite lookup_app_r by lia. rewrite Hlen.
      repeat case_decide; try lia; f_equal; lia.
  - rewrite !lookup_ge_None_2; [done | rewrite length_app; lia |].
    rewrite (ring_length p' P) by (done || lia). lia.
Qed.
End ring.

(** ** What an operation does to the buffer *)

(** What the data of a pipe consists of. *)
Definition core (i : pipe_inode_info) : option (list Z) * Z * Z * Z := (base i, start i, len i, lock i).
Definition in_range (i : pipe_inode_info) : Prop :=
  0 <= start i < PIPE_BUF /\ 0 <= len i <= PIPE_BUF /\ (base i = None -> start i = 0 /\ len i = 0).

(** A reader took the lock or holds it, and takes [chars] bytes out. *)
Definition takes (i : pipe_inode_info) (off chars : Z) (i' : pipe_inode_info) : Prop :=
  base i' = base i /\ lock i' = 1 /\ off = start i /\ 0 < chars <= len i /\ off + chars <= PIPE_BUF /\
  start i' = (if decide (off + chars = PIPE_BUF) then 0 else off + chars) /\ len i' = len i - chars.
(** A writer took the lock or holds it, and makes room for [chars] bytes of
    [rest]. *)
Definition puts (i : pipe_inode_info) (rest : list Z) (off chars : Z) (i' : pipe_inode_info) : Prop :=
  base i' = base i /\ lock i' = 1 /\ start i' = start i /\
  off = (if decide (start i + len i < PIPE_BUF) then start i + len i else start i + len i - PIPE_BUF) /\
  0 < chars <= Z.of_nat (length rest) /\ off + chars <= PIPE_BUF /\ len i' = len i + chars /\ len i' <= PIPE_BUF.

Lemma land_pipe z : 0 <= z < 2 * PIPE_BUF ->
  Z.land z (PIPE_BUF - 1) = if decide (z < PIPE_BUF) then z else z - PIPE_BUF.
Proof.
  intros Hz. change (PIPE_BUF - 1) with (Z.ones 12). rewrite Z.land_ones by lia.
  change (2 ^ 12) with PIPE_BUF. case_decide; [apply Z.mod_small; lia |].
  symmetry. apply (Z.mod_unique_pos _ _ 1); lia.
Qed.

(** The rest of a read under the lock. *)
Lemma pipe_read_loop_spec count read i s :
  in_range i -> lock i = 1 ->
  match pipe_read_loop count read i s with
  | ReadReturns _ i' _ => core i' = (base i, start i, len i, 0)
  | ReadCopies off chars _ _ i' _ => takes i off chars i'
  | ReadSleeps _ _ | ReadPanics => False
  end.
Proof.
  intros (Hst & Hlen & _) Hl. unfold pipe_read_loop. destruct (_ && _) eqn:E.
  - apply andb_true_iff in E as [E1 E2]. apply Z.ltb_lt in E1. unfold ctrue in E2. bool_simp.
    unfold PIPE_MAX_RCHUNK, PIPE_BUF in *. rewrite (u32_small (4096 - start i)) by lia.
    set (c := if count <? _ then count else _). set (c2 := if _ <? c then _ else c).
    assert (0 < c2 <= len i /\ start i + c2 <= PIPE_BUF) as [Hc1 Hc2].
    { unfold c2, c, PIPE_BUF. repeat case_match; lia. }
    clearbody c2. unfold PIPE_BUF in Hc2. split_and!; cbn; try done; try lia.
    + rewrite u32_small by lia. change 4095 with (PIPE_BUF - 1). rewrite land_pipe by (unfold PIPE_BUF; lia).
      unfold PIPE_BUF. repeat case_decide; lia.
    + rewrite u32_small; lia.
  - cbn. by rewrite Hl.
Qed.

Lemma pipe_read_spec nonblock count i s :
  in_range i ->
  match pipe_read nonblock count i s with
  | ReadReturns _ i' _ | ReadSleeps i' _ => core i' = core i
  | ReadCopies off chars _ _ i' _ => lock i = 0 /\ takes i off chars i'
  | ReadPanics => True
  end.
Proof.
  intros Hr. unfold pipe_read. set (go := pipe_read_loop _ _ _ _).
  assert (lock i = 0 -> match go with
    | ReadReturns _ i' _ | ReadSleeps i' _ => core i' = core i
    | ReadCopies off chars _ _ i' _ => lock i = 0 /\ takes i off chars i'
    | ReadPanics => True end) as Hgo.
  { intros Hl. pose proof (pipe_read_loop_spec count 0 (i <| lock ::= fun l => u32 (l + 1) |>) s) as H.
    fold go in H. specialize (H Hr). cbn in H. rewrite Hl in H. specialize (H eq_refl).
    destruct go as [r i' s' | i' s' | | off chars c rd i' s']; [| done | done | done].
    unfold core in *. rewrite Hl. exact H. }
  destruct nonblock.
  - destruct (ctrue (lock i)) eqn:El; [done |]. destruct (PIPE_EMPTY i); [done |].
    apply Hgo. unfold ctrue in El. by bool_simp.
  - destruct (PIPE_EMPTY i || ctrue (lock i)) eqn:E.
    + destruct (_ && _); [done |]. destruct (signal_pending _); [done |].
      by destruct (interruptible_sleep_on (p_wait i) s) as [[q s'] |].
    + apply Hgo. unfold ctrue in E. by bool_simp.
Qed.

(** While there is room and something to write, the inner loop copies. *)
Lemma write_chunk_copies next rest written i s :
  in_range i -> lock i = 1 -> rest <> [] -> len i < PIPE_BUF ->
  exists off chars wr i', write_chunk next rest written i s = WriteCopies off chars rest wr i' s /\
    puts i rest off chars i'.
Proof.
  intros (Hst & Hlen & _) Hl Hr Hroom. unfold write_chunk.
  assert (0 < Z.of_nat (length rest)) as Er by (destruct rest; [done | cbn [length]; lia]).
  assert (PIPE_FREE i = PIPE_BUF - len i) as HF by (unfold PIPE_FREE, PIPE_BUF in *; apply u32_small; lia).
  rewrite HF. unfold ctrue. rewrite (proj2 (Z.ltb_lt _ _) Er), (proj2 (Z.eqb_neq _ 0)) by lia. cbn [andb negb].
  assert (PIPE_END i = if decide (start i + len i < PIPE_BUF) then start i + len i else start i + len i - PIPE_BUF) as He.
  { unfold PIPE_END. unfold PIPE_BUF in *. rewrite u32_small by lia. apply land_pipe. unfold PIPE_BUF. lia. }
  assert (0 <= PIPE_END i < PIPE_BUF) as Hend by (rewrite He; case_decide; lia).
  assert (PIPE_MAX_WCHUNK i = PIPE_BUF - PIPE_END i) as ->.
  { unfold PIPE_MAX_WCHUNK. apply u32_small. unfold PIPE_BUF in *. lia. }
  set (c := if Z.of_nat (length rest) <? _ then _ else _). set (c2 := if _ <? c then _ else c).
  assert (0 < c2 <= Z.of_nat (length rest) /\ PIPE_END i + c2 <= PIPE_BUF /\ c2 <= PIPE_BUF - len i) as (Hc1 & Hc2 & Hc3).
  { unfold c2, c. repeat case_match; bool_simp; lia. }
  clearbody c2. do 4 eexists. split; [reflexivity |]. unfold puts. cbn -[PIPE_END].
  rewrite (u32_small (len i + c2)) by (unfold PIPE_BUF in *; lia). split_and!; try done; lia.
Qed.

(** A round of the outer loop of a write. *)
Lemma write_wait_spec fuel nonblock free rest written i s :
  in_range i -> 1 <= free <= PIPE_BUF ->
  match write_wait (S fuel) nonblock free rest written i s with
  | WriteReturns _ i' _ => core i' = core i
  | WriteSleeps free' rest' _ i' _ => core i' = core i /\ free' = free /\ rest' = rest /\ rest <> []
  | WriteCopies off chars rest' _ i' _ =>
      rest' = rest /\ lock i = 0 /\ free <= PIPE_BUF - len i /\ puts i rest off chars i'
  | WritePanics => True
  | WriteStuck => False
  end.
Proof.
  intros Hr Hf. pose proof Hr as (Hst & Hlen & _). cbn [write_wait].
  destruct (0 <? Z.of_nat (length rest)) eqn:Er; [| done].
  assert (rest <> []) as Hne by (by intros ->).
  assert (PIPE_FREE i = PIPE_BUF - len i) as -> by (unfold PIPE_FREE, PIPE_BUF in *; apply u32_small; lia).
  rewrite (u32_small free) by (unfold PIPE_BUF in *; lia).
  destruct (_ || _) eqn:E.
  - destruct (negb _); [by destruct (send_sig _ _ _ _) |]. destruct (signal_pending _); [done |].
    destruct nonblock; [done |]. by destruct (interruptible_sleep_on (p_wait i) s) as [[q s'] |].
  - unfold ctrue in E. bool_simp. set (i1 := upd lock _ i).
    destruct (write_chunk_copies (write_wait fuel nonblock) rest written i1 s) as (off & c & wr & i' & -> & Hp);
      try done.
    + cbn. by rewrite H0.
    + cbn. lia.
Qed.

(** The rest of a write under the lock. *)
Lemma write_chunk_spec fuel nonblock rest written i s :
  in_range i -> lock i = 1 ->
  match write_chunk (write_wait (S fuel) nonblock) rest written i s with
  | WriteReturns _ i' _ => core i' = (base i, start i, len i, 0) /\ (rest = [] \/ len i = PIPE_BUF)
  | WriteSleeps free' rest' _ i' _ =>
      core i' = (base i, start i, len i, 0) /\ free' = 1 /\ rest' = rest /\ rest <> [] /\ len i = PIPE_BUF
  | WriteCopies off chars rest' _ i' _ => rest' = rest /\ puts i rest off chars i'
  | WritePanics => True
  | WriteStuck => False
  end.
Proof.
  intros Hr Hl. pose proof Hr as (_ & Hlen & _).
  destruct (decide (rest = [])) as [-> | Hne].
  { unfold write_chunk. cbn. split; [unfold core; cbn; by rewrite Hl | by left]. }
  destruct (decide (len i < PIPE_BUF)).
  { destruct (write_chunk_copies (write_wait (S fuel) nonblock) rest written i s) as (off & c & wr & i' & -> & Hp);
      done. }
  assert (len i = PIPE_BUF) as Hfull by lia.
  unfold write_chunk. unfold PIPE_FREE at 1. rewrite Hfull, Z.sub_diag, andb_false_r.
  set (i1 := upd lock _ i). set (s1 := wake_up_interruptible _ _).
  assert (core i1 = (base i, start i, len i, 0)) as Hc by (unfold core; cbn; by rewrite Hl).
  pose proof (write_wait_spec fuel nonblock 1 rest written i1 s1 Hr ltac:(unfold PIPE_BUF; lia)) as H.
  destruct (write_wait _ _ _ _ _ _ _) as [r i' s' | f' r' wr i' s' | | off c r' wr i' s' |]; try done.
  - rewrite H, Hc, Hfull. split; [done | by right].
  - destruct H as (-> & -> & -> & _). by rewrite Hc, Hfull.
  - destruct H as (_ & _ & H & _). cbn in H. lia.
Qed.

(** ** The invariant *)

Definition copies (th : pipe_thread) : bool :=
  match th with TReadCopies _ _ _ _ | TWriteCopies _ _ _ _ _ _ => true | _ => false end.
(** The one thread that copies, if any. *)
Definition sole (th : gmap tptr pipe_thread) (o : option (tptr * pipe_thread)) : Prop :=
  forall t y, copies y = true -> (th !! t = Some y <-> o = Some (t, y)).
Definition quiet (th : gmap tptr pipe_thread) (t : tptr) : Prop :=
  forall y, th !! t = Some y -> copies y = false.

Lemma sole_insert_quiet th o t y : sole th o -> quiet th t -> copies y = false -> sole (<[t := y]> th) o.
Proof.
  intros Hs Hq Hy t' z Hz. destruct (decide (t = t')) as [<- |].
  - rewrite lookup_insert_eq. split; [intros [= ->]; congruence |].
    intros Ho. apply Hs in Ho; [| done]. apply Hq in Ho. congruence.
  - rewrite lookup_insert_ne by done. by apply Hs.
Qed.
Lemma sole_delete_quiet th o t : sole th o -> quiet th t -> sole (delete t th) o.
Proof.
  intros Hs Hq t' z Hz. destruct (decide (t = t')) as [<- |].
  - rewrite lookup_delete_eq. split; [done |].
    intros Ho. apply Hs in Ho; [| done]. apply Hq in Ho. congruence.
  - rewrite lookup_delete_ne by done. by apply Hs.
Qed.
Lemma sole_delete th t y : sole th (Some (t, y)) -> copies y = true -> sole (delete t th) None.
Proof.
  intros Hs Hy t' z Hz. split; [| done]. intros H. exfalso. destruct (decide (t = t')) as [<- |].
  - by rewrite lookup_delete_eq in H.
  - rewrite lookup_delete_ne in H by done. apply Hs in H; [| done]. by injection H as ? ?.
Qed.
Lemma sole_insert th t y : sole (delete t th) None -> copies y = true -> sole (<[t := y]> th) (Some (t, y)).
Proof.
  intros Hs Hy t' z Hz. destruct (decide (t = t')) as [<- |].
  - rewrite lookup_insert_eq. split; [by intros [= ->] | by intros [= ->]].
  - rewrite lookup_insert_ne by done. specialize (Hs t' z Hz). rewrite lookup_delete_ne in Hs by done.
    rewrite Hs. split; [done | by intros [= ? ?]].
Qed.
Lemma sole_agree th o t y : sole th o -> th !! t = Some y -> copies y = true -> o = Some (t, y).
Proof. intros Hs Ht Hy. by apply Hs. Qed.
(** What became of the only copying thread. *)
Lemma sole_stops th t y y' : sole th (Some (t, y)) -> copies y = true -> copies y' = false ->
  sole (<[t := y']> th) None.
Proof.
  intros Hs Hy Hy'. rewrite <- insert_delete_eq. apply sole_insert_quiet; [by eapply sole_delete | | done].
  intros z Hz. by rewrite lookup_delete_eq in Hz.
Qed.

Definition contents (i : pipe_inode_info) : list Z :=
  ring (default [] (base i)) (Z.to_nat (start i)) (Z.to_nat (len i)).
Definition written_bytes (bs : list block) : list Z := concat (map b_data bs).
(** A block is a run of the bytes of its call; of a call of up to PIPE_BUF
    bytes, all of them. *)
Definition block_run (b : block) : Prop := b_data b = take (length (b_data b)) (drop (b_from b) (b_call b)).
Definition block_done (b : block) : Prop :=
  block_run b /\ (Z.of_nat (length (b_call b)) <= PIPE_BUF -> b_data b = b_call b).

(** Nobody copies, or one reader, or one writer does, with the pipe locked. *)
Inductive phase (i : pipe_inode_info) (th : gmap tptr pipe_thread) (bs : list block) (o : list Z) : Prop :=
| PhIdle :
    lock i = 0 -> sole th None -> Forall block_done bs -> o ++ contents i = written_bytes bs ->
    phase i th bs o
| PhReads t off chars count rd p :
    lock i = 1 -> sole th (Some (t, TReadCopies off chars count rd)) -> Forall block_done bs ->
    base i = Some p ->
    o ++ take (Z.to_nat chars) (drop (Z.to_nat off) p) ++ contents i = written_bytes bs ->
    phase i th bs o
| PhWrites t nb call off chars rest wr p bs' b :
    lock i = 1 -> sole th (Some (t, TWriteCopies nb call off chars rest wr)) ->
    bs = bs' ++ [b] -> Forall block_done bs' -> base i = Some p ->
    0 < chars <= Z.of_nat (length rest) -> off + chars <= PIPE_BUF -> chars <= len i ->
    off = (if decide (start i + (len i - chars) < PIPE_BUF) then start i + (len i - chars)
           else start i + (len i - chars) - PIPE_BUF) ->
    b_call b = call -> block_run b -> drop (b_from b + length (b_data b)) call = rest ->
    (Z.of_nat (length call) <= PIPE_BUF -> b_from b = 0%nat /\ Z.of_nat (length rest) + (len i - chars) <= PIPE_BUF) ->
    o ++ ring p (Z.to_nat (start i)) (Z.to_nat (len i - chars)) = written_bytes bs ->
    phase i th bs o.

(** A writer that sleeps has the rest of its call still to write; of a call of
    up to PIPE_BUF bytes, all of it. *)
Definition sleeper_ok (i : pipe_inode_info) (y : pipe_thread) : Prop :=
  match y with
  | TWriteSleeps call free rest _ =>
      base i <> None /\ 1 <= free <= PIPE_BUF /\ rest <> [] /\ (exists k, rest = drop k call) /\
      (Z.of_nat (length call) <= PIPE_BUF -> rest = call /\ free = Z.of_nat (length call))
  | _ => True
  end.

Record pinv (x : psys) : Prop := mk_pinv {
  pi_range : in_range (sp x);
  pi_page : forall p, base (sp x) = Some p -> length p = Z.to_nat PIPE_BUF;
  pi_sleepers : forall t y, threads x !! t = Some y -> sleeper_ok (sp x) y;
  pi_phase : phase (sp x) (threads x) (blocks x) (out x);
}.

Lemma core_inv i i' : core i' = core i ->
  base i' = base i /\ start i' = start i /\ len i' = len i /\ lock i' = lock i.
Proof. by intros [= -> -> -> ->]. Qed.

Lemma core_inv_unlock i i' k : core i' = (base i, start i, len i, k) ->
  base i' = base i /\ start i' = start i /\ len i' = len i /\ lock i' = k.
Proof. by intros [= -> -> -> ->]. Qed.

Lemma phase_core i i' th bs o : core i' = core i -> phase i th bs o -> phase i' th bs o.
Proof.
  intros (Hb & Hs & Hl & Hk)%core_inv [].
  - apply PhIdle; try done; [congruence |]. unfold contents. by rewrite Hb, Hs, Hl.
  - eapply PhReads; try done; [congruence | by rewrite Hb |]. unfold contents. by rewrite Hb, Hs, Hl.
  - eapply PhWrites; rewrite ?Hb, ?Hs, ?Hl; try done. congruence.
Qed.
Lemma phase_insert i th bs o t y : phase i th bs o -> quiet th t -> copies y = false -> phase i (<[t := y]> th) bs o.
Proof. intros [] Hq Hy; econstructor; try done; by apply sole_insert_quiet. Qed.
Lemma phase_delete i th bs o t : phase i th bs o -> quiet th t -> phase i (delete t th) bs o.
Proof. intros [] Hq; econstructor; try done; by apply sole_delete_quiet. Qed.

Lemma in_range_core i i' : core i' = core i -> in_range i -> in_range i'.
Proof. intros (Hb & Hs & Hl & Hk)%core_inv. unfold in_range. by rewrite Hb, Hs, Hl. Qed.
Lemma sleeper_base i i' y : (base i <> None -> base i' <> None) -> sleeper_ok i y -> sleeper_ok i' y.
Proof. intros H. destruct y; try done. cbn. tauto. Qed.

Section steps.
Context (x : psys) (t : tptr) (Hx : pinv x).
#[local] Set Default Proof Using "All".

Lemma sleepers_insert i y :
  (base (sp x) <> None -> base i <> None) -> sleeper_ok i y ->
  forall t' y', <[t := y]> (threads x) !! t' = Some y' -> sleeper_ok i y'.
Proof.
  intros Hb Hy t' y'. destruct (decide (t = t')) as [<- |].
  - rewrite lookup_insert_eq. by intros [= <-].
  - rewrite lookup_insert_ne by done. intros H. eapply sleeper_base; [done |]. by eapply pi_sleepers.
Qed.
Lemma sleepers_delete i :
  (base (sp x) <> None -> base i <> None) ->
  forall t' y', delete t (threads x) !! t' = Some y' -> sleeper_ok i y'.
Proof.
  intros Hb t' y' [_ H]%lookup_delete_Some. eapply sleeper_base; [done |]. by eapply pi_sleepers.
Qed.

(** A call that leaves the buffer alone returns or waits. *)
Lemma pinv_returns i : core i = core (sp x) -> quiet (threads x) t ->
  pinv (x <| sp := i |> <| threads ::= delete t |>).
Proof.
  intros Hc Hq. pose proof (core_inv _ _ Hc) as (Hb & _). constructor; cbn.
  - eapply in_range_core; [done | apply Hx].
  - rewrite Hb. apply Hx.
  - apply sleepers_delete. by rewrite Hb.
  - eapply phase_core; [done |]. apply phase_delete; [apply Hx | done].
Qed.
Lemma pinv_waits i y : core i = core (sp x) -> quiet (threads x) t -> copies y = false -> sleeper_ok (sp x) y ->
  pinv (x <| sp := i |> <| threads ::= <[t := y]> |>).
Proof.
  intros Hc Hq Hy Hok. pose proof (core_inv _ _ Hc) as (Hb & _).
  assert (base (sp x) <> None -> base i <> None) as Hb' by (by rewrite Hb). constructor; cbn.
  - eapply in_range_core; [done | apply Hx].
  - rewrite Hb. apply Hx.
  - apply sleepers_insert; [done |]. by eapply sleeper_base.
  - eapply phase_core; [done |]. by apply phase_insert; [apply Hx | |].
Qed.

Lemma unlocked_idle : lock (sp x) = 0 ->
  sole (threads x) None /\ Forall block_done (blocks x) /\ out x ++ contents (sp x) = written_bytes (blocks x).
Proof. intros Hl. destruct (pi_phase _ Hx); [done | congruence | congruence]. Qed.
End steps.

Lemma takes_contents i off chars i' :
  in_range i -> (forall p, base i = Some p -> length p = Z.to_nat PIPE_BUF) -> takes i off chars i' ->
  exists p, base i = Some p /\ in_range i' /\
    take (Z.to_nat chars) (drop (Z.to_nat off) p) ++ contents i' = contents i.
Proof.
  intros (Hs & Hl & Hn) Hp (Hb & Hk & -> & Hc & He & Hs' & Hl').
  destruct (base i) as [p |] eqn:E; [| destruct (Hn eq_refl); lia]. specialize (Hp p eq_refl).
  exists p. split; [done |]. split.
  - split_and!; try lia; [rewrite Hs'; case_decide; lia .. | by rewrite Hb].
  - unfold contents. rewrite Hb, E, Hl', Hs'. change (default [] (Some p)) with p.
    rewrite <- (ring_read p (Z.to_nat PIPE_BUF) (Z.to_nat (start i)) (Z.to_nat (len i)) Hp
      ltac:(lia) ltac:(lia) (Z.to_nat chars) ltac:(lia) ltac:(lia)).
    f_equal. f_equal; [| lia]. repeat case_decide; lia.
Qed.


(** A read that starts or goes on at the test of the first loop. *)
Lemma pinv_read x t count r : pinv x -> quiet (threads x) t ->
  match r with
  | ReadReturns _ i' _ | ReadSleeps i' _ => core i' = core (sp x)
  | ReadCopies off chars _ _ i' _ => lock (sp x) = 0 /\ takes (sp x) off chars i'
  | ReadPanics => True
  end -> pinv (read_goes t count r x).
Proof.
  intros Hx Hq Hr. destruct r as [r i s | i s | | off chars c rd i s]; [by apply pinv_returns | by apply pinv_waits | done |].
  destruct Hr as [Hl Ht]. destruct (unlocked_idle x t Hx Hl) as (Hs & Hd & Ho).
  destruct (takes_contents _ _ _ _ (pi_range _ Hx) (pi_page _ Hx) Ht) as (p & Hp & Hr & Hc).
  pose proof Ht as (Hb & Hk & _). constructor; cbn; try done.
  - rewrite Hb. apply Hx.
  - apply sleepers_insert; [done | by rewrite Hb | done].
  - eapply PhReads; try done; [| by rewrite Hb, Hp |].
    + apply sole_insert; [by apply sole_delete_quiet | done].
    + by rewrite Hc.
Qed.

(** A reader has copied. *)
Lemma pinv_read_copied x t off chars count read s data r :
  pinv x -> threads x !! t = Some (TReadCopies off chars count read) ->
  pipe_read_copied off chars count read (sp x) s = (data, r) ->
  pinv (read_goes t count r (x <| out ::= fun o => o ++ data |>)).
Proof.
  intros Hx Ht [= <- <-]. set (d := page_read _ _ _).
  assert (lock (sp x) = 1 /\ sole (threads x) (Some (t, TReadCopies off chars count read)) /\
    Forall block_done (blocks x) /\ (out x ++ d) ++ contents (sp x) = written_bytes (blocks x)) as (Hl & Hs & Hd & Ho).
  { destruct (pi_phase _ Hx) as [_ Hs | t' o' c' n' r' p Hl Hs Hd Hp Ho | t' nb cl o' c' rs wr p bs b _ Hs].
    - by pose proof (sole_agree _ _ _ _ Hs Ht eq_refl).
    - pose proof (sole_agree _ _ _ _ Hs Ht eq_refl) as [= -> -> -> -> ->]. split_and!; try done.
      unfold d, page_read. rewrite Hp. by rewrite <- app_assoc.
    - by pose proof (sole_agree _ _ _ _ Hs Ht eq_refl). }
  pose proof (pipe_read_loop_spec count read (sp x) s (pi_range _ Hx) Hl) as Hr.
  destruct (pipe_read_loop count read (sp x) s) as [r i s' | i s' | | off' chars' c' rd' i s']; try done.
  - injection Hr as Hb Hst Hle Hk. constructor; cbn.
    + unfold in_range. rewrite Hb, Hst, Hle. apply Hx.
    + rewrite Hb. apply Hx.
    + apply sleepers_delete; [done | by rewrite Hb].
    + apply PhIdle; [done | by eapply sole_delete | done |]. unfold contents. rewrite Hb, Hst, Hle. exact Ho.
  - destruct (takes_contents _ _ _ _ (pi_range _ Hx) (pi_page _ Hx) Hr) as (p & Hp & Hrg & Hc).
    pose proof Hr as (Hb & Hk & _). constructor; cbn; try done.
    + rewrite Hb. apply Hx.
    + apply sleepers_insert; [done | by rewrite Hb | done].
    + eapply PhReads; try done; [| by rewrite Hb, Hp |].
      * apply sole_insert; [by eapply sole_delete | done].
      * rewrite Hc. exact Ho.
Qed.

(** A write that starts or goes on at the test of the outer loop. *)
Lemma pinv_write x t nb call free rest r k :
  pinv x -> quiet (threads x) t -> base (sp x) <> None -> rest = drop k call -> 1 <= free <= PIPE_BUF ->
  (Z.of_nat (length call) <= PIPE_BUF -> rest = call /\ free = Z.of_nat (length call)) ->
  match r with
  | WriteReturns _ i' _ => core i' = core (sp x)
  | WriteSleeps free' rest' _ i' _ => core i' = core (sp x) /\ free' = free /\ rest' = rest /\ rest <> []
  | WriteCopies off chars rest' _ i' _ =>
      rest' = rest /\ lock (sp x) = 0 /\ free <= PIPE_BUF - len (sp x) /\ puts (sp x) rest off chars i'
  | WritePanics => True
  | WriteStuck => False
  end -> pinv (write_goes t nb call true r x).
Proof.
  intros Hx Hq Hbase Hrest Hfree Hsmall Hr.
  destruct r as [r i s | f' r' wr i s | | off chars r' wr i s |]; try done; [by apply pinv_returns | |].
  - destruct Hr as (Hc & -> & -> & Hne). apply pinv_waits; try done. cbn. split_and!; try done; try lia. by exists k.
  - destruct Hr as (-> & Hl & Hroom & Hp). destruct (unlocked_idle x t Hx Hl) as (Hs & Hd & Ho).
    destruct (base (sp x)) as [p |] eqn:Eb; [| done]. pose proof (pi_range _ Hx) as (R1 & R2 & _).
    pose proof Hp as (Hb & Hk & Hst & Hoff & Hch & Hend & Hlen & Hfit). constructor; cbn.
    + split_and!; try lia. rewrite Hb, Eb. done.
    + rewrite Hb. rewrite Eb. rewrite <- Eb. apply Hx.
    + apply sleepers_insert; [done | by rewrite Hb | done].
    + assert (length call - length rest = k)%nat as Hk' by (rewrite Hrest, length_drop in *; lia).
      eapply (PhWrites _ _ _ _ t nb call off chars rest wr p (blocks x)); try done.
      * apply sole_insert; [by apply sole_delete_quiet | done].
      * by rewrite Hb, Eb.
      * lia.
      * rewrite Hst, Hlen. rewrite Hoff. repeat case_decide; lia.
      * cbn. by rewrite Nat.add_0_r, Hk'.
      * cbn. intros Hle. destruct (Hsmall Hle) as [-> ->]. lia.
      * unfold written_bytes in *. rewrite map_app, concat_app. cbn. rewrite app_nil_r, <- Ho. f_equal.
        unfold contents. rewrite Hst, Eb. cbn [default]. f_equal. lia.
Qed.

Lemma extend_last_snoc d bs b :
  extend_last d (bs ++ [b]) = bs ++ [mk_block (b_call b) (b_from b) (b_data b ++ d)].
Proof. unfold extend_last. by rewrite last_snoc, removelast_last. Qed.

(** The block of a writer grows by what was copied, ... *)
Lemma block_run_extend b d rest :
  block_run b -> drop (b_from b + length (b_data b)) (b_call b) = rest -> d = take (length d) rest ->
  block_run (mk_block (b_call b) (b_from b) (b_data b ++ d)) /\
  drop (b_from b + length (b_data b ++ d)) (b_call b) = drop (length d) rest.
Proof.
  unfold block_run. cbn. intros Hr <- Hd. rewrite length_app. split.
  - rewrite <- take_take_drop, drop_drop. by rewrite <- Hr, <- Hd.
  - rewrite drop_drop. f_equal. lia.
Qed.
(** ... and is complete when nothing is left. *)
Lemma block_run_complete b : block_run b -> b_from b = 0%nat -> drop (length (b_data b)) (b_call b) = [] ->
  b_data b = b_call b.
Proof.
  unfold block_run. intros Hr Hf Hd. rewrite Hf, drop_0 in Hr. rewrite Hr.
  rewrite <- (take_drop (length (b_data b)) (b_call b)) at 2. by rewrite Hd, app_nil_r.
Qed.

(** The state when a writer has copied, still with the lock. *)
Lemma write_copied_state x t nb call off chars rest wr :
  pinv x -> threads x !! t = Some (TWriteCopies nb call off chars rest wr) ->
  let i := page_write off (take (Z.to_nat chars) rest) (sp x) in
  let rest' := drop (Z.to_nat chars) rest in
  exists p bs b, sole (threads x) (Some (t, TWriteCopies nb call off chars rest wr)) /\
    extend_last (take (Z.to_nat chars) rest) (blocks x) = bs ++ [b] /\ Forall block_done bs /\
    in_range i /\ base i = Some p /\ length p = Z.to_nat PIPE_BUF /\ lock i = 1 /\
    b_call b = call /\ block_run b /\ drop (b_from b + length (b_data b)) call = rest' /\
    (Z.of_nat (length call) <= PIPE_BUF -> b_from b = 0%nat /\ Z.of_nat (length rest') + len i <= PIPE_BUF) /\
    out x ++ contents i = written_bytes (bs ++ [b]).
Proof.
  intros Hx Ht i rest'. pose proof (pi_range _ Hx) as (R1 & R2 & _).
  destruct (pi_phase _ Hx) as [_ Hs | t' ? ? ? ? ? _ Hs | t' nb' cl o' c' rs wr' p bs b Hl Hs Hbs Hd Hp Hch Hend Hle Hoff Hcall Hrun Hrest Hsmall Ho];
    pose proof (sole_agree _ _ _ _ Hs Ht eq_refl) as He; [done | done |].
  injection He as -> -> -> -> -> -> ->. pose proof (pi_page _ Hx p Hp) as Hlp.
  set (d := take (Z.to_nat chars) rest) in *.
  assert (length d = Z.to_nat chars) as Hd' by (unfold d; rewrite length_take; lia).
  set (p' := take (Z.to_nat off) p ++ d ++ drop (Z.to_nat off + length d) p).
  assert (base i = Some p') as Hp' by (unfold i, page_write; cbn; by rewrite Hp).
  assert (length p' = Z.to_nat PIPE_BUF) as Hlp'.
  { unfold p'. rewrite !length_app, length_take, length_drop. repeat case_decide; lia. }
  destruct (block_run_extend b d rest Hrun ltac:(by rewrite Hcall)) as [Hrun' Hrest'].
  { rewrite Hd'. done. }
  exists p', bs, (mk_block (b_call b) (b_from b) (b_data b ++ d)).
  split_and!; try done.
  - by rewrite Hbs, extend_last_snoc.
  - unfold in_range. rewrite Hp'. cbn. split_and!; (done || lia).
  - rewrite Hcall in Hrest'. cbn [b_from b_data]. rewrite Hrest', Hd'. done.
  - intros Hc. destruct (Hsmall Hc) as [-> Hroom]. split; [done |].
    unfold rest'. rewrite length_drop. cbn. lia.
  - unfold written_bytes in *. rewrite Hbs, !map_app, !concat_app in *. cbn in Ho |- *.
    rewrite app_nil_r in *. rewrite app_assoc, <- Ho, <- app_assoc. f_equal.
    unfold contents. rewrite Hp'. change (default [] (Some p')) with p'. cbn.
    pose proof (ring_write p (Z.to_nat PIPE_BUF) (Z.to_nat (start (sp x))) (Z.to_nat (len (sp x) - chars)) Hlp
      ltac:(lia) ltac:(lia) d (Z.to_nat off)) as Hw.
    rewrite <- Hw; [| subst off; repeat case_decide; lia | lia | lia].
    f_equal. lia.
Qed.

Lemma pinv_write_copied x t nb call off chars rest wr s r :
  pinv x -> threads x !! t = Some (TWriteCopies nb call off chars rest wr) ->
  pipe_write_copied nb off chars rest wr (sp x) s = r -> r <> WritePanics ->
  pinv (write_goes t nb call false r
          (x <| blocks ::= extend_last (take (Z.to_nat chars) rest) |>)).
Proof.
  intros Hx Ht <- Hnp. destruct (write_copied_state _ _ _ _ _ _ _ _ Hx Ht)
    as (p & bs & b & Hs & Hbs & Hd & Hr & Hp & Hlp & Hl & Hcall & Hrun & Hrest & Hsmall & Ho).
  unfold pipe_write_copied in *. set (i := page_write _ _ _) in *. set (rest' := drop _ rest) in *.
  assert (base (sp x) <> None -> base i <> None) as Hbb by (by rewrite Hp).
  (* the block is complete when the writer lets the lock go *)
  assert (rest' = [] \/ len i = PIPE_BUF -> Forall block_done (bs ++ [b])) as Hdone.
  { intros Hor. apply Forall_app. split; [done |]. constructor; [| constructor]. split; [done |].
    intros Hc. rewrite Hcall in Hc. destruct (Hsmall Hc) as [Hf Hroom].
    apply block_run_complete; [done | done |]. rewrite Hcall, Hf in *. cbn in Hrest. rewrite Hrest.
    destruct Hor as [| Hor]; [done |]. apply nil_length_inv. lia. }
  pose proof (write_chunk_spec 1 nb rest' wr i s Hr Hl) as H. unfold write_fuel.
  destruct (write_chunk _ _ _ _ _) as [r i' s' | f' r' wr' i' s' | | off' c' r' wr' i' s' |]; [| | | | done].
  - destruct H as [Hc Hor]. apply core_inv_unlock in Hc as (Hb & Hst & Hle & Hk). constructor; cbn.
    + unfold in_range. rewrite Hb, Hst, Hle. exact Hr.
    + rewrite Hb, Hp. by intros ? [= <-].
    + apply sleepers_delete; [done | by rewrite Hb].
    + rewrite Hbs. apply PhIdle; [done | by eapply sole_delete | by apply Hdone |].
      unfold contents. rewrite Hb, Hst, Hle. exact Ho.
  - destruct H as (Hc & -> & -> & Hne & Hfull). apply core_inv_unlock in Hc as (Hb & Hst & Hle & Hk). constructor; cbn.
    + unfold in_range. rewrite Hb, Hst, Hle. exact Hr.
    + rewrite Hb, Hp. by intros ? [= <-].
    + apply sleepers_insert; [done | by rewrite Hb |]. cbn. rewrite Hb, Hp.
      split_and!; try done; [by rewrite <- Hrest; eexists |]. intros Hc. exfalso. destruct (Hsmall Hc).
      destruct rest'; [done | cbn [length] in *; lia].
    + rewrite Hbs. apply PhIdle; [done | by eapply sole_stops | by apply Hdone; right |].
      unfold contents. rewrite Hb, Hst, Hle. exact Ho.
  - done.
  - destruct H as [-> Hput]. pose proof Hput as (Hb & Hk & Hst & Hoff & Hch & Hend & Hlen & Hfit).
    pose proof Hr as (R1 & R2 & _). constructor; cbn.
    + unfold in_range. rewrite Hb, Hp. split_and!; (done || lia).
    + rewrite Hb, Hp. by intros ? [= <-].
    + apply sleepers_insert; [done | by rewrite Hb | done].
    + rewrite Hbs. eapply (PhWrites _ _ _ _ t nb call off' c' rest' wr' p bs b); try done.
      * apply sole_insert; [by eapply sole_delete | done].
      * by rewrite Hb, Hp.
      * lia.
      * rewrite Hst, Hlen, Hoff. repeat case_decide; lia.
      * intros Hc. destruct (Hsmall Hc) as [-> ?]. lia.
      * rewrite <- Ho. f_equal. unfold contents. rewrite Hst, Hp. change (default [] (Some p)) with p. f_equal. lia.
Qed.

(** ** Opening and closing leave the data alone *)

Definition fifo_pipe (r : fifo_step) : option pipe_inode_info :=
  match r with FifoReturns _ _ i _ | FifoSleeps _ _ i _ | FifoAllocates _ i _ => Some i | FifoPanics => None end.
Definition keeps_core (i : pipe_inode_info) (r : fifo_step) : Prop :=
  forall i', fifo_pipe r = Some i' -> core i' = core i.

Lemma fifo_sleep_core pc f i s : keeps_core i (fifo_sleep pc f i s).
Proof. unfold fifo_sleep. by destruct (interruptible_sleep_on _ _) as [[q s'] |]; intros ? [= <-]. Qed.
Lemma fifo_end_core retval f i s : keeps_core i (fifo_end retval f i s).
Proof. unfold fifo_end. by destruct (_ || _); intros ? [= <-]. Qed.
Lemma keeps_core_eq i i' r : core i = core i' -> keeps_core i r -> keeps_core i' r.
Proof. intros H Hk j Hj. rewrite <- H. by apply Hk. Qed.
#[local] Hint Resolve fifo_sleep_core fifo_end_core : core.

(** Through the tests of an open down to a sleep or its end. *)
Ltac open_core lem :=
  cbv zeta; repeat split_if; (eapply keeps_core_eq; [| apply lem]); reflexivity.

Lemma fifo_rd_drain_core retval f i s : keeps_core i (fifo_rd_drain retval f i s).
Proof. unfold fifo_rd_drain. cbv zeta. split_if; [done |]. destruct (ctrue retval); by open_core fifo_end_core. Qed.
Lemma fifo_wr_drain_core retval f i s : keeps_core i (fifo_wr_drain retval f i s).
Proof. unfold fifo_wr_drain. cbv zeta. split_if; [done |]. destruct (ctrue retval); by open_core fifo_end_core. Qed.
Lemma fifo_rd_opened_core retval f i s : keeps_core i (fifo_rd_opened retval f i s).
Proof. unfold fifo_rd_opened. by open_core fifo_rd_drain_core. Qed.
Lemma fifo_wr_opened_core retval f i s : keeps_core i (fifo_wr_opened retval f i s).
Proof. unfold fifo_wr_opened. by open_core fifo_wr_drain_core. Qed.
Lemma fifo_rd_wait_core f i s : keeps_core i (fifo_rd_wait f i s).
Proof. unfold fifo_rd_wait. repeat split_if; auto using fifo_rd_opened_core. Qed.
Lemma fifo_wr_wait_core f i s : keeps_core i (fifo_wr_wait f i s).
Proof. unfold fifo_wr_wait. repeat split_if; auto using fifo_wr_opened_core. Qed.
Lemma fifo_rw_drain2_core f i s : keeps_core i (fifo_rw_drain2 f i s).
Proof. unfold fifo_rw_drain2. split_if; auto. Qed.
Lemma fifo_rw_drain_core f i s : keeps_core i (fifo_rw_drain f i s).
Proof. unfold fifo_rw_drain. split_if; [auto |]. cbn [add_writer]. by open_core fifo_rw_drain2_core. Qed.

Lemma fifo_open_core f_mode nonblock f i s : keeps_core i (fifo_open f_mode nonblock f i s).
Proof.
  unfold fifo_open, add_reader, add_writer.
  repeat (split_if; auto); (eapply keeps_core_eq; [| first
    [ apply fifo_rd_wait_core | apply fifo_rd_drain_core | apply fifo_wr_wait_core
    | apply fifo_wr_drain_core | apply fifo_rw_drain_core ]]); reflexivity.
Qed.
Lemma fifo_wakes_core pc f i s : keeps_core i (fifo_wakes pc f i s).
Proof.
  unfold fifo_wakes. destruct pc; (eapply keeps_core_eq; [| first
    [ apply fifo_rd_wait_core | apply fifo_rd_drain_core | apply fifo_wr_wait_core
    | apply fifo_wr_drain_core | apply fifo_rw_drain_core | apply fifo_rw_drain2_core ]]); reflexivity.
Qed.

Lemma pinv_open x t r : pinv x -> quiet (threads x) t -> keeps_core (sp x) r -> pinv (open_goes t r x).
Proof.
  intros Hx Hq Hr. destruct r as [r f i s | pc f i s | | f i s]; cbn [open_goes]; [| | done |];
    specialize (Hr i eq_refl); [by apply pinv_returns | by apply pinv_waits | by apply pinv_waits].
Qed.

Lemma pinv_open_allocated x t page f s : pinv x -> threads x !! t = Some (TOpenAllocates f) ->
  (forall p, page = Some p -> length p = Z.to_nat PIPE_BUF) ->
  pinv (open_goes t (fifo_alloc_end page f (sp x) s) x).
Proof.
  intros Hx Ht Hpage. assert (quiet (threads x) t) as Hq by (intros y Hy; congruence || by simplify_eq).
  unfold fifo_alloc_end. destruct (base (sp x)) as [p |] eqn:Eb; [by apply pinv_open; [| | intros i' [= <-]] |].
  destruct page as [p |]; [| by apply pinv_open; [| | intros i' [= <-]]].
  pose proof (pi_range _ Hx) as (_ & _ & Hn). destruct (Hn Eb) as [Hs Hl].
  destruct (pi_phase _ Hx) as [Hk Hso Hd Ho | ? ? ? ? ? ? _ _ _ ? | ? ? ? ? ? ? ? ? ? ? _ _ _ _ ?]; [| congruence | congruence].
  constructor; cbn.
  - by split_and!.
  - intros ? [= <-]. by apply Hpage.
  - by apply sleepers_delete.
  - apply PhIdle; [done | by apply sole_delete_quiet | done |]. rewrite <- Ho. f_equal.
    unfold contents. by rewrite Hs, Hl.
Qed.

Lemma release_core f i s : core (fop_release f i s).1 = core i.
Proof. by destruct f. Qed.

Lemma pinv_same x i : pinv x -> core i = core (sp x) -> pinv (x <| sp := i |>).
Proof.
  intros Hx Hc. pose proof (core_inv _ _ Hc) as (Hb & _). constructor; cbn.
  - eapply in_range_core; [done | apply Hx].
  - rewrite Hb. apply Hx.
  - intros t y Hy. apply (sleeper_base (sp x)); [by rewrite Hb | by eapply pi_sleepers].
  - eapply phase_core; [done | apply Hx].
Qed.

Lemma quiet_none th t : th !! t = None -> quiet th t.
Proof. intros H y Hy. congruence. Qed.
Lemma quiet_some th t z : th !! t = Some z -> copies z = false -> quiet th t.
Proof. intros H Hz y Hy. congruence. Qed.

Lemma pinv_pipe_read x t nonblock count i s : pinv x -> quiet (threads x) t -> core i = core (sp x) ->
  pinv (read_goes t count (pipe_read nonblock count i s) x).
Proof.
  intros Hx Hq Hc. apply pinv_read; [done | done |].
  assert (in_range i) as Hr by (eapply in_range_core; [done | apply Hx]).
  pose proof (pipe_read_spec nonblock count i s Hr) as H. apply core_inv in Hc as Hc'.
  destruct Hc' as (Hb & Hs & Hl & Hk). unfold takes in *. rewrite Hb, Hs, Hl, Hk in H.
  destruct (pipe_read _ _ _ _); congruence || done.
Qed.

Lemma pinv_connect x t nonblock count i s : pinv x -> quiet (threads x) t -> core i = core (sp x) ->
  pinv (connect_goes t count (connect_read nonblock count i s) x).
Proof.
  intros Hx Hq Hc. unfold connect_read. destruct (_ && _).
  - destruct nonblock; [by apply pinv_returns |]. destruct (signal_pending _); [by apply pinv_returns |].
    destruct (interruptible_sleep_on _ _) as [[q s'] |]; [by apply pinv_waits | done].
  - by apply pinv_pipe_read.
Qed.

Lemma pinv_pipe_write x t nb buf s : pinv x -> quiet (threads x) t -> base (sp x) <> None ->
  Z.of_nat (length buf) < 2 ^ 31 -> pinv (write_goes t nb buf true (pipe_write nb buf (sp x) s) x).
Proof.
  intros Hx Hq Hb Hlen. unfold pipe_write.
  destruct (negb _); [destruct (send_sig _ _ _ _); by apply pinv_returns |].
  destruct (decide (buf = [])) as [-> | Hne]; [by apply pinv_returns |].
  assert (0 < Z.of_nat (length buf)) by (destruct buf; [done | cbn [length]; lia]).
  cbv zeta. set (free := if Z.of_nat (length buf) <=? PIPE_BUF then _ else 1).
  assert (1 <= free <= PIPE_BUF) as Hf.
  { unfold free. destruct (_ <=? _) eqn:E; bool_simp; unfold PIPE_BUF in *; lia. }
  apply (pinv_write x t nb buf free buf _ 0); try done.
  - intros Hc. unfold free. by rewrite (proj2 (Z.leb_le _ _) Hc).
  - by apply write_wait_spec; [apply Hx |].
Qed.

Lemma pinv_write_wakes x t call free rest written s : pinv x ->
  threads x !! t = Some (TWriteSleeps call free rest written) ->
  pinv (write_goes t false call true (pipe_write_wakes free rest written (sp x) s) x).
Proof.
  intros Hx Ht. pose proof (pi_sleepers _ Hx _ _ Ht) as (Hb & Hf & Hne & (k & Hk) & Hsmall).
  assert (quiet (threads x) t) as Hq by (by eapply quiet_some).
  eapply (pinv_write x t false call free rest _ k); try done. unfold pipe_write_wakes.
  exact (write_wait_spec 1 false free rest written (leave_queue (sp x) s) s (pi_range _ Hx) Hf).
Qed.

Lemma pinv_step x y : pipe_step x y -> pinv x -> pinv y.
Proof.
  intros Hstep Hx. destruct Hstep.
  - apply pinv_pipe_read; [done | by apply quiet_none | done].
  - apply pinv_pipe_read; [done | by eapply quiet_some | done].
  - apply pinv_connect; [done | by apply quiet_none | done].
  - apply pinv_connect; [done | by eapply quiet_some | done].
  - by eapply pinv_read_copied.
  - apply pinv_pipe_write; [done | by apply quiet_none | done | done].
  - by apply pinv_write_wakes.
  - by eapply pinv_write_copied.
  - apply pinv_same; [done | apply release_core].
  - apply pinv_open; [done | by apply quiet_none | apply fifo_open_core].
  - apply pinv_open; [done | by eapply quiet_some | apply fifo_wakes_core].
  - by apply pinv_open_allocated.
Qed.

Lemma pinv_start x : pipe_start x -> pinv x.
Proof.
  intros [page Hp |].
  - constructor; cbn; [by split_and! | by intros ? [= <-] | done |].
    apply PhIdle; [done | intros t y _; by rewrite lookup_empty | constructor | done].
  - constructor; cbn; [by split_and! | done | done |].
    apply PhIdle; [done | intros t y _; by rewrite lookup_empty | constructor | done].
Qed.

Definition copying (x : psys) : Prop := exists t y, threads x !! t = Some y /\ copies y = true.
Definition writer_copying (x : psys) : Prop :=
  exists t nb call off chars rest wr, threads x !! t = Some (TWriteCopies nb call off chars rest wr).

Lemma contents_length x : pinv x -> Z.of_nat (length (contents (sp x))) = len (sp x).
Proof.
  intros Hx. pose proof (pi_range _ Hx) as (R1 & R2 & R3). unfold contents.
  destruct (base (sp x)) as [p |] eqn:E.
  - change (default [] (Some p)) with p.
    rewrite (ring_length p (Z.to_nat PIPE_BUF)); [lia | by eapply pi_page | lia | lia].
  - destruct (R3 eq_refl) as [-> ->]. done.
Qed.

(** C38: a pipe is a queue of bytes.  However readers, writers, opens, closes,
    sleeps and page faults interleave: what the readers got is the beginning of
    what the writers put in; only one caller copies at a time; when none does,
    the pipe is unlocked and holds exactly the bytes that are not read yet, at
    most PIPE_BUF; and every hold of the lock by a writer puts in a run of
    consecutive bytes of its call, the whole call when it has at most PIPE_BUF
    bytes: such writes are atomic. *)
Theorem pipe_fifo x y :
  pipe_start x -> rtc pipe_step x y ->
  (exists pending, written_bytes (blocks y) = out y ++ pending) /\
  (forall t t' a b, threads y !! t = Some a -> threads y !! t' = Some b ->
     copies a = true -> copies b = true -> t = t') /\
  (~ copying y -> lock (sp y) = 0 /\ written_bytes (blocks y) = out y ++ contents (sp y) /\
     Z.of_nat (length (contents (sp y))) = len (sp y) /\ len (sp y) <= PIPE_BUF) /\
  Forall block_run (blocks y) /\ (~ writer_copying y -> Forall block_done (blocks y)) /\
  Forall block_done (removelast (blocks y)).
Proof.
  intros Hs Hr. assert (pinv y) as Hy.
  { apply pinv_start in Hs. induction Hr; eauto using pinv_step. }
  assert (forall bs, Forall block_done bs -> Forall block_run bs) as Hrun.
  { intros bs H. eapply Forall_impl; [exact H |]. by intros b []. }
  assert (forall bs, Forall block_done bs -> Forall block_done (removelast bs)) as Hlast.
  { intros bs H. destruct bs as [| b bs _] using rev_ind; [done |].
    rewrite removelast_last. by apply Forall_app in H as []. }
  pose proof (contents_length _ Hy) as Hlen. pose proof (pi_range _ Hy) as (_ & Hle & _).
  assert (forall o, sole (threads y) o -> forall t t' a b, threads y !! t = Some a -> threads y !! t' = Some b ->
     copies a = true -> copies b = true -> t = t') as Hone.
  { intros o Ho t t' a b Ha Hb Ca Cb. pose proof (sole_agree _ _ _ _ Ho Ha Ca) as ->.
    by pose proof (sole_agree _ _ _ _ Ho Hb Cb) as [= -> ->]. }
  destruct (pi_phase _ Hy) as [Hl Hso Hd Ho | t off chars count rd p Hl Hso Hd Hp Ho |
    t nb call off chars rest wr p bs b Hl Hso Hbs Hd Hp _ _ _ _ _ Hrn _ _ Ho].
  - split_and!; eauto. intros _. split_and!; try done. lia.
  - assert (copying y) by (exists t, (TReadCopies off chars count rd); split; [by apply Hso | done]). split_and!; eauto; done.
  - assert (threads y !! t = Some (TWriteCopies nb call off chars rest wr)) as Ht by (by apply Hso).
    assert (copying y) by (exists t; eexists; by split).
    assert (writer_copying y) by (by do 7 eexists).
    rewrite Hbs, removelast_last in *. split_and!; eauto; try done. apply Forall_app. auto.
Qed.

(** Task 1 writes 3 bytes, task 2 reads 2 of them while task 3 has to wait. *)
Definition demo_pipe0 : psys := mk_psys (new_pipe (replicate 4096 0)) ∅ [] [].
Definition demo_pipe1 : psys :=
  write_goes 1 false [7; 8; 9] true (pipe_write false [7; 8; 9] (sp demo_pipe0) demo_sched) demo_pipe0.
Definition demo_pipe2 : psys :=
  write_goes 1 false [7; 8; 9] false (pipe_write_copied false 0 3 [7; 8; 9] 3 (sp demo_pipe1) demo_sched)
    (demo_pipe1 <| blocks ::= extend_last [7; 8; 9] |>).
Definition demo_pipe3 : psys := read_goes 2 2 (pipe_read false 2 (sp demo_pipe2) demo_sched) demo_pipe2.
Definition demo_pipe4 : psys :=
  let r := pipe_read_copied 0 2 0 2 (sp demo_pipe3) demo_sched in
  read_goes 2 0 r.2 (demo_pipe3 <| out ::= fun o => o ++ r.1 |>).

Lemma pipe_fifo_witness :
  out demo_pipe4 = [7; 8] /\ written_bytes (blocks demo_pipe4) = [7; 8] ++ contents (sp demo_pipe4) /\
  contents (sp demo_pipe4) = [9].
Proof.
  assert (rtc pipe_step demo_pipe0 demo_pipe4) as Hr.
  { eapply rtc_l; [apply (StepWrite demo_pipe0 1%nat false [7; 8; 9] demo_sched); [by vm_compute | done | done] |].
    eapply rtc_l.
    { eapply (StepWriteCopied demo_pipe1 1%nat false [7; 8; 9] 0 3 [7; 8; 9] 3 demo_sched);
        [by vm_compute | reflexivity | by vm_compute]. }
    eapply rtc_l; [apply (StepRead demo_pipe2 2%nat false 2 demo_sched); [by vm_compute | by vm_compute] |].
    apply rtc_once. apply (StepReadCopied demo_pipe3 2%nat 0 2 0 2 demo_sched); [by vm_compute |].
    by rewrite <- surjective_pairing. }
  destruct (pipe_fifo demo_pipe0 demo_pipe4 (StartPipe (replicate 4096 0) ltac:(by vm_compute)) Hr) as (_ & _ & H & _).
  assert (out demo_pipe4 = [7; 8]) as Ho by (by vm_compute).
  destruct H as (_ & Hw & _).
  - intros (t & y & Hy & _).
    assert (threads demo_pipe4 = ∅) as E by (by vm_compute). by rewrite E, lookup_empty in Hy.
  - rewrite Ho in Hw. split; [done |]. split; [exact Hw | by vm_compute].
Defined.

(** An open that gets no page fails, but stays counted as a reader. *)
Example fifo_open_leaks_reader :
  match fifo_open 1 true None init_fifo demo_sched with
  | FifoAllocates f i s =>
      match fifo_alloc_end None f i s with FifoReturns r _ i _ => r = - ENOMEM /\ readers i = 1 | _ => False end
  | _ => False
  end.
Proof. by vm_compute. Qed.
