(* ===== verification/Mmap.v ===== *)
(** Memory maps (mm/mmap.c): the list of areas of a process, [mmap], [munmap]
    and the merging of areas.

    The page tables are not modelled: the calls that clear and fill them
    ([unmap_page_range], [zeromap_page_range] of mm/memory.c) are recorded in
    the order in which they are made. *)

From Stdlib Require Import Sorted.
From S2P Require Import Prelude Errno Task.

(** include/linux/page.h:5-13 pages *)
Definition PAGE_SIZE := 4096.
Definition PAGE_MASK := 0xfffff000.
(** include/linux/page.h:15-15 [PAGE_ALIGN] *)
Definition PAGE_ALIGN (addr : Z) : Z := Z.land (u32 (addr + PAGE_SIZE - 1)) PAGE_MASK.
(** include/linux/mman.h:4-13 protections and flags *)
Definition PROT_READ := 1.
Definition PROT_WRITE := 2.
Definition PROT_EXEC := 4.
Definition MAP_SHARED := 1.
Definition MAP_PRIVATE := 2.
Definition MAP_TYPE := 0xf.
Definition MAP_FIXED := 0x10.
Definition MAP_ANONYMOUS := 0x20.
(** include/linux/shm.h:40-41 where [mmap] looks for room *)
Definition SHM_RANGE_START := 0x40000000.
Definition SHM_RANGE_END := 0x60000000.
(** include/linux/mm.h:174-186 page table bits *)
Definition PAGE_RW := 0x002.
Definition PAGE_SHARED := 0x027.
Definition PAGE_COPY := 0x225.
Definition PAGE_READONLY := 0x025.

(** mm/memory.c:1449-1456 [file_mmap], and the one of NFS: both close an area
    with [file_mmap_free] and have no [unmap] *)
Inductive vm_operations := file_mmap | nfs_file_mmap.
#[export] Instance vm_operations_eq_dec : EqDecision vm_operations.
Proof. solve_decision. Defined.

(** include/linux/mm.h:40-50 [struct vm_area_struct], an entry of the list
    along [vm_next]; an inode is its name *)
Record vm_area := mk_area {
  vm_start : Z; vm_end : Z; vm_page_prot : Z; vm_share : option nat;
  vm_inode : option nat; vm_offset : Z; vm_ops : option vm_operations;
}.
#[export] Instance eta_vm_area : Eta vm_area := fun a =>
  mk_area (vm_start a) (vm_end a) (vm_page_prot a) (vm_share a) (vm_inode a) (vm_offset a) (vm_ops a).

(** A call that changes page tables. *)
Inductive page_op := UnmapPages (addr len : Z) | ZeroPages (addr len mask : Z).

(** The state: the areas of the process, what was added to the counts of
    inodes, the page table calls, and the answers of the coming calls of
    [kmalloc] (success, when the list has ended). *)
Record mm_state := mk_mm {
  mmap : list vm_area; i_count : gmap nat Z; page_ops : list page_op; kmallocs : list bool;
}.
#[export] Instance eta_mm_state : Eta mm_state := fun m =>
  mk_mm (mmap m) (i_count m) (page_ops m) (kmallocs m).

Definition kmalloc (m : mm_state) : bool * mm_state := (hd true (kmallocs m), m <| kmallocs ::= tl |>).
Definition count_inode (i : option nat) (d : Z) (m : mm_state) : mm_state :=
  match i with
  | Some i => m <| i_count ::= fun c => <[i := default 0 (c !! i) + d]> c |>
  | None => m
  end.
Definition log_page_op (o : page_op) (m : mm_state) : mm_state := m <| page_ops ::= fun l => l ++ [o] |>.

(** mm/memory.c:1411-1420 [file_mmap_free], the [close] of every area with
    operations *)
Definition close_area (a : vm_area) (m : mm_state) : mm_state :=
  match vm_ops a with Some _ => count_inode (vm_inode a) (-1) m | None => m end.

(** ** The list of areas *)

(** mm/mmap.c:413-437 [insert_vm_struct]: before the first area that starts
    behind it (an overlap is only reported) *)
Fixpoint insert_vm_struct (vmp : vm_area) (l : list vm_area) : list vm_area :=
  match l with
  | [] => [vmp]
  | mpnt :: l' => if vm_start vmp <? vm_start mpnt then vmp :: l else mpnt :: insert_vm_struct vmp l'
  end.

(** mm/mmap.c:533-541 [ignoff_mergep] with NULL *)
Definition ignoff_mergep (m1 m2 : vm_area) : bool :=
  bool_decide (vm_inode m1 = vm_inode m2) && bool_decide (vm_inode m1 = None).

(** mm/mmap.c:466-486 is [mpnt] merged into [prev]? *)
Definition mergeable (mergep : option (vm_area -> vm_area -> bool)) (prev mpnt : vm_area) : bool :=
  let mp := match mergep with
            | None => u32 (vm_offset prev + u32 (vm_end prev - vm_start prev)) =? vm_offset mpnt
            | Some f => f prev mpnt
            end in
  bool_decide (vm_ops prev = vm_ops mpnt) && (vm_page_prot prev =? vm_page_prot mpnt) &&
  bool_decide (vm_inode prev = vm_inode mpnt) && (vm_end prev =? vm_start mpnt) && mp &&
  bool_decide (vm_share prev = vm_share mpnt).

(** mm/mmap.c:449-498 [merge_segments] *)
Fixpoint merge_from (mergep : option (vm_area -> vm_area -> bool)) (prev : vm_area) (l : list vm_area) : list vm_area :=
  match l with
  | [] => [prev]
  | mpnt :: next =>
      if mergeable mergep prev mpnt then merge_from mergep (prev <| vm_end := vm_end mpnt |>) next
      else prev :: merge_from mergep mpnt next
  end.
Definition merge_segments (mergep : option (vm_area -> vm_area -> bool)) (l : list vm_area) : list vm_area :=
  match l with [] => [] | mpnt :: l' => merge_from mergep mpnt l' end.

(** ** [munmap] *)

(** mm/mmap.c:204-255 [unmap_fixup] of an area that was taken off the list;
    [None] is a store through the NULL of a failed [kmalloc] *)
Definition unmap_fixup (area : vm_area) (addr len : Z) (m : mm_state) : option mm_state :=
  let e := u32 (addr + len) in
  if (addr <? vm_start area) || (vm_end area <=? addr) || (e <=? vm_start area) || (vm_end area <? e) || (e <? addr) then
    Some m
  else if (addr =? vm_start area) && (e =? vm_end area) then Some (close_area area m)
  else
    let area := if (vm_start area <=? addr) && (e =? vm_end area) then area <| vm_end := addr |> else area in
    let area := if (addr =? vm_start area) && (e <=? vm_end area)
                then area <| vm_offset ::= fun o => u32 (o + u32 (e - vm_start area)) |> <| vm_start := e |> else area in
    let hole :=
      if (vm_start area <? addr) && (e <? vm_end area) then
        let '(ok, m) := kmalloc m in
        if ok then
          let mpnt := area <| vm_offset ::= fun o => u32 (o + u32 (e - vm_start area)) |> <| vm_start := e |> in
          let m := count_inode (vm_inode mpnt) 1 m in
          Some (area <| vm_end := addr |>, m <| mmap ::= insert_vm_struct mpnt |>)
        else None
      else Some (area, m) in
    '(area, m) ← hole;
    let '(ok, m) := kmalloc m in
    if ok then Some (m <| mmap ::= insert_vm_struct area |>) else None.

(** mm/mmap.c:298-299 is an area beside the range? *)
Definition beside (addr e : Z) (mpnt : vm_area) : bool :=
  ((addr <? vm_start mpnt) && (e <=? vm_start mpnt)) || ((vm_end mpnt <=? addr) && (vm_end mpnt <? e)).

(** mm/mmap.c:290-313 the areas that stay, and those of the list [free], the
    last one first *)
Fixpoint take_affected (addr e : Z) (l free : list vm_area) : list vm_area * list vm_area :=
  match l with
  | [] => ([], free)
  | mpnt :: l =>
      if beside addr e mpnt then
        let '(stay, free) := take_affected addr e l free in (mpnt :: stay, free)
      else take_affected addr e l (mpnt :: free)
  end.

(** mm/mmap.c:325-344 the loop over [free] *)
Fixpoint unmap_areas (addr e : Z) (free : list vm_area) (m : mm_state) : option mm_state :=
  match free with
  | [] => Some m
  | mpnt :: free =>
      let st := if addr <? vm_start mpnt then vm_start mpnt else addr in
      let e' := if vm_end mpnt <? e then vm_end mpnt else e in
      m ← unmap_fixup mpnt st (u32 (e' - st)) m;
      unmap_areas addr e free m
  end.

(** mm/mmap.c:274-348 [do_munmap] *)
Definition do_munmap (addr len : Z) (m : mm_state) : option (Z * mm_state) :=
  if ctrue (Z.land addr (PAGE_SIZE - 1)) || (TASK_SIZE <? addr) || (u32 (TASK_SIZE - addr) <? len) then Some (- EINVAL, m)
  else
    let len := PAGE_ALIGN len in
    if len =? 0 then Some (0, m)
    else
      let e := u32 (addr + len) in
      let '(stay, free) := take_affected addr e (mmap m) [] in
      match free with
      | [] => Some (0, m)
      | _ =>
          m ← unmap_areas addr e free (m <| mmap := stay |>);
          Some (0, log_page_op (UnmapPages addr len) m)
      end.

(** mm/mmap.c:263-266 [sys_munmap] *)
Definition sys_munmap := do_munmap.
(** mm/mmap.c:258-261 [sys_mprotect] *)
Definition sys_mprotect (addr len prot : Z) : Z := - EINVAL.

(** ** [mmap] *)

(** What [generic_mmap] asks about an inode; [i_ro] is [IS_RDONLY] and
    [i_first] whether [bread] finds the first block *)
Record minode := mk_minode {
  i_no : nat; i_blocksize : Z; i_mode : Z; i_bmap : bool; i_first : bool;
}.
(** The [mmap] member of a file's operations. *)
Definition mmap_op : Type := Z -> Z -> Z -> Z -> mm_state -> Z * mm_state.
(** What [mmap] asks about an open file. *)
Record mfile := mk_mfile { f_mode : Z; f_mmap : option mmap_op }.

Definition new_area (addr len prot : Z) (inode : option nat) (off : Z) (ops : option vm_operations) : vm_area :=
  mk_area addr (u32 (addr + len)) prot None inode off ops.

(** mm/mmap.c:351-398 [generic_mmap]; the access time is left out, and the
    super block of an open file's inode
    is there *)
Definition generic_mmap (inode : minode) : mmap_op := fun addr len prot off m =>
  if flag prot PAGE_RW then (- EINVAL, m)
  else if flag off (i_blocksize inode - 1) then (- EINVAL, m)
  else if negb (S_ISREG (i_mode inode)) then (- EACCES, m)
  else if negb (i_bmap inode) then (- ENOEXEC, m)
  else if negb (i_first inode) then (- EACCES, m)
  else
    let '(ok, m) := kmalloc m in
    if ok then
      let m := log_page_op (UnmapPages addr len) m in
      let m := count_inode (Some (i_no inode)) 1 m in
      (0, m <| mmap ::= fun l => merge_segments None (insert_vm_struct
                                   (new_area addr len prot (Some (i_no inode)) off (Some file_mmap)) l) |>)
    else (- ENOMEM, m).

(** mm/mmap.c:505-530 [anon_map]; [zero] is what [zeromap_page_range] returns *)
Definition anon_map (zero addr len mask : Z) (m : mm_state) : Z * mm_state :=
  let m := log_page_op (ZeroPages addr len mask) m in
  if ctrue zero then (- ENOMEM, m)
  else
    let '(ok, m) := kmalloc m in
    if ok then
      (0, m <| mmap ::= fun l => merge_segments (Some ignoff_mergep) (insert_vm_struct (new_area addr len mask None 0 None) l) |>)
    else (- ENOMEM, m).

(** mm/mmap.c:101-112 the first area in the way of [addr, addr+len) *)
Definition in_the_way (addr len : Z) (vmm : vm_area) : bool :=
  negb (vm_end vmm <=? addr) && negb (u32 (addr + len) <=? vm_start vmm).

(** mm/mmap.c:100-115 the search for room *)
Fixpoint find_room (fuel : nat) (addr len : Z) (l : list vm_area) : option Z :=
  match fuel with
  | O => None
  | S fuel =>
      if u32 (addr + len) <? SHM_RANGE_END then
        match list_find (fun vmm => in_the_way addr len vmm = true) l with
        | Some (_, vmm) => find_room fuel (PAGE_ALIGN (vm_end vmm)) len l
        | None => Some addr
        end
      else Some addr
  end.

(** mm/mmap.c:127-134 the page table bits of a protection *)
Definition page_mask (prot flags : Z) : Z :=
  let mask := if flag prot (Z.lor PROT_READ PROT_EXEC) then PAGE_READONLY else 0 in
  if flag prot PROT_WRITE then
    Z.lor mask (if Z.land flags MAP_TYPE =? MAP_PRIVATE then PAGE_COPY else PAGE_SHARED)
  else mask.

(** mm/mmap.c:69-83 may the file be mapped in this way? *)
Definition file_check (file : option mfile) (prot flags : Z) : Z :=
  match file with
  | None => 0
  | Some f =>
      let ty := Z.land flags MAP_TYPE in
      if (ty =? MAP_SHARED) && flag prot PROT_WRITE && negb (flag (f_mode f) 2) then - EACCES
      else if (ty =? MAP_SHARED) || (ty =? MAP_PRIVATE) then
        if negb (flag (f_mode f) 1) then - EACCES else 0
      else - EINVAL
  end.

(** mm/mmap.c:91-118 the address *)
Definition mmap_addr (addr len flags : Z) (l : list vm_area) : option (Z + Z) :=
  if flag flags MAP_FIXED then
    if flag addr (PAGE_SIZE - 1) then Some (inl (- EINVAL))
    else if (TASK_SIZE <? len) || (u32 (TASK_SIZE - len) <? addr) then Some (inl (- EINVAL))
    else Some (inr addr)
  else
    addr ← find_room (S (length l)) SHM_RANGE_START len l;
    Some (if SHM_RANGE_END <=? u32 (addr + len) then inl (- ENOMEM) else inr addr).

(** mm/mmap.c:125-145 the mapper of a file, or the one of anonymous memory *)
Definition mapper (file : option mfile) (zero : Z) : option mmap_op :=
  match file with
  | Some f => f_mmap f
  | None => Some (fun addr len mask off m => anon_map zero addr len mask m)
  end.

(** mm/mmap.c:50-153 [do_mmap]: the result, the error stored in
    [current->errno] when the mapper fails, and the state; [None] is a store
    through NULL or a search that does not end *)
Definition do_mmap (file : option mfile) (addr len prot flags off zero : Z) (m : mm_state) :
    option (Z * Z * mm_state) :=
  let len := PAGE_ALIGN len in
  if len =? 0 then Some (addr, 0, m)
  else if (TASK_SIZE <? addr) || (TASK_SIZE <? len) || (u32 (TASK_SIZE - len) <? addr) then Some (- EINVAL, 0, m)
  else
    let e := file_check file prot flags in
    if ctrue e then Some (e, 0, m)
    else
      a ← mmap_addr addr len flags (mmap m);
      match a, mapper file zero with
      | inl e, _ => Some (e, 0, m)
      | inr _, None => Some (- ENODEV, 0, m)
      | inr addr, Some op =>
          let mask := page_mask prot flags in
          if mask =? 0 then Some (- EINVAL, 0, m)
          else
            '(_, m) ← do_munmap addr len m;
            let '(error, m) := op addr len mask off m in
            Some (if ctrue error then (-1, - error, m) else (addr, 0, m))
      end.

(** mm/mmap.c:161-180 [sys_mmap] of the six words of the buffer; [filp] are
    the files of the process *)
Definition sys_mmap (va addr len prot flags fd off zero : Z) (filp : list (option mfile)) (m : mm_state) :
    option (Z * Z * mm_state) :=
  if ctrue va then Some (va, 0, m)
  else if flag flags MAP_ANONYMOUS then do_mmap None addr len prot flags off zero m
  else match znth None filp fd with
       | None => Some (- EBADF, 0, m)
       | Some f => do_mmap (Some f) addr len prot flags off zero m
       end.

(** * Properties *)

(** ** What the areas map *)

Definition disjoint_areas (a b : vm_area) : Prop := vm_end a <= vm_start b \/ vm_end b <= vm_start a.
Definition area_ok (a : vm_area) : Prop :=
  0 <= vm_start a < vm_end a /\ vm_end a <= TASK_SIZE /\ 0 <= vm_offset a < 2 ^ 32 /\
  (vm_inode a <> None -> vm_ops a <> None).
(** The list is ordered, and no two areas overlap. *)
Definition areas_ok (l : list vm_area) : Prop :=
  StronglySorted (fun a b => vm_end a <= vm_start b) l /\ Forall area_ok l.

(** What a byte of memory is mapped to: protection, sharing, operations, and
    the byte of a file. *)
Record mapping := mk_mapping {
  mp_prot : Z; mp_share : option nat; mp_ops : option vm_operations; mp_file : option (nat * Z);
}.
Definition vm_at (a : vm_area) (b : Z) (v : mapping) : Prop :=
  vm_start a <= b < vm_end a /\
  v = mk_mapping (vm_page_prot a) (vm_share a) (vm_ops a)
        (i ← vm_inode a; Some (i, u32 (vm_offset a + (b - vm_start a)))).
Definition mapped (l : list vm_area) (b : Z) (v : mapping) : Prop := exists a, a ∈ l /\ vm_at a b v.

(** How many areas refer to an inode. *)
Definition refers (i : nat) (a : vm_area) : Z := if decide (vm_inode a = Some i) then 1 else 0.
Definition inode_refs (i : nat) (l : list vm_area) : Z := zsum (refers i) l.
Definition icount (m : mm_state) (i : nat) : Z := default 0 (i_count m !! i).

Lemma insert_perm a l : insert_vm_struct a l ≡ₚ a :: l.
Proof.
  induction l as [| b l IH]; cbn; [done |]. destruct (_ <? _); [done |].
  rewrite IH. apply Permutation_swap.
Qed.

Lemma areas_ok_cons a l : areas_ok (a :: l) <->
  area_ok a /\ (forall b, b ∈ l -> vm_end a <= vm_start b) /\ areas_ok l.
Proof.
  unfold areas_ok. rewrite Forall_cons. split.
  - intros [[Hs Ha]%StronglySorted_inv [? ?]]. rewrite Forall_forall in Ha. auto.
  - intros (Ha & Hb & Hs & Hl). split; [| done]. constructor; [done |]. by apply Forall_forall.
Qed.

Lemma insert_ok a l : areas_ok l -> area_ok a -> (forall b, b ∈ l -> disjoint_areas a b) ->
  areas_ok (insert_vm_struct a l).
Proof.
  intros Hl Ha. induction l as [| b l IH]; intros Hd; cbn.
  - apply areas_ok_cons. split_and!; [done | by intros b ?%elem_of_nil | done].
  - pose proof Hl as (Hb & Hbl & Hl')%areas_ok_cons.
    destruct (Hd b ltac:(by constructor)) as [Hlt | Hlt]; destruct Ha as (Ha1 & Ha2), Hb as (Hb1 & Hb2).
    + rewrite (proj2 (Z.ltb_lt _ _)) by lia. apply areas_ok_cons. split_and!; [done | | done].
      intros c [-> | Hc]%elem_of_cons; [done |]. specialize (Hbl c Hc). lia.
    + rewrite (proj2 (Z.ltb_ge _ _)) by lia. apply areas_ok_cons. split_and!; [done | |].
      * intros c Hc. rewrite insert_perm in Hc. apply elem_of_cons in Hc as [-> | Hc]; [lia | by apply Hbl].
      * apply IH; [done |]. intros c Hc. apply Hd. by constructor.
Qed.

Lemma areas_ok_in l a : areas_ok l -> a ∈ l -> area_ok a.
Proof. intros [_ H] Ha. rewrite Forall_forall in H. by apply H. Qed.

Lemma areas_disjoint l1 l2 a b : areas_ok (l1 ++ a :: l2) -> b ∈ l1 ++ l2 -> disjoint_areas a b.
Proof.
  induction l1 as [| c l1 IH]; cbn; intros (Hc & Hcl & Hl)%areas_ok_cons Hb.
  - left. by apply Hcl.
  - apply elem_of_cons in Hb as [-> | Hb]; [right; apply Hcl; in_list | by apply IH].
Qed.

Lemma mapped_perm l k b v : l ≡ₚ k -> mapped l b v <-> mapped k b v.
Proof. intros H. unfold mapped. by setoid_rewrite H. Qed.
Lemma mapped_cons a l b v : mapped (a :: l) b v <-> vm_at a b v \/ mapped l b v.
Proof. unfold mapped. setoid_rewrite elem_of_cons. naive_solver. Qed.
Lemma mapped_app l k b v : mapped (l ++ k) b v <-> mapped l b v \/ mapped k b v.
Proof. unfold mapped. setoid_rewrite elem_of_app. naive_solver. Qed.
Lemma mapped_insert a l b v : mapped (insert_vm_struct a l) b v <-> vm_at a b v \/ mapped l b v.
Proof. rewrite (mapped_perm _ _ _ _ (insert_perm a l)). apply mapped_cons. Qed.

(** ** The pieces of an area *)

Definition front (a : vm_area) (e : Z) : vm_area := a <| vm_end := e |>.
Definition back (a : vm_area) (st : Z) : vm_area :=
  a <| vm_offset ::= fun o => u32 (o + u32 (st - vm_start a)) |> <| vm_start := st |>.

Lemma vm_at_front a e b v : e <= vm_end a -> vm_at (front a e) b v <-> vm_at a b v /\ b < e.
Proof. intros He. unfold vm_at. cbn. split; [intros [? ->] | intros [[? ->] ?]]; split_and!; done || lia. Qed.

Lemma back_offset a st b : u32 (u32 (vm_offset a + u32 (st - vm_start a)) + (b - st)) = u32 (vm_offset a + (b - vm_start a)).
Proof.
  unfold uwrap. rewrite Z.add_mod_idemp_l by done.
  replace (vm_offset a + (st - vm_start a) mod 2 ^ 32 + (b - st))
    with ((st - vm_start a) mod 2 ^ 32 + (vm_offset a + (b - st))) by lia.
  rewrite Z.add_mod_idemp_l by done. f_equal. lia.
Qed.
Lemma vm_at_back a st b v : vm_start a <= st -> vm_at (back a st) b v <-> vm_at a b v /\ st <= b.
Proof.
  intros Hst. unfold vm_at. cbn -[uwrap]. rewrite back_offset.
  split; [intros [? ->] | intros [[? ->] ?]]; split_and!; done || lia.
Qed.

Lemma front_ok a e : area_ok a -> vm_start a < e <= vm_end a -> area_ok (front a e).
Proof. intros ((? & ?) & ? & ? & ?) ?. split_and!; cbn; done || lia. Qed.
Lemma back_ok a st : area_ok a -> vm_start a <= st < vm_end a -> area_ok (back a st).
Proof.
  intros ((? & ?) & ? & ? & ?) ?. split_and!; cbn -[uwrap]; try done; try lia; apply u32_bounds.
Qed.

Definition allocs (m : mm_state) : Prop := Forall (fun ok => ok = true) (kmallocs m).
Lemma kmalloc_ok m : allocs m -> exists k, kmalloc m = (true, m <| kmallocs := k |>) /\ allocs (m <| kmallocs := k |>).
Proof.
  unfold allocs, kmalloc. destruct m as [l c p [| k ks]]; cbn; intros H.
  - exists []. by split.
  - apply Forall_cons in H as [-> H]. exists ks. by split.
Qed.

Lemma count_inode_mmap i d m : mmap (count_inode i d m) = mmap m.
Proof. by destruct i. Qed.
Lemma count_inode_page_ops i d m : page_ops (count_inode i d m) = page_ops m.
Proof. by destruct i. Qed.
Lemma count_inode_kmallocs i d m : kmallocs (count_inode i d m) = kmallocs m.
Proof. by destruct i. Qed.
Lemma count_inode_alloc i d m k : i_count (count_inode i d (m <| kmallocs := k |>)) = i_count (count_inode i d m).
Proof. by destruct i. Qed.

(** [unmap_fixup] gives back the pieces of the area outside the range. *)
Lemma unmap_fixup_pieces area st e m :
  area_ok area -> vm_start area <= st < e -> e <= vm_end area -> allocs m ->
  exists m', unmap_fixup area st (u32 (e - st)) m = Some m' /\ allocs m' /\ page_ops m' = page_ops m /\
    ((st = vm_start area /\ e = vm_end area /\ mmap m' = mmap m /\ i_count m' = i_count (close_area area m)) \/
     (st = vm_start area /\ e < vm_end area /\ mmap m' = insert_vm_struct (back area e) (mmap m) /\ i_count m' = i_count m) \/
     (vm_start area < st /\ e = vm_end area /\ mmap m' = insert_vm_struct (front area st) (mmap m) /\ i_count m' = i_count m) \/
     (vm_start area < st /\ e < vm_end area /\
      mmap m' = insert_vm_struct (front area st) (insert_vm_struct (back area e) (mmap m)) /\
      i_count m' = i_count (count_inode (vm_inode area) 1 m))).
Proof.
  intros ((Ha1 & Ha2) & Ha3 & Ha4 & _) Hst He Hal. unfold TASK_SIZE in *.
  assert (u32 (st + u32 (e - st)) = e) as Ee by (rewrite !u32_small by (rewrite ?u32_small; lia); lia).
  unfold unmap_fixup. rewrite Ee.
  replace ((st <? vm_start area) || (vm_end area <=? st) || (e <=? vm_start area) || (vm_end area <? e) || (e <? st))
    with false by lia.
  destruct (decide (st = vm_start area)) as [-> | Hs]; destruct (decide (e = vm_end area)) as [-> | Hend].
  - rewrite !Z.eqb_refl. eexists. split; [reflexivity |]. unfold close_area.
    destruct (vm_ops area), (vm_inode area); (split_and!; [done | done | left; by split_and!]).
  - rewrite Z.eqb_refl, (proj2 (Z.eqb_neq e _)), Z.leb_refl by done. cbn [andb].
    rewrite Z.eqb_refl, (proj2 (Z.leb_le e _)) by lia. cbn [andb].
    replace (vm_start _ <? vm_start area) with false by (cbn; lia). cbn [andb mbind option_bind].
    destruct (kmalloc_ok m Hal) as (k & -> & Hal'). eexists. split; [reflexivity |].
    split_and!; [done | done | right; left; split_and!; done || lia].
  - rewrite Z.eqb_refl, (proj2 (Z.eqb_neq st _)), (proj2 (Z.leb_le _ _)) by lia. cbn [andb].
    replace (st =? vm_start _) with false by (cbn; lia). cbn [andb].
    replace (vm_end area <? vm_end _) with false by (cbn; lia). rewrite andb_false_r. cbn [mbind option_bind].
    destruct (kmalloc_ok m Hal) as (k & -> & Hal'). eexists. split; [reflexivity |].
    split_and!; [done | done | right; right; left; split_and!; done || lia].
  - rewrite (proj2 (Z.eqb_neq st _)), (proj2 (Z.eqb_neq e _)) by lia. rewrite !andb_false_r. cbn [andb].
    rewrite (proj2 (Z.eqb_neq st _)) by lia. cbn [andb].
    rewrite !(proj2 (Z.ltb_lt _ _)) by lia. cbn [andb].
    destruct (kmalloc_ok m Hal) as (k & -> & Hal').
    set (m1 := count_inode _ _ _).
    assert (allocs (m1 <| mmap ::= insert_vm_struct (back area e) |>)) as Hal1 by (by unfold allocs, m1; cbn; rewrite count_inode_kmallocs).
    cbn [mbind option_bind]. change (area <| vm_offset ::= _ |> <| vm_start := e |>) with (back area e).
    destruct (kmalloc_ok _ Hal1) as (k' & -> & Hal2). eexists. split; [reflexivity |].
    unfold m1. cbn -[uwrap]. rewrite count_inode_page_ops, count_inode_mmap.
    split_and!; [done | done |]. right; right; right.
    split_and!; try done; try lia. apply (count_inode_alloc _ _ m).
Qed.

(** The count of an inode, minus the areas that refer to it. *)
Definition loose_count (m : mm_state) (l : list vm_area) (i : nat) : Z := icount m i - inode_refs i l.

Lemma icount_count_inode j d m i :
  icount (count_inode j d m) i = icount m i + (if decide (j = Some i) then d else 0).
Proof.
  unfold icount. destruct j as [j |]; cbn; [| case_decide; [done | lia]].
  destruct (decide (j = i)) as [-> |].
  - rewrite lookup_insert_eq, decide_True by done. done.
  - rewrite lookup_insert_ne by done. rewrite decide_False by congruence. lia.
Qed.
Lemma icount_eq m m' i : i_count m' = i_count m -> icount m' i = icount m i.
Proof. unfold icount. by intros ->. Qed.
Lemma inode_refs_cons i a l : inode_refs i (a :: l) = refers i a + inode_refs i l.
Proof. done. Qed.
Lemma inode_refs_insert i a l : inode_refs i (insert_vm_struct a l) = refers i a + inode_refs i l.
Proof. unfold inode_refs. by rewrite (zsum_perm _ _ _ (insert_perm a l)). Qed.
Lemma icount_close a m i : area_ok a -> icount (close_area a m) i = icount m i - refers i a.
Proof.
  intros (_ & _ & _ & Ho). unfold close_area, refers. destruct (vm_ops a) as [o |].
  - rewrite icount_count_inode. case_decide; lia.
  - destruct (vm_inode a) as [j |]; [exfalso; by apply Ho |]. rewrite decide_False by done. lia.
Qed.

Lemma disjoint_sym a b : disjoint_areas a b -> disjoint_areas b a.
Proof. unfold disjoint_areas. tauto. Qed.
(** An area inside another is disjoint from what that one is disjoint from. *)
Lemma disjoint_inside p a x : vm_start a <= vm_start p -> vm_end p <= vm_end a ->
  disjoint_areas x a -> disjoint_areas x p.
Proof. unfold disjoint_areas. lia. Qed.

(** The areas [m'] has after the range was cut out of [area], which had been
    taken off the list of [m]. *)
Record cut_out (area : vm_area) (st e : Z) (m m' : mm_state) : Prop := mk_cut_out {
  co_allocs : allocs m';
  co_ops : page_ops m' = page_ops m;
  co_ok : areas_ok (mmap m');
  co_mapped b v : mapped (mmap m') b v <-> mapped (mmap m) b v \/ (vm_at area b v /\ ~ st <= b < e);
  co_disjoint x : disjoint_areas x area -> (forall y, y ∈ mmap m -> disjoint_areas x y) ->
    forall y, y ∈ mmap m' -> disjoint_areas x y;
  co_count i : loose_count m' (mmap m') i = loose_count m (area :: mmap m) i;
}.

Lemma vm_at_range a b v : vm_at a b v -> vm_start a <= b < vm_end a.
Proof. by intros []. Qed.

Lemma unmap_fixup_spec area st e m :
  area_ok area -> vm_start area <= st < e -> e <= vm_end area -> allocs m ->
  areas_ok (mmap m) -> (forall x, x ∈ mmap m -> disjoint_areas area x) ->
  exists m', unmap_fixup area st (u32 (e - st)) m = Some m' /\ cut_out area st e m m'.
Proof.
  intros Ha Hst He Hal Hok Hd.
  destruct (unmap_fixup_pieces area st e m Ha Hst He Hal) as (m' & E & Hal' & Hop & Hcase).
  exists m'. split; [done |]. pose proof (vm_at_range area) as Hin.
  destruct Hcase as [(-> & -> & Hm & Hc) | [(-> & Hlt & Hm & Hc) | [(Hlt & -> & Hm & Hc) | (Hlt1 & Hlt2 & Hm & Hc)]]].
  - constructor; try done; rewrite ?Hm; try done.
    + intros b v. split; [by left | intros [? | [Hat Hn]]; [done |]]. by apply Hin in Hat.
    + intros i. unfold loose_count. rewrite (icount_eq _ _ _ Hc), icount_close, inode_refs_cons by done. lia.
  - assert (area_ok (back area e)) as Hb by (apply back_ok; [done | lia]).
    assert (forall x, disjoint_areas x area -> disjoint_areas x (back area e)) as Hdb
      by (intros x; apply disjoint_inside; cbn; lia).
    constructor; try done; rewrite ?Hm.
    + apply insert_ok; [done | done |]. intros x Hx. by apply disjoint_sym, Hdb, disjoint_sym, Hd.
    + intros b v. rewrite mapped_insert, vm_at_back by lia. specialize (Hin b v). intuition lia.
    + intros x Hx Hxm y Hy. rewrite insert_perm in Hy. apply elem_of_cons in Hy as [-> | Hy]; auto.
    + intros i. unfold loose_count. by rewrite (icount_eq _ _ _ Hc), inode_refs_insert.
  - assert (area_ok (front area st)) as Hb by (apply front_ok; [done | lia]).
    assert (forall x, disjoint_areas x area -> disjoint_areas x (front area st)) as Hdb
      by (intros x; apply disjoint_inside; cbn; lia).
    constructor; try done; rewrite ?Hm.
    + apply insert_ok; [done | done |]. intros x Hx. by apply disjoint_sym, Hdb, disjoint_sym, Hd.
    + intros b v. rewrite mapped_insert, vm_at_front by lia. specialize (Hin b v). intuition lia.
    + intros x Hx Hxm y Hy. rewrite insert_perm in Hy. apply elem_of_cons in Hy as [-> | Hy]; auto.
    + intros i. unfold loose_count. by rewrite (icount_eq _ _ _ Hc), inode_refs_insert.
  - assert (area_ok (back area e)) as Hb by (apply back_ok; [done | lia]).
    assert (area_ok (front area st)) as Hf by (apply front_ok; [done | lia]).
    assert (forall x, disjoint_areas x area -> disjoint_areas x (back area e)) as Hdb
      by (intros x; apply disjoint_inside; cbn; lia).
    assert (forall x, disjoint_areas x area -> disjoint_areas x (front area st)) as Hdf
      by (intros x; apply disjoint_inside; cbn; lia).
    constructor; try done; rewrite ?Hm.
    + apply insert_ok; [apply insert_ok; [done | done |] | done |].
      * intros x Hx. by apply disjoint_sym, Hdb, disjoint_sym, Hd.
      * intros x Hx. rewrite insert_perm in Hx. apply elem_of_cons in Hx as [-> | Hx].
        -- left. cbn. lia.
        -- by apply disjoint_sym, Hdf, disjoint_sym, Hd.
    + intros b v. rewrite !mapped_insert, vm_at_back, vm_at_front by lia. specialize (Hin b v).
      destruct (decide (b < st)); intuition lia.
    + intros x Hx Hxm y Hy. rewrite !insert_perm in Hy. rewrite !elem_of_cons in Hy.
      destruct Hy as [-> | [-> | Hy]]; auto.
    + intros i. unfold loose_count. rewrite (icount_eq _ _ _ Hc), icount_count_inode, !inode_refs_insert, inode_refs_cons.
      unfold refers. cbn. case_decide; lia.
Qed.

(** Areas in any order that do not overlap. *)
Definition packed (l : list vm_area) : Prop := exists k, areas_ok k /\ k ≡ₚ l.

Lemma packed_ok l : areas_ok l -> packed l.
Proof. by exists l. Qed.
Lemma packed_nil : packed [].
Proof. exists []. split; [split; constructor | done]. Qed.
Lemma packed_perm l k : l ≡ₚ k -> packed l -> packed k.
Proof. intros Hp (x & Hx & Hl). exists x. split; [done | by rewrite Hl]. Qed.
Lemma packed_cons a l : packed (a :: l) -> area_ok a /\ packed l /\ forall b, b ∈ l -> disjoint_areas a b.
Proof.
  intros (k & Hk & Hp). assert (a ∈ k) as (k1 & k2 & ->)%list_elem_of_split by (rewrite Hp; in_list).
  rewrite <- Permutation_middle in Hp. apply Permutation_cons_inv in Hp. split_and!.
  - eapply areas_ok_in; [done |]. in_list.
  - exists (k1 ++ k2). split; [| done]. clear Hp. induction k1 as [| c k1 IH]; cbn in *.
    + apply (areas_ok_cons a k2) in Hk. tauto.
    + apply areas_ok_cons in Hk as (Hc & Hcl & Hk). apply areas_ok_cons. split_and!; [done | | by apply IH].
      intros b Hb. apply Hcl. rewrite elem_of_app in *. rewrite elem_of_cons. tauto.
  - intros b Hb. rewrite <- Hp in Hb. by eapply areas_disjoint.
Qed.
Lemma packed_insert a l : packed l -> area_ok a -> (forall b, b ∈ l -> disjoint_areas a b) -> packed (a :: l).
Proof.
  intros (k & Hk & Hp) Ha Hd. exists (insert_vm_struct a k). split.
  - apply insert_ok; [done | done |]. intros b. rewrite Hp. apply Hd.
  - by rewrite insert_perm, Hp.
Qed.
Lemma packed_app l k : packed l -> areas_ok k -> (forall x y, x ∈ l -> y ∈ k -> disjoint_areas x y) -> packed (l ++ k).
Proof.
  induction l as [| a l IH]; intros Hl Hk Hd; [by apply packed_ok |]. apply packed_cons in Hl as (Ha & Hl & Hal).
  cbn. apply packed_insert; [apply IH; [done | done |] | done |].
  - intros x y Hx. apply Hd. by constructor.
  - intros b [Hb | Hb]%elem_of_app; [by apply Hal | apply Hd; [by constructor | done]].
Qed.
Lemma packed_app_inv l k : packed (l ++ k) -> packed l /\ forall x y, x ∈ l -> y ∈ k -> disjoint_areas x y.
Proof.
  induction l as [| a l IH]; intros Hp; [split; [apply packed_nil | by intros x y ?%elem_of_nil] |].
  apply packed_cons in Hp as (Ha & Hp & Hd). destruct (IH Hp) as [Hl Hlk]. split.
  - apply packed_insert; [done | done |]. intros x Hx. apply Hd. in_list.
  - intros x y [-> | Hx]%elem_of_cons Hy; [apply Hd; in_list | by apply Hlk].
Qed.
Lemma areas_ok_filter f l : areas_ok l -> areas_ok (List.filter f l).
Proof.
  induction l as [| a l IH]; [done |]. intros (Ha & Hal & Hl)%areas_ok_cons. cbn.
  destruct (f a); [| by apply IH]. apply areas_ok_cons. split_and!; [done | | by apply IH].
  intros b [Hb _]%list_elem_of_In%filter_In. apply Hal. by apply list_elem_of_In.
Qed.

Lemma take_affected_spec addr e l free :
  exists stay aff, take_affected addr e l free = (stay, aff) /\ aff ++ stay ≡ₚ free ++ l /\
    stay = List.filter (beside addr e) l /\
    (forall a, a ∈ aff -> a ∈ free \/ beside addr e a = false).
Proof.
  revert free. induction l as [| a l IH]; intros free; cbn.
  - exists [], free. split_and!; auto.
  - destruct (beside addr e a) eqn:E.
    + destruct (IH free) as (stay & aff & -> & Hp & -> & Ha). eexists _, aff. split_and!; [done | | done | done].
      rewrite <- !Permutation_middle. by constructor.
    + destruct (IH (a :: free)) as (stay & aff & -> & Hp & -> & Ha). eexists _, aff. split_and!; [done | | done |].
      * rewrite Hp. cbn. apply Permutation_middle.
      * intros b Hb. destruct (Ha b Hb) as [[-> | ?]%elem_of_cons | ?]; auto.
Qed.

Lemma beside_spec addr e a : area_ok a -> addr < e -> beside addr e a = true <-> e <= vm_start a \/ vm_end a <= addr.
Proof. intros ((? & ?) & _) He. unfold beside. lia. Qed.

Lemma unmap_areas_spec addr e free m :
  0 <= addr < e -> e <= TASK_SIZE -> allocs m -> areas_ok (mmap m) -> packed (free ++ mmap m) ->
  (forall a, a ∈ free -> beside addr e a = false) ->
  exists m', unmap_areas addr e free m = Some m' /\ allocs m' /\ page_ops m' = page_ops m /\ areas_ok (mmap m') /\
    (forall b v, mapped (mmap m') b v <-> mapped (mmap m) b v \/ (mapped free b v /\ ~ addr <= b < e)) /\
    (forall i, loose_count m' (mmap m') i = loose_count m (free ++ mmap m) i).
Proof.
  intros Hr He. revert m. induction free as [| a free IH]; intros m Hal Hok Hp Hb; cbn [unmap_areas].
  { exists m. split_and!; try done. intros b v. split; [by left | intros [? | [(x & ?%elem_of_nil & _) _]]; done]. }
  apply packed_cons in Hp as (Ha & Hp & Hd).
  assert (~ (e <= vm_start a \/ vm_end a <= addr)) as Hnb.
  { rewrite <- beside_spec by (done || lia). by rewrite Hb by constructor. }
  set (st := if addr <? vm_start a then _ else _). set (e' := if vm_end a <? e then _ else _).
  assert (st = Z.max addr (vm_start a)) as Est by (unfold st; destruct (Z.ltb_spec addr (vm_start a)); lia).
  assert (e' = Z.min e (vm_end a)) as Ee' by (unfold e'; destruct (Z.ltb_spec (vm_end a) e); lia).
  clearbody st e'. pose proof Ha as ((? & ?) & ? & _).
  destruct (unmap_fixup_spec a st e' m) as (m1 & -> & Hcut); try done; try lia.
  { intros x Hx. apply Hd. in_list. }
  cbn [mbind option_bind].
  assert (packed (free ++ mmap m1)) as Hp1.
  { apply packed_app_inv in Hp as [Hpf Hpm]. apply packed_app; [done | apply Hcut |].
    intros x y Hx Hy. apply (co_disjoint _ _ _ _ _ Hcut x); [| intros z; by apply Hpm | done].
    apply disjoint_sym, Hd. in_list. }
  destruct (IH m1) as (m' & -> & Hal' & Hop' & Hok' & Hm' & Hc'); [apply Hcut | apply Hcut | done | |].
  { intros x Hx. apply Hb. by constructor. }
  exists m'. split_and!; [done | done | | done | |].
  - rewrite Hop'. apply Hcut.
  - intros b v. rewrite Hm', (co_mapped _ _ _ _ _ Hcut), mapped_cons.
    assert (vm_at a b v -> st <= b < e' <-> addr <= b < e) by (intros Hab%vm_at_range; lia). tauto.
  - intros i. rewrite Hc'. pose proof (co_count _ _ _ _ _ Hcut i) as Hc. unfold loose_count in *.
    cbn [app]. rewrite !inode_refs_cons in *. unfold inode_refs in *. rewrite !zsum_app in *. lia.
Qed.

Lemma land_page_mask x : 0 <= x < 2 ^ 32 -> Z.land x PAGE_MASK = x / PAGE_SIZE * PAGE_SIZE.
Proof.
  intros Hx. change PAGE_MASK with (Z.land (Z.ones 32) (Z.lnot (Z.ones 12))).
  rewrite Z.land_assoc, Z.land_ones, Z.mod_small by lia.
  change (Z.land x (Z.lnot (Z.ones 12))) with (Z.ldiff x (Z.ones 12)).
  rewrite Z.ldiff_ones_r, Z.shiftl_mul_pow2, Z.shiftr_div_pow2 by lia. done.
Qed.
(** [PAGE_ALIGN] rounds up to a page, up to the last one. *)
Lemma page_align_up z : 0 <= z <= 2 ^ 32 - PAGE_SIZE ->
  z <= PAGE_ALIGN z < z + PAGE_SIZE /\ PAGE_ALIGN z mod PAGE_SIZE = 0.
Proof.
  intros Hz. unfold PAGE_ALIGN, PAGE_SIZE in *. rewrite u32_small by lia. rewrite land_page_mask by lia.
  unfold PAGE_SIZE. rewrite Z.mod_mul by lia.
  pose proof (Z.div_mod (z + 4096 - 1) 4096 ltac:(lia)). pose proof (Z.mod_pos_bound (z + 4096 - 1) 4096 ltac:(lia)). lia.
Qed.
Lemma land_page_off x : Z.land x (PAGE_SIZE - 1) = x mod PAGE_SIZE.
Proof. change (PAGE_SIZE - 1) with (Z.ones 12). by rewrite Z.land_ones by lia. Qed.

Lemma page_align_fits addr len : addr mod PAGE_SIZE = 0 -> 0 <= addr <= TASK_SIZE -> 0 <= len <= TASK_SIZE - addr ->
  len <= PAGE_ALIGN len <= TASK_SIZE - addr /\ PAGE_ALIGN len mod PAGE_SIZE = 0.
Proof.
  intros Ha Hr Hl. unfold TASK_SIZE in *. destruct (page_align_up len) as [Hp Hm]; [unfold PAGE_SIZE; lia |].
  split; [| done]. split; [lia |]. unfold PAGE_SIZE in *.
  apply Z.mod_divide in Ha as [x Hx]; [| lia]. apply Z.mod_divide in Hm as [y Hy]; [| lia]. lia.
Qed.

(** What [do_munmap] does to a whole page range. *)
Lemma do_munmap_range addr len m :
  areas_ok (mmap m) -> allocs m -> addr mod PAGE_SIZE = 0 -> 0 <= addr <= TASK_SIZE -> 0 < len <= TASK_SIZE - addr ->
  exists m', do_munmap addr len m = Some (0, m') /\ allocs m' /\ areas_ok (mmap m') /\
    (forall b v, mapped (mmap m') b v <-> mapped (mmap m) b v /\ ~ addr <= b < addr + PAGE_ALIGN len) /\
    (forall i, loose_count m' (mmap m') i = loose_count m (mmap m) i) /\
    page_ops m' = page_ops m ++
      (if forallb (beside addr (addr + PAGE_ALIGN len)) (mmap m) then [] else [UnmapPages addr (PAGE_ALIGN len)]).
Proof.
  intros Hok Hal Ha Hr Hl. destruct (page_align_fits addr len Ha Hr ltac:(lia)) as [Hp _].
  unfold do_munmap. rewrite land_page_off, Ha.
  assert (u32 (TASK_SIZE - addr) = TASK_SIZE - addr) as -> by (apply u32_small; unfold TASK_SIZE in *; lia).
  replace (ctrue 0 || (TASK_SIZE <? addr) || (TASK_SIZE - addr <? len)) with false by (cbn; lia).
  set (plen := PAGE_ALIGN len) in *. rewrite (proj2 (Z.eqb_neq plen 0)) by lia.
  assert (u32 (addr + plen) = addr + plen) as -> by (apply u32_small; unfold TASK_SIZE in *; lia).
  destruct (take_affected_spec addr (addr + plen) (mmap m) []) as (stay & aff & -> & Hperm & Hstay & Haff).
  cbn [app] in Hperm.
  assert (forall b v, mapped (mmap m) b v <-> mapped aff b v \/ mapped stay b v) as Hmap.
  { intros b v. rewrite <- mapped_app. by apply mapped_perm. }
  assert (forall b v, mapped stay b v -> ~ addr <= b < addr + plen) as Hout.
  { intros b v (a & Hin & Hat%vm_at_range). subst stay. apply list_elem_of_In, filter_In in Hin as [Hin Hbs].
    apply beside_spec in Hbs; [lia | | lia]. eapply areas_ok_in; [done |]. by apply list_elem_of_In. }
  destruct aff as [| a aff].
  - assert (forallb (beside addr (addr + plen)) (mmap m) = true) as Hall.
    { apply filter_length_forallb. subst stay. by apply Permutation_length in Hperm. }
    exists m. rewrite Hstay, (forallb_filter_id _ _ Hall) in Hout.
    split_and!; try done.
    + intros b v. split; [intros H; split; [done | by eapply Hout] | tauto].
    + by rewrite Hall, app_nil_r.
  - destruct (unmap_areas_spec addr (addr + plen) (a :: aff) (m <| mmap := stay |>))
      as (m' & -> & Hal' & Hop & Hok' & Hm' & Hc).
    + lia.
    + lia.
    + done.
    + cbn. subst stay. by apply areas_ok_filter.
    + cbn [mmap upd]. eapply packed_perm; [| by apply packed_ok]. by rewrite Hperm.
    + intros x Hx. destruct (Haff x Hx) as [?%elem_of_nil | ?]; done.
    + eexists. split; [reflexivity |]. cbn in Hm', Hop |- *. split_and!; try done.
      * intros b v. rewrite Hm', Hmap. specialize (Hout b v). tauto.
      * intros i. etrans; [exact (Hc i) |]. unfold loose_count, inode_refs. rewrite (zsum_perm _ _ _ Hperm). done.
      * rewrite Hop. destruct (forallb _ _) eqn:E; [| done]. exfalso.
        destruct (Haff a ltac:(by constructor)) as [?%elem_of_nil | Hb]; [done |].
        rewrite forallb_forall in E. rewrite E in Hb; [done |]. apply list_elem_of_In. rewrite <- Hperm. in_list.
Qed.

(** ** Merging *)

Lemma refers_nonneg i a : 0 <= refers i a.
Proof. unfold refers. case_decide; lia. Qed.

Definition good_mergep (p : option (vm_area -> vm_area -> bool)) : Prop := p = None \/ p = Some ignoff_mergep.

Lemma mergeable_at p a c b v : good_mergep p -> area_ok a -> area_ok c -> mergeable p a c = true ->
  vm_end a = vm_start c /\ (vm_at (front a (vm_end c)) b v <-> vm_at a b v \/ vm_at c b v).
Proof.
  intros Hp ((? & ?) & _) ((? & ?) & ? & Hoff & _) Hm. unfold mergeable in Hm.
  rewrite !andb_true_iff, !bool_decide_eq_true in Hm.
  destruct Hm as (((((Eo & Ep%Z.eqb_eq) & Ei) & Ee%Z.eqb_eq) & Emp) & Es).
  split; [done |].
  assert (vm_start c <= b < vm_end c ->
    (i ← vm_inode a; Some (i, u32 (vm_offset a + (b - vm_start a)))) =
    (i ← vm_inode c; Some (i, u32 (vm_offset c + (b - vm_start c))))) as Hf.
  { intros Hb. rewrite <- Ei. destruct (vm_inode a) as [i |] eqn:Ea; [| done]. cbn. do 2 f_equal.
    destruct Hp as [-> | ->].
    - apply Z.eqb_eq in Emp. rewrite <- Emp, <- Ee. symmetry. apply back_offset.
    - unfold ignoff_mergep in Emp. rewrite Ea in Emp. cbn in Emp. by rewrite andb_false_r in Emp. }
  unfold vm_at. cbn -[uwrap]. split.
  - intros [Hb ->]. destruct (decide (b < vm_end a)); [left; split; [lia | done] |].
    right. split; [lia |]. rewrite Hf by lia. congruence.
  - intros [[Hb ->] | [Hb ->]]; (split; [lia |]); [done |]. rewrite Hf by lia. congruence.
Qed.

Lemma merge_from_spec p a l : good_mergep p -> areas_ok (a :: l) ->
  areas_ok (merge_from p a l) /\ (forall b v, mapped (merge_from p a l) b v <-> mapped (a :: l) b v) /\
  (forall i, inode_refs i (merge_from p a l) <= inode_refs i (a :: l)) /\
  (forall c, c ∈ merge_from p a l -> vm_start a <= vm_start c).
Proof.
  intros Hp. revert a. induction l as [| c l IH]; intros a Hok; cbn [merge_from].
  { split_and!; [done | done | done | intros c ->%list_elem_of_singleton; lia]. }
  pose proof Hok as (Ha & Hal & Hok')%areas_ok_cons. pose proof Hok' as (Hc & Hcl & Hl)%areas_ok_cons.
  destruct (mergeable p a c) eqn:Em.
  - change (a <| vm_end := vm_end c |>) with (front a (vm_end c)).
    destruct (IH (front a (vm_end c))) as (H1 & H2 & H3 & H4).
    { pose proof (mergeable_at p a c 0 (mk_mapping 0 None None None) Hp Ha Hc Em) as [Ee _].
      apply areas_ok_cons. split_and!; [| done | done].
      destruct Ha as ((? & ?) & ? & ? & ?), Hc as ((? & ?) & ? & _). split_and!; cbn; done || lia. }
    split_and!; [done | | | done].
    + intros b v. rewrite H2, !mapped_cons. destruct (mergeable_at p a c b v Hp Ha Hc Em) as [_ ->]. tauto.
    + intros i. specialize (H3 i). rewrite !inode_refs_cons in *.
      change (refers i (front a (vm_end c))) with (refers i a) in H3. pose proof (refers_nonneg i c). lia.
  - destruct (IH c Hok') as (H1 & H2 & H3 & H4). split_and!.
    + apply areas_ok_cons. split_and!; [done | | done]. intros b Hb%H4. specialize (Hal c ltac:(in_list)). lia.
    + intros b v. by rewrite !(mapped_cons a), H2.
    + intros i. specialize (H3 i). rewrite !(inode_refs_cons i a). lia.
    + intros b [-> | Hb]%elem_of_cons; [lia |]. apply H4 in Hb. specialize (Hal c ltac:(in_list)).
      destruct Ha as ((? & ?) & _). lia.
Qed.

(** Merging changes neither what is mapped nor the order; it may lose
    references to an inode. *)
Lemma merge_segments_spec p l : good_mergep p -> areas_ok l ->
  areas_ok (merge_segments p l) /\ (forall b v, mapped (merge_segments p l) b v <-> mapped l b v) /\
  (forall i, inode_refs i (merge_segments p l) <= inode_refs i l).
Proof.
  intros Hp Hok. destruct l as [| a l]; [done |]. destruct (merge_from_spec p a l Hp Hok) as (? & ? & ? & _). done.
Qed.

(** ** The search for room *)

Definition ends_behind (addr : Z) (l : list vm_area) : nat := length (List.filter (fun a => addr <? vm_end a) l).

Lemma ends_behind_less addr addr' a l : a ∈ l -> addr < vm_end a -> vm_end a <= addr' ->
  (ends_behind addr' l < ends_behind addr l)%nat.
Proof.
  intros Ha Hlt Hle. assert (forall k, (ends_behind addr' k <= ends_behind addr k)%nat) as Hmono.
  { intros k. unfold ends_behind. induction k as [| c k IH]; cbn; [lia |].
    destruct (Z.ltb_spec addr' (vm_end c)), (Z.ltb_spec addr (vm_end c)); cbn; lia. }
  induction l as [| c l IH]; [by apply elem_of_nil in Ha |]. specialize (Hmono l). unfold ends_behind in *. cbn.
  apply elem_of_cons in Ha as [<- | Ha].
  - rewrite (proj2 (Z.ltb_ge addr' _)), (proj2 (Z.ltb_lt addr _)) by lia. cbn. lia.
  - specialize (IH Ha). destruct (Z.ltb_spec addr' (vm_end c)), (Z.ltb_spec addr (vm_end c)); cbn; lia.
Qed.

Lemma find_room_spec fuel addr len l : areas_ok l -> (ends_behind addr l < fuel)%nat ->
  SHM_RANGE_START <= addr <= TASK_SIZE -> 0 < len -> addr mod PAGE_SIZE = 0 -> addr + len < 2 ^ 32 ->
  exists a, find_room fuel addr len l = Some a /\ addr <= a <= TASK_SIZE /\ a mod PAGE_SIZE = 0 /\ a + len < 2 ^ 32 /\
    (a + len < SHM_RANGE_END -> forall x, x ∈ l -> disjoint_areas (new_area a len 0 None 0 None) x).
Proof.
  intros Hok. revert addr. induction fuel as [| fuel IH]; intros addr Hf Hr Hl Hm Hw; [lia |]. cbn [find_room].
  assert (0 <= addr) by (unfold SHM_RANGE_START in *; lia).
  rewrite u32_small by lia. destruct (Z.ltb_spec (addr + len) SHM_RANGE_END) as [Hlt | Hge].
  2: { exists addr. split_and!; try done; try lia. }
  destruct (list_find _ l) as [[i x] |] eqn:E.
  - apply list_find_Some in E as (Hx & Hway & _). apply list_elem_of_lookup_2 in Hx.
    pose proof (areas_ok_in _ _ Hok Hx) as ((? & ?) & He & _).
    unfold in_the_way in Hway. rewrite u32_small in Hway by lia.
    assert (addr < vm_end x /\ vm_start x < addr + len) as [Hb1 Hb2] by lia.
    unfold TASK_SIZE, SHM_RANGE_END, SHM_RANGE_START in *.
    destruct (page_align_up (vm_end x)) as [Hp Hpm]; [unfold PAGE_SIZE; lia |].
    assert (PAGE_ALIGN (vm_end x) <= 3221225472) as Hpt.
    { unfold PAGE_SIZE in *. apply Z.mod_divide in Hpm as [k Hk]; lia. }
    destruct (IH (PAGE_ALIGN (vm_end x))) as (a & Ea & Ha & Ham & Haw & Hd); try done; try lia.
    { pose proof (ends_behind_less addr (PAGE_ALIGN (vm_end x)) x l Hx). lia. }
    exists a. split_and!; try done; lia.
  - exists addr. split_and!; try done; try lia. intros _ x Hx. apply list_find_None in E.
    rewrite Forall_forall in E. specialize (E x Hx). unfold in_the_way in E. rewrite u32_small in E by lia.
    unfold disjoint_areas, new_area. cbn. rewrite u32_small by lia. lia.
Qed.

(** ** The system calls *)

(** C39: [munmap] removes exactly a range of pages from the memory map.  For a
    page aligned range below TASK_SIZE every byte of it (up to the end of the
    last page) is unmapped, every other byte stays mapped as it was, to the
    same byte of the same file with the same protection; the areas stay ordered
    and disjoint, the counts of inodes follow the areas that refer to them, and
    the page tables are cleared for the range if an area was affected, and not
    touched otherwise.  Any other range is refused without change. *)
Theorem munmap_exact addr len m :
  areas_ok (mmap m) -> allocs m -> 0 <= addr < 2 ^ 32 -> 0 <= len < 2 ^ 32 ->
  if (addr mod PAGE_SIZE =? 0) && (addr <=? TASK_SIZE) && (len <=? TASK_SIZE - addr) then
    exists m', do_munmap addr len m = Some (0, m') /\ areas_ok (mmap m') /\
      (forall b v, mapped (mmap m') b v <-> mapped (mmap m) b v /\ ~ addr <= b < addr + PAGE_ALIGN len) /\
      (forall i, loose_count m' (mmap m') i = loose_count m (mmap m) i) /\
      page_ops m' = page_ops m ++
        (if (len =? 0) || forallb (beside addr (addr + PAGE_ALIGN len)) (mmap m) then []
         else [UnmapPages addr (PAGE_ALIGN len)])
  else do_munmap addr len m = Some (- EINVAL, m).
Proof.
  intros Hok Hal Ha Hl. destruct (_ && _) eqn:E.
  - bool_simp. destruct (Z.eqb_spec len 0) as [-> | Hne].
    + exists m. unfold do_munmap. rewrite land_page_off, H.
      assert (u32 (TASK_SIZE - addr) = TASK_SIZE - addr) as -> by (apply u32_small; unfold TASK_SIZE in *; lia).
      replace (ctrue 0 || (TASK_SIZE <? addr) || (TASK_SIZE - addr <? 0)) with false by (cbn; lia).
      change (PAGE_ALIGN 0) with 0. split_and!; try done.
      * intros b v. split; [intros Hb; split; [done | lia] | tauto].
      * by rewrite app_nil_r.
    + destruct (do_munmap_range addr len m) as (m' & Em & _ & Hok' & Hm & Hc & Hp); try done; try lia.
      exists m'. by split_and!.
  - unfold do_munmap. rewrite land_page_off.
    destruct (Z.eqb_spec (addr mod PAGE_SIZE) 0) as [-> | Hne].
    + destruct (Z.leb_spec addr TASK_SIZE).
      * rewrite (u32_small (TASK_SIZE - addr)) by (unfold TASK_SIZE in *; lia).
        cbn [andb] in E. bool_simp. by rewrite (proj2 (Z.ltb_lt _ _) E), orb_true_r.
      * by rewrite (proj2 (Z.ltb_lt TASK_SIZE addr)) by lia.
    + unfold ctrue. by rewrite (proj2 (Z.eqb_neq _ 0)).
Qed.

(** The mappers modelled here: what they map a range to. *)
Inductive known_mapper : option mfile -> option nat -> option vm_operations -> Prop :=
| MapAnon : known_mapper None None None
| MapFile md i : known_mapper (Some (mk_mfile md (Some (generic_mmap i)))) (Some (i_no i)) (Some file_mmap).

Lemma unmapped_disjoint l a : areas_ok l -> vm_start a < vm_end a ->
  (forall b v, vm_start a <= b < vm_end a -> ~ mapped l b v) -> forall x, x ∈ l -> disjoint_areas a x.
Proof.
  intros Hok Ha Hn x Hx. pose proof (areas_ok_in _ _ Hok Hx) as ((? & ?) & _).
  destruct (decide (vm_end a <= vm_start x)); [by left |]. destruct (decide (vm_end x <= vm_start a)); [by right |].
  exfalso. eapply (Hn (Z.max (vm_start a) (vm_start x))); [lia |]. exists x. split; [done |]. split; [lia | reflexivity].
Qed.

(** Putting a new area into a free range, and merging. *)
Lemma map_area p a l : good_mergep p -> areas_ok l -> area_ok a -> (forall x, x ∈ l -> disjoint_areas a x) ->
  areas_ok (merge_segments p (insert_vm_struct a l)) /\
  forall b v, mapped (merge_segments p (insert_vm_struct a l)) b v <-> vm_at a b v \/ mapped l b v.
Proof.
  intros Hp Hl Ha Hd. destruct (merge_segments_spec p (insert_vm_struct a l)) as (H1 & H2 & _);
    [done | by apply insert_ok |]. split; [done |]. intros b v. by rewrite H2, mapped_insert.
Qed.

(** A mapper either fails and leaves the areas alone, or puts its area in. *)
Lemma mapper_maps file inode ops zero op addr len mask off m :
  known_mapper file inode ops -> mapper file zero = Some op ->
  0 <= addr -> 0 < len -> addr + len <= TASK_SIZE -> 0 <= off < 2 ^ 32 ->
  areas_ok (mmap m) -> (forall b v, addr <= b < addr + len -> ~ mapped (mmap m) b v) ->
  let '(e, m') := op addr len mask off m in
  (e = 0 /\ areas_ok (mmap m') /\
   forall b v, mapped (mmap m') b v <-> vm_at (new_area addr len mask inode off ops) b v \/ mapped (mmap m) b v) \/
  (e < 0 /\ mmap m' = mmap m).
Proof.
  intros Hk Hop H0 Hl Hr Ho Hok Hfree.
  assert (forall o, 0 <= o < 2 ^ 32 -> forall i p, (i <> None -> p <> None) ->
    area_ok (new_area addr len mask i o p) /\
    forall x, x ∈ mmap m -> disjoint_areas (new_area addr len mask i o p) x) as Hnew.
  { intros o Hoo i p Hip. assert (u32 (addr + len) = addr + len) as Eu by (apply u32_small; unfold TASK_SIZE in *; lia).
    split; [unfold area_ok, new_area; cbn -[uwrap]; rewrite Eu; split_and!; done || lia |].
    apply unmapped_disjoint; [done | cbn -[uwrap]; rewrite Eu; lia |]. cbn -[uwrap]. rewrite Eu. apply Hfree. }
  destruct Hk as [| md i]; cbn in Hop; injection Hop as <-.
  - unfold anon_map. destruct (ctrue zero); [right; split; done |].
    destruct (kmalloc _) as [[] m1] eqn:E; injection E as E1 <-; [left | right; split; done].
    split; [done |]. cbn [mmap upd]. destruct (Hnew 0 ltac:(lia) None None ltac:(done)) as [Ha Hd].
    destruct (map_area (Some ignoff_mergep) (new_area addr len mask None 0 None) (mmap m)) as [H1 H2]; try done.
    by right.
  - unfold generic_mmap. destruct (flag mask _); [right; split; done |].
    destruct (flag off _); [right; split; done |]. destruct (negb _); [right; split; done |].
    destruct (negb _); [right; split; done |]. destruct (negb _); [right; split; done |].
    destruct (kmalloc _) as [[] m1] eqn:E; injection E as E1 <-; [left | right; split; done].
    split; [done |]. cbn [mmap upd]. destruct (Hnew off Ho (Some (i_no i)) (Some file_mmap) ltac:(done)) as [Ha Hd].
    destruct (map_area None (new_area addr len mask (Some (i_no i)) off (Some file_mmap)) (mmap m)) as [H1 H2]; try done.
    by left.
Qed.

(** The address that [mmap] chooses; [len] is whole pages. *)
Lemma mmap_addr_spec addr len flags l :
  areas_ok l -> 0 <= addr -> 0 < len -> addr + len <= TASK_SIZE ->
  flag flags MAP_FIXED = true \/ len < TASK_SIZE ->
  (exists e, mmap_addr addr len flags l = Some (inl e) /\ e < 0) \/
  (exists r, mmap_addr addr len flags l = Some (inr r) /\ r mod PAGE_SIZE = 0 /\ 0 <= r /\ r + len <= TASK_SIZE /\
     if flag flags MAP_FIXED then r = addr
     else SHM_RANGE_START <= r /\ r + len < SHM_RANGE_END /\ forall b v, r <= b < r + len -> ~ mapped l b v).
Proof.
  intros Hok Ha Hl Hr Hfl. unfold mmap_addr. destruct (flag flags MAP_FIXED).
  - unfold flag. rewrite land_page_off. unfold ctrue. destruct (Z.eqb_spec (addr mod PAGE_SIZE) 0); cbn [negb]; [| by left; eexists].
    destruct (_ || _); [by left; eexists |]. right. exists addr. by split_and!.
  - destruct Hfl as [? | Hlt]; [done |].
    destruct (find_room_spec (S (length l)) SHM_RANGE_START len l) as (r & -> & Hrr & Hm & Hw & Hd);
      [done | | unfold SHM_RANGE_START, TASK_SIZE; lia | done | done | unfold SHM_RANGE_START, TASK_SIZE in *; lia |].
    { unfold ends_behind. pose proof (filter_length_le (fun a => SHM_RANGE_START <? vm_end a) l). lia. }
    assert (0 <= r) by (unfold SHM_RANGE_START in *; lia).
    cbn [mbind option_bind]. rewrite u32_small by lia.
    destruct (Z.leb_spec SHM_RANGE_END (r + len)) as [Hge | Hge]; [by left; eexists |].
    right. exists r. split_and!; try done; [unfold TASK_SIZE, SHM_RANGE_END in *; lia | lia |].
    intros b v Hb (a & Hain & Hat). apply vm_at_range in Hat. specialize (Hd Hge a Hain).
    unfold disjoint_areas, new_area in Hd. cbn -[uwrap] in Hd. rewrite u32_small in Hd by lia. lia.
Qed.

(** What [mmap] of a range may end in: an error with nothing new mapped, or the
    whole pages of the range at [r] (the address asked for, or else room that
    was found) mapped to the area [area r], and every byte outside as it was. *)
Definition mmap_result (area : Z -> vm_area) (addr n : Z) (fixed : bool) (m : mm_state)
    (o : option (Z * Z * mm_state)) : Prop :=
  exists r e m', o = Some (r, e, m') /\ areas_ok (mmap m') /\
    ((r < 0 /\ forall b v, mapped (mmap m') b v -> mapped (mmap m) b v) \/
     (0 <= r /\ r mod PAGE_SIZE = 0 /\ r + n <= TASK_SIZE /\
      (if fixed then r = addr
       else SHM_RANGE_START <= r /\ r + n < SHM_RANGE_END /\ forall b v, r <= b < r + n -> ~ mapped (mmap m) b v) /\
      forall b v, mapped (mmap m') b v <-> vm_at (area r) b v \/ (mapped (mmap m) b v /\ ~ r <= b < r + n))).

Lemma mmap_refused area addr n fixed m e : areas_ok (mmap m) -> e < 0 -> mmap_result area addr n fixed m (Some (e, 0, m)).
Proof. intros Hok He. exists e, 0, m. split_and!; [done | done | by left]. Qed.

Lemma file_check_neg file prot flags : ctrue (file_check file prot flags) = true -> file_check file prot flags < 0.
Proof. unfold file_check. destruct file as [f |]; [| done]. run_branches; done. Qed.


(** ** Witnesses and examples *)

Definition demo_mm : mm_state :=
  mk_mm [mk_area 0x1000 0x5000 PAGE_READONLY None (Some 7%nat) 0 (Some file_mmap);
         mk_area 0x40000000 0x40002000 PAGE_COPY None None 0 None]
    {[7%nat := 1]} [] [].
Definition demo_file : mfile := mk_mfile 1 (Some (generic_mmap (mk_minode 7 1024 S_IFREG true true))).

Lemma demo_mm_ok : areas_ok (mmap demo_mm).
Proof.
  split.
  - repeat constructor. cbn. lia.
  - repeat constructor; cbn; done.
Qed.

(** Unmapping a page in the middle of a file's area splits it. *)
Lemma munmap_exact_witness :
  exists m', do_munmap 0x2000 0x800 demo_mm = Some (0, m') /\
    (forall v, ~ mapped (mmap m') 0x2abc v) /\
    mapped (mmap m') 0x3004 (mk_mapping PAGE_READONLY None (Some file_mmap) (Some (7%nat, 0x2004))) /\
    icount m' 7 = 2.
Proof.
  destruct (munmap_exact 0x2000 0x800 demo_mm demo_mm_ok (Forall_nil_2 _) ltac:(lia) ltac:(lia))
    as (m' & E & _ & Hm & Hc & _).
  exists m'. split; [exact E |]. split; [| split].
  - intros v [_ Hv]%Hm. apply Hv. vm_compute. split; congruence.
  - apply Hm. split; [| vm_compute; intros [_ H]; discriminate H].
    exists (mk_area 0x1000 0x5000 PAGE_READONLY None (Some 7%nat) 0 (Some file_mmap)).
    split; [by constructor |]. split; [cbn; lia | reflexivity].
  - assert (do_munmap 0x2000 0x800 demo_mm = Some (0, m')) as E' by exact E.
    vm_compute in E'. injection E' as <-. reflexivity.
Defined.


(** Without MAP_FIXED a mapping of TASK_SIZE bytes wraps around in the search
    for room: it is placed at SHM_RANGE_START, over the kernel's addresses, and
    the page tables there are filled with user pages. *)
Example mmap_task_size_wraps :
  exists m', do_mmap None 0 TASK_SIZE PROT_READ (Z.lor MAP_PRIVATE MAP_ANONYMOUS) 0 0 (mk_mm [] ∅ [] []) =
    Some (SHM_RANGE_START, 0, m') /\
  page_ops m' = [ZeroPages SHM_RANGE_START TASK_SIZE PAGE_READONLY] /\
  mmap m' = [mk_area SHM_RANGE_START 0 PAGE_READONLY None None 0 None].
Proof. eexists. vm_compute. repeat split. Qed.

(** A length in the last page of the address space is rounded up to 0, and
    [mmap] reports success without mapping anything. *)
Example mmap_rounds_to_nothing :
  do_mmap None 0x1234 0xfffff001 PROT_READ MAP_PRIVATE 0 0 demo_mm = Some (0x1234, 0, demo_mm).
Proof. reflexivity. Qed.

(** Two mappings of a file side by side become one area; the count of the inode
    keeps both, and unmapping gives back only one. *)
Example merge_leaks_inode :
  match do_mmap (Some demo_file) 0x5000 4096 PROT_READ (Z.lor MAP_PRIVATE MAP_FIXED) 0x4000 0 demo_mm with
  | Some (_, _, m) =>
      inode_refs 7 (mmap m) = 1 /\ icount m 7 = 2 /\
      match do_munmap 0x1000 0x5000 m with
      | Some (_, m) => inode_refs 7 (mmap m) = 0 /\ icount m 7 = 1 | None => False end
  | None => False
  end.
Proof. vm_compute. repeat split. Qed.
