(* ===== verification/Csum.v ===== *)
(** Byte order and Internet checksums (include/linux/in.h, net/inet/ip.c,
    net/inet/tcp.c, net/inet/udp.c): the inline assembly of the checksum
    routines, instruction by instruction, against RFC 1071. *)

From S2P Require Import Prelude.

(** ** Memory as the network code reads and writes it

    A buffer is the list of its bytes; a number is in the order of the i386,
    low byte first. *)
Definition b8 (l : list Z) (i : Z) : Z := znth 0 l i.
Definition ld16 (l : list Z) (i : Z) : Z := b8 l i + 256 * b8 l (i + 1).
Definition ld32 (l : list Z) (i : Z) : Z := ld16 l i + 65536 * ld16 l (i + 2).
Definition st8 (l : list Z) (i v : Z) : list Z := zupd l i (u8 v).
Definition st16 (l : list Z) (i v : Z) : list Z := st8 (st8 l i v) (i + 1) (Z.shiftr v 8).
Definition st32 (l : list Z) (i v : Z) : list Z := st16 (st16 l i v) (i + 2) (Z.shiftr v 16).

Definition is_byte (b : Z) : Prop := 0 <= b < 256.
Definition bytes_ok (l : list Z) : Prop := Forall is_byte l.

(** include/linux/in.h:145-159 [ntohs]; [htons] is the same *)
Definition ntohs (x : Z) : Z := Z.lor (Z.shiftl (Z.land x 0x00ff) 8) (Z.shiftr (Z.land x 0xff00) 8).
(** include/linux/in.h:136-143 [ntohl]; [htonl] is the same *)
Definition ntohl (x : Z) : Z :=
  Z.lor (Z.shiftl (Z.land x 0x000000ff) 24)
    (Z.lor (Z.shiftl (Z.land x 0x0000ff00) 8)
      (Z.lor (Z.shiftr (Z.land x 0x00ff0000) 8) (Z.shiftr (Z.land x 0xff000000) 24))).
Abbreviation htons := ntohs.
Abbreviation htonl := ntohl.

(** ** The instructions *)

(** [adcl] and [adcw]: the sum and the carry flag; [addl] and [addw] are these
    with the carry clear. *)
Definition adcl (a b c : Z) : Z * Z := (u32 (a + b + c), Z.shiftr (a + b + c) 32).
Definition adcw (a b c : Z) : Z * Z := (u16 (a + b + c), Z.shiftr (a + b + c) 16).

(** A 16-bit instruction on the low half of a register. *)
Definition low_half (reg v : Z) : Z := reg - u16 reg + v.

(** net/inet/ip.c:492-496 the loop [lodsl; adcl; loop] over [n] long words of
    [buff] from [i] on, with the sum and the carry flag *)
Fixpoint sum_longs (n : nat) (buff : list Z) (i : Z) (sum carry : Z) : Z * Z :=
  match n with
  | O => (sum, carry)
  | S n => let '(sum, carry) := adcl sum (ld32 buff i) carry in sum_longs n buff (i + 4) sum carry
  end.

(** net/inet/ip.c:498-500 [movl; shrl $16; addw; adcw $0]: both halves added *)
Definition fold_halves (sum : Z) : Z :=
  let bogus := Z.shiftr sum 16 in
  let '(w, c) := adcw (u16 sum) (u16 bogus) 0 in
  let '(w, _) := adcw w 0 c in low_half sum w.

(** net/inet/ip.c:505-507 [addw; adcw $0] of the word [ax] *)
Definition add_word (sum ax : Z) : Z :=
  let '(w, c) := adcw (u16 sum) ax 0 in
  let '(w, _) := adcw w 0 c in low_half sum w.

(** Complement, and the low 16 bits: the end of each routine. *)
Definition not16 (sum : Z) : Z := Z.land (u32 (Z.lnot sum)) 0xffff.

(** net/inet/ip.c:504-519 the last word and byte, which TCP and UDP add with the
    same code *)
Definition sum_tail (buff : list Z) (i len sum : Z) : Z :=
  let '(sum, i) := if flag len 2 then (add_word sum (ld16 buff i), i + 2) else (sum, i) in
  if flag len 1 then add_word sum (b8 buff i) else sum.

(** ** The routines *)

(** net/inet/ip.c:452-475 [ip_fast_csum] of [wlen] long words at [i] *)
Definition ip_fast_csum (buff : list Z) (i wlen : Z) : Z :=
  let sum := 0 in
  let sum :=
    if ctrue wlen then
      let '(sum, carry) := sum_longs (Z.to_nat (u32 wlen)) buff i sum 0 in
      let '(sum, _) := adcl sum 0 carry in
      fold_halves sum
    else sum in
  not16 sum.

(** net/inet/ip.c:483-522 [ip_compute_csum] of [len] bytes at [i] *)
Definition ip_compute_csum (buff : list Z) (i len : Z) : Z :=
  let sum := 0 in
  let '(sum, i) :=
    if 3 <? len then
      let n := Z.shiftr len 2 in
      let '(sum, carry) := sum_longs (Z.to_nat n) buff i sum 0 in
      let '(sum, _) := adcl sum 0 carry in
      (fold_halves sum, i + 4 * n)
    else (sum, i) in
  not16 (sum_tail buff i len sum).

(** The sum over the pseudo header that TCP and UDP share, with the three
    numbers in registers, then over [len] bytes at [i].
    net/inet/tcp.c:562-612 [tcp_check] behind its first lines *)
Definition pseudo_check (proto : Z) (buff : list Z) (i len saddr daddr : Z) : Z :=
  let edx := u32 (Z.shiftl (ntohs (u16 len)) 16 + proto * 256) in
  let '(sum, carry) := adcl daddr saddr 0 in
  let '(sum, carry) := adcl sum edx carry in
  let '(sum, _) := adcl sum 0 carry in
  let '(sum, i) :=
    if 3 <? len then
      let n := Z.quot len 4 in
      let '(sum, carry) := sum_longs (Z.to_nat n) buff i sum 0 in
      let '(sum, _) := adcl sum 0 carry in (sum, i + 4 * n)
    else (sum, i) in
  let sum := fold_halves sum in
  not16 (sum_tail buff i len sum).

(** include/linux/in.h:27-31 [IPPROTO_TCP], [IPPROTO_UDP] *)
Definition IPPROTO_TCP := 6.
Definition IPPROTO_UDP := 17.

(** net/inet/tcp.c:554-613 [tcp_check]; [my_addr] is the machine's address *)
Definition tcp_check (my_addr : Z) (buff : list Z) (i len saddr daddr : Z) : Z :=
  let saddr := if saddr =? 0 then my_addr else saddr in
  pseudo_check IPPROTO_TCP buff i len saddr daddr.

(** net/inet/tcp.c:618-624 [tcp_send_check]; [check] is at 16 in the header *)
Definition tcp_send_check (my_addr : Z) (buff : list Z) (i saddr daddr len : Z) : list Z :=
  let buff := st16 buff (i + 16) 0 in
  st16 buff (i + 16) (tcp_check my_addr buff i len saddr daddr).

(** net/inet/udp.c:142-204 [udp_check] *)
Definition udp_check (buff : list Z) (i len saddr daddr : Z) : Z :=
  pseudo_check IPPROTO_UDP buff i len saddr daddr.

(** net/inet/udp.c:208-217 [udp_send_check]; [check] is at 6 in the header *)
Definition udp_send_check (no_check : bool) (buff : list Z) (i saddr daddr len : Z) : list Z :=
  let buff := st16 buff (i + 6) 0 in
  if no_check then buff
  else
    let buff := st16 buff (i + 6) (udp_check buff i len saddr daddr) in
    if ld16 buff (i + 6) =? 0 then st16 buff (i + 6) 0xffff else buff.

(** net/inet/ip.c:526-529 [ip_csum] of the header at [i] *)
Definition ip_csum (buff : list Z) (i : Z) : Z := ip_fast_csum buff i (Z.land (b8 buff i) 15).

(** net/inet/ip.c:533-538 [ip_send_check] of the header at [i] *)
Definition ip_send_check (buff : list Z) (i : Z) : list Z :=
  let buff := st16 buff (i + 10) 0 in
  st16 buff (i + 10) (ip_fast_csum buff i (Z.land (b8 buff i) 15)).

(** * RFC 1071 *)

(** The words of a buffer in network order, an odd last byte padded with 0. *)
Fixpoint be_words (l : list Z) : list Z :=
  match l with
  | a :: b :: r => (256 * a + b) :: be_words r
  | [a] => [256 * a]
  | [] => []
  end.

(** One's complement addition of 16-bit numbers: the carry comes back in. *)
Definition oc_add (a b : Z) : Z := if 65536 <=? a + b then a + b - 65535 else a + b.

(** The checksum of RFC 1071, in network order. *)
Definition rfc1071 (l : list Z) : Z := 65535 - foldl oc_add 0 (be_words l).

(** The pseudo header of RFC 793, from addresses as the machine holds them. *)
Definition bytes32 (v : Z) : list Z :=
  [v mod 256; (v / 256) mod 256; (v / 65536) mod 256; (v / 16777216) mod 256].
Definition pseudo_header (saddr daddr proto len : Z) : list Z :=
  bytes32 saddr ++ bytes32 daddr ++ [0; proto; len / 256; len mod 256].

(** The [n] bytes at [i]. *)
Fixpoint bytes_at (n : nat) (buff : list Z) (i : Z) : list Z :=
  match n with O => [] | S n => b8 buff i :: bytes_at n buff (i + 1) end.

(** * One's complement arithmetic

    Sums are compared modulo 65535; a sum of 0 is only that of zeros, which
    tells the two representations of zero apart. *)
Definition oc (a b : Z) : Prop :=
  0 <= a /\ 0 <= b /\ a mod 65535 = b mod 65535 /\ (a = 0 <-> b = 0).

#[export] Instance oc_symmetric : Symmetric oc.
Proof. intros a b (?&?&?&?). unfold oc. intuition lia. Qed.
#[export] Instance oc_transitive : Transitive oc.
Proof. intros a b c (?&?&?&?) (?&?&?&?). unfold oc. intuition lia. Qed.
#[export] Instance oc_add_proper : Proper (oc ==> oc ==> oc) Z.add.
Proof.
  intros a b (?&?&Hab&?) c d (?&?&Hcd&?). unfold oc. split_and!; [lia | lia | | lia].
  by rewrite Zplus_mod, Hab, Hcd, <- Zplus_mod.
Qed.

Lemma oc_refl a : 0 <= a -> oc a a.
Proof. unfold oc. lia. Qed.
#[export] Hint Resolve oc_refl : kernel.

(** Multiples of 65535 do not count, apart from zero. *)
Lemma oc_shift a b k : 0 <= a -> 0 <= b -> (a = 0 <-> b = 0) -> a = b + k * 65535 -> oc a b.
Proof. intros ??? ->. unfold oc. rewrite Z_mod_plus_full. lia. Qed.

Lemma oc_mul a b k : 0 < k -> oc a b -> oc (k * a) (k * b).
Proof.
  intros Hk (?&?&H&?). unfold oc. split_and!; [nia | nia | | nia].
  by rewrite Zmult_mod, H, <- Zmult_mod.
Qed.

(** 16-bit numbers that agree are equal. *)
Lemma oc_unique a b : a < 65536 -> b < 65536 -> oc a b -> a = b.
Proof.
  intros Ha Hb (Ha0&Hb0&H&Hz).
  destruct (Z.eq_dec a 65535) as [-> |], (Z.eq_dec b 65535) as [-> |]; [done | | |].
  - rewrite Z.mod_same, (Z.mod_small b) in H by lia. lia.
  - rewrite Z.mod_same, (Z.mod_small a) in H by lia. lia.
  - rewrite !Z.mod_small in H by lia. done.
Qed.

(** The sum of the words of a buffer as the code sees them, low byte first. *)
Fixpoint le_sum (l : list Z) : Z :=
  match l with
  | a :: b :: r => a + 256 * b + le_sum r
  | [a] => a
  | [] => 0
  end.

(** Induction two bytes at a time. *)
Lemma pairs_ind (P : list Z -> Prop) :
  P [] -> (forall a, P [a]) -> (forall a b r, P r -> P (a :: b :: r)) -> forall l, P l.
Proof.
  intros H0 H1 H2 l. enough (P l /\ forall a, P (a :: l)) by tauto.
  induction l as [| b l [IH1 IH2]]; split; auto.
Qed.

Lemma le_sum_nonneg l : bytes_ok l -> 0 <= le_sum l.
Proof.
  induction l as [| a | a b r IH] using pairs_ind; cbn; [lia | |].
  - by intros [[??] _]%Forall_cons.
  - intros [[??] [[??] Hr]%Forall_cons]%Forall_cons. specialize (IH Hr). lia.
Qed.

Lemma le_sum_app l k : Nat.Even (length l) -> le_sum (l ++ k) = le_sum l + le_sum k.
Proof.
  intros He. induction l as [| a | a b r IH] using pairs_ind; cbn; [done | |].
  - destruct He as [n Hn]. cbn in Hn. lia.
  - rewrite IH; [lia |]. destruct He as [n Hn]. exists (n - 1)%nat. cbn in Hn. lia.
Qed.

(** The byte order of the words does not matter but for that of the sum. *)
Lemma be_words_le_sum l : bytes_ok l ->
  oc (zsum id (be_words l)) (256 * le_sum l) /\ Forall (fun w => 0 <= w < 65536) (be_words l).
Proof.
  induction l as [| a | a b r IH] using pairs_ind; cbn [be_words le_sum].
  - intros _. split; [by apply oc_refl | constructor].
  - intros [[??] _]%Forall_cons. split; [| repeat constructor; lia].
    cbn. apply (oc_shift _ _ 0); lia.
  - intros [[??] [[??] Hr]%Forall_cons]%Forall_cons. destruct (IH Hr) as [IH1 IH2].
    split; [| constructor; [lia | done]].
    change (zsum id ((256 * a + b) :: be_words r)) with (256 * a + b + zsum id (be_words r)).
    rewrite Z.mul_add_distr_l. apply oc_add_proper; [| done].
    apply (oc_shift _ _ (- b)); lia.
Qed.

Lemma foldl_oc_add ws : forall a, 0 <= a < 65536 -> Forall (fun w => 0 <= w < 65536) ws ->
  oc (foldl oc_add a ws) (a + zsum id ws) /\ foldl oc_add a ws < 65536.
Proof.
  induction ws as [| w ws IH]; intros a Ha Hws; cbn.
  - rewrite Z.add_0_r. split; [apply oc_refl; lia | lia].
  - apply Forall_cons in Hws as [Hw Hws].
    assert (oc (oc_add a w) (a + w) /\ 0 <= oc_add a w < 65536) as [E Hb].
    { unfold oc_add. destruct (Z.leb_spec 65536 (a + w)); [| split; [apply oc_refl |]; lia].
      split; [apply (oc_shift _ _ (-1)) |]; lia. }
    destruct (IH (oc_add a w) Hb Hws) as [IH1 IH2]. split; [| done].
    rewrite IH1. change (foldr _ 0 ws) with (zsum id ws). rewrite Z.add_assoc.
    apply oc_add_proper; [done |]. apply oc_refl, zsum_nonneg.
    intros x Hx. rewrite Forall_forall in Hws. unfold id. specialize (Hws x Hx). lia.
Qed.

(** * The instructions keep the one's complement value *)

Lemma ntohs_spec x : 0 <= x < 65536 -> ntohs x = 256 * (x mod 256) + x / 256.
Proof.
  intros Hx. set (h := x / 256). set (l := x mod 256).
  assert (x = 256 * h + l) as E by (apply Z.div_mod; lia).
  assert (0 <= l < 0 + 256) as Hl by (apply Z.mod_pos_bound; lia).
  rewrite E. clearbody h l. apply Z.eqb_eq.
  refine (forallb_seqZ (fun l => ntohs (256 * h + l) =? 256 * l + h) 0 256 l _ Hl).
  refine (forallb_seqZ (fun h => forallb (fun l => ntohs (256 * h + l) =? 256 * l + h) (seqZ 0 256))
    0 256 h _ ltac:(lia)).
  by vm_compute.
Qed.

Lemma ntohs_bounds x : 0 <= x < 65536 -> 0 <= ntohs x < 65536.
Proof.
  intros. rewrite ntohs_spec by done.
  pose proof (Z.mod_pos_bound x 256 ltac:(lia)). pose proof (Z.div_mod x 256 ltac:(lia)). lia.
Qed.

Lemma ntohs_oc x : 0 <= x < 65536 -> oc (ntohs x) (256 * x).
Proof.
  intros. rewrite ntohs_spec by done. pose proof (Z.div_mod x 256 ltac:(lia)).
  pose proof (Z.mod_pos_bound x 256 ltac:(lia)).
  apply (oc_shift _ _ (- (x / 256))); lia.
Qed.

Lemma not16_spec x : not16 x = 65535 - u16 x.
Proof.
  unfold not16, uwrap. change 0xffff with (Z.ones 16). rewrite Z.land_ones by lia.
  change (2 ^ 32) with (65536 * 65536).
  change (2 ^ 16) with 65536. rewrite Z.mod_mod_divide by (by exists 65536).
  replace (Z.lnot x) with (- x - 1) by (unfold Z.lnot; lia). pose proof (Z.div_mod x 65536 ltac:(lia)).
  pose proof (Z.mod_pos_bound x 65536 ltac:(lia)).
  symmetry. change (Z.ones 16) with 65535. apply (Z.mod_unique _ _ (- (x / 65536) - 1)); lia.
Qed.

(** The state of a chain of additions: the register and the carry flag. *)
Definition adc_ok (s c : Z) : Prop := 0 <= s < 2 ^ 32 /\ 0 <= c <= 1 /\ s + c < 2 ^ 32.

Lemma adcl_spec s c x s' c' :
  adc_ok s c -> 0 <= x < 2 ^ 32 -> adcl s x c = (s', c') ->
  adc_ok s' c' /\ oc (s' + c') (s + c + x).
Proof.
  unfold adcl, adc_ok, uwrap. intros Hs Hx [= <- <-].
  rewrite Z.shiftr_div_pow2 by lia. change (2 ^ 32) with 4294967296 in *.
  set (t := s + x + c).
  assert (t mod 4294967296 = t - 4294967296 * (t / 4294967296)) as E by (rewrite Z.mod_eq; lia).
  pose proof (Z.mod_pos_bound t 4294967296 ltac:(lia)).
  split; [lia |]. apply (oc_shift _ _ (- (65537 * (t / 4294967296)))); lia.
Qed.

Lemma adcl_last s c : adc_ok s c -> adcl s 0 c = (s + c, 0).
Proof.
  unfold adcl, adc_ok. intros. rewrite Z.add_0_r, Z.shiftr_div_pow2 by lia.
  rewrite Z.div_small by lia. by rewrite uwrap_small by lia.
Qed.

Lemma adcw_twice a b :
  0 <= a < 65536 -> 0 <= b < 65536 ->
  let '(w, c) := adcw a b 0 in
  let '(w, _) := adcw w 0 c in oc w (a + b) /\ w < 65536.
Proof.
  intros. unfold adcw, uwrap. rewrite !Z.shiftr_div_pow2 by lia. change (2 ^ 16) with 65536.
  set (t := a + b + 0).
  assert (t mod 65536 = t - 65536 * (t / 65536)) as E by (rewrite Z.mod_eq; lia).
  pose proof (Z.mod_pos_bound t 65536 ltac:(lia)).
  rewrite (Z.mod_small (t mod 65536 + 0 + _)) by lia.
  split; [| lia]. apply (oc_shift _ _ (- (t / 65536))); lia.
Qed.

Lemma low_half_u16 reg v : 0 <= v < 65536 -> u16 (low_half reg v) = v.
Proof.
  intros. unfold low_half, uwrap. change (2 ^ 16) with 65536.
  Z.to_euclidean_division_equations. lia.
Qed.

Lemma fold_halves_spec s : 0 <= s < 2 ^ 32 -> oc (u16 (fold_halves s)) s.
Proof.
  intros Hs. unfold fold_halves. rewrite Z.shiftr_div_pow2 by lia. change (2 ^ 16) with 65536.
  assert (0 <= s / 65536 < 65536) by (split; [apply Z.div_pos | apply Z.div_lt_upper_bound]; lia).
  rewrite (u16_small (s / 65536)) by lia.
  pose proof (adcw_twice (u16 s) (s / 65536) (u16_bounds _) ltac:(lia)) as Hsum.
  destruct (adcw (u16 s) _ 0) as [w c]. destruct (adcw w 0 c) as [w' c']. destruct Hsum as [Hsum Hw].
  rewrite low_half_u16 by (destruct Hsum; lia). rewrite Hsum.
  unfold uwrap. change (2 ^ 16) with 65536 in *. pose proof (Z.div_mod s 65536 ltac:(lia)).
  pose proof (Z.mod_pos_bound s 65536 ltac:(lia)).
  apply (oc_shift _ _ (- (s / 65536))); lia.
Qed.

Lemma add_word_spec s ax : 0 <= ax < 65536 -> oc (u16 (add_word s ax)) (u16 s + ax).
Proof.
  intros Hax. unfold add_word.
  pose proof (adcw_twice (u16 s) ax (u16_bounds _) Hax) as Hsum.
  destruct (adcw (u16 s) _ 0) as [w c]. destruct (adcw w 0 c) as [w' c']. destruct Hsum as [Hsum Hw].
  rewrite low_half_u16 by (destruct Hsum; lia). done.
Qed.

(** * The routines compute the checksum of RFC 1071 *)

Lemma b8_ok l i : bytes_ok l -> 0 <= b8 l i < 256.
Proof.
  intros H. unfold b8, znth. destruct (i <? 0); [lia |].
  rewrite nth_lookup. destruct (l !! Z.to_nat i) as [x |] eqn:Hx; cbn; [| lia].
  by apply (Forall_lookup_1 is_byte _ _ _ H Hx).
Qed.

Lemma bytes_at_ok n l : bytes_ok l -> forall i, bytes_ok (bytes_at n l i).
Proof.
  intros Hl. unfold bytes_ok in *. induction n as [| n IH]; intros i; cbn; constructor; auto.
  by apply b8_ok.
Qed.

Lemma bytes_ok_app l k : bytes_ok l -> bytes_ok k -> bytes_ok (l ++ k).
Proof. intros. by apply Forall_app. Qed.
#[export] Hint Resolve bytes_at_ok bytes_ok_app le_sum_nonneg : kernel.

Lemma bytes_at_length n l i : length (bytes_at n l i) = n.
Proof. revert i. induction n; intros; cbn; auto. Qed.

Lemma bytes_at_app n m l i :
  bytes_at (n + m) l i = bytes_at n l i ++ bytes_at m l (i + Z.of_nat n).
Proof.
  revert i. induction n as [| n IH]; intros i; cbn [bytes_at app plus].
  - f_equal. lia.
  - rewrite IH. do 3 f_equal. lia.
Qed.

Section sums.
Context (buff : list Z) (Hbuff : bytes_ok buff).

Lemma ld16_ok i : 0 <= ld16 buff i < 65536.
Proof using Hbuff. unfold ld16. pose proof (b8_ok buff i Hbuff). pose proof (b8_ok buff (i + 1) Hbuff). lia. Qed.

Lemma ld32_ok i : 0 <= ld32 buff i < 2 ^ 32 /\ oc (ld32 buff i) (ld16 buff i + ld16 buff (i + 2)).
Proof using Hbuff.
  unfold ld32. pose proof (ld16_ok i). pose proof (ld16_ok (i + 2)).
  split; [lia |]. apply (oc_shift _ _ (ld16 buff (i + 2))); lia.
Qed.

Lemma sum_longs_spec n : forall i s c s' c',
  adc_ok s c -> sum_longs n buff i s c = (s', c') ->
  adc_ok s' c' /\ oc (s' + c') (s + c + le_sum (bytes_at (4 * n) buff i)).
Proof using Hbuff.
  induction n as [| n IH]; intros i s c s' c' Hs E; cbn [sum_longs] in E.
  - injection E as [= <- <-]. split; [done |]. cbn. rewrite Z.add_0_r.
    apply oc_refl. unfold adc_ok in Hs. lia.
  - destruct (ld32_ok i) as [Hw Hoc]. destruct (adcl s (ld32 buff i) c) as [s1 c1] eqn:Ea.
    destruct (adcl_spec s c (ld32 buff i) s1 c1 Hs Hw Ea) as [Hs1 E1].
    destruct (IH _ _ _ _ _ Hs1 E) as [Hs' E']. split; [done |]. rewrite E'.
    replace (4 * S n)%nat with (4 + 4 * n)%nat by lia. rewrite bytes_at_app, le_sum_app
      by (rewrite bytes_at_length; by exists 2%nat).
    rewrite Z.add_assoc. apply oc_add_proper; [| apply oc_refl; auto with kernel].
    rewrite E1. apply oc_add_proper; [apply oc_refl; unfold adc_ok in Hs; lia |].
    rewrite Hoc. cbn [bytes_at le_sum]. unfold ld16.
    replace (i + 1 + 1) with (i + 2) by lia. replace (i + 2 + 1) with (i + 3) by lia.
    pose proof (b8_ok buff i Hbuff). pose proof (b8_ok buff (i + 1) Hbuff).
    pose proof (b8_ok buff (i + 2) Hbuff). pose proof (b8_ok buff (i + 3) Hbuff).
    apply (oc_shift _ _ 0); lia.
Qed.

(** The long words, and the carry that is left. *)
Lemma sum_longs_closed n i s :
  0 <= s < 2 ^ 32 ->
  exists t, (let '(s', c') := sum_longs n buff i s 0 in adcl s' 0 c') = (t, 0) /\
    0 <= t < 2 ^ 32 /\ oc t (s + le_sum (bytes_at (4 * n) buff i)).
Proof using Hbuff.
  intros Hs. destruct (sum_longs n buff i s 0) as [s' c'] eqn:E.
  destruct (sum_longs_spec n i s 0 s' c') as [Hok Hoc]; [unfold adc_ok; lia | done |].
  exists (s' + c'). rewrite adcl_last by done. rewrite Z.add_0_r in Hoc.
  split_and!; [done | unfold adc_ok in Hok; lia.. | done].
Qed.

Lemma flag_mod4 len m : m = 1 \/ m = 2 -> flag len m = flag (len mod 4) m.
Proof using Type.
  intros Hm. unfold flag. enough (Z.land len m = Z.land (len mod 4) m) as -> by done.
  change 4 with (2 ^ 2). rewrite <- Z.land_ones by lia.
  rewrite <- Z.land_assoc. f_equal. by destruct Hm as [-> | ->].
Qed.

Lemma sum_tail_spec i len sum :
  oc (u16 (sum_tail buff i len sum)) (u16 sum + le_sum (bytes_at (Z.to_nat (len mod 4)) buff i)).
Proof using Hbuff.
  unfold sum_tail. rewrite (flag_mod4 len 2), (flag_mod4 len 1) by auto.
  pose proof (Z.mod_pos_bound len 4 ltac:(lia)) as Hr. pose proof (u16_bounds sum).
  pose proof (b8_ok buff i Hbuff). pose proof (b8_ok buff (i + 1) Hbuff).
  pose proof (b8_ok buff (i + 2) Hbuff).
  assert (len mod 4 = 0 \/ len mod 4 = 1 \/ len mod 4 = 2 \/ len mod 4 = 3) as Hc by lia.
  destruct Hc as [-> | [-> | [-> | ->]]];
    repeat match goal with |- context [flag ?a ?b] =>
      let v := eval compute in (flag a b) in change (flag a b) with v end;
    match goal with |- context [Z.to_nat ?a] =>
      let v := eval compute in (Z.to_nat a) in change (Z.to_nat a) with v end;
    cbn [bytes_at le_sum]; cbv iota.
  - rewrite Z.add_0_r. apply oc_refl; lia.
  - apply add_word_spec; lia.
  - rewrite Z.add_0_r. apply add_word_spec, ld16_ok.
  - etrans; [apply add_word_spec; lia |].
    etrans; [apply oc_add_proper; [apply add_word_spec, ld16_ok | apply oc_refl; lia] |].
    replace (i + 1 + 1) with (i + 2) by lia. unfold ld16. rewrite <- Z.add_assoc. apply oc_refl; lia.
Qed.

End sums.

(** The checksum of RFC 1071 is the complement of the sum of the words, in
    either byte order. *)
Lemma rfc1071_sum l : bytes_ok l ->
  exists s, ntohs (rfc1071 l) = 65535 - s /\ 0 <= s < 65536 /\ oc s (le_sum l).
Proof.
  intros Hl. destruct (be_words_le_sum l Hl) as [Hbe Hws].
  destruct (foldl_oc_add (be_words l) 0 ltac:(lia) Hws) as [Hf Hb].
  rewrite Z.add_0_l in Hf. pose proof (le_sum_nonneg l Hl). unfold rfc1071. set (f := foldl oc_add 0 (be_words l)) in *.
  assert (0 <= f) by (destruct Hf; lia). exists (ntohs f). split_and!.
  - rewrite !ntohs_spec by lia. Z.to_euclidean_division_equations. lia.
  - apply ntohs_bounds. lia.
  - apply ntohs_bounds. lia.
  - etrans; [apply ntohs_oc; lia |].
    etrans; [apply oc_mul; [lia | etrans; [apply Hf | apply Hbe]] |].
    apply (oc_shift _ _ (le_sum l)); lia.
Qed.

Lemma not16_rfc1071 s l :
  bytes_ok l -> oc (u16 s) (le_sum l) -> not16 s = ntohs (rfc1071 l).
Proof.
  intros Hl Hs. rewrite not16_spec. destruct (rfc1071_sum l Hl) as (t & -> & Ht & Hoc).
  enough (u16 s = t) by lia. pose proof (u16_bounds s).
  apply oc_unique; [lia | lia |]. etrans; [apply Hs | by symmetry].
Qed.

Lemma ip_compute_csum_spec buff i len :
  bytes_ok buff -> 0 <= len ->
  ip_compute_csum buff i len = ntohs (rfc1071 (bytes_at (Z.to_nat len) buff i)).
Proof.
  intros Hb Hlen. set (n := Z.shiftr len 2).
  assert (n = len / 4) as Hn by (unfold n; by rewrite Z.shiftr_div_pow2 by lia).
  pose proof (Z.div_mod len 4 ltac:(lia)). pose proof (Z.mod_pos_bound len 4 ltac:(lia)).
  pose proof (Z.div_pos len 4 ltac:(lia) ltac:(lia)).
  replace (Z.to_nat len) with (4 * Z.to_nat n + Z.to_nat (len mod 4))%nat by lia.
  rewrite bytes_at_app. replace (i + Z.of_nat _) with (i + 4 * n) by lia.
  assert (exists s, ip_compute_csum buff i len = not16 (sum_tail buff (i + 4 * n) len s) /\
    oc (u16 s) (le_sum (bytes_at (4 * Z.to_nat n) buff i))) as (s & -> & Hs).
  { unfold ip_compute_csum. fold n. destruct (Z.ltb_spec 3 len).
    - destruct (sum_longs_closed buff Hb (Z.to_nat n) i 0 ltac:(lia)) as (t & Ht & Hr & Hoc).
      destruct (sum_longs _ _ _ _ _) as [s1 c1]. rewrite Ht.
      exists (fold_halves t). split; [done |]. by rewrite fold_halves_spec.
    - assert (n = 0) as -> by lia. exists 0. split; [by rewrite Z.mul_0_r, Z.add_0_r | by apply oc_refl]. }
  assert (bytes_ok (bytes_at (4 * Z.to_nat n) buff i ++ bytes_at (Z.to_nat (len mod 4)) buff (i + 4 * n)))
    by auto with kernel.
  apply not16_rfc1071; [done |].
  rewrite le_sum_app by (rewrite bytes_at_length; exists (2 * Z.to_nat n)%nat; lia).
  etrans; [apply sum_tail_spec, Hb |].
  apply oc_add_proper; [done |]. apply oc_refl; auto with kernel.
Qed.

Lemma ip_fast_csum_spec buff i wlen :
  bytes_ok buff -> 0 <= wlen < 2 ^ 32 ->
  ip_fast_csum buff i wlen = ntohs (rfc1071 (bytes_at (4 * Z.to_nat wlen) buff i)).
Proof.
  intros Hb Hw. apply not16_rfc1071; [by apply bytes_at_ok |].
  unfold ctrue. destruct (Z.eqb_spec wlen 0) as [-> |]; cbn [negb].
  - by apply oc_refl.
  - rewrite (u32_small wlen) by lia.
    destruct (sum_longs_closed buff Hb (Z.to_nat wlen) i 0 ltac:(lia)) as (t & Ht & Hr & Hoc).
    destruct (sum_longs _ _ _ _ _) as [s1 c1]. rewrite Ht. by rewrite fold_halves_spec.
Qed.

Lemma adc_pair a b : 0 <= a < 2 ^ 32 -> 0 <= b < 2 ^ 32 ->
  exists s c, adcl a b 0 = (s, c) /\ adc_ok s c /\ oc (s + c) (a + b).
Proof.
  intros. destruct (adcl a b 0) as [s c] eqn:E. exists s, c. split; [done |].
  replace (a + b) with (a + 0 + b) by lia. apply (adcl_spec a 0 b); [unfold adc_ok | |]; lia || done.
Qed.

Lemma le_sum_pseudo saddr daddr proto len :
  0 <= saddr < 2 ^ 32 -> 0 <= daddr < 2 ^ 32 -> is_byte proto -> 0 <= len < 65536 ->
  bytes_ok (pseudo_header saddr daddr proto len) /\
  oc (saddr + daddr + u32 (Z.shiftl (ntohs (u16 len)) 16 + proto * 256))
    (le_sum (pseudo_header saddr daddr proto len)).
Proof.
  intros Hs Hd [Hp1 Hp2] Hl. split.
  { unfold pseudo_header, bytes32, bytes_ok, is_byte. cbn [app].
    assert (0 <= len / 256 < 256) by (split; [apply Z.div_pos | apply Z.div_lt_upper_bound]; lia).
    repeat constructor; try (apply Z.mod_pos_bound; lia); lia. }
  rewrite (u16_small len) by lia. pose proof (ntohs_bounds len Hl).
  rewrite Z.shiftl_mul_pow2, u32_small by lia. change (2 ^ 16) with 65536.
  assert (forall v, 0 <= v < 2 ^ 32 -> oc v (v mod 256 + 256 * ((v / 256) mod 256) +
    ((v / 65536) mod 256 + 256 * ((v / 16777216) mod 256)))) as Hv.
  { intros v Hv. apply (oc_shift _ _ (v / 65536)); Z.to_euclidean_division_equations; lia. }
  unfold pseudo_header, bytes32. cbn [app le_sum].
  assert (oc (65536 * ntohs len + proto * 256) (ntohs len + proto * 256)) as Hx
    by (apply (oc_shift _ _ (ntohs len)); lia).
  rewrite (ntohs_spec len) in Hx at 2 by done.
  rewrite (Z.mul_comm (ntohs len)).
  refine (transitivity (oc_add_proper _ _ (oc_add_proper _ _ (Hv saddr Hs) _ _ (Hv daddr Hd)) _ _ Hx) _).
  match goal with |- oc ?a ?b => replace b with a by ring end.
  apply oc_refl.
  destruct (oc_add_proper _ _ (oc_add_proper _ _ (Hv saddr Hs) _ _ (Hv daddr Hd)) _ _ Hx) as (_ & H0 & _).
  exact H0.
Qed.

Lemma pseudo_check_spec proto buff i len saddr daddr :
  bytes_ok buff -> 0 <= len < 65536 -> is_byte proto ->
  0 <= saddr < 2 ^ 32 -> 0 <= daddr < 2 ^ 32 ->
  pseudo_check proto buff i len saddr daddr =
  ntohs (rfc1071 (pseudo_header saddr daddr proto len ++ bytes_at (Z.to_nat len) buff i)).
Proof.
  intros Hb Hlen Hp Hs Hd.
  destruct (le_sum_pseudo saddr daddr proto len Hs Hd Hp Hlen) as [Hpok Hps].
  set (edx := u32 _) in Hps. set (ph := pseudo_header _ _ _ _) in *. set (n := Z.quot len 4).
  assert (n = len / 4) as Hn by (unfold n; apply Z.quot_div_nonneg; lia).
  pose proof (Z.div_mod len 4 ltac:(lia)). pose proof (Z.mod_pos_bound len 4 ltac:(lia)).
  pose proof (Z.div_pos len 4 ltac:(lia) ltac:(lia)).
  replace (Z.to_nat len) with (4 * Z.to_nat n + Z.to_nat (len mod 4))%nat by lia.
  rewrite bytes_at_app. replace (i + Z.of_nat _) with (i + 4 * n) by lia.
  assert (exists s, pseudo_check proto buff i len saddr daddr = not16 (sum_tail buff (i + 4 * n) len s) /\
    oc (u16 s) (le_sum ph + le_sum (bytes_at (4 * Z.to_nat n) buff i))) as (s & -> & Hoc).
  { unfold pseudo_check. fold edx. fold n.
    destruct (adc_pair daddr saddr Hd Hs) as (s1 & c1 & -> & Hok1 & E1).
    destruct (adcl s1 edx c1) as [s2 c2] eqn:E.
    destruct (adcl_spec s1 c1 edx s2 c2 Hok1 (u32_bounds _) E) as [Hok2 E2].
    rewrite adcl_last by done.
    assert (oc (s2 + c2) (le_sum ph)) as E3.
    { rewrite <- Hps, E2, (Z.add_comm saddr). apply oc_add_proper; [done |].
      apply oc_refl. apply u32_bounds. }
    assert (0 <= s2 + c2 < 2 ^ 32) by (unfold adc_ok in Hok2; lia).
    destruct (Z.ltb_spec 3 len).
    - destruct (sum_longs_closed buff Hb (Z.to_nat n) i (s2 + c2) ltac:(lia)) as (t & Ht & Hr & Hoc).
      destruct (sum_longs _ _ _ _ _) as [s3 c3]. rewrite Ht.
      exists (fold_halves t). split; [done |]. rewrite fold_halves_spec, Hoc by done.
      apply oc_add_proper; [done |]. apply oc_refl; auto with kernel.
    - assert (n = 0) as -> by lia. exists (fold_halves (s2 + c2)).
      split; [by rewrite Z.mul_0_r, Z.add_0_r |]. cbn [bytes_at le_sum Z.to_nat Nat.mul].
      rewrite Z.add_0_r. by rewrite fold_halves_spec. }
  assert (bytes_ok (ph ++ bytes_at (4 * Z.to_nat n) buff i ++ bytes_at (Z.to_nat (len mod 4)) buff (i + 4 * n)))
    by auto with kernel.
  apply not16_rfc1071; [done |].
  rewrite le_sum_app by (by exists 6%nat).
  rewrite le_sum_app by (rewrite bytes_at_length; exists (2 * Z.to_nat n)%nat; lia).
  rewrite Z.add_assoc. etrans; [apply sum_tail_spec, Hb |].
  apply oc_add_proper; [done |]. apply oc_refl; auto with kernel.
Qed.

(** ** A stored checksum verifies *)

Lemma b8_zupd l j v k :
  0 <= j < Z.of_nat (length l) -> b8 (zupd l j v) k = if k =? j then v else b8 l k.
Proof.
  intros Hj. unfold b8. destruct (Z.eqb_spec k j) as [-> | Hne]; [by apply znth_zupd_eq |].
  destruct (Z_lt_dec k 0) as [Hk |].
  - unfold znth. destruct (Z.ltb_spec k 0); [done | lia].
  - apply znth_zupd_ne; lia.
Qed.

Lemma zupd_ok l j v : bytes_ok l -> is_byte v -> bytes_ok (zupd l j v).
Proof.
  unfold bytes_ok. rewrite !Forall_forall. intros Hl Hv x [-> | Hx]%elem_of_zupd; auto.
Qed.

Lemma u8_ok v : is_byte (u8 v).
Proof. apply (uwrap_bounds 8). lia. Qed.

Lemma st16_ok l j v : bytes_ok l -> bytes_ok (st16 l j v).
Proof. intros. unfold st16, st8. auto using zupd_ok, u8_ok. Qed.

Lemma st16_length l j v : length (st16 l j v) = length l.
Proof. unfold st16, st8. by rewrite !zupd_length. Qed.

Lemma b8_st16 l j v k :
  0 <= j -> j + 2 <= Z.of_nat (length l) -> 0 <= v < 65536 ->
  b8 (st16 l j v) k = if k =? j then v mod 256 else if k =? j + 1 then v / 256 else b8 l k.
Proof.
  intros Hj Hl Hv. unfold st16, st8. rewrite !b8_zupd by (rewrite ?zupd_length; lia).
  assert (0 <= v / 256 < 256) by (split; [apply Z.div_pos | apply Z.div_lt_upper_bound]; lia).
  rewrite Z.shiftr_div_pow2, (u8_small (v / 2 ^ 8)) by (change (2 ^ 8) with 256; lia).
  destruct (Z.eqb_spec k (j + 1)), (Z.eqb_spec k j); done || lia.
Qed.

Lemma ld16_st16 l j v :
  0 <= j -> j + 2 <= Z.of_nat (length l) -> 0 <= v < 65536 -> ld16 (st16 l j v) j = v.
Proof.
  intros. unfold ld16. rewrite !b8_st16 by done. rewrite Z.eqb_refl.
  destruct (Z.eqb_spec (j + 1) j); [lia |]. rewrite Z.eqb_refl.
  pose proof (Z.div_mod v 256 ltac:(lia)). lia.
Qed.

(** The weight of a byte in the sum of a buffer that starts at [i]. *)
Definition weight (i j : Z) : Z := if Z.even (j - i) then 1 else 256.

Lemma weight_cases i j : weight i j = 1 \/ weight i j = 256.
Proof. unfold weight. destruct (Z.even _); auto. Qed.

Lemma bytes_at_ext n l l' : forall i,
  (forall k, i <= k < i + Z.of_nat n -> b8 l k = b8 l' k) -> bytes_at n l i = bytes_at n l' i.
Proof.
  induction n as [| n IH]; intros i H; cbn; [done |]. f_equal; [apply H; lia |].
  apply IH. intros. apply H. lia.
Qed.

(** Induction on a length, two at a time. *)
Lemma nat_pairs_ind (P : nat -> Prop) :
  P O -> P 1%nat -> (forall n, P n -> P (S (S n))) -> forall n, P n.
Proof.
  intros H0 H1 H2 n. enough (P n /\ P (S n)) by tauto.
  induction n as [| n [IH1 IH2]]; split; auto.
Qed.

Lemma le_sum_zupd l j v n : forall i,
  0 <= j < Z.of_nat (length l) -> i <= j < i + Z.of_nat n ->
  le_sum (bytes_at n (zupd l j v) i) = le_sum (bytes_at n l i) + weight i j * (v - b8 l j).
Proof.
  induction n as [| | n IH] using nat_pairs_ind; intros i Hj Hi; [lia | |].
  - assert (j = i) as -> by lia. cbn [bytes_at le_sum].
    rewrite b8_zupd, Z.eqb_refl by done. unfold weight. rewrite Z.sub_diag. cbn [Z.even]. lia.
  - cbn [bytes_at le_sum]. rewrite !b8_zupd by done. unfold weight.
    destruct (Z.eqb_spec i j) as [-> |].
    + destruct (Z.eqb_spec (j + 1) j); [lia |]. rewrite Z.sub_diag. cbn [Z.even].
      rewrite (bytes_at_ext n (zupd l j v) l) by (intros; rewrite b8_zupd by done; case_match; lia || done).
      lia.
    + destruct (Z.eqb_spec (i + 1) j) as [<- |].
      * replace (i + 1 - i) with 1 by lia. cbn [Z.even].
        rewrite (bytes_at_ext n (zupd l _ v) l) by (intros; rewrite b8_zupd by done; case_match; lia || done).
        lia.
      * rewrite IH by lia. unfold weight. replace (j - (i + 1 + 1)) with (Z.pred (Z.pred (j - i))) by lia.
        rewrite Z.even_pred, Z.odd_pred. destruct (Z.even (j - i)); cbn; lia.
Qed.

Lemma le_sum_st16 l p v n i :
  0 <= p -> p + 2 <= Z.of_nat (length l) -> i <= p -> p + 2 <= i + Z.of_nat n ->
  Z.Even (p - i) -> 0 <= v < 65536 ->
  le_sum (bytes_at n (st16 l p v) i) = le_sum (bytes_at n l i) + v - ld16 l p.
Proof.
  intros Hp Hl Hi Hn He Hv. unfold st16, st8, ld16.
  rewrite !le_sum_zupd by (rewrite ?zupd_length; lia). rewrite b8_zupd by lia.
  destruct (Z.eqb_spec (p + 1) p); [lia |].
  assert (weight i p = 1) as -> by (unfold weight; by rewrite (proj2 (Z.even_spec _) He)).
  assert (weight i (p + 1) = 256) as ->.
  { unfold weight. replace (p + 1 - i) with (Z.succ (p - i)) by lia.
    by rewrite Z.even_succ, <- Z.negb_even, (proj2 (Z.even_spec _) He). }
  assert (0 <= v / 256 < 256) by (split; [apply Z.div_pos | apply Z.div_lt_upper_bound]; lia).
  rewrite Z.shiftr_div_pow2, (u8_small (v / 2 ^ 8)) by (change (2 ^ 8) with 256; lia).
  change (2 ^ 8) with 256. unfold uwrap. change (2 ^ 8) with 256.
  pose proof (Z.div_mod v 256 ltac:(lia)). lia.
Qed.

(** The checksum is zero when the sum is the negative zero of one's
    complement. *)
Lemma rfc1071_zero l : bytes_ok l -> ntohs (rfc1071 l) = 0 <-> oc (le_sum l) 65535.
Proof.
  intros Hl. destruct (rfc1071_sum l Hl) as (s & -> & Hs & Hoc). split.
  - intros H. assert (s = 65535) as -> by lia. by symmetry.
  - intros H. enough (s = 65535) by lia.
    apply oc_unique; [lia | lia |]. by rewrite Hoc.
Qed.

(** The sum with the checksum added. *)
Lemma rfc1071_complement l :
  bytes_ok l -> 0 <= ntohs (rfc1071 l) < 65536 /\ oc (le_sum l + ntohs (rfc1071 l)) 65535.
Proof.
  intros Hl. destruct (rfc1071_sum l Hl) as (s & -> & Hs & Hoc). split; [lia |].
  etrans; [apply oc_add_proper; [symmetry; apply Hoc | apply oc_refl; lia] |].
  apply (oc_shift _ _ 0); lia.
Qed.

(** The checksum of a region stored where it held 0 makes the region verify. *)
Lemma stored_verifies ph l p n i :
  bytes_ok ph -> Nat.Even (length ph) -> bytes_ok l ->
  0 <= p -> p + 2 <= Z.of_nat (length l) -> i <= p -> p + 2 <= i + Z.of_nat n -> Z.Even (p - i) ->
  ld16 l p = 0 ->
  ntohs (rfc1071 (ph ++ bytes_at n (st16 l p (ntohs (rfc1071 (ph ++ bytes_at n l i)))) i)) = 0.
Proof.
  intros Hph He Hl Hp Hpl Hi Hn Hev H0.
  assert (bytes_ok (ph ++ bytes_at n l i)) as Hd by (auto with kernel).
  destruct (rfc1071_complement _ Hd) as [Hc Hoc]. set (c := ntohs _) in *.
  apply rfc1071_zero; [auto using st16_ok with kernel |].
  rewrite le_sum_app in Hoc |- * by done. rewrite le_sum_st16, H0 by done.
  by rewrite Z.sub_0_r, Z.add_assoc.
Qed.

(** * Properties *)

Definition is_u32 (v : Z) : Prop := 0 <= v < 2 ^ 32.

(** C3: The register-level checksum routines compute the Internet checksum of
    RFC 1071, in the byte order of memory: [ip_compute_csum] of a buffer,
    [ip_fast_csum] of long words, and [tcp_check] and [udp_check] of the pseudo
    header of RFC 793 followed by the segment.  No carry is lost in any chain of
    additions, for every length and odd tail. *)
Theorem checksums_rfc1071 my_addr buff i len saddr daddr :
  bytes_ok buff -> 0 <= len < 65536 -> is_u32 my_addr -> is_u32 saddr -> is_u32 daddr ->
  let data := bytes_at (Z.to_nat len) buff i in
  let src := if saddr =? 0 then my_addr else saddr in
  ip_compute_csum buff i len = ntohs (rfc1071 data) /\
  ip_fast_csum buff i (len / 4) = ntohs (rfc1071 (bytes_at (4 * Z.to_nat (len / 4)) buff i)) /\
  tcp_check my_addr buff i len saddr daddr =
    ntohs (rfc1071 (pseudo_header src daddr IPPROTO_TCP len ++ data)) /\
  udp_check buff i len saddr daddr =
    ntohs (rfc1071 (pseudo_header saddr daddr IPPROTO_UDP len ++ data)).
Proof.
  intros Hb Hlen Hm Hs Hd data src. subst data. split_and!.
  - apply ip_compute_csum_spec; lia || done.
  - apply ip_fast_csum_spec; [done |].
    split; [apply Z.div_pos | apply Z.div_lt_upper_bound]; lia.
  - unfold tcp_check. fold src. apply pseudo_check_spec; [done.. | unfold is_byte, IPPROTO_TCP; lia | | done].
    unfold src. by destruct (saddr =? 0).
  - apply pseudo_check_spec; [done.. | unfold is_byte, IPPROTO_UDP; lia | done | done].
Qed.

Lemma header_length_st16 buff i v :
  0 <= i -> i + 12 <= Z.of_nat (length buff) -> 0 <= v < 65536 ->
  b8 (st16 buff (i + 10) v) i = b8 buff i.
Proof.
  intros. rewrite b8_st16 by lia.
  destruct (Z.eqb_spec i (i + 10)), (Z.eqb_spec i (i + 10 + 1)); lia || done.
Qed.

(** A header verifies when its sum is the negative zero. *)
Lemma ip_csum_zero b i :
  bytes_ok b -> let ihl := Z.land (b8 b i) 15 in
  ip_csum b i = 0 <-> oc (le_sum (bytes_at (4 * Z.to_nat ihl) b i)) 65535.
Proof.
  intros Hok ihl.
  assert (0 <= ihl < 16) by (unfold ihl; change 15 with (Z.ones 4); rewrite Z.land_ones by lia; apply Z.mod_pos_bound; lia).
  unfold ip_csum. fold ihl. rewrite ip_fast_csum_spec by (done || lia).
  apply rfc1071_zero. auto with kernel.
Qed.

Lemma sent_header buff i :
  bytes_ok buff -> 0 <= i ->
  let ihl := Z.land (b8 buff i) 15 in
  5 <= ihl -> i + 4 * ihl <= Z.of_nat (length buff) ->
  let sent := ip_send_check buff i in
  bytes_ok sent /\ length sent = length buff /\ Z.land (b8 sent i) 15 = ihl /\
  oc (le_sum (bytes_at (4 * Z.to_nat ihl) sent i)) 65535.
Proof.
  intros Hb Hi ihl Hihl Hlen sent.
  assert (0 <= ihl < 16) as Hr by (unfold ihl; change 15 with (Z.ones 4); rewrite Z.land_ones by lia; apply Z.mod_pos_bound; lia).
  set (n := (4 * Z.to_nat ihl)%nat). set (z := st16 buff (i + 10) 0).
  assert (bytes_ok z) as Hz by apply st16_ok, Hb.
  assert (b8 z i = b8 buff i) as Hzi by (apply header_length_st16; lia).
  assert (length z = length buff) as Hzl by apply st16_length.
  assert (ip_fast_csum z i ihl = ntohs (rfc1071 ([] ++ bytes_at n z i))) as Hc
    by (apply ip_fast_csum_spec; lia || done).
  assert (sent = st16 z (i + 10) (ip_fast_csum z i ihl)) as Hsent.
  { unfold sent, ip_send_check. fold z. by rewrite Hzi. }
  assert (bytes_ok ([] ++ bytes_at n z i)) as Hd by (cbn; auto with kernel).
  destruct (rfc1071_complement _ Hd) as [Hcr _]. rewrite <- Hc in Hcr.
  assert (bytes_ok sent) as Hsok by (rewrite Hsent; by apply st16_ok).
  split_and!; [done | by rewrite Hsent, st16_length | rewrite Hsent, header_length_st16, Hzi by lia; done |].
  apply rfc1071_zero; [auto with kernel |]. rewrite Hsent, Hc.
  apply (stored_verifies [] z (i + 10) n i); try done; try lia.
  - constructor.
  - by exists 0%nat.
  - exists 5. lia.
  - apply ld16_st16; lia.
Qed.


(** A TCP segment and a UDP datagram with the checksum of the sender verify at
    the receiver; the checksum of a UDP datagram is never the 0 that says there
    is none. *)
Lemma transport_check_verifies my_addr buff i len saddr daddr :
  bytes_ok buff -> 0 <= i -> i + len <= Z.of_nat (length buff) -> len < 65536 ->
  is_u32 my_addr -> is_u32 saddr -> is_u32 daddr ->
  (18 <= len -> tcp_check my_addr (tcp_send_check my_addr buff i saddr daddr len) i len saddr daddr = 0) /\
  (8 <= len ->
     let sent := udp_send_check false buff i saddr daddr len in
     udp_check sent i len saddr daddr = 0 /\ ld16 sent (i + 6) <> 0).
Proof.
  intros Hb Hi Hlen Hl Hm Hs Hd.
  assert (forall proto, is_byte proto -> forall src, is_u32 src -> forall b, bytes_ok b -> 0 <= len ->
    pseudo_check proto b i len src daddr =
    ntohs (rfc1071 (pseudo_header src daddr proto len ++ bytes_at (Z.to_nat len) b i))) as Hspec
    by (intros; apply pseudo_check_spec; try done; lia).
  split.
  - intros H18. unfold tcp_send_check, tcp_check.
    set (src := if saddr =? 0 then my_addr else saddr).
    assert (is_u32 src) as Hsrc by (unfold src; by destruct (saddr =? 0)).
    assert (is_byte IPPROTO_TCP) as Hp by (unfold is_byte, IPPROTO_TCP; lia).
    set (z := st16 buff (i + 16) 0). assert (bytes_ok z) as Hz by apply st16_ok, Hb.
    rewrite (Hspec _ Hp src Hsrc z Hz) by lia. rewrite Hspec by (try apply st16_ok; done || lia).
    destruct (le_sum_pseudo src daddr IPPROTO_TCP len) as [Hph _]; [done.. | lia |].
    apply stored_verifies; try done; try (unfold z; rewrite ?st16_length; lia).
    + by exists 6%nat.
    + exists 8. lia.
    + apply ld16_st16; lia.
  - intros H8 sent. assert (is_byte IPPROTO_UDP) as Hp by (unfold is_byte, IPPROTO_UDP; lia).
    destruct (le_sum_pseudo saddr daddr IPPROTO_UDP len) as [Hph _]; [done.. | lia |].
    set (z := st16 buff (i + 6) 0). assert (bytes_ok z) as Hz by apply st16_ok, Hb.
    assert (length z = length buff) as Hzl by apply st16_length.
    set (d := pseudo_header saddr daddr IPPROTO_UDP len ++ bytes_at (Z.to_nat len) z i).
    assert (bytes_ok d) as Hdok by (unfold d; auto with kernel).
    destruct (rfc1071_complement d Hdok) as [Hc Hoc]. set (c := ntohs (rfc1071 d)) in *.
    set (c' := if c =? 0 then 0xffff else c).
    assert (0 < c' < 65536 /\ oc (le_sum d + c') 65535) as [Hc' Hoc'].
    { unfold c'. destruct (Z.eqb_spec c 0) as [E |]; [| split; [lia | done]].
      rewrite E, Z.add_0_r in Hoc. split; [lia |].
      etrans; [apply oc_add_proper; [apply Hoc | apply oc_refl; lia] |]. apply (oc_shift _ _ 1); lia. }
    assert (bytes_at (Z.to_nat len) sent i = bytes_at (Z.to_nat len) (st16 z (i + 6) c') i /\
      ld16 sent (i + 6) = c' /\ bytes_ok sent) as (Hs1 & Hs2 & Hs3).
    { unfold sent, udp_send_check, udp_check. fold z. rewrite (Hspec _ Hp saddr Hs z Hz) by lia.
      fold d. fold c. rewrite ld16_st16 by lia. unfold c'.
      destruct (Z.eqb_spec c 0) as [E |].
      - split_and!; [| apply ld16_st16; rewrite ?st16_length; lia | by repeat apply st16_ok].
        apply bytes_at_ext. intros k Hk. rewrite !b8_st16 by (rewrite ?st16_length; lia).
        repeat case_match; done.
      - split_and!; [done | apply ld16_st16; lia | by apply st16_ok]. }
    split; [| lia]. unfold udp_check. rewrite Hspec by (done || lia).
    apply rfc1071_zero; [auto with kernel |]. rewrite le_sum_app by (by exists 6%nat).
    rewrite Hs1, le_sum_st16 by (done || lia || (exists 3; lia)).
    unfold z at 2. rewrite ld16_st16 by lia. unfold d in Hoc'.
    rewrite le_sum_app in Hoc' by (by exists 6%nat). by rewrite Z.sub_0_r, Z.add_assoc.
Qed.

(** ** Examples *)

Definition demo_header : list Z :=
  [0x45; 0; 0; 60; 0x1c; 0x46; 0x40; 0; 64; 6; 0; 0; 172; 16; 10; 99; 172; 16; 10; 12; 7].

Lemma bytes_ok_dec l : forallb (fun b => (0 <=? b) && (b <? 256)) l = true -> bytes_ok l.
Proof.
  rewrite forallb_forall. intros H. apply Forall_forall. intros x Hx%list_elem_of_In%H.
  unfold is_byte. bool_simp. lia.
Qed.
Lemma demo_header_ok : bytes_ok demo_header.
Proof. by apply bytes_ok_dec. Qed.

(** The bytes of this well-known header, checksum b1e6. *)
Example demo_header_checksum : b8 (ip_send_check demo_header 0) 10 = 0xb1 /\ b8 (ip_send_check demo_header 0) 11 = 0xe6.
Proof. by vm_compute. Qed.

Lemma checksums_rfc1071_witness :
  ip_compute_csum demo_header 1 19 = ntohs (rfc1071 (bytes_at 19 demo_header 1)).
Proof.
  refine (proj1 (checksums_rfc1071 5 demo_header 1 19 0 7 demo_header_ok _ _ _ _));
    unfold is_u32; lia.
Defined.

