(* ===== verification/Route.v ===== *)
(** Network devices and IP routes (net/inet/dev.c, net/inet/route.c): which
    addresses are the machine's own, the ioctls that configure an interface,
    and the routing table.

    Addresses and masks are unsigned longs in network order, as the code holds
    them.  A device is named by [d_id] and keeps its structure for ever. *)

From Stdlib Require Import Sorting.Sorted.
From S2P Require Import Prelude Errno Csum.

(** ** Devices *)

(** net/inet/dev.h:52-155 [struct device], the fields that IP and routing use *)
Record device := mk_dev {
  d_id : nat; d_name : string; d_flags : Z; d_family : Z; d_metric : Z; d_mtu : Z; hard_header_len : Z;
  pa_addr : Z; pa_brdaddr : Z; pa_dstaddr : Z; pa_mask : Z; dev_addr : list Z;
}.
#[export] Instance eta_dev : Eta device := fun x =>
  mk_dev (d_id x) (d_name x) (d_flags x) (d_family x) (d_metric x) (d_mtu x) (hard_header_len x)
    (pa_addr x) (pa_brdaddr x) (pa_dstaddr x) (pa_mask x) (dev_addr x).

(** include/linux/if.h:64-75 interface flags *)
Definition IFF_UP := 0x1.
Definition IFF_BROADCAST := 0x2.
Definition IFF_LOOPBACK := 0x8.
Definition IFF_POINTOPOINT := 0x10.
Definition IFF_RUNNING := 0x40.
Definition IFF_PROMISC := 0x100.
(** net/inet/dev.c:867-870 the flags that a process may set *)
Definition IFF_SETTABLE := 0x3FF.

(** include/linux/in.h:64-79 address classes *)
Definition IN_CLASSA (a : Z) : bool := Z.land a 0x80000000 =? 0.
Definition IN_CLASSA_NET := 0xff000000.
Definition IN_CLASSB (a : Z) : bool := Z.land a 0xc0000000 =? 0x80000000.
Definition IN_CLASSB_NET := 0xffff0000.
Definition IN_CLASSC (a : Z) : bool := Z.land a 0xc0000000 =? 0xc0000000.
Definition IN_CLASSC_NET := 0xffffff00.
(** include/linux/in.h:88-91 *)
Definition INADDR_ANY := 0.
Definition INADDR_BROADCAST := 0xffffffff.
(** net/inet/dev.h:35-38 the answers of [chk_addr] *)
Definition IS_MYADDR := 1.
Definition IS_BROADCAST := 3.
Definition IS_INVBCAST := 4.

(** [~x] of an unsigned long. *)
Definition not32 (x : Z) : Z := u32 (Z.lnot x).
(** [((a ^ b) & mask) == 0]: the addresses are on the same net. *)
Definition same_net (mask a b : Z) : bool := Z.land (Z.lxor a b) mask =? 0.

(** net/inet/dev.c:155-173 [get_mask] *)
Definition get_mask (addr : Z) : Z :=
  if addr =? 0 then 0
  else
    let dst := ntohl addr in
    if IN_CLASSA dst then htonl IN_CLASSA_NET
    else if IN_CLASSB dst then htonl IN_CLASSB_NET
    else if IN_CLASSC dst then htonl IN_CLASSC_NET
    else 0.

(** net/inet/dev.c:186-198 the loop of [ip_addr_match], [n] bytes to go *)
Fixpoint addr_match_from (n : nat) (me him mask : Z) : Z :=
  match n with
  | O => 1
  | S n =>
      if negb (Z.land me 0xFF =? Z.land him 0xFF) then
        if negb (me =? 0) && negb (me =? mask) then 0 else 1
      else addr_match_from n (Z.shiftr me 8) (Z.shiftr him 8) (Z.shiftr mask 8)
  end.
(** net/inet/dev.c:176-199 [ip_addr_match] *)
Definition ip_addr_match (me him : Z) : Z :=
  if me =? him then 1 else addr_match_from 4 me him 0xFFFFFFFF.

(** net/inet/dev.c:220-245 the loop of [chk_addr] over the interfaces *)
Fixpoint chk_interfaces (addr mask : Z) (devs : list device) : Z :=
  match devs with
  | [] => 0
  | dev :: devs =>
      let host := Z.land addr (not32 (pa_mask dev)) in
      let nhost := Z.land addr (not32 mask) in
      if negb (flag (d_flags dev) IFF_UP) then chk_interfaces addr mask devs
      else if pa_addr dev =? 0 then IS_MYADDR
      else if addr =? pa_addr dev then IS_MYADDR
      else if flag (d_flags dev) IFF_BROADCAST && (addr =? pa_brdaddr dev) then IS_BROADCAST
      else if same_net (pa_mask dev) addr (pa_addr dev) && ((host =? 0) || (host =? not32 (pa_mask dev)))
      then IS_BROADCAST
      else if same_net mask addr (pa_addr dev) && ((nhost =? 0) || (nhost =? not32 mask))
      then IS_BROADCAST
      else chk_interfaces addr mask devs
  end.
(** net/inet/dev.c:204-247 [chk_addr] *)
Definition chk_addr (addr : Z) (devs : list device) : Z :=
  if (addr =? INADDR_ANY) || (addr =? INADDR_BROADCAST) then IS_BROADCAST
  else
    let mask := get_mask addr in
    if Z.land addr mask =? htonl 0x7F000000 then IS_MYADDR
    else chk_interfaces addr mask devs.

(** net/inet/dev.c:260-269 [my_addr] *)
Definition my_addr (devs : list device) : Z :=
  match list_find (fun dev => flag (d_flags dev) IFF_LOOPBACK = true) devs with
  | Some (_, dev) => pa_addr dev
  | None => 0
  end.

(** net/inet/dev.c:355-365 [dev_get] *)
Definition dev_get (name : string) (devs : list device) : option device :=
  snd <$> list_find (fun dev => d_name dev = name) devs.

(** net/inet/dev.c:369-392 [dev_check] *)
Definition dev_check (addr : Z) (devs : list device) : option device :=
  let up dev := flag (d_flags dev) IFF_UP in
  let ptp dev := flag (d_flags dev) IFF_POINTOPOINT in
  match list_find (fun dev => up dev && ptp dev && (addr =? pa_dstaddr dev) = true) devs with
  | Some (_, dev) => Some dev
  | None => snd <$> list_find (fun dev => up dev && negb (ptp dev) && same_net (pa_mask dev) addr (pa_addr dev) = true) devs
  end.

(** net/inet/dev.c:830-838 [bad_mask], the same in route.c:261-269 *)
Definition bad_mask (mask addr : Z) : bool :=
  let mask := not32 mask in
  if ctrue (Z.land addr mask) then true
  else let mask := ntohl mask in ctrue (Z.land mask (u32 (mask + 1))).

(** ** The routing table *)

(** include/linux/route.h:52-57 flags of a route *)
Definition RTF_UP := 0x0001.
Definition RTF_GATEWAY := 0x0002.
Definition RTF_HOST := 0x0004.
Definition RTF_DYNAMIC := 0x0010.
Definition RTF_MODIFIED := 0x0020.

(** net/inet/route.h:28-38 [struct rtable]; [rt_id] is its address *)
Record rtable := mk_rt {
  rt_id : nat; rt_dst : Z; rt_mask : Z; rt_gateway : Z; rt_flags : Z; rt_use : Z; rt_mtu : Z; rt_dev : nat;
}.
#[export] Instance eta_rt : Eta rtable := fun x =>
  mk_rt (rt_id x) (rt_dst x) (rt_mask x) (rt_gateway x) (rt_flags x) (rt_use x) (rt_mtu x) (rt_dev x).

(** net/inet/route.c:47-48 the table, with the chain of devices *)
Record inet := mk_inet { dev_base : list device; rt_base : list rtable; rt_loopback : option nat }.
#[export] Instance eta_inet : Eta inet := fun x => mk_inet (dev_base x) (rt_base x) (rt_loopback x).

(** The device behind a pointer. *)
Definition no_dev : device := mk_dev 0 "" 0 0 0 0 0 0 0 0 0 [].
Definition dev_of (s : inet) (id : nat) : device :=
  default no_dev (snd <$> list_find (fun dev => d_id dev = id) (dev_base s)).

(** net/inet/route.c:78-87 the loop that takes out routes, and forgets
    [rt_loopback] with its route; that of [rt_flush] and [rt_add] too *)
Fixpoint take_out (P : rtable -> bool) (l : list rtable) (loopback : option nat) : list rtable * option nat :=
  match l with
  | [] => ([], loopback)
  | r :: l =>
      if P r then take_out P l (if decide (loopback = Some (rt_id r)) then None else loopback)
      else let '(l, loopback) := take_out P l loopback in (r :: l, loopback)
  end.
Definition rt_remove (P : rtable -> bool) (s : inet) : inet :=
  let '(l, loopback) := take_out P (rt_base s) (rt_loopback s) in
  s <| rt_base := l |> <| rt_loopback := loopback |>.

(** net/inet/route.c:69-89 [rt_del] *)
Definition rt_del (dst : Z) (s : inet) : inet := rt_remove (fun r => rt_dst r =? dst) s.

(** net/inet/route.c:97-118 [rt_flush] *)
Definition rt_flush (dev : nat) (s : inet) : inet := rt_remove (fun r => bool_decide (rt_dev r = dev)) s.

(** net/inet/route.c:127-135 [default_mask] *)
Definition default_mask (dst : Z) : Z :=
  let dst := ntohl dst in
  if IN_CLASSA dst then htonl IN_CLASSA_NET
  else if IN_CLASSB dst then htonl IN_CLASSB_NET
  else htonl IN_CLASSC_NET.

(** net/inet/route.c:137-147 [guess_mask] *)
Definition guess_mask (dst : Z) (dev : device) : Z :=
  if dst =? 0 then 0
  else let mask := default_mask dst in
       if negb (same_net mask dst (pa_addr dev)) then mask else pa_mask dev.

(** net/inet/route.c:149-163 [get_gw_dev] *)
Fixpoint gw_dev_in (gw : Z) (l : list rtable) : option nat :=
  match l with
  | [] => None
  | rt :: l =>
      if negb (same_net (rt_mask rt) gw (rt_dst rt)) then gw_dev_in gw l
      else if flag (rt_flags rt) RTF_GATEWAY then None
      else Some (rt_dev rt)
  end.
Definition get_gw_dev (gw : Z) (s : inet) : option nat := gw_dev_in gw (rt_base s).

(** net/inet/route.c:243-250 the new route goes before the first more general
    one *)
Fixpoint rt_insert (rt : rtable) (l : list rtable) : list rtable :=
  match l with
  | [] => [rt]
  | r :: l' => if negb (Z.land (rt_mask r) (rt_mask rt) =? rt_mask rt) then rt :: l else r :: rt_insert rt l'
  end.

(** net/inet/route.c:186-208 the route that [rt_add] makes of its arguments:
    flags, destination, mask and gateway, or nothing *)
Definition rt_prepare (flags dst mask gw : Z) (dev : device) (s : inet) : option (Z * Z * Z * Z) :=
  let no_gateway fl := Z.land fl (Z.lnot RTF_GATEWAY) in
  let step1 :=
    if flag flags RTF_HOST then Some (flags, dst, 0xffffffff)
    else if mask =? 0 then
      if same_net (pa_mask dev) dst (pa_addr dev) then
        let mask := pa_mask dev in
        if flag flags RTF_DYNAMIC then None else Some (no_gateway flags, Z.land dst mask, mask)
      else let mask := guess_mask dst dev in Some (flags, Z.land dst mask, mask)
    else Some (flags, dst, mask) in
  match step1 with
  | None => None
  | Some (flags, dst, mask) =>
      let flags := if gw =? pa_addr dev then no_gateway flags else flags in
      if flag flags RTF_GATEWAY then
        if decide (Some (d_id dev) = get_gw_dev gw s) then Some (Z.lor flags RTF_GATEWAY, dst, mask, gw) else None
      else Some (flags, dst, mask, 0)
  end.

(** net/inet/route.c:179-255 [rt_add]; [mem] is the address of the new entry,
    [None] when there is no memory *)
Definition rt_add (mem : option nat) (flags dst mask gw : Z) (dev : device) (s : inet) : inet :=
  match rt_prepare flags dst mask gw dev s with
  | None => s
  | Some (flags, dst, mask, gw) =>
      match mem with
      | None => s
      | Some id =>
          let rt := mk_rt id dst mask gw (u8 (Z.lor flags RTF_UP)) 0 (u16 (d_mtu dev)) (d_id dev) in
          let s := rt_remove (fun r => rt_dst r =? dst) s in
          let s := s <| rt_base ::= rt_insert rt |> in
          if flag (d_flags dev) IFF_LOOPBACK then s <| rt_loopback := Some id |> else s
      end
  end.

(** include/linux/route.h:36-49 [struct rtentry]; the name of the device has
    been fetched: none, an error of [getname], or the text *)
Record rtentry := mk_rtentry {
  re_dst_family : Z; re_dst : Z; re_gw_family : Z; re_gateway : Z;
  re_mask_family : Z; re_genmask : Z; re_flags : Z; re_dev : option (Z + string);
}.

Definition AF_INET := 2.

(** net/inet/route.c:278-286 the device that the request names *)
Definition named_dev (r : rtentry) (s : inet) : Z + option device :=
  match re_dev r with
  | None => inr None
  | Some (inl err) => inl err
  | Some (inr name) =>
      match dev_get name (dev_base s) with None => inl (- EINVAL) | Some dev => inr (Some dev) end
  end.

(** net/inet/route.c:271-331 [rt_new] *)
Definition rt_new (mem : option nat) (r : rtentry) (s : inet) : Z * inet :=
  match named_dev r s with
  | inl err => (err, s)
  | inr dev =>
      if negb (re_dst_family r =? AF_INET) then (- EAFNOSUPPORT, s)
      else
        let flags := u32 (s16 (re_flags r)) in
        let daddr := re_dst r in
        let mask := re_genmask r in
        let gw := re_gateway r in
        let '(flags, dev) :=
          match dev with
          | None =>
              if flag flags RTF_GATEWAY then
                match list_find (fun d => flag (d_flags d) IFF_UP && (pa_addr d =? gw) = true) (dev_base s) with
                | Some (_, dev2) => (Z.land flags (Z.lnot RTF_GATEWAY), Some dev2)
                | None => (flags, None)
                end
              else (flags, None)
          | Some _ => (flags, dev)
          end in
        let mask := if bad_mask mask daddr then 0 else mask in
        let add mask :=
          let go dev := match dev with
                        | None => (- ENETUNREACH, s)
                        | Some dev => (0, rt_add mem (s16 flags) daddr mask gw dev s)
                        end in
          if flag flags RTF_GATEWAY then
            if negb (re_gw_family r =? AF_INET) then (- EAFNOSUPPORT, s)
            else go (match dev with Some _ => dev | None => dev_of s <$> get_gw_dev gw s end)
          else go (match dev with Some _ => dev | None => dev_check daddr (dev_base s) end) in
        if flag flags RTF_HOST then add 0xffffffff
        else if ctrue mask && negb (re_mask_family r =? AF_INET) then (- EAFNOSUPPORT, s)
        else add mask
  end.

(** net/inet/route.c:341-348 [rt_kill] *)
Definition rt_kill (r : rtentry) (s : inet) : Z * inet := (0, rt_del (re_dst r) s).

(** include/linux/sockios.h:43-73 the requests *)
Definition SIOCADDRT := 0x890B.
Definition SIOCDELRT := 0x890C.
Definition SIOCADDRTOLD := 0x8940.
Definition SIOCDELRTOLD := 0x8941.

(** net/inet/route.c:408-425 [get_old_rtent]: the family of the mask is filled
    in, its address is that of the old entry *)
Definition get_old_rtent (r : rtentry) : rtentry :=
  mk_rtentry (re_dst_family r) (re_dst r) (re_gw_family r) (re_gateway r) AF_INET (re_genmask r) (re_flags r) (re_dev r).

(** net/inet/route.c:427-455 [rt_ioctl], [va] the result of [verify_area] and
    [r] the entry at [arg] *)
Definition rt_ioctl (suser : bool) (va : Z) (mem : option nat) (cmd : Z) (r : rtentry) (s : inet) : Z * inet :=
  let old := (cmd =? SIOCADDRTOLD) || (cmd =? SIOCDELRTOLD) in
  if old || (cmd =? SIOCADDRT) || (cmd =? SIOCDELRT) then
    if negb suser then (- EPERM, s)
    else if ctrue va then (va, s)
    else
      let r := if old then get_old_rtent r else r in
      if (cmd =? SIOCDELRTOLD) || (cmd =? SIOCDELRT) then rt_kill r s else rt_new mem r s
  else (- EINVAL, s).

(** net/inet/route.c:391-396 the test of [rt_route] *)
Definition rt_matches (s : inet) (daddr : Z) (rt : rtable) : bool :=
  same_net (rt_mask rt) (rt_dst rt) daddr ||
  (flag (d_flags (dev_of s (rt_dev rt))) IFF_BROADCAST && (pa_brdaddr (dev_of s (rt_dev rt)) =? daddr)).

(** net/inet/route.c:386-406 [rt_route] *)
Definition rt_route (daddr : Z) (s : inet) : option rtable * inet :=
  match list_find (fun rt => rt_matches s daddr rt = true) (rt_base s) with
  | None => (None, s)
  | Some (_, rt) =>
      let rt :=
        if daddr =? pa_addr (dev_of s (rt_dev rt))
        then id ← rt_loopback s; snd <$> list_find (fun r => rt_id r = id) (rt_base s)
        else Some rt in
      match rt with
      | None => (None, s)
      | Some rt =>
          let used r := if decide (rt_id r = rt_id rt) then r <| rt_use ::= fun u => u32 (u + 1) |> else r in
          (Some (used rt), s <| rt_base ::= map used |>)
      end
  end.

(** ** Configuring an interface *)

(** include/linux/sockios.h:44-63 the requests that set something *)
Definition SIOCSIFFLAGS := 0x8914.
Definition SIOCSIFADDR := 0x8916.
Definition SIOCSIFDSTADDR := 0x8918.
Definition SIOCSIFBRDADDR := 0x891a.
Definition SIOCSIFNETMASK := 0x891c.
Definition SIOCSIFMETRIC := 0x891e.
Definition SIOCSIFMTU := 0x8922.

Section drivers.
(** The drivers: the result of [dev->open] (0 when there is none). *)
Context (drv_open : nat -> Z).

(** A device is changed in place. *)
Definition set_dev (id : nat) (f : device -> device) (s : inet) : inet :=
  s <| dev_base ::= map (fun d => if decide (d_id d = id) then f d else d) |>.

(** net/inet/dev.c:396-407 [dev_open] *)
Definition dev_open (id : nat) (s : inet) : Z * inet :=
  let ret := drv_open id in
  (ret, if ret =? 0 then set_dev id (fun d => d <| d_flags ::= fun f => Z.lor f (Z.lor IFF_UP IFF_RUNNING) |>) s else s).

(** net/inet/dev.c:411-436 [dev_close], with the state of IP; the driver stops
    and the queued frames go *)
Definition dev_close (id : nat) (s : inet) : Z * inet :=
  if ctrue (d_flags (dev_of s id)) then
    let s := set_dev id (fun d => d <| d_flags := 0 |>) s in
    let s := rt_flush id s in
    (0, set_dev id (fun d => d <| pa_addr := 0 |> <| pa_dstaddr := 0 |> <| pa_brdaddr := 0 |> <| pa_mask := 0 |>) s)
  else (0, s).

(** net/inet/dev.c:864-886 SIOCSIFFLAGS *)
Definition ifsioc_flags (id : nat) (flags : Z) (s : inet) : Z * inet :=
  let old_flags := d_flags (dev_of s id) in
  let flags := Z.land flags IFF_SETTABLE in
  let s := set_dev id (fun d => d <| d_flags := flags |>) s in
  if flag old_flags IFF_UP && negb (flag flags IFF_UP) then dev_close id s
  else
    let '(ret, s) := if negb (flag old_flags IFF_UP) && flag flags IFF_UP then dev_open id s else (0, s) in
    (ret, if ret <? 0 then set_dev id (fun d => d <| d_flags ::= fun f => Z.land f (Z.lnot IFF_UP) |>) s else s).

(** net/inet/dev.c:842-990 [dev_ifsioc], the requests that change a device:
    [v] is the number that the request carries, [family] that of its address *)
Definition dev_ifsioc (va : Z) (name : string) (getset v family : Z) (s : inet) : Z * inet :=
  if ctrue va then (va, s)
  else match dev_get name (dev_base s) with
  | None => (- EINVAL, s)
  | Some dev =>
      let set f := (0, set_dev (d_id dev) f s) in
      if getset =? SIOCSIFFLAGS then ifsioc_flags (d_id dev) v s
      else if getset =? SIOCSIFADDR then
        set (fun d => d <| pa_addr := v |> <| d_family := family |> <| pa_mask := get_mask v |>
                        <| pa_brdaddr := Z.lor v (not32 (get_mask v)) |>)
      else if getset =? SIOCSIFBRDADDR then set (fun d => d <| pa_brdaddr := v |>)
      else if getset =? SIOCSIFDSTADDR then set (fun d => d <| pa_dstaddr := v |>)
      else if getset =? SIOCSIFNETMASK then
        if bad_mask v 0 then (- EINVAL, s) else set (fun d => d <| pa_mask := v |>)
      else if getset =? SIOCSIFMETRIC then set (fun d => d <| d_metric := v |>)
      else if getset =? SIOCSIFMTU then set (fun d => d <| d_mtu := u16 v |>)
      else (- EINVAL, s)
  end.

End drivers.

(** * Masks *)

(** The mask with [k] host bits, in network order. *)
Definition net_mask (k : Z) : Z := not32 (ntohl (2 ^ k - 1)).
Definition is_mask (m : Z) : Prop := exists k, 0 <= k <= 32 /\ m = net_mask k.

(** The length of the prefix: the bits that are set. *)
Definition plen (m : Z) : Z := zsum (fun i => b2z (Z.testbit m i)) (seqZ 0 32).

Lemma over_masks (P : Z -> bool) k : forallb P (seqZ 0 33) = true -> 0 <= k <= 32 -> P k = true.
Proof. intros H Hk. apply (forallb_seqZ P 0 33); [done | lia]. Qed.

Lemma plen_net_mask k : 0 <= k <= 32 -> plen (net_mask k) = 32 - k.
Proof.
  intros Hk. apply Z.eqb_eq. by apply (over_masks (fun k => plen (net_mask k) =? 32 - k)); [vm_compute |].
Qed.

(** On masks "more special" is the order of the prefixes. *)
Lemma mask_order m m' : is_mask m -> is_mask m' -> Z.land m m' = m' <-> plen m' <= plen m.
Proof.
  intros (k & Hk & ->) (k' & Hk' & ->). rewrite !plen_net_mask by done.
  assert ((Z.land (net_mask k) (net_mask k') =? net_mask k') = (k <=? k')) as E.
  { apply eqb_prop.
    apply (over_masks (fun k' => eqb (Z.land (net_mask k) (net_mask k') =? net_mask k') (k <=? k'))); [| done].
    apply (over_masks (fun k => forallb (fun k' =>
      eqb (Z.land (net_mask k) (net_mask k') =? net_mask k') (k <=? k')) (seqZ 0 33))); [by vm_compute | done]. }
  rewrite <- Z.eqb_eq, E. rewrite Z.leb_le. lia.
Qed.

Lemma is_mask_class : is_mask (htonl IN_CLASSA_NET) /\ is_mask (htonl IN_CLASSB_NET) /\
  is_mask (htonl IN_CLASSC_NET) /\ is_mask 0 /\ is_mask 0xffffffff.
Proof.
  split_and!; [exists 24 | exists 16 | exists 8 | exists 32 | exists 0]; (split; [lia | by vm_compute]).
Qed.

Lemma not32_spec x : 0 <= x < 2 ^ 32 -> not32 x = 2 ^ 32 - 1 - x.
Proof.
  intros. unfold not32, uwrap, Z.lnot. symmetry. apply (Z.mod_unique _ _ (-1)); lia.
Qed.
Lemma not32_bounds x : 0 <= not32 x < 2 ^ 32.
Proof. apply u32_bounds. Qed.

Lemma not32_testbit x i : 0 <= i < 32 -> Z.testbit (not32 x) i = negb (Z.testbit x i).
Proof.
  intros. unfold not32, uwrap. rewrite Z.mod_pow2_bits_low by lia. apply Z.lnot_spec. lia.
Qed.

(** A number of 32 bits is its bits. *)
Lemma bits32_eq a b :
  0 <= a < 2 ^ 32 -> 0 <= b < 2 ^ 32 -> (forall i, 0 <= i < 32 -> Z.testbit a i = Z.testbit b i) -> a = b.
Proof.
  intros Ha Hb H. apply bits_eq. intros i Hi. destruct (Z.lt_ge_cases i 32); [by apply H |].
  rewrite <- (Z.mod_small a (2 ^ 32)), <- (Z.mod_small b (2 ^ 32)) by lia.
  by rewrite !Z.mod_pow2_bits_high by lia.
Qed.

(** [ntohl] moves bits. *)
Lemma ntohl_testbit x i : 0 <= i < 32 ->
  Z.testbit (ntohl x) i = Z.testbit x (8 * (3 - i / 8) + i mod 8).
Proof.
  intros Hi. unfold ntohl. rewrite !Z.lor_spec, !Z.shiftl_spec, !Z.shiftr_spec, !Z.land_spec by lia.
  assert (In i (seqZ 0 32)) as Hin by (apply list_elem_of_In, elem_of_seqZ; lia). vm_compute in Hin.
  repeat destruct Hin as [<- | Hin]; [..| done].
  all: cbn -[Z.testbit]; rewrite ?Z.testbit_neg_r by lia; repeat match goal with
    | |- context [Z.testbit (Zpos ?p) ?k] =>
        let v := eval vm_compute in (Z.testbit (Zpos p) k) in change (Z.testbit (Zpos p) k) with v
    end; by rewrite ?andb_false_r, ?andb_true_r, ?orb_false_r, ?orb_false_l.
Qed.

(** Bounds from bits. *)
Lemma low_bits_bound v : 0 <= v -> (forall i, 32 <= i -> Z.testbit v i = false) -> 0 <= v < 2 ^ 32.
Proof.
  intros Hv H. replace v with (v mod 2 ^ 32); [apply Z.mod_pos_bound; lia |].
  apply bits_eq. intros i Hi. destruct (Z.lt_ge_cases i 32).
  - by rewrite Z.mod_pow2_bits_low.
  - rewrite Z.mod_pow2_bits_high by lia. by rewrite H.
Qed.

Lemma ntohl_bounds x : 0 <= ntohl x < 2 ^ 32.
Proof.
  assert (forall y c, 0 <= c -> 0 <= Z.land y c) as Hl by (intros; apply Z.land_nonneg; by right).
  apply low_bits_bound.
  - unfold ntohl. rewrite !Z.lor_nonneg, !Z.shiftl_nonneg, !Z.shiftr_nonneg. split_and!; apply Hl; lia.
  - assert (forall c j, 0 < c -> Z.log2 c < j -> Z.testbit c j = false) as Hc
      by (intros; apply Z.bits_above_log2; lia).
    intros i Hi. unfold ntohl. rewrite !Z.lor_spec, !Z.shiftl_spec, !Z.shiftr_spec, !Z.land_spec by lia.
    rewrite (Hc 0x000000ff), (Hc 0x0000ff00), (Hc 0x00ff0000), (Hc 0xff000000) by (cbn; lia).
    by rewrite !andb_false_r.
Qed.

Lemma ntohl_involutive x : 0 <= x < 2 ^ 32 -> ntohl (ntohl x) = x.
Proof.
  intros Hx. apply bits32_eq; [apply ntohl_bounds | done |]. intros i Hi.
  pose proof (Z.div_mod i 8 ltac:(lia)). pose proof (Z.mod_pos_bound i 8 ltac:(lia)).
  set (q := i / 8) in *. set (r := i mod 8) in *.
  rewrite ntohl_testbit by lia. fold q r. rewrite ntohl_testbit by lia. f_equal.
  replace (8 * (3 - q) + r) with (r + (3 - q) * 8) by lia.
  rewrite Z.div_add, Z_mod_plus_full, (Z.div_small r), (Z.mod_small r) by lia. lia.
Qed.

(** A number of which no bit survives the addition of one is a power of two
    less one. *)
Lemma land_succ_zero n : forall x, 0 <= x < 2 ^ Z.of_nat n -> Z.land x (x + 1) = 0 ->
  exists k, 0 <= k <= Z.of_nat n /\ x = 2 ^ k - 1.
Proof.
  induction n as [| n IH]; intros x Hx H.
  - exists 0. cbn in Hx |- *. lia.
  - destruct (Z.eq_dec x 0) as [-> |]; [exists 0; cbn; lia |].
    pose proof (Z.div_mod x 2 ltac:(lia)) as Hd. rewrite Nat2Z.inj_succ, Z.pow_succ_r in Hx by lia.
    destruct (Z.mod_pos_bound x 2 ltac:(lia)). set (y := x / 2) in *.
    assert (x mod 2 = 0 \/ x mod 2 = 1) as [E | E] by lia; rewrite E in Hd.
    + exfalso. assert (Z.land x (x + 1) = x); [| lia]. rewrite Hd.
      apply bits_eq. intros i Hi. rewrite Z.land_spec. destruct (Z.eq_dec i 0) as [-> |].
      * by rewrite Z.add_0_r, Z.testbit_even_0.
      * replace i with (Z.succ (i - 1)) by lia. rewrite Z.add_0_r, Z.testbit_even_succ, Z.testbit_odd_succ by lia.
        apply andb_diag.
    + destruct (IH y) as (k & Hk & Ey); [lia | |].
      * apply bits_eq. intros i Hi. rewrite Z.testbit_0_l.
        assert (Z.testbit (Z.land x (x + 1)) (Z.succ i) = false) as Hb by (by rewrite H, Z.testbit_0_l).
        rewrite Z.land_spec, Hd, Z.testbit_odd_succ in Hb by lia.
        replace (2 * y + 1 + 1) with (2 * (y + 1)) in Hb by lia.
        rewrite Z.testbit_even_succ in Hb by lia. by rewrite Z.land_spec.
      * exists (k + 1). rewrite Z.pow_add_r by lia. lia.
Qed.

(** [bad_mask] lets through exactly the masks of whole prefixes. *)
Lemma bad_mask_good mask addr :
  0 <= mask < 2 ^ 32 -> bad_mask mask addr = false -> is_mask mask /\ Z.land addr (not32 mask) = 0.
Proof.
  intros Hm. unfold bad_mask, ctrue. set (m := not32 mask).
  destruct (Z.eqb_spec (Z.land addr m) 0) as [Ea |]; [| done]. cbn [negb].
  destruct (Z.eqb_spec (Z.land (ntohl m) (u32 (ntohl m + 1))) 0) as [E |]; [| done]. intros _.
  split; [| done]. pose proof (ntohl_bounds m) as Hb.
  assert (Hx : Z.land (ntohl m) (ntohl m + 1) = 0 \/ ntohl m = 2 ^ 32 - 1).
  { destruct (Z.eq_dec (ntohl m) (2 ^ 32 - 1)); [by right | left]. by rewrite u32_small in E by lia. }
  assert (exists k, 0 <= k <= 32 /\ ntohl m = 2 ^ k - 1) as (k & Hk & Ek).
  { destruct Hx as [Hx | Hx]; [by apply (land_succ_zero 32) | by exists 32]. }
  exists k. split; [done |]. unfold net_mask. rewrite <- Ek, ntohl_involutive by apply not32_bounds.
  unfold m. rewrite !not32_spec; [lia | done |]. rewrite not32_spec by done. lia.
Qed.

(** * The table *)

Definition addr_ok (a : Z) : Prop := 0 <= a < 2 ^ 32.
Definition dev_ok (d : device) : Prop := addr_ok (pa_addr d) /\ is_mask (pa_mask d).

(** A route of prefix [rt_mask], without host bits. *)
Definition route_ok (r : rtable) : Prop := is_mask (rt_mask r) /\ Z.land (rt_dst r) (not32 (rt_mask r)) = 0.
(** The more special route first. *)
Definition before (a b : rtable) : Prop := plen (rt_mask b) <= plen (rt_mask a).

Record table_ok (s : inet) : Prop := {
  tb_routes : Forall route_ok (rt_base s);
  tb_sorted : StronglySorted before (rt_base s);
  tb_dst : NoDup (rt_dst <$> rt_base s);
  tb_ids : NoDup (rt_id <$> rt_base s);
  tb_loopback : forall id, rt_loopback s = Some id -> id ∈ rt_id <$> rt_base s;
  tb_devs : Forall dev_ok (dev_base s);
}.

Lemma take_out_spec P l lo :
  let '(l', lo') := take_out P l lo in
  l' = filter (fun r => P r = false) l /\
  (forall id, lo' = Some id -> lo = Some id /\ forall r, r ∈ l -> P r = true -> rt_id r <> id).
Proof.
  revert lo. induction l as [| r l IH]; intros lo; cbn [take_out].
  { split; [done |]. intros id ->. split; [done |]. intros r Hr. by apply elem_of_nil in Hr. }
  rewrite filter_cons. destruct (P r) eqn:E.
  - rewrite (decide_False (P := true = false)) by done. specialize (IH (if decide (lo = Some (rt_id r)) then None else lo)).
    destruct (take_out _ _ _) as [l' lo']. destruct IH as [-> H]. split; [done |].
    intros id Hid. destruct (H id Hid) as [Hlo Hr]. destruct (decide (lo = Some (rt_id r))) as [|Hne]; [done |].
    split; [done |]. intros r' [-> | Hr']%elem_of_cons; [congruence | by apply Hr].
  - rewrite (decide_True (P := false = false)) by done. specialize (IH lo). destruct (take_out _ _ _) as [l' lo']. destruct IH as [-> H]. split; [done |].
    intros id Hid. destruct (H id Hid) as [Hlo Hr]. split; [done |].
    intros r' [-> | Hr']%elem_of_cons; [congruence | by apply Hr].
Qed.

Lemma StronglySorted_filter {A} (R : A -> A -> Prop) (P : A -> Prop) `{!forall x, Decision (P x)} l :
  StronglySorted R l -> StronglySorted R (filter P l).
Proof.
  induction 1 as [| x l Hl IH Hx]; [constructor |]. rewrite filter_cons. destruct (decide (P x)); [| done].
  constructor; [done |]. apply Forall_forall. intros y [_ Hy]%list_elem_of_filter.
  rewrite Forall_forall in Hx. by apply Hx.
Qed.

Lemma rt_remove_base P s : rt_base (rt_remove P s) = filter (fun r => P r = false) (rt_base s).
Proof.
  unfold rt_remove. pose proof (take_out_spec P (rt_base s) (rt_loopback s)) as H.
  by destruct (take_out _ _ _) as [l lo]; destruct H as [-> _].
Qed.

Lemma rt_remove_ok P s : table_ok s -> table_ok (rt_remove P s).
Proof.
  intros [H1 H2 H3 H4 H5 H6]. pose proof (rt_remove_base P s) as Eb. unfold rt_remove in *.
  pose proof (take_out_spec P (rt_base s) (rt_loopback s)) as H.
  destruct (take_out _ _ _) as [l lo]. destruct H as [_ Hlo]. cbn in Eb. subst l.
  assert (filter (fun r => P r = false) (rt_base s) `sublist_of` rt_base s) as Hsub by apply sublist_filter.
  constructor; cbn; try done.
  - rewrite Forall_forall in H1 |- *. intros r [_ Hr]%list_elem_of_filter. by apply H1.
  - by apply StronglySorted_filter.
  - eapply sublist_NoDup; [apply H3 |]. by apply fmap_sublist.
  - eapply sublist_NoDup; [apply H4 |]. by apply fmap_sublist.
  - intros id Hid. destruct (Hlo id Hid) as [Hl Hr].
    destruct (proj1 (list_elem_of_fmap _ _ _) (H5 id Hl)) as (r & -> & Hin).
    apply list_elem_of_fmap_2, list_elem_of_filter. split; [| done].
    destruct (P r) eqn:E; [by destruct (Hr r Hin E) | done].
Qed.

Lemma rt_insert_perm rt l : rt_insert rt l ≡ₚ rt :: l.
Proof.
  induction l as [| r l IH]; cbn; [done |]. destruct (negb _); [done |].
  rewrite IH. apply Permutation_swap.
Qed.

(** The insertion keeps the order: it stops at the first route that is not at
    least as special. *)
Lemma rt_insert_sorted rt l :
  is_mask (rt_mask rt) -> Forall route_ok l -> StronglySorted before l -> StronglySorted before (rt_insert rt l).
Proof.
  intros Hm Hl Hs. induction Hs as [| r l Hs IH Hr]; cbn; [repeat constructor |].
  apply Forall_cons in Hl as [[Hrm _] Hl].
  destruct (Z.eqb_spec (Z.land (rt_mask r) (rt_mask rt)) (rt_mask rt)) as [E | E]; cbn.
  - apply mask_order in E; [| done | done]. constructor; [by apply IH |].
    apply Forall_forall. intros x Hx. rewrite rt_insert_perm in Hx.
    apply elem_of_cons in Hx as [-> | Hx]; [done |]. rewrite Forall_forall in Hr. by apply Hr.
  - rewrite mask_order in E by done. constructor; [by constructor |].
    assert (before rt r) as Hb by (unfold before; lia). constructor; [done |].
    rewrite Forall_forall in Hr |- *. intros x Hx. specialize (Hr x Hx). unfold before in *. lia.
Qed.

Lemma land_mask_host dst m : addr_ok dst -> Z.land (Z.land dst m) (not32 m) = 0.
Proof.
  intros Hd. apply bits32_eq; [| lia |].
  - apply low_bits_bound; [apply Z.land_nonneg; right; apply not32_bounds |].
    intros i Hi. rewrite Z.land_spec. unfold not32, uwrap. rewrite Z.mod_pow2_bits_high by lia. apply andb_false_r.
  - intros i Hi. rewrite !Z.land_spec, not32_testbit, Z.testbit_0_l by lia.
    destruct (Z.testbit dst i), (Z.testbit m i); done.
Qed.

Lemma guess_mask_ok dst dev : dev_ok dev -> is_mask (guess_mask dst dev).
Proof.
  intros [_ Hd]. destruct is_mask_class as (HA & HB & HC & H0 & _). unfold guess_mask, default_mask.
  destruct (dst =? 0); [done |]. split_if; [| done]. by repeat split_if.
Qed.

(** The request of a route makes sense: 32-bit numbers, and a mask that is one
    unless it is to be guessed. *)
Definition request_ok (flags dst mask : Z) : Prop :=
  addr_ok dst /\ (flag flags RTF_HOST = false -> mask <> 0 -> is_mask mask /\ Z.land dst (not32 mask) = 0).

Lemma rt_prepare_ok flags dst mask gw dev s fl' dst' mask' gw' :
  dev_ok dev -> request_ok flags dst mask ->
  rt_prepare flags dst mask gw dev s = Some (fl', dst', mask', gw') ->
  is_mask mask' /\ Z.land dst' (not32 mask') = 0.
Proof.
  intros Hdev [Hd Hmask]. unfold rt_prepare. set (step1 := if flag flags RTF_HOST then _ else _).
  assert (forall f d m, step1 = Some (f, d, m) -> is_mask m /\ Z.land d (not32 m) = 0) as H1.
  { intros f d m. unfold step1. destruct (flag flags RTF_HOST).
    - intros [= <- <- <-]. split; [apply is_mask_class |]. change (not32 0xffffffff) with 0. apply Z.land_0_r.
    - destruct (Z.eqb_spec mask 0) as [-> | Hne].
      + destruct (same_net _ _ _).
        * destruct (flag flags RTF_DYNAMIC); [done |]. intros [= <- <- <-].
          split; [apply Hdev | by apply land_mask_host].
        * intros [= <- <- <-]. split; [by apply guess_mask_ok | by apply land_mask_host].
      + intros [= <- <- <-]. by apply Hmask. }
  destruct step1 as [[[f d] m] |]; [| done]. specialize (H1 f d m eq_refl). intros E.
  repeat split_if_in E; simplify_eq; try done; case_decide; by simplify_eq.
Qed.

Lemma rt_add_ok id flags dst mask gw dev s :
  table_ok s -> dev_ok dev -> request_ok flags dst mask -> id ∉ rt_id <$> rt_base s ->
  table_ok (rt_add (Some id) flags dst mask gw dev s).
Proof.
  intros H Hdev Hreq Hid. unfold rt_add.
  destruct (rt_prepare _ _ _ _ _ _) as [[[[f d] m] g] |] eqn:Ep; [| done].
  destruct (rt_prepare_ok _ _ _ _ _ _ _ _ _ _ Hdev Hreq Ep) as [Hm Hd].
  set (rt := mk_rt id _ _ _ _ _ _ _).
  pose proof (rt_remove_ok (fun r => rt_dst r =? d) s H) as Hr.
  pose proof (rt_remove_base (fun r => rt_dst r =? d) s) as Eb.
  set (s1 := rt_remove _ s) in *. destruct Hr as [H1 H2 H3 H4 H5 H6].
  assert (id ∉ rt_id <$> rt_base s1) as Hid1.
  { intros (r & -> & Hr)%list_elem_of_fmap. rewrite Eb in Hr. apply list_elem_of_filter in Hr as [_ Hr].
    by apply Hid, list_elem_of_fmap_2. }
  assert (d ∉ rt_dst <$> rt_base s1) as Hd1.
  { intros (r & E & Hr)%list_elem_of_fmap. rewrite Eb in Hr. apply list_elem_of_filter in Hr as [Hr _].
    rewrite <- E, Z.eqb_refl in Hr. done. }
  assert (table_ok (s1 <| rt_base ::= rt_insert rt |>)) as Hs.
  { constructor; cbn; try done.
    - rewrite rt_insert_perm. by constructor.
    - by apply rt_insert_sorted.
    - rewrite rt_insert_perm. cbn. by apply NoDup_cons.
    - rewrite rt_insert_perm. cbn. by apply NoDup_cons.
    - intros i Hi. rewrite rt_insert_perm. cbn. right. by apply H5. }
  destruct (flag _ IFF_LOOPBACK); [| done].
  destruct Hs as [G1 G2 G3 G4 G5 G6]. constructor; try done.
  intros i [= <-]. cbn. rewrite rt_insert_perm. by left.
Qed.

Lemma land_testbit x k : 0 <= k -> flag x (2 ^ k) = Z.testbit x k.
Proof.
  intros Hk. unfold flag, ctrue. destruct (Z.testbit x k) eqn:E.
  - apply negb_true_iff, Z.eqb_neq. intros H.
    assert (Z.testbit (Z.land x (2 ^ k)) k = false) as Hf by (by rewrite H, Z.testbit_0_l).
    by rewrite Z.land_spec, E, Z.pow2_bits_true in Hf by lia.
  - apply negb_false_iff, Z.eqb_eq, bits_eq. intros i Hi. rewrite Z.land_spec, Z.testbit_0_l.
    destruct (Z.eq_dec i k) as [-> |]; [by rewrite E |]. rewrite Z.pow2_bits_false by lia. apply andb_false_r.
Qed.

Lemma swrap_testbit w x k : 0 <= k < w -> Z.testbit (swrap w x) k = Z.testbit x k.
Proof.
  intros Hk. rewrite <- (Z.mod_pow2_bits_low (swrap w x) w k), <- (Z.mod_pow2_bits_low x w k) by lia.
  f_equal. unfold swrap. set (h := 2 ^ (w - 1)).
  rewrite Zminus_mod_idemp_l. f_equal. lia.
Qed.

Lemma flag_host_s16 x : flag (s16 x) RTF_HOST = flag x RTF_HOST.
Proof. change RTF_HOST with (2 ^ 2). rewrite !land_testbit by lia. by apply swrap_testbit. Qed.

Lemma dev_of_ok s id : Forall dev_ok (dev_base s) -> dev_ok (dev_of s id).
Proof.
  intros H. unfold dev_of. destruct (list_find _ _) as [[n d] |] eqn:E; cbn.
  - apply list_find_Some in E as (Hd & _). by eapply Forall_lookup_1 in H.
  - split; [unfold addr_ok; cbn; lia | apply is_mask_class].
Qed.

Lemma found_ok (P : device -> Prop) `{!forall x, Decision (P x)} l n d :
  Forall dev_ok l -> list_find P l = Some (n, d) -> dev_ok d.
Proof. intros Hl (Hd & _)%list_find_Some. by eapply Forall_lookup_1 in Hl. Qed.

Definition entry_ok (r : rtentry) : Prop := addr_ok (re_dst r) /\ addr_ok (re_genmask r).

Lemma rt_new_ok id r s :
  table_ok s -> entry_ok r -> id ∉ rt_id <$> rt_base s -> table_ok (rt_new (Some id) r s).2.
Proof.
  intros H [Hd Hm] Hid. pose proof (tb_devs _ H) as Hdevs. unfold rt_new.
  destruct (named_dev r s) as [err | dev] eqn:En; [done |].
  assert (forall d, dev = Some d -> dev_ok d) as Hdev.
  { intros d ->. unfold named_dev in En. destruct (re_dev r) as [[e | name] |]; [done | | done].
    destruct (dev_get name (dev_base s)) as [d' |] eqn:Eg; [| done]. injection En as ->.
    unfold dev_get in Eg. destruct (list_find _ _) as [[n x] |] eqn:Ef; [| done].
    injection Eg as <-. by eapply found_ok. }
  destruct (negb _); [done |]. set (flags := u32 _).
  destruct (match dev with None => _ | Some _ => _ end) as [fl dv] eqn:Efd.
  assert (forall d, dv = Some d -> dev_ok d) as Hdv.
  { intros d ->. destruct dev as [d' |]; [injection Efd as _ ->; by apply Hdev |].
    destruct (flag flags RTF_GATEWAY); [| done].
    destruct (list_find _ _) as [[n x] |] eqn:Ef; [| done]. injection Efd as _ <-. by eapply found_ok. }
  set (mask := if bad_mask (re_genmask r) (re_dst r) then 0 else re_genmask r).
  assert (mask <> 0 -> is_mask mask /\ Z.land (re_dst r) (not32 mask) = 0) as Hmask.
  { unfold mask. destruct (bad_mask _ _) eqn:Eb; [done |]. intros _. by apply bad_mask_good. }
  assert (forall m d, dev_ok d -> (flag fl RTF_HOST = false -> m = mask) ->
    table_ok (rt_add (Some id) (s16 fl) (re_dst r) m (re_gateway r) d s)) as Hadd.
  { intros m d Hd' Hm'. apply rt_add_ok; try done. split; [done |]. rewrite flag_host_s16.
    intros Hh Hne. rewrite (Hm' Hh) in *. by apply Hmask. }
  assert (forall m, (flag fl RTF_HOST = false -> m = mask) -> table_ok
    (let go dev := match dev with
                   | None => (- ENETUNREACH, s)
                   | Some dev => (0, rt_add (Some id) (s16 fl) (re_dst r) m (re_gateway r) dev s)
                   end in
     if flag fl RTF_GATEWAY then
       if negb (re_gw_family r =? AF_INET) then (- EAFNOSUPPORT, s)
       else go (match dv with Some _ => dv | None => dev_of s <$> get_gw_dev (re_gateway r) s end)
     else go (match dv with Some _ => dv | None => dev_check (re_dst r) (dev_base s) end)).2) as Hgo.
  { intros m Hm'. cbn zeta. destruct (flag fl RTF_GATEWAY).
    - destruct (negb _); [done |]. destruct dv as [d |]; [by apply Hadd; [apply Hdv |] |].
      destruct (get_gw_dev _ _) as [g |]; cbn; [| done]. apply Hadd; [by apply dev_of_ok | done].
    - destruct dv as [d |]; [by apply Hadd; [apply Hdv |] |].
      destruct (dev_check _ _) as [d |] eqn:Ec; [| done]. apply Hadd; [| done].
      unfold dev_check in Ec. cbn zeta in Ec.
      match type of Ec with context [list_find ?P ?l] => destruct (list_find P l) as [[n x] |] eqn:Ef end.
      { injection Ec as <-. by eapply found_ok. }
      match type of Ec with context [list_find ?P ?l] => destruct (list_find P l) as [[n x] |] eqn:Ef' end; [| done].
      injection Ec as <-. by eapply found_ok. }
  destruct (flag fl RTF_HOST) eqn:Eh; [by apply Hgo |].
  destruct (_ && _); [done |]. by apply Hgo.
Qed.

Lemma set_dev_ok id f s :
  table_ok s -> (forall d, dev_ok d -> dev_ok (f d)) -> table_ok (set_dev id f s).
Proof.
  intros [H1 H2 H3 H4 H5 H6] Hf. constructor; try done. cbn.
  rewrite Forall_forall in H6 |- *. intros d (d' & -> & Hd)%list_elem_of_fmap.
  destruct (decide _); [by apply Hf, H6 | by apply H6].
Qed.

Lemma dev_ok_same d d' : dev_ok d -> pa_addr d' = pa_addr d -> pa_mask d' = pa_mask d -> dev_ok d'.
Proof. unfold dev_ok. by intros ? -> ->. Qed.

Lemma dev_close_ok id s : table_ok s -> table_ok (dev_close id s).2.
Proof.
  intros H. unfold dev_close. destruct (ctrue _); [| done]. cbn [snd].
  apply set_dev_ok; [| intros d _; split; [unfold addr_ok; cbn; lia | apply is_mask_class]].
  apply rt_remove_ok, set_dev_ok; [done |]. intros d Hd. by eapply dev_ok_same.
Qed.

Lemma ifsioc_flags_ok drv id flags s : table_ok s -> table_ok (ifsioc_flags drv id flags s).2.
Proof.
  intros H. unfold ifsioc_flags. set (fl := Z.land flags IFF_SETTABLE).
  assert (forall g t, table_ok t -> table_ok (set_dev id (fun d => d <| d_flags ::= g |>) t)) as Hf.
  { intros g t Ht. apply set_dev_ok; [done |]. intros d Hd. by eapply dev_ok_same. }
  assert (table_ok (set_dev id (fun d => d <| d_flags := fl |>) s)) as H1 by apply (Hf (fun _ => fl) s H).
  destruct (_ && _); [by apply dev_close_ok |].
  unfold dev_open. destruct (negb _ && _).
  - set (t := if drv id =? 0 then _ else _).
    assert (table_ok t) as Ht by (unfold t; destruct (drv id =? 0); [by apply Hf | done]).
    destruct (drv id <? 0); [by apply Hf | done].
  - done.
Qed.

Lemma get_mask_ok a : is_mask (get_mask a).
Proof.
  destruct is_mask_class as (HA & HB & HC & H0 & _). unfold get_mask. by repeat split_if.
Qed.

Lemma dev_ifsioc_ok drv va name getset v family s :
  table_ok s -> addr_ok v -> table_ok (dev_ifsioc drv va name getset v family s).2.
Proof.
  intros H Hv. unfold dev_ifsioc. destruct (ctrue va); [done |].
  destruct (dev_get name (dev_base s)) as [dev |]; [| done].
  split_if; [by apply ifsioc_flags_ok |].
  split_if; [apply set_dev_ok; [done |]; intros d Hd; split; [done | apply get_mask_ok] |].
  do 2 (split_if; [apply set_dev_ok; [done |]; intros d Hd; by eapply dev_ok_same |]).
  split_if.
  { destruct (bad_mask v 0) eqn:Eb; [done |]. apply set_dev_ok; [done |]. intros d Hd.
    split; [apply Hd | by apply (bad_mask_good v 0)]. }
  do 2 (split_if; [apply set_dev_ok; [done |]; intros d Hd; by eapply dev_ok_same |]). done.
Qed.

Lemma rt_route_ok daddr s : table_ok s -> table_ok (rt_route daddr s).2.
Proof.
  intros [H1 H2 H3 H4 H5 H6]. unfold rt_route. destruct (list_find _ _) as [[n rt] |]; [| done].
  set (o := if daddr =? _ then _ else _). destruct o as [r |]; [| done].
  set (used := fun x => if decide _ then _ else x).
  assert (forall l, rt_dst <$> map used l = rt_dst <$> l /\ rt_id <$> map used l = rt_id <$> l) as Hu.
  { intros l. split; (induction l as [| x l IH]; [done |]; cbn; rewrite IH; unfold used; by destruct (decide _)). }
  assert (forall x, route_ok x -> route_ok (used x)) as Hr by (intros x; unfold used; by destruct (decide _)).
  constructor; cbn; rewrite ?(proj1 (Hu _)), ?(proj2 (Hu _)); try done.
  - rewrite Forall_forall in H1 |- *. intros x (y & -> & Hy)%list_elem_of_fmap. by apply Hr, H1.
  - clear -H2. induction H2 as [| x l Hl IH Hx]; cbn; constructor; [done |].
    rewrite Forall_forall in Hx |- *. intros y (z & -> & Hz)%list_elem_of_fmap. specialize (Hx z Hz).
    unfold before, used in *. by destruct (decide (rt_id x = _)), (decide (rt_id z = _)).
Qed.

(** ** Everything that changes the table *)

(** Requests of processes on routes and interfaces, ICMP redirects of a host
    (net/inet/icmp.c:250-253), an interface that goes down, and routing itself,
    which counts uses; a new entry gets an address of its own. *)
Inductive inet_step : inet -> inet -> Prop :=
| step_rt_ioctl suser va mem cmd r s :
    entry_ok r -> (forall id, mem = Some id -> id ∉ rt_id <$> rt_base s) ->
    inet_step s (rt_ioctl suser va mem cmd r s).2
| step_ifsioc drv va name getset v family s :
    addr_ok v -> inet_step s (dev_ifsioc drv va name getset v family s).2
| step_redirect id dst gw dev s :
    addr_ok dst -> id ∉ rt_id <$> rt_base s ->
    inet_step s (rt_add (Some id) (Z.lor (Z.lor RTF_DYNAMIC RTF_MODIFIED) (Z.lor RTF_HOST RTF_GATEWAY)) dst 0 gw (dev_of s dev) s)
| step_close id s : inet_step s (dev_close id s).2
| step_route daddr s : inet_step s (rt_route daddr s).2.

Lemma rt_add_nomem flags dst mask gw dev s : rt_add None flags dst mask gw dev s = s.
Proof. unfold rt_add. by destruct (rt_prepare _ _ _ _ _ _) as [[[[? ?] ?] ?] |]. Qed.

Lemma rt_new_nomem r s : (rt_new None r s).2 = s.
Proof.
  unfold rt_new. destruct (named_dev r s) as [|dev]; [done |]. destruct (negb _); [done |].
  destruct (match dev with None => _ | Some _ => _ end) as [fl dv]. cbn zeta.
  repeat match goal with
  | |- (if ?b then _ else _).2 = _ => destruct b; try done
  | |- (match ?o with None => _ | _ => _ end).2 = _ => destruct o; try done
  end; apply rt_add_nomem.
Qed.

Lemma inet_step_ok s s' : table_ok s -> inet_step s s' -> table_ok s'.
Proof.
  intros H Hs. destruct Hs as [su va mem cmd r s Hr Hid | | id dst gw dev s Hd Hid | |].
  - unfold rt_ioctl. split_if; [| done]. destruct (negb su); [done |]. destruct (ctrue va); [done |].
    set (r' := if _ || _ then get_old_rtent r else r).
    assert (entry_ok r') as Hr' by (unfold r'; destruct ((cmd =? SIOCADDRTOLD) || (cmd =? SIOCDELRTOLD)); exact Hr).
    destruct ((cmd =? SIOCDELRTOLD) || (cmd =? SIOCDELRT)); [by apply rt_remove_ok |].
    destruct mem as [id |]; [by apply rt_new_ok; [| | apply Hid] | by rewrite rt_new_nomem].
  - by apply dev_ifsioc_ok.
  - apply rt_add_ok; [done | apply dev_of_ok, H | split; [exact Hd | intros Hf; vm_compute in Hf; discriminate] | done].
  - by apply dev_close_ok.
  - by apply rt_route_ok.
Qed.

Lemma first_longest (P : rtable -> bool) l n best :
  StronglySorted before l -> list_find (fun r => P r = true) l = Some (n, best) ->
  best ∈ l /\ P best = true /\ forall r, r ∈ l -> P r = true -> plen (rt_mask r) <= plen (rt_mask best).
Proof.
  intros Hs (Hn & Hb & Hf)%list_find_Some. split; [by eapply list_elem_of_lookup_2 |]. split; [done |].
  intros r [i Hi]%list_elem_of_lookup Hr. destruct (Nat.lt_trichotomy i n) as [Hlt | [-> | Hgt]].
  - by destruct (Hf i r Hi Hlt).
  - assert (r = best) as -> by congruence. lia.
  - clear -Hs Hn Hi Hgt. revert n i Hn Hi Hgt. induction Hs as [| x l Hl IH Hx]; intros [| n] [| i] Hn Hi Hgt; try done; try lia.
    + injection Hn as ->. rewrite Forall_forall in Hx. apply Hx. by eapply list_elem_of_lookup_2.
    + apply (IH n i); [done | done | lia].
Qed.

(** C6: Routing by the longest prefix.  Whatever requests, redirects and
    interface changes came before, [rt_route] finds a route that matches the
    address and whose prefix is the longest of all matching routes; for an
    address of the machine itself it gives the loopback route, which is always
    a live entry of the table; and it fails only when nothing matches or, for
    an own address, there is no loopback route. *)
Theorem rt_route_longest s0 s daddr :
  table_ok s0 -> rtc inet_step s0 s ->
  let best_route best :=
    best ∈ rt_base s /\ rt_matches s daddr best = true /\
    forall r, r ∈ rt_base s -> rt_matches s daddr r = true -> plen (rt_mask r) <= plen (rt_mask best) in
  (forall id, rt_loopback s = Some id -> id ∈ rt_id <$> rt_base s) /\
  match (rt_route daddr s).1 with
  | Some rt => exists best, best_route best /\
      if daddr =? pa_addr (dev_of s (rt_dev best)) then rt_loopback s = Some (rt_id rt)
      else rt_id rt = rt_id best /\ rt_gateway rt = rt_gateway best /\ rt_dev rt = rt_dev best
  | None =>
      (forall r, r ∈ rt_base s -> rt_matches s daddr r = false) \/
      exists best, best_route best /\ daddr = pa_addr (dev_of s (rt_dev best)) /\ rt_loopback s = None
  end.
Proof.
  intros H0 Hrtc best_route. assert (table_ok s) as H.
  { induction Hrtc as [| s s1 s2 Hs _ IH]; [done |]. apply IH. by eapply inet_step_ok. }
  clear Hrtc. split; [apply H |]. unfold rt_route.
  destruct (list_find (fun rt => rt_matches s daddr rt = true) (rt_base s)) as [[n best] |] eqn:E; cbn [fst].
  - assert (best_route best) as Hb by (eapply first_longest; [apply H | apply E]).
    destruct (Z.eqb_spec daddr (pa_addr (dev_of s (rt_dev best)))) as [Ed | Ed].
    + destruct (rt_loopback s) as [id |] eqn:El; cbn [mbind option_bind].
      * destruct (list_find (fun r => rt_id r = id) (rt_base s)) as [[m r] |] eqn:Ef; cbn [fmap option_fmap option_map fst].
        -- exists best. split; [done |]. rewrite (proj2 (Z.eqb_eq _ _) Ed), decide_True by done.
           cbn. apply list_find_Some in Ef as (_ & -> & _). done.
        -- exfalso. apply list_find_None in Ef. rewrite Forall_forall in Ef.
           destruct (proj1 (list_elem_of_fmap _ _ _) (tb_loopback _ H id El)) as (r & -> & Hr). by apply (Ef r Hr).
      * right. by exists best.
    + cbn [fst]. exists best. split; [done |]. rewrite (proj2 (Z.eqb_neq _ _) Ed), decide_True by done. done.
  - left. intros r Hr. apply list_find_None in E. rewrite Forall_forall in E.
    specialize (E r Hr). by destruct (rt_matches s daddr r).
Qed.

(** ** Examples *)

Definition demo_eth : device :=
  mk_dev 1 "eth0" (Z.lor IFF_UP IFF_BROADCAST) AF_INET 0 1500 14 (ntohl 0xC0A80105) (ntohl 0xC0A801FF) 0 (net_mask 8) [].
Definition demo_lo : device :=
  mk_dev 2 "lo" (Z.lor IFF_UP IFF_LOOPBACK) AF_INET 0 2000 14 (ntohl 0x7F000001) 0 0 (net_mask 24) [].
Definition demo_inet : inet := mk_inet [demo_lo; demo_eth] [] None.
Definition demo_entry (flags dst gw mask : Z) (dev : string) : rtentry :=
  mk_rtentry AF_INET (ntohl dst) AF_INET (ntohl gw) AF_INET mask flags (Some (inr dev)).
Definition demo_add (id : nat) (r : rtentry) (s : inet) : inet := (rt_ioctl true 0 (Some id) SIOCADDRT r s).2.

(** The local net, a default route through a gateway of it, and the loopback. *)
Definition demo_routes : inet :=
  demo_add 12 (demo_entry 0 0x7F000000 0 0 "lo")
    (demo_add 11 (demo_entry RTF_GATEWAY 0 0xC0A80101 (net_mask 32) "eth0")
      (demo_add 10 (demo_entry 0 0xC0A80100 0 0 "eth0") demo_inet)).

Example demo_routes_found :
  map (fun a => option_map rt_id (rt_route (ntohl a) demo_routes).1) [0xC0A80107; 0x08080808; 0xC0A80105; 0x7F000001]
  = [Some 10; Some 11; Some 12; Some 12]%nat.
Proof. by vm_compute. Qed.

(** A second route to the same address goes in the place of the first, even
    when it is for another net: 10.0.0.0/8 takes out 10.0.0.0/16. *)
Example same_destination_replaced :
  map rt_id (rt_base (demo_add 21 (demo_entry 0 0x0A000000 0 (net_mask 24) "eth0")
    (demo_add 20 (demo_entry 0 0x0A000000 0 (net_mask 16) "eth0") demo_inet))) = [21]%nat.
Proof. by vm_compute. Qed.

(** SIOCSIFFLAGS with no flags at all: [dev_close] finds [flags] 0 already, so
    the routes and the addresses of the interface stay. *)
Example all_flags_off_keeps_routes :
  let s := (dev_ifsioc (fun _ => 0) 0 "eth0" SIOCSIFFLAGS 0 0 demo_routes).2 in
  let t := (dev_ifsioc (fun _ => 0) 0 "eth0" SIOCSIFFLAGS IFF_BROADCAST 0 demo_routes).2 in
  map rt_id (rt_base s) = [10; 12; 11]%nat /\ map rt_id (rt_base t) = [12]%nat.
Proof. by vm_compute. Qed.

Lemma demo_inet_ok : table_ok demo_inet.
Proof.
  constructor; cbn; try constructor; try done.
  - split; [by vm_compute |]. exists 24. split; [lia | done].
  - repeat constructor; try done. exists 8. split; [lia | done].
Qed.

Lemma rt_route_longest_witness :
  rtc inet_step demo_inet demo_routes /\
  exists rt, (rt_route (ntohl 0xC0A80107) demo_routes).1 = Some rt /\ rt_gateway rt = 0.
Proof.
  assert (rtc inet_step demo_inet demo_routes) as Hr.
  { assert (forall id r s, entry_ok r -> id ∉ rt_id <$> rt_base s -> inet_step s (demo_add id r s)) as Hs
      by (intros; apply step_rt_ioctl; [done | by intros ? [= <-]]).
    assert (forall f d g m n, 0 <= m < 2 ^ 32 -> entry_ok (demo_entry f d g m n)) as He
      by (intros; split; [apply ntohl_bounds | done]).
    do 3 (eapply rtc_r; [| apply Hs; [apply He; by vm_compute | refine (bool_decide_eq_true_1 _ _); by vm_compute]]).
    apply rtc_refl. }
  split; [exact Hr |].
  pose proof (rt_route_longest demo_inet demo_routes (ntohl 0xC0A80107) demo_inet_ok Hr) as [_ H].
  destruct (rt_route (ntohl 0xC0A80107) demo_routes).1 as [rt |] eqn:E.
  - exists rt. split; [done |]. vm_compute in E. by injection E as <-.
  - vm_compute in E. discriminate.
Defined.
