(* ===== verification/Ipfrag.v ===== *)
(** IP reassembly (net/inet/ip.c): the queue of incomplete datagrams and
    [ip_defrag], at the level of the bytes of a packet.

    A buffer is its identity and the bytes of its [data]; a pointer into it is
    an offset.  [None] is an access through NULL, a copy of a negative length or
    a write outside a buffer.  A read past the end of a buffer finds other
    memory, and a fresh buffer has old contents: both are 0 here. *)

From S2P Require Import Prelude Errno Task Timer Csum Route.

(** ** Buffers and devices *)

(** net/inet/skbuff.h:41-101 [struct sk_buff], the fields that IP uses: [sk_data] is
    [data], [h_raw] the offset of [h.raw] in it, [sk_sock] the socket that is
    charged for it *)
Record sk_buff := mk_skb {
  sk_id : nat; sk_data : list Z; sk_len : Z; h_raw : Z; sk_arp : Z; sk_free : Z; sk_sock : option nat;
}.
#[export] Instance eta_skb : Eta sk_buff := fun x =>
  mk_skb (sk_id x) (sk_data x) (sk_len x) (h_raw x) (sk_arp x) (sk_free x) (sk_sock x).

(** [sizeof(struct sk_buff)] on the i386. *)
Definition sizeof_sk_buff := 84.

(** net/inet/ip.h:27-34 flags of [frag_off], the life of a fragment *)
Definition IP_DF := 0x4000.
Definition IP_MF := 0x2000.
Definition IP_OFFSET := 0x1FFF.
Definition IP_FRAG_TIME := 30 * HZ.

(** include/linux/icmp.h:21-59 types and codes *)
Definition ICMP_DEST_UNREACH := 3.
Definition ICMP_TIME_EXCEEDED := 11.
Definition ICMP_NET_UNREACH := 0.
Definition ICMP_HOST_UNREACH := 1.
Definition ICMP_PROT_UNREACH := 2.
Definition ICMP_FRAG_NEEDED := 4.
Definition ICMP_EXC_TTL := 0.
Definition ICMP_EXC_FRAGTIME := 1.

(** include/linux/ip.h [struct iphdr]: the fields of the header at [p], as
    numbers of the machine; 16-bit fields are in network order *)
Definition ip_ihl (b : list Z) (p : Z) : Z := Z.land (b8 b p) 15.
Definition ip_version (b : list Z) (p : Z) : Z := Z.shiftr (b8 b p) 4.
Definition ip_tot_len (b : list Z) (p : Z) : Z := ld16 b (p + 2).
Definition ip_id (b : list Z) (p : Z) : Z := ld16 b (p + 4).
Definition ip_frag_off (b : list Z) (p : Z) : Z := ld16 b (p + 6).
Definition ip_ttl (b : list Z) (p : Z) : Z := b8 b (p + 8).
Definition ip_protocol (b : list Z) (p : Z) : Z := b8 b (p + 9).
Definition ip_saddr (b : list Z) (p : Z) : Z := ld32 b (p + 12).
Definition ip_daddr (b : list Z) (p : Z) : Z := ld32 b (p + 16).

(** [memcpy] of [n] bytes at [src] in [from] to [dst] in [to]. *)
Definition memcpy (to : list Z) (dst : Z) (from : list Z) (src n : Z) : option (list Z) :=
  if (n <? 0) || (dst <? 0) || (Z.of_nat (length to) <? dst + n) then None
  else Some (take (Z.to_nat dst) to ++ bytes_at (Z.to_nat n) from src ++ drop (Z.to_nat (dst + n)) to).

(** ** The queue of incomplete datagrams *)

(** net/inet/ip.h:38-46 [struct ipfrag]; [f_ptr] is the offset of the data in
    its buffer, and the links are the chain *)
Record ipfrag := mk_frag { f_offset : Z; f_end : Z; f_len : Z; f_skb : sk_buff; f_ptr : Z }.
#[export] Instance eta_frag : Eta ipfrag := fun x =>
  mk_frag (f_offset x) (f_end x) (f_len x) (f_skb x) (f_ptr x).

(** net/inet/ip.h:49-60 [struct ipq]; [q_id] is its address, and its timer is
    the one with that name *)
Record ipq := mk_ipq {
  q_id : nat; q_mac : list Z; q_iph : list Z; q_len : Z; q_ihlen : Z; q_maclen : Z;
  q_fragments : list ipfrag; q_dev : nat;
}.
#[export] Instance eta_ipq : Eta ipq := fun x =>
  mk_ipq (q_id x) (q_mac x) (q_iph x) (q_len x) (q_ihlen x) (q_maclen x) (q_fragments x) (q_dev x).

(** What leaves the IP layer: a buffer given back, an ICMP message about the
    packet in a buffer, a frame given to a device with its priority. *)
Inductive net_event :=
| Freed (skb : nat)
| Icmp (type code : Z) (packet : list Z) (dev : nat)
| Xmit (dev : nat) (frame : list Z) (pri : Z)
| ResetTimer (sk : nat) (timeout len : Z)
| Delivered (handler : nat) (skb : sk_buff) (daddr len saddr : Z).

(** net/inet/sock.h:182-204 [struct sock], the fields that IP uses; the queue from
    [send_head] to [send_tail] is [send_list] *)
Record sock := mk_sock {
  wmem_alloc : Z; packets_out : Z; send_list : list sk_buff; sk_priority : Z;
  rto : Z; retransmits : Z; backoff : Z; cong_window : Z; prot_retransmits : Z;
}.
#[export] Instance eta_sock : Eta sock := fun x =>
  mk_sock (wmem_alloc x) (packets_out x) (send_list x) (sk_priority x)
    (rto x) (retransmits x) (backoff x) (cong_window x) (prot_retransmits x).

(** The state of the IP layer: the queue, the timer list of the kernel, the
    sockets, the answers that the allocator is going to give ([true] when there
    is no more of them), the next free address, and what has left the layer,
    latest first. *)
Record net := mk_net {
  ipqueue : list ipq; timers : list timer_list; socks : gmap nat sock;
  answers : list bool; next_addr : nat; out : list net_event;
}.
#[export] Instance eta_net : Eta net := fun x =>
  mk_net (ipqueue x) (timers x) (socks x) (answers x) (next_addr x) (out x).

(** [kmalloc]: the address, unless there is no memory. *)
Definition kmalloc (s : net) : option nat * net :=
  let s' := s <| answers ::= tail |> in
  if default true (head (answers s)) then (Some (next_addr s'), s' <| next_addr ::= S |>) else (None, s').

Definition emit (e : net_event) (s : net) : net := s <| out ::= cons e |>.

(** net/inet/skbuff.c:454-480 [alloc_skb] of [size] bytes; [free] is 2 until it
    is set *)
Definition alloc_skb (size : Z) (s : net) : option sk_buff * net :=
  let '(a, s) := kmalloc s in
  ((fun id => mk_skb id (replicate (Z.to_nat (size - sizeof_sk_buff)) 0) 0 0 0 2 None) <$> a, s).

(** [kfree_skb] *)
Definition kfree_skb (skb : sk_buff) (s : net) : net := emit (Freed (sk_id skb)) s.

(** The name of [ip_expire] as a timer function. *)
Definition IP_EXPIRE : nat := 1.

Definition start_timer (q : nat) (s : net) : net :=
  s <| timers ::= add_timer (Some (mk_timer q IP_FRAG_TIME (Z.of_nat q) IP_EXPIRE)) |>.
Definition stop_timer (q : nat) (s : net) : net := s <| timers ::= fun l => snd (del_timer q l) |>.

(** net/inet/ip.c:556-575 [ip_frag_create] *)
Definition ip_frag_create (offset end' : Z) (skb : sk_buff) (ptr : Z) (s : net) : option ipfrag * net :=
  let '(fp, s) := kmalloc s in
  ((fun _ => mk_frag offset end' (end' - offset) skb ptr) <$> fp, s).

(** net/inet/ip.c:600-601 the datagram of an entry *)
Definition same_datagram (b : list Z) (p : Z) (qp : ipq) : bool :=
  (ip_id b p =? ip_id (q_iph qp) 0) && (ip_saddr b p =? ip_saddr (q_iph qp) 0) &&
  (ip_daddr b p =? ip_daddr (q_iph qp) 0) && (ip_protocol b p =? ip_protocol (q_iph qp) 0).

(** net/inet/ip.c:590-611 [ip_find] of the header at [p] *)
Definition ip_find (b : list Z) (p : Z) (s : net) : option ipq * net :=
  match list_find (fun qp => same_datagram b p qp = true) (ipqueue s) with
  | Some (_, qp) => (Some qp, stop_timer (q_id qp) s)
  | None => (None, s)
  end.

(** net/inet/ip.c:646-676 the entry leaves the queue, and its buffers go *)
Definition release_fragments (chain : list ipfrag) (s : net) : net :=
  foldl (fun s fp => kfree_skb (f_skb fp) s) s chain.

(** net/inet/ip.c:635-679 [ip_free] *)
Definition ip_free (qp : ipq) (s : net) : net :=
  let s := stop_timer (q_id qp) s in
  let s := s <| ipqueue ::= filter (fun q => q_id q <> q_id qp) |> in
  release_fragments (q_fragments qp) s.

(** net/inet/ip.c:695-717 [ip_expire] of the entry at address [arg]; the entry
    is in the queue as long as its timer runs *)
Definition ip_expire (arg : nat) (s : net) : option net :=
  match list_find (fun q => q_id q = arg) (ipqueue s) with
  | None => None
  | Some (_, qp) =>
      let s := match q_fragments qp with
               | fp :: _ => emit (Icmp ICMP_TIME_EXCEEDED ICMP_EXC_FRAGTIME (sk_data (f_skb fp)) (q_dev qp)) s
               | [] => s
               end in
      Some (ip_free qp s)
  end.

(** net/inet/ip.c:728-795 [ip_create] for the header at [p] *)
Definition ip_create (skb : sk_buff) (p : Z) (dev : device) (s : net) : option ipq * net :=
  let '(qp, s) := kmalloc s in
  match qp with
  | None => (None, s)
  | Some id =>
      let maclen := p in
      let '(mac, s) := kmalloc s in
      match mac with
      | None => (None, s)
      | Some _ =>
          let ihlen := ip_ihl (sk_data skb) p * 4 in
          let '(iph, s) := kmalloc s in
          match iph with
          | None => (None, s)
          | Some _ =>
              let qp := mk_ipq id (bytes_at (Z.to_nat maclen) (sk_data skb) 0)
                          (bytes_at (Z.to_nat (ihlen + 8)) (sk_data skb) p) 0 ihlen maclen [] (d_id dev) in
              let s := start_timer id s in
              (Some qp, s <| ipqueue ::= cons qp |>)
          end
      end
  end.

(** net/inet/ip.c:798-821 [ip_done] *)
Fixpoint chain_connects (offset : Z) (chain : list ipfrag) : bool :=
  match chain with
  | [] => true
  | fp :: rest => if offset <? f_offset fp then false else chain_connects (f_end fp) rest
  end.
Definition ip_done (qp : ipq) : bool :=
  if q_len qp =? 0 then false else chain_connects 0 (q_fragments qp).

(** The copying of the fragments: done, over size, or a fault. *)
Inductive glue_result := Glued (data : list Z) (count : Z) | OverSize | GlueFault.

(** net/inet/ip.c:866-879 the loop of [ip_glue]; [count + len] is compared as
    an unsigned number *)
Fixpoint glue_fragments (chain : list ipfrag) (skb_len ptr : Z) (data : list Z) (count : Z) : glue_result :=
  match chain with
  | [] => Glued data count
  | fp :: rest =>
      if skb_len <? u32 (count + f_len fp) then OverSize
      else match memcpy data (ptr + f_offset fp) (sk_data (f_skb fp)) (f_ptr fp) (f_len fp) with
           | None => GlueFault
           | Some data => glue_fragments rest skb_len ptr data (count + f_len fp)
           end
  end.

(** net/inet/ip.c:825-889 [ip_glue]: the new buffer ([None]: NULL) *)
Definition ip_glue (qp : ipq) (s : net) : option (option sk_buff * net) :=
  let len := sizeof_sk_buff + q_maclen qp + q_ihlen qp + q_len qp in
  let '(skb, s) := alloc_skb len s in
  match skb with
  | None => Some (None, ip_free qp s)
  | Some skb =>
      let skb := skb <| sk_len := u32 (len - q_maclen qp) |> <| sk_free := 1 |> in
      data ← memcpy (sk_data skb) 0 (q_mac qp) 0 (q_maclen qp);
      data ← memcpy data (q_maclen qp) (q_iph qp) 0 (q_ihlen qp);
      let ptr := q_maclen qp + q_ihlen qp in
      match glue_fragments (q_fragments qp) (sk_len skb) ptr data 0 with
      | GlueFault => None
      | OverSize => Some (None, kfree_skb skb (ip_free qp s))
      | Glued data count =>
          let s := ip_free qp s in
          let iph := q_maclen qp in
          let data := st16 data (iph + 6) 0 in
          let data := st16 data (iph + 2) (htons (u16 (ip_ihl data iph * 4 + count))) in
          Some (Some (skb <| sk_data := data |> <| h_raw := iph |>), s)
      end
  end.

(** net/inet/ip.c:951-957 where the fragment goes: the chain up to [prev], and
    from [next] on *)
Fixpoint frag_position (offset : Z) (chain : list ipfrag) : list ipfrag * list ipfrag :=
  match chain with
  | [] => ([], [])
  | f :: rest =>
      if offset <? f_offset f then ([], chain)
      else let '(before, next) := frag_position offset rest in (f :: before, next)
  end.

(** net/inet/ip.c:977-1003 overlap with the fragments behind: where the chain
    goes on.  A fragment that is cut down or removed drops out; one that is
    removed must have a successor, which is read. *)
Fixpoint skip_overlap (end' : Z) (next : list ipfrag) : option (list ipfrag) :=
  match next with
  | [] => Some []
  | f :: tfp =>
      if end' <=? f_offset f then Some next
      else
        let i := end' - f_offset f in
        if f_len f - i <=? 0 then
          match tfp with [] => None | _ => skip_overlap end' tfp end
        else skip_overlap end' tfp
  end.

(** net/inet/ip.c:964-970 overlap with the fragment before, in bytes *)
Definition low_overlap (offset : Z) (before : list ipfrag) : Z :=
  match last before with
  | Some prev => if offset <? f_end prev then f_end prev - offset else 0
  | None => 0
  end.

(** An entry of the queue is changed in place. *)
Definition set_ipq (qp : ipq) (s : net) : net :=
  s <| ipqueue ::= map (fun q => if decide (q_id q = q_id qp) then qp else q) |>.

(** net/inet/ip.c:938-1028 [ip_defrag] with the entry at hand *)
Definition ip_defrag_queue (qp : ipq) (p offset flags : Z) (skb : sk_buff) (dev : device) (s : net) :
    option (option sk_buff * net) :=
  let b := sk_data skb in
  let ihl := ip_ihl b p * 4 in
  let end' := offset + ntohs (ip_tot_len b p) - ihl in
  let ptr := hard_header_len dev + ihl in
  let qp := if Z.land flags IP_MF =? 0 then qp <| q_len := end' |> else qp in
  let '(before, next) := frag_position offset (q_fragments qp) in
  let i := low_overlap offset before in
  let offset := offset + i in
  let ptr := ptr + i in
  next ← skip_overlap end' next;
  let '(tfp, s) := ip_frag_create offset end' skb ptr s in
  tfp ← tfp;
  let qp := qp <| q_fragments := before ++ tfp :: next |> in
  let s := set_ipq qp s in
  if ip_done qp then ip_glue qp s else Some (None, s).

(** net/inet/ip.c:893-1028 [ip_defrag] of the packet whose header is at [p]:
    the whole datagram, or NULL *)
Definition ip_defrag (p : Z) (skb : sk_buff) (dev : device) (s : net) : option (option sk_buff * net) :=
  let '(qp, s) := ip_find (sk_data skb) p s in
  let offset := ntohs (ip_frag_off (sk_data skb) p) in
  let flags := Z.land offset (Z.lnot IP_OFFSET) in
  let offset := Z.land offset IP_OFFSET in
  if (Z.land flags IP_MF =? 0) && (offset =? 0) then
    Some (Some skb, match qp with Some qp => ip_free qp s | None => s end)
  else
    let offset := Z.shiftl offset 3 in
    match qp with
    | Some qp =>
        let s := start_timer (q_id qp) (stop_timer (q_id qp) s) in
        ip_defrag_queue qp p offset flags skb dev s
    | None =>
        let '(qp, s) := ip_create skb p dev s in
        match qp with
        | None => Some (None, s)
        | Some qp => ip_defrag_queue qp p offset flags skb dev s
        end
    end.

(** * The chain of fragments *)

Definition zlen {A} (l : list A) : Z := Z.of_nat (length l).

Lemma zlen_app {A} (l k : list A) : zlen (l ++ k) = zlen l + zlen k.
Proof. unfold zlen. rewrite length_app. lia. Qed.
Lemma zlen_nonneg {A} (l : list A) : 0 <= zlen l.
Proof. unfold zlen. lia. Qed.
#[export] Hint Resolve zlen_nonneg : kernel.

(** The fragment has the bytes [c] from [o] on. *)
Definition holds (f : ipfrag) (o : Z) (c : list Z) : Prop :=
  f_offset f = o /\ f_end f = o + zlen c /\ f_len f = zlen c /\
  bytes_at (length c) (sk_data (f_skb f)) (f_ptr f) = c.

(** The chain for the pieces [cs] of a datagram that are marked as received,
    from [o] on: the fragment of each, and an empty one behind it for each
    duplicate. *)
Inductive chain_for : Z -> list (list Z * bool) -> list ipfrag -> Prop :=
| chain_nil o : chain_for o [] []
| chain_missing o c cs ch :
    chain_for (o + zlen c) cs ch -> chain_for o ((c, false) :: cs) ch
| chain_received o c cs f es ch :
    holds f o c -> Forall (fun e => holds e (o + zlen c) []) es ->
    chain_for (o + zlen c) cs ch -> chain_for o ((c, true) :: cs) (f :: es ++ ch).

(** The length of the pieces. *)
Definition extent (cs : list (list Z * bool)) : Z := zsum (fun p => zlen p.1) cs.

Lemma extent_cons p cs : extent (p :: cs) = zlen p.1 + extent cs.
Proof. done. Qed.
Lemma extent_nonneg cs : 0 <= extent cs.
Proof. apply zsum_nonneg. intros. apply zlen_nonneg. Qed.

Lemma chain_bounds o cs ch :
  chain_for o cs ch ->
  Forall (fun f => o <= f_offset f /\ f_offset f <= f_end f /\ f_end f <= o + extent cs) ch.
Proof.
  induction 1 as [o | o c cs ch H IH | o c cs f es ch Hf Hes H IH].
  - constructor.
  - rewrite extent_cons. pose proof (zlen_nonneg c). cbn [fst].
    eapply Forall_impl; [apply IH |]. cbn. lia.
  - rewrite extent_cons. pose proof (zlen_nonneg c). pose proof (extent_nonneg cs).
    destruct Hf as (Ho & He & _). cbn [fst].
    constructor; [lia |]. apply Forall_app. split.
    + eapply Forall_impl; [apply Hes |]. cbn. intros e (? & He' & _). unfold zlen in He' at 2. cbn in He'. lia.
    + eapply Forall_impl; [apply IH |]. cbn. lia.
Qed.

Lemma frags_app o ps qs ch :
  chain_for o (ps ++ qs) ch ->
  exists A B, ch = A ++ B /\ chain_for o ps A /\ chain_for (o + extent ps) qs B.
Proof.
  revert o ch. induction ps as [| [c b] ps IH]; intros o ch H.
  - exists [], ch. split_and!; [done | constructor |]. by rewrite Z.add_0_r.
  - rewrite extent_cons, Z.add_assoc. cbn [fst].
    inversion H as [| ? ? ? ? H' | ? ? ? f es ch' Hf Hes H']; subst.
    + destruct (IH _ _ H') as (A & B & -> & HA & HB). exists A, B. split_and!; [done | by constructor | done].
    + destruct (IH _ _ H') as (A & B & -> & HA & HB).
      exists (f :: es ++ A), B. cbn. rewrite <- app_assoc. split_and!; [done | by constructor | done].
Qed.

Lemma frags_app_intro o ps qs A B :
  chain_for o ps A -> chain_for (o + extent ps) qs B -> chain_for o (ps ++ qs) (A ++ B).
Proof.
  intros HA. revert qs B. induction HA as [o | o c cs ch H IH | o c cs f es ch Hf Hes H IH]; intros qs B HB.
  - by rewrite Z.add_0_r in HB.
  - cbn. constructor. apply IH. rewrite extent_cons in HB. by rewrite <- Z.add_assoc.
  - cbn. rewrite <- app_assoc. constructor; [done | done |]. apply IH.
    rewrite extent_cons in HB. by rewrite <- Z.add_assoc.
Qed.

(** ** Where a fragment goes *)

Lemma frag_position_app offset A B :
  Forall (fun f => f_offset f <= offset) A -> Forall (fun f => offset < f_offset f) B ->
  frag_position offset (A ++ B) = (A, B).
Proof.
  intros HA HB. induction HA as [| f A Hf _ IH]; cbn.
  - destruct HB as [| f B Hf _]; [done |]. cbn. by destruct (Z.ltb_spec offset (f_offset f)); [| lia].
  - destruct (Z.ltb_spec offset (f_offset f)); [lia |]. by rewrite IH.
Qed.

Lemma low_overlap_none offset A : Forall (fun f => f_end f <= offset) A -> low_overlap offset A = 0.
Proof.
  intros HA. unfold low_overlap. destruct (last A) as [f |] eqn:E; [| done].
  apply last_Some_elem_of in E. rewrite Forall_forall in HA. specialize (HA f E).
  by destruct (Z.ltb_spec offset (f_end f)); [lia |].
Qed.

Lemma low_overlap_last offset A f :
  offset < f_end f -> low_overlap offset (A ++ [f]) = f_end f - offset.
Proof.
  intros Hf. unfold low_overlap. rewrite last_snoc.
  by destruct (Z.ltb_spec offset (f_end f)); [| lia].
Qed.

Lemma skip_overlap_none end' B : Forall (fun f => end' <= f_offset f) B -> skip_overlap end' B = Some B.
Proof.
  intros [| f B' Hf _]; [done |]. cbn. by destruct (Z.leb_spec end' (f_offset f)); [| lia].
Qed.

(** A piece of the datagram, new or again, finds its place: no overlap unless
    it is a duplicate, which is then cut down to nothing. *)
Lemma chain_insert o ps c b qs ch :
  chain_for o (ps ++ (c, b) :: qs) ch -> c <> [] ->
  let off := o + extent ps in
  exists before next,
    frag_position off ch = (before, next) /\
    ch = before ++ next /\
    low_overlap off before = (if b then zlen c else 0) /\
    skip_overlap (off + zlen c) next = Some next /\
    (forall f, holds f (off + (if b then zlen c else 0)) (if b then [] else c) ->
       chain_for o (ps ++ (c, true) :: qs) (before ++ f :: next)).
Proof.
  intros H Hc off. destruct (frags_app _ _ _ _ H) as (A & B & -> & HA & HB).
  fold off in HB. assert (0 < zlen c) by (destruct c; [done | unfold zlen; cbn; lia]).
  pose proof (chain_bounds _ _ _ HA) as HAb. fold off in HAb.
  assert (Forall (fun f => f_offset f <= off) A) as HA1 by (eapply Forall_impl; [apply HAb |]; cbn; lia).
  assert (Forall (fun f => f_end f <= off) A) as HA2 by (eapply Forall_impl; [apply HAb |]; cbn; lia).
  inversion HB as [| ? ? ? ? H' | ? ? ? f es ch' Hf Hes H']; subst.
  - pose proof (chain_bounds _ _ _ H') as HBb.
    exists A, B. split_and!.
    + apply frag_position_app; [done |]. eapply Forall_impl; [apply HBb |]; cbn; lia.
    + done.
    + by apply low_overlap_none.
    + apply skip_overlap_none. eapply Forall_impl; [apply HBb |]; cbn; lia.
    + intros f Hf. rewrite Z.add_0_r in Hf. apply frags_app_intro; [done |].
      by apply (chain_received off c qs f [] B).
  - pose proof (chain_bounds _ _ _ H') as HBb. destruct Hf as (Ho & He & Hrest).
    assert (Forall (fun f => off + zlen c <= f_offset f) (es ++ ch')) as Hn.
    { apply Forall_app. split.
      - eapply Forall_impl; [apply Hes |]. cbn. intros e (? & _). lia.
      - eapply Forall_impl; [apply HBb |]. cbn. lia. }
    exists (A ++ [f]), (es ++ ch'). split_and!.
    + rewrite cons_middle, app_assoc. apply frag_position_app.
      * apply Forall_app. split; [done |]. constructor; [lia | constructor].
      * eapply Forall_impl; [apply Hn |]. cbn. lia.
    + by rewrite <- app_assoc.
    + rewrite low_overlap_last; lia.
    + by apply skip_overlap_none.
    + intros f' Hf'. rewrite <- app_assoc. apply frags_app_intro; [done |]. cbn.
      apply (chain_received off c qs f (f' :: es) ch'); [done | | done]. by constructor.
Qed.

(** ** Completeness and copying *)

Lemma chain_connects_empties x es ch :
  Forall (fun e => holds e x []) es -> chain_connects x (es ++ ch) = chain_connects x ch.
Proof.
  induction 1 as [| e es (Ho & He & _) _ IH]; cbn; [done |].
  unfold zlen in He. cbn in He. rewrite Ho, Z.ltb_irrefl, He, Z.add_0_r. apply IH.
Qed.

(** When the last piece is there, the fragments connect exactly when no piece
    is missing. *)
Lemma chain_connects_spec o cs ch :
  chain_for o cs ch -> Forall (fun p => p.1 <> []) cs -> (snd <$> last cs) <> Some false ->
  chain_connects o ch = forallb snd cs.
Proof.
  induction 1 as [o | o c cs ch H IH | o c cs f es ch Hf Hes H IH]; intros Hne Hl; [done | |].
  - apply Forall_cons in Hne as [Hc Hne]. cbn in Hc.
    assert (0 < zlen c) by (destruct c; [done | unfold zlen; cbn; lia]).
    destruct cs as [| p cs]; [by destruct (Hl eq_refl) |].
    pose proof (chain_bounds _ _ _ H) as Hb. destruct ch as [| f ch].
    + exfalso. rewrite last_cons_cons in Hl.
      clear IH Hb Hne. remember [] as ch0 eqn:Ech. remember (p :: cs) as cs0 eqn:Ecs.
      revert p cs Ecs. induction H as [| o' c' cs' ch' H' IH' |]; intros; [done | | done].
      destruct cs' as [| p' cs']; [by destruct (Hl eq_refl) |].
      rewrite last_cons_cons in Hl. by eapply IH'.
    + apply Forall_cons in Hb as [Hb _]. cbn.
      by destruct (Z.ltb_spec o (f_offset f)); [| lia].
  - apply Forall_cons in Hne as [Hc Hne]. destruct Hf as (Ho & He & _). cbn [chain_connects forallb snd andb].
    rewrite Ho, Z.ltb_irrefl, He, chain_connects_empties by done.
    apply IH; [done |]. destruct cs; [done |]. by rewrite last_cons_cons in Hl.
Qed.

Lemma memcpy_app pre mid post from src :
  memcpy (pre ++ mid ++ post) (zlen pre) from src (zlen mid) =
  Some (pre ++ bytes_at (length mid) from src ++ post).
Proof.
  unfold memcpy. unfold zlen. rewrite !length_app, !Nat2Z.inj_add.
  destruct (Z.ltb_spec (Z.of_nat (length mid)) 0); [lia |].
  destruct (Z.ltb_spec (Z.of_nat (length pre)) 0); [lia |].
  destruct (Z.ltb_spec (Z.of_nat (length pre) + (Z.of_nat (length mid) + Z.of_nat (length post)))
    (Z.of_nat (length pre) + Z.of_nat (length mid))); [lia |]. cbn [orb].
  rewrite !Nat2Z.id. do 2 f_equal; [apply take_app_length |].
  f_equal. replace (Z.to_nat _) with (length pre + length mid)%nat by lia.
  by rewrite app_assoc, <- (length_app pre mid), drop_app_length.
Qed.

Lemma memcpy_nothing to dst from src : 0 <= dst <= zlen to -> memcpy to dst from src 0 = Some to.
Proof.
  intros. unfold memcpy, zlen in *. rewrite Z.add_0_r. cbn [Z.ltb Z.compare orb Z.to_nat bytes_at app].
  destruct (Z.ltb_spec dst 0); [lia |]. destruct (Z.ltb_spec (Z.of_nat (length to)) dst); [lia |].
  cbn [orb]. change (Z.to_nat 0) with 0%nat. cbn [bytes_at app]. by rewrite take_drop.
Qed.

Lemma glue_empties es ch skb_len ptr data count x :
  Forall (fun e => holds e x []) es -> 0 <= count <= skb_len -> skb_len < 2 ^ 32 ->
  0 <= ptr + x <= zlen data ->
  glue_fragments (es ++ ch) skb_len ptr data count = glue_fragments ch skb_len ptr data count.
Proof.
  intros Hes Hc Hs Hp. induction Hes as [| e es (Ho & _ & Hl & _) _ IH]; [done |].
  cbn [app glue_fragments]. rewrite Hl, Ho. change (zlen (@nil Z)) with 0. rewrite Z.add_0_r.
  rewrite u32_small by lia. destruct (Z.ltb_spec skb_len count); [lia |].
  by rewrite memcpy_nothing by done.
Qed.

(** The fragments of a complete chain, copied one after the other, are the
    payload. *)
Lemma glue_spec o cs ch :
  chain_for o cs ch -> forallb snd cs = true ->
  forall skb_len ptr pre mid post count,
    zlen pre = ptr + o -> zlen mid = extent cs ->
    0 <= count -> count + extent cs <= skb_len -> skb_len < 2 ^ 32 -> 0 <= ptr -> 0 <= o ->
    glue_fragments ch skb_len ptr (pre ++ mid ++ post) count =
    Glued (pre ++ concat (fst <$> cs) ++ post) (count + extent cs).
Proof.
  induction 1 as [o | o c cs ch H IH | o c cs f es ch Hf Hes H IH];
    intros Hall skb_len ptr pre mid post count Hpre Hmid Hc Hs Hs' Hp Ho; [| done |].
  - assert (mid = []) as -> by (destruct mid; [done | unfold zlen, extent in Hmid; cbn in Hmid; lia]).
    cbn. by rewrite Z.add_0_r.
  - rewrite extent_cons in *. cbn [fst] in *. pose proof (extent_nonneg cs).
    pose proof (zlen_nonneg c). destruct Hf as (Hfo & _ & Hfl & Hfd).
    cbn [glue_fragments]. rewrite Hfl, Hfo, u32_small by lia.
    destruct (Z.ltb_spec skb_len (count + zlen c)); [lia |].
    set (n := length c) in *.
    assert (mid = take n mid ++ drop n mid) as Em by (by rewrite take_drop).
    assert (length (take n mid) = length c) as Elen.
    { rewrite length_take. unfold zlen in *. fold n. lia. }
    rewrite Em, <- app_assoc, <- Hpre. replace (zlen c) with (zlen (take n mid)) at 1 by (unfold zlen; by rewrite Elen).
    rewrite memcpy_app, Elen. fold n. rewrite Hfd, (app_assoc pre c).
    rewrite (glue_empties es ch skb_len ptr _ _ (o + zlen c)); [| done | lia | lia |].
    + rewrite IH; [| done | rewrite zlen_app; lia | | lia..].
      * cbn [fmap list_fmap concat fst]. rewrite <- !app_assoc. f_equal. lia.
      * unfold zlen in *. rewrite length_drop. fold n in Hmid |- *. lia.
    + rewrite !zlen_app. pose proof (zlen_nonneg (drop n mid)). pose proof (zlen_nonneg post). lia.
Qed.

(** * Reassembly *)

Lemma b8_bytes_at n b p k : 0 <= k < Z.of_nat n -> b8 (bytes_at n b p) k = b8 b (p + k).
Proof.
  revert p k. induction n as [| n IH]; intros p k Hk; [lia |]. cbn [bytes_at].
  destruct (Z.eq_dec k 0) as [-> |]; [by rewrite Z.add_0_r |].
  transitivity (b8 (bytes_at n b (p + 1)) (k - 1)).
  - unfold b8, znth. destruct (Z.ltb_spec k 0), (Z.ltb_spec (k - 1) 0); try lia.
    replace (Z.to_nat k) with (S (Z.to_nat (k - 1))) by lia. done.
  - rewrite IH by lia. f_equal. lia.
Qed.

(** What tells datagrams apart. *)
Definition ip_key (b : list Z) (p : Z) : Z * Z * Z * Z :=
  (ip_id b p, ip_saddr b p, ip_daddr b p, ip_protocol b p).

Lemma same_datagram_spec b p qp : same_datagram b p qp = true <-> ip_key b p = ip_key (q_iph qp) 0.
Proof.
  unfold same_datagram, ip_key. rewrite !andb_true_iff, !Z.eqb_eq.
  split; [intros (((-> & ->) & ->) & ->); done | by intros [= -> -> -> ->]].
Qed.

Lemma header_copy n b p :
  20 <= Z.of_nat n -> ip_key (bytes_at n b p) 0 = ip_key b p /\ ip_ihl (bytes_at n b p) 0 = ip_ihl b p.
Proof.
  intros Hn. unfold ip_key, ip_id, ip_saddr, ip_daddr, ip_protocol, ip_ihl, ld32, ld16.
  rewrite !b8_bytes_at by lia. rewrite Z.add_0_r, !Z.add_0_l. by rewrite !Z.add_assoc.
Qed.

(** A packet that arrives: the buffer, where its header is, the device, and the
    piece of the datagram that it carries. *)
Record arrival := mk_arrival { a_skb : sk_buff; a_pos : Z; a_dev : device; a_piece : nat }.

(** The packets of [arr] go through [ip_defrag] one after the other. *)
Fixpoint deliver (arr : list arrival) (s : net) : option (list (option sk_buff) * net) :=
  match arr with
  | [] => Some ([], s)
  | a :: arr =>
      r ← ip_defrag (a_pos a) (a_skb a) (a_dev a) s;
      rs ← deliver arr (snd r);
      Some (fst r :: fst rs, snd rs)
  end.

Lemma bytes_at_bytes_at n m b p : forall i, 0 <= i -> i + Z.of_nat n <= Z.of_nat m ->
  bytes_at n (bytes_at m b p) i = bytes_at n b (p + i).
Proof.
  induction n as [| n IH]; intros i Hi Hm; cbn [bytes_at]; [done |].
  rewrite b8_bytes_at, IH by lia. do 2 f_equal. lia.
Qed.

Lemma bytes_at_self l : bytes_at (length l) l 0 = l.
Proof.
  enough (forall pre, bytes_at (length l) (pre ++ l) (zlen pre) = l) as H by (apply (H [])).
  induction l as [| x l IH]; intros pre; cbn [length bytes_at]; [done |]. f_equal.
  - unfold b8, znth, zlen. destruct (Z.ltb_spec (Z.of_nat (length pre)) 0); [lia |].
    rewrite Nat2Z.id, nth_lookup, list_lookup_middle by done. done.
  - rewrite cons_middle, app_assoc. etrans; [| apply (IH (pre ++ [x]))]. f_equal.
    by rewrite zlen_app.
Qed.

Lemma b8_app_l l k i : i < zlen l -> b8 (l ++ k) i = b8 l i.
Proof.
  intros Hi. unfold b8, znth, zlen in *. destruct (Z.ltb_spec i 0); [done |].
  rewrite app_nth1 by lia. done.
Qed.

Lemma map_fixed {A} (f : A -> A) l : Forall (fun x => f x = x) l -> map f l = l.
Proof. induction 1 as [| x l Hx _ IH]; cbn; congruence. Qed.

Section reassembly.
(** The payload of the datagram in pieces, and what identifies it. *)
Context (chunks : list (list Z)) (key : Z * Z * Z * Z).

Definition total : Z := zlen (concat chunks).
Definition chunk_offset (k : nat) : Z := zlen (concat (take k chunks)).

(** The packet of an arrival is a fragment of the datagram: the fields of its
    header say so, and its data are those of its piece. *)
Definition carries (a : arrival) : Prop :=
  let b := sk_data (a_skb a) in
  let p := a_pos a in
  let fo := ntohs (ip_frag_off b p) in
  exists c, chunks !! a_piece a = Some c /\
    p = hard_header_len (a_dev a) /\ 0 <= p /\ 5 <= ip_ihl b p /\ ip_key b p = key /\
    Z.shiftl (Z.land fo IP_OFFSET) 3 = chunk_offset (a_piece a) /\
    (Z.land (Z.land fo (Z.lnot IP_OFFSET)) IP_MF = 0 <-> S (a_piece a) = length chunks) /\
    ntohs (ip_tot_len b p) = ip_ihl b p * 4 + zlen c /\
    bytes_at (length c) b (p + ip_ihl b p * 4) = c.

(** The pieces that have arrived. *)
Definition marks (arr : list arrival) : list bool :=
  (fun k => bool_decide (k ∈ a_piece <$> arr)) <$> seq 0 (length chunks).
Definition covers (arr : list arrival) : Prop :=
  forall k, (k < length chunks)%nat -> k ∈ a_piece <$> arr.

(** The datagram, behind the headers of the packet [a] that came first. *)
Definition reassembled (a : arrival) : list Z :=
  let b := sk_data (a_skb a) in
  let hlen := ip_ihl b (a_pos a) * 4 in
  let data := bytes_at (Z.to_nat (a_pos a + hlen)) b 0 ++ concat chunks in
  st16 (st16 data (a_pos a + 6) 0) (a_pos a + 2) (htons (u16 (hlen + total))).

Context (Hchunks : (2 <= length chunks)%nat) (Hne : Forall (fun c => c <> []) chunks)
  (Htotal : total < 65536).

(** The entry [q] of the queue in [s] has the pieces of [arr]; [s0] is the
    state before the first of them. *)
Record collects (arr : list arrival) (a0 : arrival) (s0 s : net) (q : ipq) : Prop := {
  col_queue : ipqueue s = q :: ipqueue s0;
  col_fresh : (next_addr s0 <= q_id q < next_addr s)%nat;
  col_answers : answers s = [];
  col_out : out s = out s0;
  col_socks : socks s = socks s0;
  col_key : ip_key (q_iph q) 0 = key;
  col_chain : chain_for 0 (zip chunks (marks arr)) (q_fragments q);
  col_len : q_len q = if bool_decide (pred (length chunks) ∈ a_piece <$> arr) then total else 0;
  col_bufs : map (fun f => sk_id (f_skb f)) (q_fragments q) ≡ₚ map (fun a => sk_id (a_skb a)) arr;
  col_mac : q_mac q = bytes_at (Z.to_nat (a_pos a0)) (sk_data (a_skb a0)) 0;
  col_iph : q_iph q = bytes_at (Z.to_nat (q_ihlen q + 8)) (sk_data (a_skb a0)) (a_pos a0);
  col_maclen : q_maclen q = a_pos a0;
  col_ihlen : q_ihlen q = ip_ihl (sk_data (a_skb a0)) (a_pos a0) * 4;
  col_first : 0 <= a_pos a0 /\ 5 <= ip_ihl (sk_data (a_skb a0)) (a_pos a0);
}.

Lemma chunk_split k c arr :
  chunks !! k = Some c ->
  exists ps qs, zip chunks (marks arr) = ps ++ (c, bool_decide (k ∈ a_piece <$> arr)) :: qs /\
    (forall a, a_piece a = k -> zip chunks (marks (arr ++ [a])) = ps ++ (c, true) :: qs) /\
    extent ps = chunk_offset k.
Proof using Type.
  clear Hchunks Hne Htotal. intros Hk. pose proof (lookup_lt_Some _ _ _ Hk) as Hlt.
  assert (length (marks arr) = length chunks) as Hlen by (unfold marks; by rewrite length_fmap, length_seq).
  assert (marks arr !! k = Some (bool_decide (k ∈ a_piece <$> arr))) as Hm.
  { unfold marks. rewrite list_lookup_fmap, (proj2 (lookup_seq 0 _ k k)) by lia. done. }
  exists (zip (take k chunks) (take k (marks arr))), (zip (drop (S k) chunks) (drop (S k) (marks arr))).
  split_and!.
  - rewrite <- (take_drop_middle _ _ _ Hk) at 1. rewrite <- (take_drop_middle _ _ _ Hm) at 1.
    rewrite zip_with_app by (rewrite !length_take; lia). done.
  - intros a Ha. assert (marks (arr ++ [a]) = <[k := true]> (marks arr)) as ->.
    { apply list_eq. intros i. destruct (decide (i < length chunks)%nat).
      2:{ rewrite !lookup_ge_None_2; [done | rewrite length_insert; lia |].
          unfold marks. rewrite length_fmap, length_seq. lia. }
      assert (forall arr', marks arr' !! i = Some (bool_decide (i ∈ a_piece <$> arr'))) as Hi.
      { intros. unfold marks. rewrite list_lookup_fmap, (proj2 (lookup_seq 0 _ i i)) by lia. done. }
      rewrite Hi, fmap_app. cbn [fmap list_fmap]. rewrite Ha. destruct (decide (i = k)) as [-> |].
      - rewrite list_lookup_insert_eq by lia. f_equal. apply bool_decide_eq_true.
        rewrite elem_of_app. right. by apply list_elem_of_singleton.
      - rewrite list_lookup_insert_ne, Hi by done. f_equal. apply bool_decide_ext.
        rewrite elem_of_app, list_elem_of_singleton. naive_solver. }
    rewrite insert_take_drop by lia. rewrite <- (take_drop_middle _ _ _ Hk) at 1.
    rewrite zip_with_app by (rewrite !length_take; lia). done.
  - unfold extent, chunk_offset. rewrite <- Hlen in Hlt. clear Hm Hk.
    assert (length (take k chunks) = length (take k (marks arr))) as E by (rewrite !length_take; lia).
    revert E. generalize (take k chunks) (take k (marks arr)). clear. intros l.
    induction l as [| x l IH]; intros [| y m]; cbn; intros; try done.
    rewrite zlen_app. f_equal. apply IH. lia.
Qed.


(** All pieces are marked exactly when the arrivals cover the datagram. *)
Lemma marks_all arr : forallb snd (zip chunks (marks arr)) = true <-> covers arr.
Proof using Type.
  clear Hchunks Hne Htotal. unfold covers, marks.
  assert (forall (l : list (list Z)) (m : list bool), length l = length m ->
    forallb snd (zip l m) = forallb id m) as E.
  { induction l as [| x l IH]; intros [| y m]; cbn; intros; try done. by rewrite IH by lia. }
  rewrite E by (by rewrite length_fmap, length_seq). rewrite forallb_forall. split.
  - intros H k Hk. apply (bool_decide_eq_true_1 (k ∈ a_piece <$> arr)), H.
    apply list_elem_of_In, list_elem_of_fmap. exists k. split; [done |]. apply elem_of_seq. lia.
  - intros H b (k & -> & Hk%elem_of_seq)%list_elem_of_In%list_elem_of_fmap.
    apply bool_decide_eq_true_2, H. lia.
Qed.

Lemma last_mark arr :
  snd <$> last (zip chunks (marks arr)) = Some (bool_decide (pred (length chunks) ∈ a_piece <$> arr)).
Proof using Hchunks.
  rewrite last_lookup. set (n := length chunks) in *.
  assert (length (zip chunks (marks arr)) = n) as ->.
  { rewrite length_zip_with. unfold marks. rewrite length_fmap, length_seq. fold n. lia. }
  destruct (lookup_lt_is_Some_2 chunks (pred n)) as [c Hc]; [fold n; lia |].
  rewrite lookup_zip_with, Hc. cbn. unfold marks. rewrite list_lookup_fmap.
  fold n. rewrite (proj2 (lookup_seq 0 n (pred n) (pred n))) by lia. done.
Qed.

Lemma zip_chunks arr : fst <$> zip chunks (marks arr) = chunks.
Proof using Type. apply fst_zip. unfold marks. by rewrite length_fmap, length_seq. Qed.

Lemma extent_zip arr : extent (zip chunks (marks arr)) = total.
Proof using Type.
  clear Hchunks Hne Htotal. unfold total. rewrite <- (zip_chunks arr) at 2.
  induction (zip chunks (marks arr)) as [| [c b] l IH]; [done |].
  rewrite extent_cons, IH. cbn [fmap list_fmap concat fst]. by rewrite zlen_app.
Qed.

Lemma chunk_offset_bounds k c :
  chunks !! k = Some c ->
  0 <= chunk_offset k /\ chunk_offset k + zlen c <= total /\
  (S k = length chunks -> chunk_offset k + zlen c = total) /\ ((0 < k)%nat -> 0 < chunk_offset k).
Proof using Hne.
  clear Hchunks Htotal. intros Hk. unfold chunk_offset, total.
  assert (zlen (concat chunks) =
    zlen (concat (take k chunks)) + (zlen c + zlen (concat (drop (S k) chunks)))) as ->.
  { rewrite <- (take_drop_middle _ _ _ Hk) at 1. rewrite concat_app. cbn [concat]. by rewrite !zlen_app. }
  pose proof (zlen_nonneg (concat (drop (S k) chunks))).
  split_and!; [apply zlen_nonneg | lia | |].
  - intros E. rewrite drop_ge by lia. cbn. change (zlen (@nil Z)) with 0. lia.
  - intros Hk0. destruct chunks as [| c0 cs]; [done |]. destruct k as [| k]; [lia |].
    apply Forall_cons in Hne as [Hc0 _]. cbn [take concat]. rewrite zlen_app.
    pose proof (zlen_nonneg (concat (take k cs))). destruct c0; [done |]. unfold zlen. cbn [length]. lia.
Qed.


(** One more fragment joins the entry. *)
Lemma queue_insert arr a0 a s0 s q :
  collects arr a0 s0 s q -> carries a -> Forall (fun x => q_id x < next_addr s0)%nat (ipqueue s0) ->
  let b := sk_data (a_skb a) in
  let fo := ntohs (ip_frag_off b (a_pos a)) in
  exists s1 q1,
    ip_defrag_queue q (a_pos a) (chunk_offset (a_piece a)) (Z.land fo (Z.lnot IP_OFFSET)) (a_skb a) (a_dev a) s
      = (if ip_done q1 then ip_glue q1 s1 else Some (None, s1)) /\
    collects (arr ++ [a]) a0 s0 s1 q1.
Proof using Hchunks Hne Htotal.
  intros C (c & Hk & Hpos & Hp0 & Hihl & Hkey & Hoff & Hmf & Htot & Hdata) Hfresh b fo.
  fold b in Hihl, Hkey, Htot, Hdata. fold b fo in Hoff, Hmf.
  destruct (chunk_split _ c arr Hk) as (ps & qs & Ez & Ez' & Eext).
  assert (c <> []) as Hc by (rewrite Forall_lookup in Hne; by eapply Hne).
  pose proof (col_chain _ _ _ _ _ C) as Hch. rewrite Ez in Hch.
  destruct (chain_insert 0 ps c _ qs _ Hch Hc) as (before & next & Hpos' & Hsplit & Hlow & Hskip & Hins).
  rewrite Z.add_0_l, Eext in *. set (dup := bool_decide (a_piece a ∈ a_piece <$> arr)) in *.
  set (off := chunk_offset (a_piece a)) in *.
  unfold ip_defrag_queue. fold b.
  replace (off + ntohs (ip_tot_len b (a_pos a)) - ip_ihl b (a_pos a) * 4) with (off + zlen c) by lia.
  set (q' := if Z.land _ IP_MF =? 0 then _ else q).
  assert (q_fragments q' = q_fragments q) as Hq' by (unfold q'; by destruct (_ =? 0)).
  rewrite Hq', Hpos', Hlow, Hskip. cbn [mbind option_bind].
  unfold ip_frag_create, kmalloc. rewrite (col_answers _ _ _ _ _ C). cbn [head tail default fmap option_fmap option_map mbind option_bind].
  set (f := mk_frag _ _ _ _ _). set (q1 := q' <| q_fragments := _ |>). set (s1 := set_ipq q1 _).
  assert (q_id q' = q_id q) as Hid by (unfold q'; by destruct (_ =? 0)).
  exists s1, q1. split; [done |].
  assert (holds f (off + (if dup then zlen c else 0)) (if dup then [] else c)) as Hf.
  { unfold holds, f. cbn. destruct dup.
    - change (zlen []) with 0. split_and!; [lia | lia | lia | done].
    - rewrite !Z.add_0_r. split_and!; [lia | lia | lia |]. rewrite <- Hpos. exact Hdata. }
  constructor.
  - unfold s1, set_ipq. cbn. rewrite (col_queue _ _ _ _ _ C). cbn [map].
    rewrite decide_True by (by symmetry). f_equal.
    apply map_fixed. eapply Forall_impl; [apply Hfresh |]. cbn. intros x Hx.
    pose proof (col_fresh _ _ _ _ _ C). rewrite decide_False by lia. done.
  - unfold s1, set_ipq. cbn. rewrite Hid. pose proof (col_fresh _ _ _ _ _ C). lia.
  - cbn. by rewrite (col_answers _ _ _ _ _ C).
  - apply (col_out _ _ _ _ _ C).
  - apply (col_socks _ _ _ _ _ C).
  - unfold q1, q'. destruct (_ =? 0); apply (col_key _ _ _ _ _ C).
  - rewrite (Ez' a eq_refl). apply Hins, Hf.
  - destruct (chunk_offset_bounds _ _ Hk) as (_ & _ & Hlast & _). unfold q1, q'. cbn.
    rewrite fmap_app, (bool_decide_ext (pred (length chunks) ∈ _ ++ _)
      (pred (length chunks) ∈ a_piece <$> arr \/ pred (length chunks) = a_piece a))
      by (rewrite elem_of_app; cbn; by rewrite list_elem_of_singleton).
    destruct (Z.eqb_spec (Z.land (Z.land fo (Z.lnot IP_OFFSET)) IP_MF) 0) as [E | E]; cbn.
    + apply Hmf in E. rewrite bool_decide_eq_true_2 by (right; lia). unfold off. rewrite Hlast by done. done.
    + rewrite (col_len _ _ _ _ _ C).
      rewrite (bool_decide_ext (_ \/ _) (pred (length chunks) ∈ a_piece <$> arr)); [done |].
      split; [intros [? | Heq]; [done |] | by left]. destruct E. apply Hmf. lia.
  - unfold q1. cbn. rewrite !map_app. cbn. rewrite <- (Permutation_middle _ _ (sk_id (a_skb a))).
    rewrite <- Permutation_cons_append. apply Permutation_skip.
    rewrite <- map_app, <- Hsplit. apply (col_bufs _ _ _ _ _ C).
  - unfold q1, q'. destruct (_ =? 0); apply (col_mac _ _ _ _ _ C).
  - unfold q1, q'. destruct (_ =? 0); apply (col_iph _ _ _ _ _ C).
  - unfold q1, q'. destruct (_ =? 0); apply (col_maclen _ _ _ _ _ C).
  - unfold q1, q'. destruct (_ =? 0); apply (col_ihlen _ _ _ _ _ C).
  - apply (col_first _ _ _ _ _ C).
Qed.


Lemma total_pos : 0 < total.
Proof using Hchunks Hne.
  destruct (lookup_lt_is_Some_2 chunks (pred (length chunks))) as [c Hc]; [lia |].
  destruct (chunk_offset_bounds _ _ Hc) as (H1 & H2 & H3 & H4).
  pose proof (zlen_nonneg c). specialize (H4 ltac:(lia)). lia.
Qed.

Lemma ip_done_covers arr a0 s0 s q : collects arr a0 s0 s q -> ip_done q = true <-> covers arr.
Proof using Hchunks Hne.
  intros C. unfold ip_done. rewrite (col_len _ _ _ _ _ C). pose proof total_pos.
  destruct (bool_decide_reflect (pred (length chunks) ∈ a_piece <$> arr)) as [Hl | Hl].
  - destruct (Z.eqb_spec total 0); [lia |].
    rewrite (chain_connects_spec _ _ _ (col_chain _ _ _ _ _ C)).
    + apply marks_all.
    + apply Forall_forall. intros [c b] Hin%elem_of_zip_l.
      by apply (proj1 (Forall_forall _ _) Hne).
    + rewrite last_mark, bool_decide_eq_true_2 by done. done.
  - split; [done |]. intros Hc. destruct Hl. apply Hc. lia.
Qed.

(** The buffers of the entry and nothing else go. *)
Lemma release_fragments_out ch s :
  ipqueue (release_fragments ch s) = ipqueue s /\ answers (release_fragments ch s) = answers s /\
  socks (release_fragments ch s) = socks s /\ timers (release_fragments ch s) = timers s /\
  out (release_fragments ch s) ≡ₚ map Freed (map (fun f => sk_id (f_skb f)) ch) ++ out s.
Proof using Type.
  clear Hchunks Hne Htotal. revert s. unfold release_fragments. induction ch as [| f ch IH]; intros s; [done |].
  cbn [foldl map]. destruct (IH (kfree_skb (f_skb f) s)) as (-> & -> & -> & -> & ->).
  split_and!; try done. cbn. by rewrite <- Permutation_middle.
Qed.

Lemma ip_free_collected arr a0 s0 s s1 q :
  collects arr a0 s0 s q -> Forall (fun x => q_id x < next_addr s0)%nat (ipqueue s0) ->
  ipqueue s1 = ipqueue s -> answers s1 = answers s -> socks s1 = socks s -> out s1 = out s ->
  let s' := ip_free q s1 in
  ipqueue s' = ipqueue s0 /\ answers s' = [] /\ socks s' = socks s0 /\
  out s' ≡ₚ map (fun a => Freed (sk_id (a_skb a))) arr ++ out s0.
Proof using Type.
  clear Hchunks Hne Htotal. intros C Hfresh E1 E2 E3 E4 s'. unfold s', ip_free.
  destruct (release_fragments_out (q_fragments q)
    (stop_timer (q_id q) s1 <| ipqueue ::= filter (fun x => q_id x <> q_id q) |>))
    as (-> & -> & -> & _ & ->). cbn.
  rewrite E1, E2, E3, E4, (col_queue _ _ _ _ _ C), (col_answers _ _ _ _ _ C),
    (col_socks _ _ _ _ _ C), (col_out _ _ _ _ _ C).
  split_and!; [| done | done |].
  - rewrite filter_cons_False by naive_solver. apply filter_all. intros x Hx.
    rewrite Forall_forall in Hfresh. specialize (Hfresh x Hx).
    pose proof (col_fresh _ _ _ _ _ C). lia.
  - rewrite (col_bufs _ _ _ _ _ C), map_map. done.
Qed.

(** The copies into a fresh buffer: MAC header, IP header, fragments. *)
Lemma glue_copies cs ch mac iph m h t :
  chain_for 0 cs ch -> forallb snd cs = true -> extent cs = t ->
  zlen mac = m -> 0 <= h <= 60 -> t < 65536 ->
  exists d1 d2,
    memcpy (replicate (Z.to_nat (m + (h + t))) 0) 0 mac 0 m = Some d1 /\
    memcpy d1 m iph 0 h = Some d2 /\
    glue_fragments ch (u32 (sizeof_sk_buff + h + t)) (m + h) d2 0 =
      Glued ((mac ++ bytes_at (Z.to_nat h) iph 0) ++ concat (fst <$> cs)) t.
Proof using Type.
  clear Hchunks Hne Htotal. intros Hch Hall Ht Hm Hh Ht'.
  pose proof (extent_nonneg cs). pose proof (zlen_nonneg mac).
  rewrite !Z2Nat.inj_add, !replicate_add by lia.
  set (rp := replicate (Z.to_nat m) 0). set (rh := replicate (Z.to_nat h) 0).
  set (rt := replicate (Z.to_nat t) 0).
  assert (zlen rp = m /\ zlen rh = h /\ zlen rt = t) as (Erp & Erh & Ert)
    by (unfold zlen, rp, rh, rt; rewrite !length_replicate; lia).
  exists (mac ++ rh ++ rt), (mac ++ bytes_at (Z.to_nat h) iph 0 ++ rt). split_and!.
  - pose proof (memcpy_app [] rp (rh ++ rt) mac 0) as E. rewrite Erp in E. cbn [app] in E.
    change (zlen []) with 0 in E. rewrite E. do 2 f_equal.
    rewrite <- (bytes_at_self mac) at 2. f_equal. unfold zlen in *. lia.
  - pose proof (memcpy_app mac rh rt iph 0) as E. rewrite Erh, Hm in E. rewrite E.
    do 4 f_equal. unfold zlen in Erh. lia.
  - rewrite u32_small by (unfold sizeof_sk_buff; lia).
    pose proof (glue_spec 0 cs ch Hch Hall (sizeof_sk_buff + h + t) (m + h)
      (mac ++ bytes_at (Z.to_nat h) iph 0) rt [] 0) as E.
    rewrite !app_nil_r, <- app_assoc in E. rewrite E; [by rewrite Z.add_0_l, Ht, <- app_assoc | | | | | | |];
      unfold sizeof_sk_buff; try lia.
    rewrite zlen_app. unfold zlen at 2. rewrite bytes_at_length. lia.
Qed.

(** A complete entry becomes the datagram. *)
Lemma glue_collected arr a0 s0 s q :
  collects arr a0 s0 s q -> covers arr -> Forall (fun x => q_id x < next_addr s0)%nat (ipqueue s0) ->
  exists skb s',
    ip_glue q s = Some (Some skb, s') /\ sk_data skb = reassembled a0 /\ h_raw skb = a_pos a0 /\
    ipqueue s' = ipqueue s0 /\ answers s' = [] /\ socks s' = socks s0 /\
    out s' ≡ₚ map (fun a => Freed (sk_id (a_skb a))) arr ++ out s0.
Proof using Hchunks Hne Htotal.
  intros C Hcov Hfresh. pose proof total_pos as Hpos.
  set (b := sk_data (a_skb a0)). set (p := a_pos a0). set (hlen := ip_ihl b p * 4).
  assert (q_len q = total) as El.
  { rewrite (col_len _ _ _ _ _ C), bool_decide_eq_true_2; [done |]. apply Hcov. lia. }
  pose proof (col_first _ _ _ _ _ C) as [Hp0 Hihl]. fold b p in Hp0, Hihl.
  assert (hlen <= 60) as Hh.
  { unfold hlen, ip_ihl. change 15 with (Z.ones 4). rewrite Z.land_ones by lia.
    pose proof (Z.mod_pos_bound (b8 b p) (2 ^ 4) ltac:(lia)). lia. }
  assert (q_mac q = bytes_at (Z.to_nat p) b 0) as Em by apply (col_mac _ _ _ _ _ C).
  assert (bytes_at (Z.to_nat hlen) (q_iph q) 0 = bytes_at (Z.to_nat hlen) b p) as Eh.
  { rewrite (col_iph _ _ _ _ _ C), (col_ihlen _ _ _ _ _ C). fold b p hlen.
    rewrite bytes_at_bytes_at by lia. by rewrite Z.add_0_r. }
  destruct (glue_copies (zip chunks (marks arr)) (q_fragments q) (q_mac q) (q_iph q) p hlen total)
    as (d1 & d2 & E1 & E2 & E3).
  { apply (col_chain _ _ _ _ _ C). }
  { by apply marks_all. }
  { apply extent_zip. }
  { rewrite Em. unfold zlen. rewrite bytes_at_length. lia. }
  { unfold hlen. lia. }
  { done. }
  rewrite zip_chunks, Eh, Em in E3.
  replace (bytes_at (Z.to_nat p) b 0 ++ bytes_at (Z.to_nat hlen) b p)
    with (bytes_at (Z.to_nat (p + hlen)) b 0) in E3.
  2:{ rewrite Z2Nat.inj_add, bytes_at_app by (unfold hlen; lia). do 2 f_equal. lia. }
  unfold ip_glue, alloc_skb, kmalloc. rewrite (col_answers _ _ _ _ _ C).
  cbn [head tail default fmap option_fmap option_map].
  set (s1 := s <| answers ::= tail |> <| next_addr ::= S |>).
  rewrite El, (col_maclen _ _ _ _ _ C), (col_ihlen _ _ _ _ _ C). fold b p hlen. cbn [sk_data upd].
  replace (sizeof_sk_buff + p + hlen + total - sizeof_sk_buff) with (p + (hlen + total)) by lia.
  replace (sizeof_sk_buff + p + hlen + total - p) with (sizeof_sk_buff + hlen + total) by lia.
  rewrite E1. cbn [mbind option_bind]. rewrite E2. cbn [mbind option_bind sk_len upd]. rewrite E3.
  destruct (ip_free_collected arr a0 s0 s s1 q C Hfresh) as (F1 & F2 & F3 & F4); try done.
  { cbn. by rewrite (col_answers _ _ _ _ _ C). }
  eexists _, _. split; [reflexivity |]. split_and!; try done.
  cbn [sk_data upd]. unfold reassembled. fold b p hlen.
  set (D := bytes_at (Z.to_nat (p + hlen)) b 0 ++ concat chunks).
  assert (ip_ihl (st16 D (p + 6) 0) p = ip_ihl b p) as ->; [| done].
  unfold ip_ihl. f_equal. rewrite b8_st16; [| lia | | lia].
  - destruct (Z.eqb_spec p (p + 6)), (Z.eqb_spec p (p + 6 + 1)); try lia.
    unfold D. rewrite b8_app_l, b8_bytes_at; [done | | unfold zlen; rewrite bytes_at_length];
      unfold hlen; lia.
  - unfold D. rewrite length_app, bytes_at_length. unfold hlen. lia.
Qed.

(** The first packet makes an entry. *)
Lemma ip_create_collects a s0 :
  carries a -> Forall (fun x => q_id x < next_addr s0)%nat (ipqueue s0) -> answers s0 = [] ->
  exists q s, ip_create (a_skb a) (a_pos a) (a_dev a) s0 = (Some q, s) /\ collects [] a s0 s q.
Proof using Hchunks.
  intros (c & _ & _ & Hp & Hihl & Hkey & _) Hfresh Hans.
  unfold ip_create, kmalloc. rewrite Hans. cbn [head tail default upd next_addr answers].
  rewrite Hans. cbn [head tail default upd next_addr answers]. 
  eexists _, _. split; [reflexivity |].
  destruct (header_copy (Z.to_nat (ip_ihl (sk_data (a_skb a)) (a_pos a) * 4 + 8))
    (sk_data (a_skb a)) (a_pos a) ltac:(lia)) as [Hk _].
  constructor; cbn; try done; try lia.
  - by rewrite Hk.
  - assert (forall o (cs : list (list Z)), chain_for o (zip cs ((fun _ => false) <$> cs)) []) as E.
    { intros o cs. revert o. induction cs as [| x cs IH]; intros o; cbn; constructor. apply IH. }
    replace (marks []) with ((fun _ : list Z => false) <$> chunks); [apply E |].
    unfold marks. cbn. clear. generalize 0%nat. induction chunks as [| x cs IH]; intros k; cbn; [done |].
    rewrite bool_decide_eq_false_2 by apply not_elem_of_nil. f_equal. apply IH.
Qed.

(** ** The arrivals one after the other *)

(** The state between two arrivals. *)
Definition waiting (arr : list arrival) (a0 : arrival) (s0 s : net) : Prop :=
  (arr = [] /\ s = s0) \/ (arr <> [] /\ exists q, collects arr a0 s0 s q).

Lemma carries_fragment a : carries a ->
  let fo := ntohs (ip_frag_off (sk_data (a_skb a)) (a_pos a)) in
  (Z.land (Z.land fo (Z.lnot IP_OFFSET)) IP_MF =? 0) && (Z.land fo IP_OFFSET =? 0) = false /\
  Z.shiftl (Z.land fo IP_OFFSET) 3 = chunk_offset (a_piece a).
Proof using Hchunks Hne.
  intros (c & Hk & _ & _ & _ & _ & Hoff & Hmf & _) fo. fold fo in Hoff, Hmf. split; [| done].
  destruct (Z.eqb_spec (Z.land (Z.land fo (Z.lnot IP_OFFSET)) IP_MF) 0) as [E |]; [| done].
  apply Hmf in E. destruct (chunk_offset_bounds _ _ Hk) as (_ & _ & _ & H0).
  specialize (H0 ltac:(lia)). destruct (Z.eqb_spec (Z.land fo IP_OFFSET) 0) as [E' |]; [| done].
  rewrite E' in Hoff. change (Z.shiftl 0 3) with 0 in Hoff. lia.
Qed.

Lemma defrag_step arr a0 a s0 s :
  waiting arr a0 s0 s -> carries a -> a0 = hd a arr ->
  Forall (fun x => q_id x < next_addr s0)%nat (ipqueue s0) -> answers s0 = [] ->
  Forall (fun x => ip_key (q_iph x) 0 <> key) (ipqueue s0) ->
  exists s1 q1,
    ip_defrag (a_pos a) (a_skb a) (a_dev a) s
      = (if ip_done q1 then ip_glue q1 s1 else Some (None, s1)) /\
    collects (arr ++ [a]) a0 s0 s1 q1.
Proof using Hchunks Hne Htotal.
  intros Hw Ha Ea0 Hfresh Hans Hother.
  destruct (carries_fragment a Ha) as [Hfrag Hoff].
  assert (ip_key (sk_data (a_skb a)) (a_pos a) = key) as Hkey
    by (destruct Ha as (c & _ & _ & _ & _ & Hkey & _); exact Hkey).
  unfold ip_defrag, ip_find. destruct Hw as [[-> ->] | [Hne' [q C]]].
  - cbn in Ea0. subst a0.
    assert (list_find (fun qp => same_datagram (sk_data (a_skb a)) (a_pos a) qp = true) (ipqueue s0) = None) as ->.
    { apply list_find_None. eapply Forall_impl; [apply Hother |]. cbn. intros x Hx E.
      apply same_datagram_spec in E. by rewrite Hkey in E. }
    rewrite Hfrag, Hoff.
    destruct (ip_create_collects a s0 Ha Hfresh Hans) as (q & s & -> & C).
    apply (queue_insert [] a a s0 s q C Ha Hfresh).
  - assert (list_find (fun qp => same_datagram (sk_data (a_skb a)) (a_pos a) qp = true) (ipqueue s)
      = Some (0%nat, q)) as ->.
    { rewrite (col_queue _ _ _ _ _ C). cbn. rewrite decide_True; [done |].
      apply same_datagram_spec. by rewrite Hkey, (col_key _ _ _ _ _ C). }
    rewrite Hfrag, Hoff.
    apply (queue_insert arr a0 a s0 _ q); [| done | done].
    destruct C. by constructor.
Qed.


Lemma deliver_incomplete d s0 l : forall arr s,
  waiting arr (hd (hd d l) arr) s0 s ->
  Forall carries l -> ~ covers (arr ++ l) ->
  Forall (fun x => q_id x < next_addr s0)%nat (ipqueue s0) -> answers s0 = [] ->
  Forall (fun x => ip_key (q_iph x) 0 <> key) (ipqueue s0) ->
  exists s', deliver l s = Some (replicate (length l) None, s') /\
    forall a0, (arr ++ l = [] \/ a0 = hd a0 (arr ++ l)) -> waiting (arr ++ l) a0 s0 s'.
Proof using Hchunks Hne Htotal.
  induction l as [| a l IH]; intros arr s Hw Hl Hn Hfresh Hans Hother.
  - exists s. split; [done |]. intros a0 Ha0. rewrite app_nil_r in *.
    destruct Hw as [[-> ->] | [Hne' Hq]]; [by left |]. right. split; [done |].
    destruct arr; [done |]. cbn in *. by destruct Ha0 as [? | ->].
  - apply Forall_cons in Hl as [Ha Hl]. cbn [hd] in Hw.
    destruct (defrag_step arr _ a s0 s Hw Ha) as (s1 & q1 & E & C); try done.
    assert (ip_done q1 = false) as Hd.
    { apply not_true_iff_false. rewrite (ip_done_covers _ _ _ _ _ C). intros Hc. apply Hn.
      intros k Hk. specialize (Hc k Hk). rewrite cons_middle, app_assoc, fmap_app, elem_of_app. by left. }
    rewrite Hd in E. destruct (IH (arr ++ [a]) s1) as (s' & E' & Hw'); try done.
    + right. split; [by destruct arr |]. exists q1. by destruct arr.
    + by rewrite <- app_assoc.
    + exists s'. split.
      * cbn [deliver]. rewrite E. cbn [mbind option_bind snd]. rewrite E'. done.
      * intros a0 Ha0. rewrite cons_middle, app_assoc. apply Hw'. by rewrite <- app_assoc.
Qed.

(** The last missing piece completes the datagram. *)
Lemma deliver_complete arr a s0 :
  Forall carries (arr ++ [a]) -> covers (arr ++ [a]) -> ~ covers arr ->
  Forall (fun q => q_id q < next_addr s0)%nat (ipqueue s0) -> answers s0 = [] ->
  Forall (fun q => ip_key (q_iph q) 0 <> key) (ipqueue s0) ->
  let first := hd a arr in
  exists s1 skb s2,
    deliver arr s0 = Some (replicate (length arr) None, s1) /\
    ip_defrag (a_pos a) (a_skb a) (a_dev a) s1 = Some (Some skb, s2) /\
    sk_data skb = reassembled first /\ h_raw skb = a_pos first /\
    ipqueue s2 = ipqueue s0 /\ answers s2 = [] /\ socks s2 = socks s0 /\
    out s2 ≡ₚ map (fun x => Freed (sk_id (a_skb x))) (arr ++ [a]) ++ out s0.
Proof using Hchunks Hne Htotal.
  intros [Hl Ha]%Forall_app Hcov Hncov Hfresh Hans Hother first.
  apply Forall_cons in Ha as [Ha _].
  destruct (deliver_incomplete a s0 arr [] s0) as (s1 & E1 & Hw); try done.
  { by left. }
  destruct (defrag_step arr first a s0 s1) as (s2 & q & E2 & C); try done.
  { apply (Hw first). unfold first. by destruct arr; [left | right]. }
  assert (ip_done q = true) as Hd by (by apply (ip_done_covers _ _ _ _ _ C)).
  rewrite Hd in E2.
  destruct (glue_collected _ _ _ _ _ C Hcov Hfresh) as (skb & s' & E3 & H1 & H2 & H3 & H4 & H5 & H6).
  exists s1, skb, s'. by rewrite E2, E3.
Qed.
End reassembly.

(** C2: The fragments of a datagram, in any order and with any duplicates, are
    reassembled: [ip_defrag] keeps them until the last missing one is there, and
    then returns the headers of the first one that came with the whole payload
    behind them, [frag_off] 0 and the length of the datagram.  The buffers of
    the fragments are given back, each once, and other entries of the queue stay
    as they were. *)
Theorem ip_defrag_reassembles chunks key arr a s0 :
  (2 <= length chunks)%nat -> Forall (fun c => c <> []) chunks -> total chunks < 65536 ->
  Forall (carries chunks key) (arr ++ [a]) ->
  covers chunks (arr ++ [a]) -> ~ covers chunks arr ->
  Forall (fun q => q_id q < next_addr s0)%nat (ipqueue s0) -> answers s0 = [] ->
  Forall (fun q => ip_key (q_iph q) 0 <> key) (ipqueue s0) ->
  let first := hd a arr in
  exists s1 skb s2,
    deliver arr s0 = Some (replicate (length arr) None, s1) /\
    ip_defrag (a_pos a) (a_skb a) (a_dev a) s1 = Some (Some skb, s2) /\
    sk_data skb = reassembled chunks first /\ h_raw skb = a_pos first /\
    ipqueue s2 = ipqueue s0 /\ answers s2 = [] /\ socks s2 = socks s0 /\
    out s2 ≡ₚ map (fun x => Freed (sk_id (a_skb x))) (arr ++ [a]) ++ out s0.
Proof. intros. by apply (deliver_complete chunks key). Qed.

(** * The timers of the queue *)

(** The running timers with their deadlines. *)
Definition running (s : net) : list entry := deadlines 0 (timers s).
Definition e_id (y : entry) : nat := y.2.1.1.
Definition is_expiry (y : entry) : Prop := y.2.2 = IP_EXPIRE.

(** Every entry of the queue but [x] has its timer, which runs for at most
    [IP_FRAG_TIME] ticks more and names the entry, and every timer of
    [ip_expire] belongs to an entry. *)
Record timed_but (x : option nat) (s : net) : Prop := {
  td_ok : list_ok (timers s);
  td_ids : NoDup (e_id <$> running s);
  td_queue : NoDup (q_id <$> ipqueue s);
  td_fresh : Forall (fun n => n < next_addr s)%nat ((e_id <$> running s) ++ (q_id <$> ipqueue s));
  td_entry : forall y, y ∈ running s -> is_expiry y ->
    y.1 <= IP_FRAG_TIME /\ y.2.1.2 = Z.of_nat (e_id y) /\ e_id y ∈ q_id <$> ipqueue s;
  td_timed : forall id, id ∈ q_id <$> ipqueue s -> Some id <> x ->
    exists y, y ∈ running s /\ e_id y = id /\ is_expiry y;
  td_but : forall id, x = Some id -> id ∈ q_id <$> ipqueue s /\ id ∉ e_id <$> running s;
}.

Lemma spec_insert_perm x q : spec_insert x q ≡ₚ x :: q.
Proof.
  induction q as [| y q IH]; cbn; [done |]. destruct (x.1 <? y.1); [done |].
  rewrite IH. apply Permutation_swap.
Qed.

(** What is left when a timer is stopped. *)
Lemma spec_delete_perm id q :
  let '(r, q') := spec_delete id q in
  (r = None /\ q' = q /\ id ∉ e_id <$> q) \/ (exists y, e_id y = id /\ q ≡ₚ y :: q').
Proof.
  induction q as [| y q IH]; cbn; [left; split_and!; [done | done | apply not_elem_of_nil] |].
  destruct (decide (y.2.1.1 = id)) as [E |]; [right; by exists y |].
  destruct (spec_delete id q) as [r q']. destruct IH as [(-> & -> & Hn) | (z & Hz & Hp)].
  - left. split_and!; [done | done |]. by apply not_elem_of_cons.
  - right. exists z. split; [done |]. rewrite Hp. apply Permutation_swap.
Qed.

Lemma stop_timer_running id s :
  list_ok (timers s) ->
  list_ok (timers (stop_timer id s)) /\
  ((running (stop_timer id s) = running s /\ id ∉ e_id <$> running s) \/
   exists y, e_id y = id /\ running s ≡ₚ y :: running (stop_timer id s)).
Proof.
  intros Hok. pose proof (del_timer_deadlines id 0 (timers s) Hok ltac:(lia)) as H.
  unfold stop_timer, running, del_timer. cbn [upd timers].
  destruct (del_timer_at id 0 (timers s)) as [r l']. cbn [snd].
  destruct H as (H1 & _ & H2 & _); [apply Hok |]. split; [done |].
  pose proof (spec_delete_perm id (deadlines 0 (timers s))) as Hp. rewrite H2 in Hp.
  destruct Hp as [(_ & -> & Hn) | Hp]; [by left | by right].
Qed.

Lemma elem_of_ids y (l : list entry) : y ∈ l -> e_id y ∈ e_id <$> l.
Proof. intros. by apply list_elem_of_fmap_2. Qed.

Lemma stop_timer_timed x id s :
  timed_but x s -> (x = None \/ x = Some id) -> id ∈ q_id <$> ipqueue s ->
  timed_but (Some id) (stop_timer id s).
Proof.
  intros [H1 H2 H3 H4 H5 H6 H7] Hx Hin. destruct (stop_timer_running id s H1) as [Hok Hrun].
  destruct Hrun as [[E Hn] | (y & Hy & Hp)].
  - constructor; rewrite ?E; try done.
    + intros id' Hid' Hne. apply H6; [done |]. destruct Hx as [-> | ->]; [intros [=] | done].
    + by intros ? [= <-].
  - assert (id ∉ e_id <$> running (stop_timer id s)) as Hn.
    { rewrite Hp in H2. cbn in H2. apply NoDup_cons in H2 as [H2 _]. by rewrite Hy in H2. }
    constructor; try done.
    + rewrite Hp in H2. cbn in H2. by apply NoDup_cons in H2 as [_ H2].
    + rewrite Hp in H4. cbn in H4. by apply Forall_cons in H4 as [_ H4].
    + intros z Hz. apply H5. rewrite Hp. by right.
    + intros id' Hid' Hne. destruct (H6 id' Hid') as (z & Hz & Hzid & Hze).
      { destruct Hx as [-> | ->]; [intros [=] | done]. }
      rewrite Hp in Hz. apply elem_of_cons in Hz as [-> | Hz]; [congruence |]. by exists z.
    + by intros ? [= <-].
Qed.

Lemma start_timer_timed id s : timed_but (Some id) s -> timed_but None (start_timer id s).
Proof.
  intros [H1 H2 H3 H4 H5 H6 H7]. destruct (H7 id eq_refl) as [Hin Hn].
  set (t := mk_timer id IP_FRAG_TIME (Z.of_nat id) IP_EXPIRE).
  destruct (add_timer_deadlines t 0 (timers s) H1) as (Hok & _ & E).
  { cbn. unfold IP_FRAG_TIME, HZ. lia. }
  assert (running (start_timer id s) ≡ₚ (IP_FRAG_TIME, (id, Z.of_nat id, IP_EXPIRE)) :: running s) as Hp.
  { unfold running, start_timer. cbn [upd timers add_timer]. fold t. rewrite E. apply spec_insert_perm. }
  constructor; try done.
  - rewrite Hp. cbn. by apply NoDup_cons.
  - rewrite Hp. cbn. constructor; [| done]. rewrite Forall_app in H4. destruct H4 as [_ H4].
    rewrite Forall_forall in H4. by apply H4.
  - intros y. rewrite Hp. intros [-> | Hy]%elem_of_cons; [| by apply H5]. intros _. cbn. done.
  - intros id' Hid' _. destruct (decide (id' = id)) as [-> |].
    + eexists. rewrite Hp. split; [by left |]. done.
    + destruct (H6 id' Hid') as (z & Hz & Hzid); [congruence |].
      exists z. split; [rewrite Hp; by right | done].
Qed.

(** What a step does not touch. *)
Lemma timed_same x s s' :
  timed_but x s -> timers s' = timers s -> q_id <$> ipqueue s' = q_id <$> ipqueue s ->
  (next_addr s <= next_addr s')%nat -> timed_but x s'.
Proof.
  intros [H1 H2 H3 H4 H5 H6 H7] Et Eq Hn. constructor; unfold running in *; rewrite ?Et, ?Eq; try done.
  eapply Forall_impl; [apply H4 |]. cbn. lia.
Qed.

Lemma kmalloc_timed x s :
  timed_but x s ->
  let '(a, s') := kmalloc s in
  timed_but x s' /\ timers s' = timers s /\ ipqueue s' = ipqueue s /\ (next_addr s <= next_addr s')%nat /\
  (forall id, a = Some id -> next_addr s <= id < next_addr s')%nat.
Proof.
  intros H. unfold kmalloc. destruct (default true (head (answers s))); cbn.
  - split_and!; [| done | done | lia | intros id [= <-]; lia].
    apply (timed_same x s); try done. cbn. lia.
  - split_and!; try done. apply (timed_same x s); try done; cbn; lia.
Qed.

Lemma alloc_skb_timed x size s :
  timed_but x s ->
  let '(_, s') := alloc_skb size s in timed_but x s' /\ ipqueue s' = ipqueue s.
Proof.
  intros H. unfold alloc_skb. pose proof (kmalloc_timed x s H) as Hk.
  destruct (kmalloc s) as [a s']. naive_solver.
Qed.

Lemma release_fragments_next ch s : next_addr (release_fragments ch s) = next_addr s.
Proof. revert s. unfold release_fragments. induction ch as [| f ch IH]; intros s; [done |]. cbn. by rewrite IH. Qed.

Lemma ip_free_timed x qp s :
  timed_but x s -> (x = None \/ x = Some (q_id qp)) -> q_id qp ∈ q_id <$> ipqueue s ->
  timed_but None (ip_free qp s).
Proof.
  intros H Hx Hin. pose proof (stop_timer_timed x _ s H Hx Hin) as [H1 H2 H3 H4 H5 H6 H7].
  destruct (H7 _ eq_refl) as [_ Hn].
  set (s1 := stop_timer (q_id qp) s) in *. unfold ip_free. fold s1.
  set (s2 := s1 <| ipqueue ::= filter (fun q => q_id q <> q_id qp) |>).
  destruct (release_fragments_out (q_fragments qp) s2) as (Eq & _ & _ & Et & _).
  pose proof (release_fragments_next (q_fragments qp) s2) as En.
  assert (forall id, id ∈ q_id <$> ipqueue s2 <-> id ∈ q_id <$> ipqueue s1 /\ id <> q_id qp) as Hids.
  { intros id. rewrite !list_elem_of_fmap. unfold s2. cbn. split.
    - intros (q & -> & [Hq1 Hq2]%list_elem_of_filter). split; [by exists q | done].
    - intros [(q & -> & Hq) Hne]. exists q. split; [done |]. by apply list_elem_of_filter. }
  constructor; unfold running; rewrite ?Et, ?Eq, ?En; try done.
  - apply (sublist_NoDup _ (q_id <$> ipqueue s1)); [done |]. unfold s2. cbn.
    apply fmap_sublist, sublist_filter.
  - rewrite Forall_app in H4 |- *. destruct H4 as [H4 H4']. split; [done |].
    rewrite Forall_forall in H4' |- *. intros id [Hid _]%Hids. by apply H4'.
  - intros y Hy Hye. destruct (H5 y Hy Hye) as (? & ? & Hyi). split_and!; try done.
    apply Hids. split; [done |]. intros E. apply Hn. rewrite <- E. by apply elem_of_ids.
  - intros id [Hid Hne]%Hids _. apply H6; [done | congruence].
Qed.

Lemma ip_glue_timed qp s r s' :
  timed_but None s -> q_id qp ∈ q_id <$> ipqueue s -> ip_glue qp s = Some (r, s') -> timed_but None s'.
Proof.
  intros H Hin. unfold ip_glue.
  pose proof (alloc_skb_timed None (sizeof_sk_buff + q_maclen qp + q_ihlen qp + q_len qp) s H) as Ha.
  destruct (alloc_skb _ s) as [skb s1]. destruct Ha as [H1 Eq].
  assert (timed_but None (ip_free qp s1)) as Hf by (apply (ip_free_timed None); [done | by left | by rewrite Eq]).
  destruct skb as [skb |]; [| by intros [= _ <-]].
  destruct (memcpy _ 0 _ 0 _) as [d1 |]; [| done]. cbn [mbind option_bind].
  destruct (memcpy d1 _ _ 0 _) as [d2 |]; [| done]. cbn [mbind option_bind].
  destruct (glue_fragments _ _ _ d2 0); [by intros [= _ <-] | | done].
  intros [= _ <-]. by apply (timed_same None (ip_free qp s1)).
Qed.

Lemma set_ipq_ids qp s : q_id <$> ipqueue (set_ipq qp s) = q_id <$> ipqueue s.
Proof.
  unfold set_ipq. cbn. induction (ipqueue s) as [| q l IH]; [done |]. cbn. rewrite IH.
  by destruct (decide (q_id q = q_id qp)) as [-> |].
Qed.

Lemma ip_defrag_queue_timed qp p offset flags skb dev s r s' :
  timed_but None s -> q_id qp ∈ q_id <$> ipqueue s ->
  ip_defrag_queue qp p offset flags skb dev s = Some (r, s') -> timed_but None s'.
Proof.
  intros H Hin. unfold ip_defrag_queue.
  set (q' := if _ =? 0 then _ else qp).
  assert (q_id q' = q_id qp) as Hid by (unfold q'; by destruct (_ =? 0)). clearbody q'.
  destruct (frag_position _ _) as [before next]. destruct (skip_overlap _ _) as [next' |]; [| done].
  cbn [mbind option_bind]. unfold ip_frag_create.
  pose proof (kmalloc_timed None s H) as Hk. destruct (kmalloc s) as [a s1]. destruct Hk as (H1 & _ & Eq & _).
  destruct a as [a |]; [| done]. cbn [fmap option_fmap option_map mbind option_bind].
  set (q1 := q' <| q_fragments := _ |>).
  assert (q_id <$> ipqueue (set_ipq q1 s1) = q_id <$> ipqueue s) as Eids by (by rewrite set_ipq_ids, Eq).
  assert (timed_but None (set_ipq q1 s1)) as H2
    by (apply (timed_same None s1); [done | done | by rewrite Eids, Eq | done]).
  destruct (ip_done q1); [| by intros [= _ <-]].
  apply ip_glue_timed; [done |]. rewrite Eids. cbn. by rewrite Hid.
Qed.

Lemma ip_create_timed skb p dev s qp s' :
  timed_but None s -> ip_create skb p dev s = (qp, s') ->
  timed_but None s' /\ (forall q, qp = Some q -> q_id q ∈ q_id <$> ipqueue s').
Proof.
  intros H. unfold ip_create.
  pose proof (kmalloc_timed None s H) as Hk. destruct (kmalloc s) as [a s1].
  destruct Hk as (H1 & Et1 & Eq1 & Hn1 & Hfresh). destruct a as [id |]; [| by intros [= <- <-]].
  pose proof (kmalloc_timed None s1 H1) as Hk. destruct (kmalloc s1) as [b s2].
  destruct Hk as (H2 & Et2 & Eq2 & Hn2 & _). destruct b; [| by intros [= <- <-]].
  pose proof (kmalloc_timed None s2 H2) as Hk. destruct (kmalloc s2) as [c s3].
  destruct Hk as (H3 & Et3 & Eq3 & Hn3 & _). destruct c; [| by intros [= <- <-]].
  specialize (Hfresh id eq_refl). intros [= <- <-].
  assert (id ∉ (e_id <$> running s3) ++ (q_id <$> ipqueue s3)) as Hni.
  { unfold running. rewrite Et3, Et2, Et1, Eq3, Eq2, Eq1. pose proof (td_fresh _ _ H) as Hf.
    rewrite Forall_forall in Hf. intros Hin%Hf. lia. }
  apply not_elem_of_app in Hni as [Hni1 Hni2].
  split; [| intros q [= <-]; by left].
  set (q := mk_ipq id _ _ _ _ _ _ _).
  assert (timed_but (Some id) (s3 <| ipqueue ::= cons q |>)) as H4.
  { destruct H3 as [G1 G2 G3 G4 G5 G6 G7]. constructor; try done.
    - cbn. by apply NoDup_cons.
    - cbn. rewrite Forall_app in G4 |- *. destruct G4 as [G4 G4']. split; [done |].
      constructor; [cbn; lia | done].
    - intros y Hy Hye. destruct (G5 y Hy Hye) as (? & ? & ?). split_and!; [done | done |]. by right.
    - intros id' [-> | Hid]%elem_of_cons Hne; [done |]. by apply G6.
    - intros ? [= <-]. split; [by left | done]. }
  apply start_timer_timed in H4. done.
Qed.

(** Whatever packet arrives. *)
Lemma ip_defrag_timed p skb dev s r s' :
  timed_but None s -> ip_defrag p skb dev s = Some (r, s') -> timed_but None s'.
Proof.
  intros H. unfold ip_defrag, ip_find.
  destruct (list_find _ (ipqueue s)) as [[n qp] |] eqn:E.
  - apply list_find_Some in E as (Hn & _ & _). apply list_elem_of_lookup_2 in Hn.
    assert (q_id qp ∈ q_id <$> ipqueue s) as Hin by (by apply list_elem_of_fmap_2).
    pose proof (stop_timer_timed None _ s H ltac:(by left) Hin) as H1.
    split_if.
    + intros [= _ <-]. apply (ip_free_timed (Some (q_id qp))); [done | by right | done].
    + apply ip_defrag_queue_timed; [| done]. apply start_timer_timed.
      apply (stop_timer_timed (Some (q_id qp))); [done | by right | done].
  - split_if; [by intros [= _ <-] |].
    destruct (ip_create skb p dev s) as [qp s1] eqn:Ec.
    destruct (ip_create_timed _ _ _ _ _ _ H Ec) as [H1 Hin].
    destruct qp as [qp |]; [| by intros [= _ <-]].
    apply ip_defrag_queue_timed; [done | by apply Hin].
Qed.

(** ** Everything that happens to the queue *)

(** A packet arrives; the timer interrupt counts the first timer down; a timer
    that has come to 0 leaves the list and runs; other timers come and go. *)
Inductive net_step : net -> net -> Prop :=
| step_packet p skb dev r s s' : ip_defrag p skb dev s = Some (r, s') -> net_step s s'
| step_tick t rest s :
    timers s = t :: rest -> 0 < expires t ->
    net_step s (s <| timers := (t <| expires ::= fun e => e - 1 |>) :: rest |>)
| step_expire t rest s s' :
    timers s = t :: rest -> expires t = 0 -> function t = IP_EXPIRE ->
    ip_expire (Z.to_nat (data t)) (s <| timers := rest |>) = Some s' -> net_step s s'
| step_other_fires t rest s :
    timers s = t :: rest -> expires t = 0 -> function t <> IP_EXPIRE -> net_step s (s <| timers := rest |>)
| step_other_starts t s :
    t_id t = next_addr s -> function t <> IP_EXPIRE -> 0 <= expires t < 2 ^ 32 ->
    net_step s (s <| timers ::= add_timer (Some t) |> <| next_addr ::= S |>)
| step_other_stops id s :
    (forall y, y ∈ running s -> e_id y = id -> ~ is_expiry y) -> id ∉ q_id <$> ipqueue s ->
    net_step s (stop_timer id s).

(** A timer that fires names an entry of the queue. *)
Lemma expiry_pops s t rest :
  timed_but None s -> timers s = t :: rest -> function t = IP_EXPIRE -> expires t = 0 ->
  Z.to_nat (data t) ∈ q_id <$> ipqueue s /\ timed_but (Some (Z.to_nat (data t))) (s <| timers := rest |>).
Proof.
  intros [H1 H2 H3 H4 H5 H6 H7] Et Hf He.
  assert (running s = (0, payload t) :: running (s <| timers := rest |>)) as Er.
  { unfold running. rewrite Et. cbn. by rewrite He. }
  destruct (H5 (0, payload t)) as (_ & Hd & Hin); [rewrite Er; by left | done |].
  cbn in Hd, Hin. rewrite Hd, Nat2Z.id in *. split; [done |]. rewrite Et in H1.
  apply list_ok_cons in H1 as (_ & _ & _ & H1).
  rewrite Er in H2, H4. cbn [fmap list_fmap] in H2, H4. apply NoDup_cons in H2 as [Hn H2].
  constructor; try done.
  - cbn [app] in H4. apply Forall_cons in H4 as [_ H4]. done.
  - intros y Hy. apply H5. rewrite Er. by right.
  - intros id Hid Hne. destruct (H6 id Hid) as (y & Hy & Hyid & Hye); [done |].
    rewrite Er in Hy. apply elem_of_cons in Hy as [-> | Hy]; [| by exists y].
    destruct Hne. by rewrite <- Hyid.
  - intros ? [= <-]. done.
Qed.

Lemma ip_expire_finds id s : id ∈ q_id <$> ipqueue s -> is_Some (ip_expire id s).
Proof.
  intros (q & -> & Hq)%list_elem_of_fmap. unfold ip_expire.
  destruct (list_find _ _) as [[n x] |] eqn:E; [by eexists |].
  apply list_find_None in E. rewrite Forall_forall in E. by destruct (E q Hq).
Qed.

(** The timers of others do not matter. *)
Lemma other_starts_timed t s :
  timed_but None s -> t_id t = next_addr s -> function t <> IP_EXPIRE -> 0 <= expires t < 2 ^ 32 ->
  timed_but None (s <| timers ::= add_timer (Some t) |> <| next_addr ::= S |>).
Proof.
  intros [H1 H2 H3 H4 H5 H6 H7] Hid Hf He. set (s' := _ <| next_addr ::= S |>).
  destruct (add_timer_deadlines t 0 (timers s) H1 He) as (Hok & _ & E).
  assert (running s' ≡ₚ (expires t, payload t) :: running s) as Hp.
  { unfold running, s'. cbn [upd timers add_timer]. rewrite E. apply spec_insert_perm. }
  rewrite Forall_forall in H4. constructor; try done.
  - rewrite Hp. cbn. apply NoDup_cons. split; [| done]. intros Hin.
    assert (next_addr s < next_addr s)%nat; [| lia]. apply H4, elem_of_app. left.
    unfold e_id at 1 in Hin. cbn in Hin. by rewrite Hid in Hin.
  - rewrite Hp. cbn. constructor; [unfold e_id; cbn; lia |]. apply Forall_forall.
    intros n Hn. specialize (H4 n Hn). lia.
  - intros y. rewrite Hp. intros [-> | Hy]%elem_of_cons; [done | by apply H5].
  - intros id Hin Hne. destruct (H6 id Hin Hne) as (y & Hy & Hyid).
    exists y. split; [rewrite Hp; by right | done].
Qed.

Lemma other_stops_timed id s :
  timed_but None s -> (forall y, y ∈ running s -> e_id y = id -> ~ is_expiry y) ->
  timed_but None (stop_timer id s).
Proof.
  intros [H1 H2 H3 H4 H5 H6 H7] Hno. destruct (stop_timer_running id s H1) as [Hok Hrun].
  destruct Hrun as [[E _] | (y & Hy & Hp)]; [constructor; rewrite ?E; done |].
  constructor; try done.
  - rewrite Hp in H2. cbn in H2. by apply NoDup_cons in H2 as [_ H2].
  - rewrite Hp in H4. cbn in H4. by apply Forall_cons in H4 as [_ H4].
  - intros z Hz. apply H5. rewrite Hp. by right.
  - intros id' Hin Hne. destruct (H6 id' Hin Hne) as (z & Hz & Hzid & Hze).
    rewrite Hp in Hz. apply elem_of_cons in Hz as [-> | Hz]; [| by exists z].
    destruct (Hno y); [rewrite Hp; by left | done | done].
Qed.

Lemma other_fires_timed t rest s :
  timed_but None s -> timers s = t :: rest -> expires t = 0 -> function t <> IP_EXPIRE ->
  timed_but None (s <| timers := rest |>).
Proof.
  intros H Et He Hf.
  assert (running s = (0, payload t) :: running (s <| timers := rest |>)) as Er.
  { unfold running. rewrite Et. cbn. by rewrite He. }
  destruct H as [H1 H2 H3 H4 H5 H6 H7]. rewrite Et in H1. apply list_ok_cons in H1 as (_ & _ & _ & H1).
  rewrite Er in H2, H4. cbn in H2, H4. apply NoDup_cons in H2 as [_ H2]. apply Forall_cons in H4 as [_ H4].
  constructor; try done.
  - intros y Hy. apply H5. rewrite Er. by right.
  - intros id Hin Hne. destruct (H6 id Hin Hne) as (y & Hy & Hyid & Hye).
    rewrite Er in Hy. apply elem_of_cons in Hy as [-> | Hy]; [done | by exists y].
Qed.

Lemma deadlines_tick t rest :
  deadlines 0 ((t <| expires ::= fun e => e - 1 |>) :: rest)
  = (fun y => (y.1 - 1, y.2)) <$> deadlines 0 (t :: rest).
Proof.
  cbn [deadlines fmap list_fmap fst snd]. f_equal. rewrite !Z.add_0_l.
  cbn [upd expires]. generalize (expires t). clear.
  induction rest as [| p rest IH]; intros e; cbn; [done |]. f_equal; [f_equal; lia |].
  rewrite <- IH. f_equal. lia.
Qed.

Lemma tick_timed t rest s :
  timed_but None s -> timers s = t :: rest -> 0 < expires t ->
  timed_but None (s <| timers := (t <| expires ::= fun e => e - 1 |>) :: rest |>).
Proof.
  intros H Et He. set (s' := s <| timers := _ |>).
  assert (running s' = (fun y => (y.1 - 1, y.2)) <$> running s) as Er.
  { unfold running. rewrite Et. apply deadlines_tick. }
  assert (e_id <$> running s' = e_id <$> running s) as Ei
    by (rewrite Er, <- list_fmap_compose; done).
  destruct H as [H1 H2 H3 H4 H5 H6 H7]. constructor; rewrite ?Ei; try done.
  - rewrite Et in H1. change (timers s') with ((t <| expires ::= fun e => e - 1 |>) :: rest).
    rewrite list_ok_cons in H1 |- *. cbn [expires upd].
    destruct H1 as (? & ? & ? & ?). split_and!; done || lia.
  - intros y. rewrite Er. intros (z & -> & Hz)%list_elem_of_fmap Hye. cbn.
    destruct (H5 z Hz Hye) as (? & ? & ?). split_and!; [lia | done | done].
  - intros id Hin Hne. destruct (H6 id Hin Hne) as (z & Hz & Hzid & Hze).
    exists (z.1 - 1, z.2). split; [rewrite Er; by apply (list_elem_of_fmap_2 (fun y => (y.1 - 1, y.2))) | done].
Qed.

Lemma net_step_timed s s' : timed_but None s -> net_step s s' -> timed_but None s'.
Proof.
  intros H Hs. destruct Hs.
  - by eapply ip_defrag_timed.
  - by apply tick_timed.
  - destruct (expiry_pops _ _ _ H H0 H2 H1) as [Hin Hb]. unfold ip_expire in H3.
    destruct (list_find _ _) as [[n qp] |] eqn:E; [| done]. injection H3 as <-.
    apply list_find_Some in E as (Hn & Harg & _). apply list_elem_of_lookup_2 in Hn.
    rewrite <- Harg in Hb. set (s1 := match q_fragments qp with [] => _ | _ => _ end).
    assert (timed_but (Some (q_id qp)) s1 /\ ipqueue s1 = ipqueue s) as [H1' Eq].
    { unfold s1. destruct (q_fragments qp); [done |]. split; [| done]. by eapply timed_same. }
    apply (ip_free_timed (Some (q_id qp))); [done | by right |]. rewrite Eq. by apply list_elem_of_fmap_2.
  - by eapply other_fires_timed.
  - by apply other_starts_timed.
  - by apply other_stops_timed.
Qed.

(** C7: Whatever packets arrive, an incomplete datagram never stays for ever
    and is never given up twice: from a state in which every entry of the queue
    has its timer, in every interleaving of packets, clock ticks and other
    timers, every entry has a running timer that is due within [IP_FRAG_TIME]
    ticks, every timer of [ip_expire] belongs to an entry, and when one fires
    [ip_expire] finds the entry that it names. *)
Theorem fragment_timers s0 s :
  timed_but None s0 -> rtc net_step s0 s ->
  (forall q, q ∈ ipqueue s -> exists y, y ∈ running s /\ e_id y = q_id q /\ is_expiry y /\ y.1 <= IP_FRAG_TIME) /\
  (forall y, y ∈ running s -> is_expiry y -> e_id y ∈ q_id <$> ipqueue s) /\
  (forall t rest, timers s = t :: rest -> expires t = 0 -> function t = IP_EXPIRE ->
     is_Some (ip_expire (Z.to_nat (data t)) (s <| timers := rest |>))).
Proof.
  intros H0 Hrtc. assert (timed_but None s) as H.
  { induction Hrtc as [| s s1 s2 Hs _ IH]; [done |]. apply IH. by eapply net_step_timed. }
  split_and!.
  - intros q Hq. destruct (td_timed _ _ H (q_id q)) as (y & Hy & Hid & He);
      [by apply list_elem_of_fmap_2 | done |].
    exists y. split_and!; try done. by apply (td_entry _ _ H y).
  - intros y Hy He. by apply (td_entry _ _ H y).
  - intros t rest Et He Hf. apply ip_expire_finds. cbn. by apply (expiry_pops s t rest H Et Hf He).
Qed.

(** * Examples *)

Definition demo_slip : device := mk_dev 3 "sl0" (Z.lor IFF_UP IFF_POINTOPOINT) 2 0 296 0 0x04030201 0 0 0 [].

(** A fragment of datagram 7 from 1.2.3.4 to 5.6.7.8, at [off] and with or
    without more behind it. *)
Definition demo_packet (id : nat) (off : Z) (more : bool) (data : list Z) : sk_buff :=
  let len := 20 + zlen data in
  let fo := off / 8 + (if more then IP_MF else 0) in
  let b := [0x45; 0; len / 256; len mod 256; 0; 7; fo / 256; fo mod 256; 64; 17; 0; 0; 1; 2; 3; 4; 5; 6; 7; 8] ++ data in
  mk_skb id b (zlen b) 0 0 1 None.

Definition demo_net : net := mk_net [] [] ∅ [] 100 [].

Definition demo_run (pkts : list sk_buff) : option (list (option sk_buff) * net) :=
  deliver ((fun skb => mk_arrival skb 0 demo_slip 0) <$> pkts) demo_net.

(** What the calls return: the payload that is delivered, if any. *)
Definition demo_results (pkts : list sk_buff) : option (list (option (list Z))) :=
  option_map (fun r => map (option_map (fun skb => drop 20 (sk_data skb))) (fst r)) (demo_run pkts).

Definition demo_bytes (n : nat) (x : Z) : list Z := replicate n x.

(** A fragment that lies inside the one before it ("teardrop"): [offset] is
    moved past [end], the length is negative, and [ip_glue] copies it. *)
Example teardrop :
  demo_results [demo_packet 1 0 true (demo_bytes 64 1); demo_packet 2 24 false (demo_bytes 8 2)] = None.
Proof. by vm_compute. Qed.

(** A fragment that overlaps a part of its successor: the rest of the successor
    drops out of the chain, which then counts as complete.  Of 40 bytes 24 are
    copied, and the rest of the new buffer is never written. *)
Example overlap_truncates :
  demo_results [demo_packet 1 16 false (demo_bytes 24 1); demo_packet 2 0 true (demo_bytes 24 2)]
  = Some [None; Some (demo_bytes 24 2 ++ demo_bytes 16 0)].
Proof. by vm_compute. Qed.

(** A fragment that covers the last one of the chain: [tfp] is NULL when
    [tfp->next] is read. *)
Example covering_last_faults :
  demo_results [demo_packet 1 16 true (demo_bytes 8 1); demo_packet 2 8 true (demo_bytes 24 2)] = None.
Proof. by vm_compute. Qed.

(** Fragments behind the final one are copied past the end of the buffer. *)
Example glue_overruns :
  demo_results [demo_packet 1 8 false (demo_bytes 8 1); demo_packet 2 16 true (demo_bytes 40 2);
    demo_packet 3 0 true (demo_bytes 8 3)] = None.
Proof. by vm_compute. Qed.

Definition demo_chunks : list (list Z) := [demo_bytes 8 1; demo_bytes 16 2; demo_bytes 3 3].
Definition demo_arrival (id k : nat) : arrival :=
  mk_arrival (demo_packet id (chunk_offset demo_chunks k) (bool_decide (k < 2)%nat) (default [] (demo_chunks !! k)))
    0 demo_slip k.

Lemma demo_carries id k :
  (k < 3)%nat -> carries demo_chunks (ip_key (sk_data (a_skb (demo_arrival 0 0))) 0) (demo_arrival id k).
Proof.
  intros Hk. exists (default [] (demo_chunks !! k)). destruct k as [| [| [| k]]]; [.. | lia].
  all: split_and!; try (vm_compute; first [reflexivity | discriminate]).
  all: vm_compute; split; first [reflexivity | discriminate].
Qed.

Lemma ip_defrag_reassembles_witness :
  let arr := [demo_arrival 1 2; demo_arrival 2 0; demo_arrival 3 0] in
  exists s1 skb s2,
    deliver arr demo_net = Some ([None; None; None], s1) /\
    ip_defrag 0 (a_skb (demo_arrival 4 1)) demo_slip s1 = Some (Some skb, s2) /\
    drop 20 (sk_data skb) = demo_bytes 8 1 ++ demo_bytes 16 2 ++ demo_bytes 3 3.
Proof.
  intros arr.
  assert (Forall (carries demo_chunks (ip_key (sk_data (a_skb (demo_arrival 0 0))) 0)) (arr ++ [demo_arrival 4 1]))
    as Hc by (repeat constructor; apply demo_carries; lia).
  assert (covers demo_chunks (arr ++ [demo_arrival 4 1])) as Hcov.
  { intros k Hk. cbn in Hk. assert (k = 0 \/ k = 1 \/ k = 2)%nat as [-> | [-> | ->]] by lia;
      cbn; in_list. }
  assert (~ covers demo_chunks arr) as Hncov.
  { intros H. specialize (H 1%nat ltac:(cbn; lia)). apply list_elem_of_In in H. cbn in H. intuition discriminate. }
  assert (Forall (fun c => c <> []) demo_chunks) as Hne by (repeat constructor; discriminate).
  destruct (ip_defrag_reassembles demo_chunks _ arr (demo_arrival 4 1) demo_net ltac:(cbn; lia) Hne
    ltac:(vm_compute; reflexivity) Hc Hcov Hncov ltac:(constructor) ltac:(reflexivity) ltac:(constructor))
    as (s1 & skb & s2 & H1 & H2 & H3 & _).
  exists s1, skb, s2. split; [exact H1 |]. split; [exact H2 |]. rewrite H3. by vm_compute.
Defined.

Lemma demo_net_timed : timed_but None demo_net.
Proof.
  constructor; try done; try (constructor; fail); try (intros ? H; by apply elem_of_nil in H).
Qed.

Lemma fragment_timers_witness :
  exists s, rtc net_step demo_net s /\ length (ipqueue s) = 1%nat /\
    (forall q, q ∈ ipqueue s -> exists y, y ∈ running s /\ e_id y = q_id q /\ is_expiry y /\ y.1 <= IP_FRAG_TIME).
Proof.
  set (pkt := demo_packet 1 0 true (demo_bytes 8 1)).
  destruct (ip_defrag 0 pkt demo_slip demo_net) as [[r s] |] eqn:E; [| by vm_compute in E].
  exists s. assert (rtc net_step demo_net s) as Hr by (eapply rtc_once, step_packet, E).
  split; [exact Hr |]. split; [| exact (proj1 (fragment_timers demo_net s demo_net_timed Hr))].
  clear Hr. vm_compute in E. by injection E as _ <-.
Defined.
