(* ===== verification/Ip.v ===== *)
(** The IP layer (net/inet/ip.c): sending ([ip_queue_xmit], [ip_fragment],
    [ip_build_header]), forwarding, receiving and retransmission, over the
    queue of [Ipfrag] and the routes of [Route]. *)

From S2P Require Import Prelude Errno Task Timer Csum Route Ipfrag.

(** net/inet/sock.h:315-315 [TIME_WRITE] *)
Definition TIME_WRITE := 1.
(** include/linux/socket.h:53-79 *)
Definition SOL_IP := 0.
Definition IP_TOS := 1.
Definition IP_TTL := 2.
(** include/linux/socket.h:93-93 [SOPRI_NORMAL] *)
Definition SOPRI_NORMAL := 1.
(** include/linux/in.h:33-33 [IPPROTO_RAW] *)
Definition IPPROTO_RAW := 255.
(** net/inet/protocol.h:24-24 [MAX_INET_PROTOS] *)
Definition MAX_INET_PROTOS := 32.

(** A socket is changed in place. *)
Definition set_sock (sk : nat) (f : sock -> sock) (s : net) : net := s <| socks ::= alter f sk |>.

(** ** Fragmentation *)

Section fragment.
(** [ip_queue_xmit] of a fragment. *)
Context (queue_xmit : sk_buff -> net -> option net).

(** net/inet/ip.c:1125-1160 one fragment: the headers of [raw], [len] bytes of
    its data from [ptr] on, and the new [frag_off] *)
Definition fragment_data (raw : list Z) (hhl hlen ptr len offset : Z) (more : bool) (data : list Z) : option (list Z) :=
  data ← memcpy data 0 raw 0 hlen;
  data ← memcpy data hlen raw ptr len;
  let data := st16 data (hhl + 6) (htons (u16 (Z.shiftr offset 3))) in
  Some (if more then st16 data (hhl + 6) (Z.lor (ld16 data (hhl + 6)) (htons IP_MF)) else data).

(** net/inet/ip.c:1098-1168 the loop of [ip_fragment]: [left] bytes to go from
    [ptr] on, which are at [offset] of the datagram *)
Fixpoint fragment_loop (fuel : nat) (sk : option nat) (skb : sk_buff) (is_frag hhl hlen mtu left ptr offset : Z)
    (s : net) : option net :=
  match fuel with
  | O => None
  | S fuel =>
      if 0 <? left then
        let len := if mtu <? left then mtu else left in
        let len := if len <? left then Z.quot len 8 * 8 else len in
        let '(skb2, s) := alloc_skb (sizeof_sk_buff + len + hlen) s in
        match skb2 with
        | None => Some s
        | Some skb2 =>
            let skb2 := skb2 <| sk_arp := sk_arp skb |> <| sk_free := sk_free skb |> <| sk_len := u32 (len + hlen) |> in
            let s := match sk with
                     | Some sk => set_sock sk (fun x => x <| wmem_alloc ::= fun w => u32 (w + (sizeof_sk_buff + len + hlen)) |>) s
                     | None => s
                     end in
            let left := left - len in
            data ← fragment_data (sk_data skb) hhl hlen ptr len offset ((0 <? left) || flag is_frag 1) (sk_data skb2);
            s ← queue_xmit (skb2 <| sk_data := data |> <| h_raw := hhl |>) s;
            fragment_loop fuel sk skb is_frag hhl hlen mtu left (ptr + len) (offset + len) s
        end
      else Some s
  end.

(** net/inet/ip.c:1048-1169 [ip_fragment]; a pass of the loop sends 8 bytes, or
    it goes on for ever *)
Definition ip_fragment (sk : option nat) (skb : sk_buff) (dev : device) (is_frag : Z) (s : net) : option net :=
  let raw := sk_data skb in
  let hhl := hard_header_len dev in
  let hlen := ip_ihl raw hhl * 4 in
  let left := ntohs (ip_tot_len raw hhl) - hlen in
  let hlen := hlen + hhl in
  let mtu := d_mtu dev - hlen in
  let fo := ntohs (ip_frag_off raw hhl) in
  if flag fo IP_DF then Some (emit (Icmp ICMP_DEST_UNREACH ICMP_FRAG_NEEDED raw (d_id dev)) s)
  else
    let offset := if flag is_frag 2 then Z.shiftl (Z.land fo 0x1fff) 3 else 0 in
    fragment_loop (S (Z.to_nat left)) sk skb is_frag hhl hlen mtu left hlen offset s.
End fragment.

(** ** Sending *)

(** net/inet/ip.c:1570-1579 the frame goes to the device, if it is up *)
Definition kick_device (sk : option nat) (dev : device) (skb : sk_buff) (free : Z) (s : net) : net :=
  if flag (d_flags dev) IFF_UP then
    let pri := match sk with
               | Some sk => default SOPRI_NORMAL (sk_priority <$> socks s !! sk)
               | None => SOPRI_NORMAL
               end in
    emit (Xmit (d_id dev) (sk_data skb) pri) s
  else if ctrue free then kfree_skb skb s else s.

(** net/inet/ip.c:1546-1567 a buffer that is kept joins the queue of its
    socket; the others are charged to it *)
Definition queue_on_sock (sk : option nat) (skb : sk_buff) (free : Z) (s : net) : net :=
  match sk with
  | Some id =>
      if ctrue free then s
      else
        let s := set_sock id (fun x => x <| packets_out ::= fun n => u16 (n + 1) |> <| send_list ::= fun l => l ++ [skb] |>) s in
        emit (ResetTimer id TIME_WRITE (default 0 (rto <$> socks s !! id))) s
  | None => s
  end.

(** net/inet/ip.c:1502-1580 [ip_queue_xmit]; a fragment fits the device, so a
    second level of calls is the last *)
Fixpoint ip_queue_xmit (fuel : nat) (sk : option nat) (dev : option device) (skb : sk_buff) (free : Z) (s : net) :
    option net :=
  match fuel, dev with
  | O, _ => None
  | S _, None => Some s
  | S fuel, Some dev =>
      let free := match sk with None => 1 | Some _ => free end in
      let hhl := hard_header_len dev in
      let data := st16 (sk_data skb) (hhl + 2) (ntohs (u16 (sk_len skb - hhl))) in
      let skb := skb <| sk_free := free |> <| sk_data := data |> in
      if d_mtu dev <? sk_len skb then
        s ← ip_fragment (fun skb2 => ip_queue_xmit fuel sk (Some dev) skb2 1) sk skb dev 0 s;
        Some (kfree_skb skb s)
      else
        let skb := skb <| sk_data := ip_send_check data hhl |>
                       <| sk_sock := (if ctrue free then sk else sk_sock skb) |> in
        Some (kick_device sk dev skb free (queue_on_sock sk skb free s))
  end.

(** Enough fuel: the datagram and its fragments. *)
Definition xmit_fuel : nat := 2.

Section link.
(** The link layer: what [dev->hard_header] makes of a buffer, and its result,
    negative when the address is not known yet ([None]: the device has none);
    whether [dev->rebuild_header] fails. *)
Context (hard_header : nat -> option (list Z -> Z -> Z -> Z -> list Z * Z))
  (rebuild_header : nat -> list Z -> list Z * bool).

(** net/inet/ip.c:188-208 [ip_send] *)
Definition ip_send (skb : sk_buff) (daddr len : Z) (dev : device) (saddr : Z) : Z * sk_buff :=
  let '(data, mac) :=
    match hard_header (d_id dev) with
    | Some hh => hh (sk_data skb) daddr saddr len
    | None => (sk_data skb, 0)
    end in
  let skb := skb <| sk_data := data |> in
  if mac <? 0 then (- mac, skb <| sk_arp := 0 |>) else (mac, skb <| sk_arp := 1 |>).

(** net/inet/ip.c:277-286 the fields of a new header at [p]; the length and the
    checksum are filled in when it is sent *)
Definition build_iphdr (data : list Z) (p type daddr saddr tos ttl ident : Z) : list Z :=
  let data := st8 data p 0x45 in
  let data := st8 data (p + 1) tos in
  let data := st16 data (p + 6) 0 in
  let data := st8 data (p + 8) ttl in
  let data := st32 data (p + 16) daddr in
  let data := st32 data (p + 12) saddr in
  let data := st8 data (p + 9) type in
  st16 data (p + 4) (htons (u16 ident)).

(** net/inet/ip.c:220-294 [ip_build_header] with the counter [ident]: the
    result, the buffer, the device, the source address and the counter *)
Definition ip_build_header (skb : sk_buff) (saddr daddr : Z) (dev : option device) (type len tos ttl ident : Z)
    (s : inet) : Z * (sk_buff * option device * Z * Z * inet) :=
  let saddr := if saddr =? 0 then my_addr (dev_base s) else saddr in
  let '(rt, s) := rt_route daddr s in
  match dev, rt with
  | None, None => (- ENETUNREACH, (skb, dev, saddr, ident, s))
  | _, _ =>
      let raddr := match rt with Some rt => rt_gateway rt | None => 0 end in
      let '(d, saddr) :=
        match dev, rt with
        | Some d, _ => (d, saddr)
        | None, Some rt =>
            let d := dev_of s (rt_dev rt) in
            (d, if (saddr =? 0x0100007F) && negb (daddr =? 0x0100007F) then pa_addr d else saddr)
        | None, None => (no_dev, saddr)
        end in
      let raddr := if raddr =? 0 then daddr else raddr in
      let '(tmp, skb) := ip_send skb raddr len d saddr in
      if type =? IPPROTO_RAW then (tmp, (skb, Some d, saddr, ident, s))
      else
        let skb := skb <| sk_data ::= fun b => build_iphdr b tmp type daddr saddr tos ttl ident |> in
        (20 + tmp, (skb, Some d, saddr, s32 (ident + 1), s))
  end.

(** ** Forwarding *)

(** net/inet/ip.c:1223-1252 the next hop: its address and the route to it *)
Definition next_hop (daddr : Z) (s : inet) : (Z + (Z * rtable)) * inet :=
  match rt_route daddr s with
  | (None, s) => (inl ICMP_NET_UNREACH, s)
  | (Some rt, s) =>
      if ctrue (rt_gateway rt) then
        match rt_route (rt_gateway rt) s with
        | (None, s) => (inl ICMP_HOST_UNREACH, s)
        | (Some rt2, s) =>
            (inr (if ctrue (rt_gateway rt2) then rt_gateway rt2 else rt_gateway rt, rt2), s)
        end
      else (inr (daddr, rt), s)
  end.

(** net/inet/ip.c:1265-1294 the copy of the datagram goes out *)
Definition forward_copy (skb : sk_buff) (raddr : Z) (dev2 : device) (is_frag : Z) (s : net) : option net :=
  if flag (d_flags dev2) IFF_UP then
    let hhl := hard_header_len dev2 in
    let '(skb2, s) := alloc_skb (sizeof_sk_buff + hhl + sk_len skb) s in
    match skb2 with
    | None => Some s
    | Some skb2 =>
        let skb2 := skb2 <| sk_free := 1 |> <| sk_len := u32 (sk_len skb + hhl) |> in
        data ← memcpy (sk_data skb2) hhl (sk_data skb) (h_raw skb) (sk_len skb);
        let '(_, skb2) := ip_send (skb2 <| sk_data := data |>) raddr (sk_len skb) dev2 (pa_addr dev2) in
        if d_mtu dev2 <? sk_len skb2 then
          s ← ip_fragment (fun f => ip_queue_xmit xmit_fuel None (Some dev2) f 1) None skb2 dev2 is_frag s;
          Some (kfree_skb skb2 s)
        else Some (emit (Xmit (d_id dev2) (sk_data skb2) SOPRI_NORMAL) s)
    end
  else Some s.

(** net/inet/ip.c:1178-1295 [ip_forward] *)
Definition ip_forward (skb : sk_buff) (dev : device) (is_frag : Z) (s : net) (r : inet) : option (net * inet) :=
  let n := length (dev_addr dev) in
  if flag (d_flags dev) IFF_PROMISC && negb (bool_decide (bytes_at n (sk_data skb) 0 = dev_addr dev)) then Some (s, r)
  else
    let p := h_raw skb in
    let data := st8 (sk_data skb) (p + 8) (ip_ttl (sk_data skb) p - 1) in
    let skb := skb <| sk_data := data |> in
    if ip_ttl data p <=? 0 then Some (emit (Icmp ICMP_TIME_EXCEEDED ICMP_EXC_TTL data (d_id dev)) s, r)
    else
      let skb := skb <| sk_data ::= fun b => ip_send_check b p |> in
      let '(hop, r) := next_hop (ip_daddr data p) r in
      match hop with
      | inl code => Some (emit (Icmp ICMP_DEST_UNREACH code (sk_data skb) (d_id dev)) s, r)
      | inr (raddr, rt) =>
          if bool_decide (rt_dev rt = d_id dev) then Some (s, r)
          else s ← forward_copy skb raddr (dev_of r (rt_dev rt)) is_frag s; Some (s, r)
      end.

(** ** Receiving *)

(** net/inet/protocol.h:33-56 [struct inet_protocol] *)
Record inet_protocol := mk_proto { p_handler : nat; p_protocol : Z; p_copy : bool }.

(** net/inet/ip.c:1400-1456 the handlers of the protocol; a copy is made for
    all that ask for one *)
Fixpoint deliver_protocols (protos : list inet_protocol) (skb : sk_buff) (p : Z) (s : net) : bool * net :=
  match protos with
  | [] => (false, s)
  | pr :: protos =>
      let b := sk_data skb in
      if negb (p_protocol pr =? ip_protocol b p) then deliver_protocols protos skb p s
      else
        let '(skb2, s) :=
          if p_copy pr then
            let '(a, s) := kmalloc s in ((fun id => skb <| sk_id := id |> <| sk_free := 1 |>) <$> a, s)
          else (Some skb, s) in
        match skb2 with
        | None => deliver_protocols protos skb p s
        | Some skb2 =>
            let len := u16 (ntohs (ip_tot_len b p) - ip_ihl b p * 4) in
            let s := emit (Delivered (p_handler pr) skb2 (ip_daddr b p) len (ip_saddr b p)) s in
            (true, snd (deliver_protocols protos skb p s))
        end
  end.

(** net/inet/ip.c:1302-1473 [ip_rcv]; [do_options] returns 0 before it reads any
    option *)
Definition ip_rcv (inet_protos : Z -> list inet_protocol) (skb : sk_buff) (dev : device) (s : net) (r : inet) :
    option (net * inet) :=
  let p := h_raw skb in
  let b := sk_data skb in
  if (sk_len skb <? 20) || (ip_ihl b p <? 5) || negb (ip_version b p =? 4) || ctrue (ip_fast_csum b p (ip_ihl b p))
  then Some (kfree_skb skb s, r)
  else
    let is_frag := if flag (ip_frag_off b p) 0x0020 then 1 else 0 in
    let is_frag := if flag (ntohs (ip_frag_off b p)) 0x1fff then Z.lor is_frag 2 else is_frag in
    let brd := chk_addr (ip_daddr b p) (dev_base r) in
    if brd =? 0 then
      '(s, r) ← ip_forward skb dev is_frag s r;
      Some (kfree_skb skb s, r)
    else
      '(whole, s) ← (if ctrue is_frag then ip_defrag p skb dev s else Some (Some skb, s));
      match whole with
      | None => Some (s, r)
      | Some skb =>
          if brd =? IS_INVBCAST then Some (kfree_skb skb s, r)
          else
            let p := h_raw skb in
            let b := sk_data skb in
            let skb := skb <| h_raw ::= fun h => h + ip_ihl b p * 4 |> in
            let hash := Z.land (ip_protocol b p) (MAX_INET_PROTOS - 1) in
            let '(found, s) := deliver_protocols (inet_protos hash) skb p s in
            if found then Some (s, r)
            else
              let s := if negb (brd =? IS_BROADCAST)
                       then emit (Icmp ICMP_DEST_UNREACH ICMP_PROT_UNREACH b (d_id dev)) s else s in
              Some (kfree_skb skb s, r)
      end.

(** ** Retransmission *)

(** net/inet/ip.c:1594-1640 the loop of [ip_do_retransmit] over the buffers that
    were sent: [devs] gives the device of each, [locked] those that a driver
    holds *)
Fixpoint retransmit_loop (devs : nat -> option device) (locked : nat -> bool) (sk : nat) (all : bool)
    (l : list sk_buff) (s : net) : list sk_buff * net :=
  match l with
  | [] => ([], s)
  | skb :: l =>
      let rest skb s :=
        let s := set_sock sk (fun x => x <| prot_retransmits ::= fun n => u32 (n + 1) |>) s in
        if negb all then (skb :: l, s)
        else if default false ((fun x => cong_window x <? retransmits x) <$> socks s !! sk) then (skb :: l, s)
        else let '(l, s) := retransmit_loop devs locked sk all l s in (skb :: l, s) in
      match devs (sk_id skb) with
      | None => rest skb s
      | Some dev =>
          let '(data, fails) :=
            if ctrue (sk_arp skb) then (sk_data skb, false) else rebuild_header (d_id dev) (sk_data skb) in
          let skb := skb <| sk_data := data |> in
          if fails then
            if negb all then (skb :: l, s)
            else let '(l, s) := retransmit_loop devs locked sk all l s in (skb :: l, s)
          else
            let skb := skb <| sk_arp := 1 |> in
            let s := if flag (d_flags dev) IFF_UP && negb (locked (sk_id skb))
                     then emit (Xmit (d_id dev) data (default SOPRI_NORMAL (sk_priority <$> socks s !! sk))) s else s in
            rest skb s
      end
  end.

(** net/inet/ip.c:1583-1641 [ip_do_retransmit] *)
Definition ip_do_retransmit (devs : nat -> option device) (locked : nat -> bool) (sk : nat) (all : bool) (s : net) : net :=
  let '(l, s) := retransmit_loop devs locked sk all (default [] (send_list <$> socks s !! sk)) s in
  set_sock sk (fun x => x <| send_list := l |>) s.

(** net/inet/ip.c:1651-1673 [ip_retransmit] *)
Definition ip_retransmit (devs : nat -> option device) (locked : nat -> bool) (sk : nat) (all : bool) (s : net) : net :=
  let s := ip_do_retransmit devs locked sk all s in
  let s := set_sock sk (fun x => x <| retransmits ::= fun n => s32 (n + 1) |> <| backoff ::= fun n => u16 (n + 1) |>
                                   <| rto ::= fun r => let r := u32 (Z.shiftl r 1) in if r <? 120 * HZ then r else 120 * HZ |>) s in
  emit (ResetTimer sk TIME_WRITE (default 0 (rto <$> socks s !! sk))) s.
End link.

(** ** Socket options *)

(** net/inet/ip.c:1683-1715 [ip_setsockopt] of the number at [optval]; the two
    options are [(ip_tos, ip_ttl)] *)
Definition ip_setsockopt (level optname : Z) (optval : option Z) (va : Z) (o : Z * Z) : Z * (Z * Z) :=
  match optval with
  | None => (- EINVAL, o)
  | Some val =>
      if ctrue va then (va, o)
      else if negb (level =? SOL_IP) then (- EOPNOTSUPP, o)
      else if optname =? IP_TOS then
        if (val <? 0) || (255 <? val) then (- EINVAL, o) else (0, (val, snd o))
      else if optname =? IP_TTL then
        if (val <? 1) || (255 <? val) then (- EINVAL, o) else (0, (fst o, val))
      else (- ENOPROTOOPT, o)
  end.

(** net/inet/ip.c:1717-1746 [ip_getsockopt]: the result, and the numbers stored
    at [optlen] and [optval] *)
Definition ip_getsockopt (level optname va_len va_val : Z) (o : Z * Z) : Z * option Z * option Z :=
  if negb (level =? SOL_IP) then (- EOPNOTSUPP, None, None)
  else
    let val := if optname =? IP_TOS then Some (fst o) else if optname =? IP_TTL then Some (snd o) else None in
    match val with
    | None => (- ENOPROTOOPT, None, None)
    | Some val =>
        if ctrue va_len then (va_len, None, None)
        else if ctrue va_val then (va_val, Some 4, None)
        else (0, Some 4, Some val)
    end.

(** * Fragmentation *)

Lemma b8_zupd_ne l j v k : k <> j -> b8 (zupd l j v) k = b8 l k.
Proof.
  intros Hne. unfold b8. destruct (Z_lt_dec j 0) as [Hj |].
  - unfold zupd. by destruct (Z.ltb_spec j 0); [| lia].
  - destruct (Z_lt_dec k 0) as [Hk |]; [unfold znth; by destruct (Z.ltb_spec k 0); [| lia] |].
    apply znth_zupd_ne; lia.
Qed.

Lemma b8_st16_ne l j v k : k <> j -> k <> j + 1 -> b8 (st16 l j v) k = b8 l k.
Proof. intros. unfold st16, st8. by rewrite !b8_zupd_ne. Qed.

Lemma ld16_st16_ne l j v k :
  k <> j -> k <> j + 1 -> k + 1 <> j -> ld16 (st16 l j v) k = ld16 l k.
Proof. intros. unfold ld16. rewrite !b8_st16_ne by lia. done. Qed.

Lemma b8_send_check l p k : k <> p + 10 -> k <> p + 11 -> b8 (ip_send_check l p) k = b8 l k.
Proof. intros. unfold ip_send_check. by rewrite !b8_st16_ne by lia. Qed.

Lemma send_check_length l p : length (ip_send_check l p) = length l.
Proof. unfold ip_send_check. by rewrite !st16_length. Qed.

Lemma b8_app_r l k i : zlen l <= i -> b8 (l ++ k) i = b8 k (i - zlen l).
Proof.
  intros Hi. unfold b8, znth, zlen in *. destruct (Z.ltb_spec i 0), (Z.ltb_spec (i - Z.of_nat (length l)) 0); try lia.
  rewrite app_nth2 by lia. f_equal. lia.
Qed.

Lemma b8_drop n l i : 0 <= i -> b8 (drop n l) i = b8 l (Z.of_nat n + i).
Proof.
  intros Hi. unfold b8, znth. destruct (Z.ltb_spec i 0), (Z.ltb_spec (Z.of_nat n + i) 0); try lia.
  rewrite !nth_lookup, lookup_drop. do 2 f_equal. lia.
Qed.

Lemma ntohs_involutive x : 0 <= x < 65536 -> ntohs (ntohs x) = x.
Proof.
  intros Hx. pose proof (ntohs_bounds x Hx). rewrite (ntohs_spec (ntohs x)), (ntohs_spec x) by done.
  pose proof (Z.div_mod x 256 ltac:(lia)). pose proof (Z.mod_pos_bound x 256 ltac:(lia)).
  set (h := x / 256) in *. set (l := x mod 256) in *.
  replace (256 * l + h) with (h + l * 256) by lia.
  rewrite Z_mod_plus_full, Z.div_add, Z.mod_small, Z.div_small by lia. lia.
Qed.

(** The field of a fragment that is not the last. *)
Lemma more_fragments a : 0 <= a < 8192 -> Z.lor (htons a) (htons IP_MF) = htons (a + IP_MF).
Proof.
  intros Ha. pose proof (Z.div_mod a 256 ltac:(lia)) as E. pose proof (Z.mod_pos_bound a 256 ltac:(lia)) as Hl.
  assert (0 <= a / 256 < 0 + 32) as Hh by (split; [apply Z.div_pos | apply Z.div_lt_upper_bound]; lia).
  rewrite E. set (h := a / 256) in *. set (l := a mod 256) in *. clearbody h l. apply Z.eqb_eq.
  refine (forallb_seqZ (fun l => Z.lor (htons (256 * h + l)) (htons IP_MF) =? htons (256 * h + l + IP_MF)) 0 256 l _ Hl).
  refine (forallb_seqZ (fun h => forallb (fun l =>
    Z.lor (htons (256 * h + l)) (htons IP_MF) =? htons (256 * h + l + IP_MF)) (seqZ 0 256)) 0 32 h _ Hh).
  by vm_compute.
Qed.

(** ** The pieces of a payload *)

(** The payload in pieces for [room] bytes of data each: multiples of 8, but
    for the last. *)
Fixpoint split_payload (fuel : nat) (room : Z) (d : list Z) : list (list Z) :=
  match fuel with
  | O => []
  | S fuel =>
      if zlen d =? 0 then []
      else if zlen d <=? room then [d]
      else take (Z.to_nat (room / 8 * 8)) d :: split_payload fuel room (drop (Z.to_nat (room / 8 * 8)) d)
  end.

Section frames.
(** The buffer with the datagram, and the lengths of its headers. *)
Context (raw : list Z) (hhl hlen : Z).

(** The frame for the piece [c] at [o]. *)
Definition frame (o : Z) (more : bool) (c : list Z) : list Z :=
  let b := take (Z.to_nat hlen) raw ++ c in
  let b := st16 b (hhl + 6) (htons (o / 8 + (if more then IP_MF else 0))) in
  ip_send_check (st16 b (hhl + 2) (ntohs (hlen + zlen c - hhl))) hhl.

Fixpoint frames_of (o : Z) (after : bool) (chs : list (list Z)) : list (list Z) :=
  match chs with
  | [] => []
  | c :: chs => frame o (bool_decide (chs <> []) || after) c :: frames_of (o + zlen c) after chs
  end.
End frames.

Section split.
Context (room : Z) (Hroom : 8 <= room).
Let unit := room / 8 * 8.

Lemma unit_bounds : 8 <= unit /\ unit <= room.
Proof using Hroom.
  unfold unit. pose proof (Z.div_mod room 8 ltac:(lia)). pose proof (Z.mod_pos_bound room 8 ltac:(lia)).
  pose proof (Z.div_le_lower_bound room 8 1 ltac:(lia) ltac:(lia)). lia.
Qed.

(** The pieces are the payload, none is empty or too long, and each but the
    last has the same length. *)
Lemma split_payload_spec fuel : forall d, (length d <= fuel)%nat ->
  let chs := split_payload fuel room d in
  concat chs = d /\ Forall (fun c => c <> [] /\ zlen c <= room) chs /\
  (forall k c, chs !! k = Some c -> (S k < length chs)%nat -> zlen c = unit) /\
  (room < zlen d -> (2 <= length chs)%nat) /\ (d <> [] -> chs <> []).
Proof using Hroom.
  pose proof unit_bounds as Hu. induction fuel as [| fuel IH]; intros d Hd chs.
  - destruct d; [| cbn in Hd; lia]. unfold chs. cbn.
    split_and!; [done | constructor | done | unfold zlen; cbn; lia | done].
  - unfold chs. cbn [split_payload]. fold unit. destruct (Z.eqb_spec (zlen d) 0) as [E | E].
    { destruct d; [| unfold zlen in E; cbn in E; lia]. split_and!; try done. unfold zlen. cbn. lia. }
    destruct (Z.leb_spec (zlen d) room).
    { split_and!; try done; [cbn; by rewrite app_nil_r | | | lia].
      - repeat constructor; [intros ->; by apply E | done].
      - intros k c Hk. cbn. lia. }
    set (n := Z.to_nat unit). destruct (IH (drop n d)) as (I1 & I2 & I3 & _ & I5).
    { rewrite length_drop. unfold zlen in *. lia. }
    assert (drop n d <> []) as Hne.
    { intros Hn. apply (f_equal length) in Hn. rewrite length_drop in Hn. unfold zlen in *. cbn in Hn. lia. }
    assert (zlen (take n d) = unit) as Hl by (unfold zlen in *; rewrite length_take; lia).
    specialize (I5 Hne). split_and!.
    + cbn. by rewrite I1, take_drop.
    + constructor; [| done]. split; [intros Hn; rewrite Hn in Hl; unfold zlen in Hl; cbn in Hl; lia | lia].
    + intros [| k] c Hk Hlen; [by injection Hk as <- |]. cbn in Hk, Hlen. apply (I3 k c Hk). lia.
    + intros _. cbn. destruct (split_payload fuel room (drop n d)); [done | cbn; lia].
    + done.
Qed.

(** Every piece starts at a multiple of 8. *)
Lemma split_offset d k c :
  let chs := split_payload (length d) room d in
  chs !! k = Some c -> chunk_offset chs k = unit * Z.of_nat k.
Proof using Hroom.
  intros chs Hk. destruct (split_payload_spec (length d) d ltac:(lia)) as (_ & _ & Hu & _). fold chs in Hu.
  apply lookup_lt_Some in Hk. clear c. unfold chunk_offset.
  induction k as [| k IH]; [by rewrite Z.mul_0_r |].
  destruct (lookup_lt_is_Some_2 chs k) as [x Hx]; [lia |].
  rewrite (take_S_r _ _ _ Hx), concat_app, zlen_app, IH by lia. cbn [concat]. rewrite app_nil_r.
  rewrite (Hu k x Hx) by lia. lia.
Qed.
End split.

(** ** The loop makes these frames *)

Lemma zupd_zupd (l : list Z) j v w : zupd (zupd l j v) j w = zupd l j w.
Proof. unfold zupd. destruct (j <? 0); [done |]. apply list_insert_insert_eq. Qed.

Lemma zupd_comm (l : list Z) i j v w : i <> j -> zupd (zupd l i v) j w = zupd (zupd l j w) i v.
Proof.
  intros Hne. unfold zupd. destruct (Z.ltb_spec i 0), (Z.ltb_spec j 0); try done.
  apply list_insert_insert_ne. lia.
Qed.

Lemma st16_st16 l j v w : st16 (st16 l j v) j w = st16 l j w.
Proof.
  unfold st16, st8. rewrite (zupd_comm _ (j + 1) j) by lia. by rewrite zupd_zupd, zupd_zupd.
Qed.

Lemma bytes_at_take_drop n l p :
  0 <= p -> p + Z.of_nat n <= zlen l -> bytes_at n l p = take n (drop (Z.to_nat p) l).
Proof.
  intros Hp Hn. rewrite <- (bytes_at_self (take n (drop (Z.to_nat p) l))).
  rewrite length_take, length_drop, Nat.min_l by (unfold zlen in Hn; lia).
  assert (forall i k, 0 <= i -> i + Z.of_nat k <= Z.of_nat n ->
    bytes_at k l (p + i) = bytes_at k (take n (drop (Z.to_nat p) l)) i) as E.
  { intros i k. revert i. induction k as [| k IH]; intros i Hi Hk; cbn [bytes_at]; [done |].
    rewrite <- Z.add_assoc, IH by lia. f_equal.
    unfold b8, znth. destruct (Z.ltb_spec (p + i) 0), (Z.ltb_spec i 0); try lia.
    rewrite !nth_lookup, lookup_take_lt, lookup_drop by lia. do 2 f_equal. lia. }
  specialize (E 0 n). rewrite Z.add_0_r in E. apply E; lia.
Qed.

(** The priority at which the frames of a socket are sent. *)
Definition sock_pri (sk : option nat) (s : net) : Z :=
  match sk with
  | Some sk => default SOPRI_NORMAL (sk_priority <$> socks s !! sk)
  | None => SOPRI_NORMAL
  end.

(** A frame that fits is sent as it is, with its length and checksum. *)
Lemma xmit_fits n sk dev skb s :
  sk_len skb <= d_mtu dev -> flag (d_flags dev) IFF_UP = true ->
  let hhl := hard_header_len dev in
  ip_queue_xmit (S n) sk (Some dev) skb 1 s =
  Some (emit (Xmit (d_id dev) (ip_send_check (st16 (sk_data skb) (hhl + 2) (ntohs (u16 (sk_len skb - hhl)))) hhl)
    (sock_pri sk s)) s).
Proof.
  intros Hmtu Hup hhl. cbn [ip_queue_xmit]. cbn [upd sk_len]. fold hhl.
  replace (match sk with Some _ => 1 | None => 1 end) with 1 by (by destruct sk).
  destruct (Z.ltb_spec (d_mtu dev) (sk_len skb)); [lia |].
  unfold kick_device. rewrite Hup. unfold queue_on_sock. cbn [ctrue Z.eqb negb]. by destruct sk.
Qed.

Lemma fragment_data_spec raw hhl hlen ptr len offset more :
  0 <= hlen <= zlen raw -> 0 <= len -> 0 <= ptr -> ptr + len <= zlen raw ->
  0 <= hhl -> hhl + 20 <= hlen -> 0 <= offset -> offset / 8 < 8192 ->
  fragment_data raw hhl hlen ptr len offset more (replicate (Z.to_nat (len + hlen)) 0) =
  Some (st16 (take (Z.to_nat hlen) raw ++ take (Z.to_nat len) (drop (Z.to_nat ptr) raw)) (hhl + 6)
    (htons (offset / 8 + (if more then IP_MF else 0)))).
Proof.
  intros Hh Hl Hp Hpl Hhh Hhl Ho Ho8. unfold fragment_data.
  rewrite (Z.add_comm len hlen), Z2Nat.inj_add, replicate_add by lia.
  set (rh := replicate (Z.to_nat hlen) 0). set (rl := replicate (Z.to_nat len) 0).
  assert (zlen rh = hlen /\ zlen rl = len) as [Erh Erl] by (unfold zlen, rh, rl; rewrite !length_replicate; lia).
  pose proof (memcpy_app [] rh rl raw 0) as E1. cbn [app] in E1. rewrite Erh in E1. change (zlen []) with 0 in E1.
  rewrite E1. cbn [mbind option_bind].
  assert (bytes_at (length rh) raw 0 = take (Z.to_nat hlen) raw) as Eh.
  { rewrite bytes_at_take_drop by (unfold zlen in Erh; lia). cbn [Z.to_nat drop]. f_equal. unfold zlen in Erh. lia. }
  rewrite Eh. set (th := take (Z.to_nat hlen) raw).
  assert (zlen th = hlen) as Eth by (unfold zlen, th in *; rewrite length_take; lia).
  pose proof (memcpy_app th rl [] raw ptr) as E2. rewrite app_nil_r, Eth, Erl, app_nil_r in E2. rewrite E2.
  cbn [mbind option_bind].
  assert (bytes_at (length rl) raw ptr = take (Z.to_nat len) (drop (Z.to_nat ptr) raw)) as El.
  { rewrite bytes_at_take_drop by (unfold zlen in *; lia). f_equal. unfold zlen in Erl. lia. }
  rewrite El. set (b := th ++ _).
  assert (hhl + 8 <= Z.of_nat (length b)) as Hb by (unfold b; rewrite length_app; unfold zlen in Eth; lia).
  rewrite Z.shiftr_div_pow2 by lia. change (2 ^ 3) with 8.
  pose proof (Z.div_pos offset 8 ltac:(lia) ltac:(lia)).
  rewrite u16_small by lia. destruct more; [| by rewrite Z.add_0_r].
  rewrite ld16_st16 by (try lia; apply ntohs_bounds; lia). by rewrite more_fragments, st16_st16 by lia.
Qed.

(** What the loop cuts off, against the pieces. *)
Lemma split_payload_step fuel mtu d :
  8 <= mtu -> (length d <= S fuel)%nat -> d <> [] ->
  let len := if mtu <? zlen d then mtu else zlen d in
  let len := if len <? zlen d then Z.quot len 8 * 8 else len in
  let rest := split_payload fuel mtu (drop (Z.to_nat len) d) in
  split_payload (S fuel) mtu d = take (Z.to_nat len) d :: rest /\
  (0 <? zlen d - len) = bool_decide (rest <> []) /\ 0 < len <= mtu /\ len <= zlen d /\
  (len < zlen d -> len mod 8 = 0).
Proof.
  intros Hmtu Hd Hne len0 len rest. pose proof (unit_bounds mtu Hmtu) as Hu. set (unit := mtu / 8 * 8) in *.
  assert (0 < zlen d) by (destruct d; [done | unfold zlen; cbn; lia]).
  assert (len = if zlen d <=? mtu then zlen d else unit) as El.
  { unfold len, len0. destruct (Z.ltb_spec mtu (zlen d)).
    - destruct (Z.ltb_spec mtu (zlen d)); [| lia]. destruct (Z.leb_spec (zlen d) mtu); [lia |].
      unfold unit. by rewrite Z.quot_div_nonneg by lia.
    - destruct (Z.ltb_spec (zlen d) (zlen d)); [lia |]. by destruct (Z.leb_spec (zlen d) mtu); [| lia]. }
  clearbody len len0. cbn [split_payload]. destruct (Z.eqb_spec (zlen d) 0); [lia |].
  unfold rest. destruct (Z.leb_spec (zlen d) mtu).
  - assert (drop (Z.to_nat len) d = []) as -> by (apply drop_ge; unfold zlen in El; lia).
    assert (split_payload fuel mtu [] = []) as -> by (by destruct fuel).
    rewrite firstn_all2 by (unfold zlen in El; lia). rewrite El, Z.sub_diag.
    split_and!; try done; lia.
  - fold unit. subst len. split_and!; try done; try lia.
    + assert (drop (Z.to_nat unit) d <> []) as Hnd.
      { intros Hn. apply (f_equal length) in Hn. rewrite length_drop in Hn. unfold zlen in *. cbn in Hn. lia. }
      destruct (split_payload_spec mtu Hmtu fuel (drop (Z.to_nat unit) d)) as (_ & _ & _ & _ & Hs).
      { rewrite length_drop. unfold zlen in *. lia. }
      rewrite bool_decide_eq_true_2 by auto. apply Z.ltb_lt. lia.
    + intros _. unfold unit. apply Z_mod_mult.
Qed.

Lemma sock_pri_charge sk n s :
  sock_pri sk (match sk with
               | Some id => set_sock id (fun x => x <| wmem_alloc ::= fun w => u32 (w + n) |>) s
               | None => s
               end) = sock_pri sk s.
Proof.
  destruct sk as [id |]; [| done]. unfold sock_pri, set_sock. cbn. rewrite lookup_alter_eq.
  by destruct (socks s !! id).
Qed.

Lemma fragment_loop_spec q sk skb dev is_frag mtu :
  let raw := sk_data skb in
  let hhl := hard_header_len dev in
  let hlen := ip_ihl raw hhl * 4 + hhl in
  8 <= mtu -> d_mtu dev = mtu + hlen -> d_mtu dev < 65536 -> 0 <= hhl -> hhl + 20 <= hlen -> hlen <= zlen raw ->
  flag (d_flags dev) IFF_UP = true ->
  forall fuel d ptr offset s,
    (length d <= fuel)%nat -> 0 <= ptr <= zlen raw -> drop (Z.to_nat ptr) raw = d ->
    answers s = [] -> (d <> [] -> offset mod 8 = 0) -> 0 <= offset -> offset + zlen d < 65536 ->
    exists s',
      fragment_loop (fun f => ip_queue_xmit (S q) sk (Some dev) f 1) (S fuel) sk skb is_frag hhl hlen mtu
        (zlen d) ptr offset s = Some s' /\
      answers s' = [] /\ ipqueue s' = ipqueue s /\ timers s' = timers s /\
      out s' = rev ((fun f => Xmit (d_id dev) f (sock_pri sk s)) <$>
        frames_of raw hhl hlen offset (flag is_frag 1) (split_payload fuel mtu d)) ++ out s.
Proof.
  intros raw hhl hlen Hmtu Hdev Hmtu' Hhhl Hhlen Hraw Hup.
  assert (forall fuel ptr offset s, answers s = [] -> exists s',
    fragment_loop (fun f => ip_queue_xmit (S q) sk (Some dev) f 1) (S fuel) sk skb is_frag hhl hlen mtu
        0 ptr offset s = Some s' /\
      answers s' = [] /\ ipqueue s' = ipqueue s /\ timers s' = timers s /\ out s' = out s) as Hnil
    by (intros; by exists s).
  induction fuel as [| fuel IH]; intros d ptr offset s Hd Hptr Edrop Hans Ho8 Ho Hod;
    (destruct (decide (d = [])) as [-> | Hne]; [by apply Hnil |]).
  { destruct d; [done | cbn in Hd; lia]. }
  assert (zlen d = zlen raw - ptr) as Hlen by (rewrite <- Edrop; unfold zlen in *; rewrite length_drop; lia).
  destruct (split_payload_step fuel mtu d Hmtu Hd Hne) as (Es & Em & Hl1 & Hl2 & Hl8).
  remember (S fuel) as fuel1 eqn:Ef. cbn [fragment_loop]. destruct (Z.ltb_spec 0 (zlen d)); [| lia].
  set (len := if (if mtu <? zlen d then mtu else zlen d) <? zlen d then _ else _) in *.
  set (rest := split_payload fuel mtu (drop (Z.to_nat len) d)) in *. clearbody len.
  unfold alloc_skb, kmalloc. rewrite Hans. cbn [head tail default fmap option_fmap option_map].
  set (s1 := s <| answers ::= tail |> <| next_addr ::= S |>).
  set (s2 := match sk with Some _ => _ | None => s1 end).
  assert (answers s2 = [] /\ ipqueue s2 = ipqueue s /\ timers s2 = timers s /\ out s2 = out s) as (G1 & G2 & G3 & G4)
    by (unfold s2, s1; destruct sk; cbn; by rewrite Hans).
  assert (sock_pri sk s2 = sock_pri sk s) as G5 by (unfold s2; by rewrite sock_pri_charge).
  clearbody s2. cbn [sk_data upd].
  replace (sizeof_sk_buff + len + hlen - sizeof_sk_buff) with (len + hlen) by lia.
  rewrite fragment_data_spec; [| fold raw; lia.. | ].
  2:{ apply Z.div_lt_upper_bound; lia. }
  cbn [mbind option_bind]. rewrite xmit_fits; cbn [sk_len sk_data upd mbind option_bind];
    [| rewrite u32_small by lia; lia | done].
  fold raw hhl. rewrite Edrop, Em, (u32_small (len + hlen)), (u16_small (len + hlen - hhl)) by lia.
  set (s3 := emit _ s2).
  assert (zlen (drop (Z.to_nat len) d) = zlen d - len) as Ed' by (unfold zlen in *; rewrite length_drop; lia).
  rewrite <- Ed'. subst fuel1.
  destruct (IH (drop (Z.to_nat len) d) (ptr + len) (offset + len) s3) as (s' & E' & I1 & I2 & I3 & I4).
  { rewrite length_drop. unfold zlen in *. lia. }
  { lia. }
  { rewrite Z2Nat.inj_add by lia. by rewrite <- drop_drop, Edrop. }
  { done. }
  { intros Hn. assert (len < zlen d) by (destruct (drop (Z.to_nat len) d); [done | unfold zlen in Ed' at 1; cbn in Ed'; lia]).
    rewrite Z.add_mod, Ho8, Hl8 by (done || lia). done. }
  { lia. }
  { lia. }
  exists s'. split; [exact E' |]. split_and!; [done | by rewrite I2 | by rewrite I3 |].
  rewrite I4, Es. cbn [frames_of fmap list_fmap rev]. fold rest.
  assert (zlen (take (Z.to_nat len) d) = len) as Et by (unfold zlen in *; rewrite length_take; lia).
  unfold s3 at 2. cbn [emit upd out]. rewrite G4, <- app_assoc. cbn [app].
  assert (sock_pri sk s3 = sock_pri sk s) as -> by (unfold s3; rewrite <- G5; by destruct sk).
  rewrite Et, G5. do 2 f_equal. f_equal. unfold frame. rewrite Et.
  replace (hlen + len - hhl) with (len + hlen - hhl) by lia. done.
Qed.

(** ** What a frame says *)

Section frame_fields.
Context (raw : list Z) (hhl ihl : Z).
Let hlen := ihl * 4 + hhl.
Context (Hhhl : 0 <= hhl) (Hihl : 5 <= ihl) (Hraw : hlen <= zlen raw).

Lemma frame_header o more c k :
  k < hlen -> k <> hhl + 2 -> k <> hhl + 3 -> k <> hhl + 6 -> k <> hhl + 7 -> k <> hhl + 10 -> k <> hhl + 11 ->
  b8 (frame raw hhl hlen o more c) k = b8 raw k.
Proof using Hhhl Hraw Hihl.
  intros Hk ? ? ? ? ? ?. unfold frame. rewrite b8_send_check, !b8_st16_ne by lia.
  rewrite b8_app_l by (unfold zlen in *; rewrite length_take; lia).
  unfold b8, znth. destruct (Z.ltb_spec k 0); [done |].
  rewrite !nth_lookup, lookup_take_lt by lia. done.
Qed.

Lemma frame_length o more c : zlen (frame raw hhl hlen o more c) = hlen + zlen c.
Proof using Hhhl Hraw Hihl.
  unfold frame, zlen. rewrite send_check_length, !st16_length, length_app, length_take.
  unfold zlen in *. lia.
Qed.

Lemma frame_payload o more c j :
  0 <= j -> b8 (frame raw hhl hlen o more c) (hlen + j) = b8 c j.
Proof using Hhhl Hraw Hihl.
  intros Hj. unfold frame. rewrite b8_send_check, !b8_st16_ne by (unfold hlen; lia).
  assert (zlen (take (Z.to_nat hlen) raw) = hlen) as E by (unfold zlen in *; rewrite length_take; lia).
  rewrite b8_app_r, E by lia. f_equal. lia.
Qed.

Lemma frame_length_field o more c :
  hlen + zlen c - hhl < 65536 -> ld16 (frame raw hhl hlen o more c) (hhl + 2) = ntohs (hlen + zlen c - hhl).
Proof using Hhhl Hraw Hihl.
  intros Hl. pose proof (zlen_nonneg c). unfold frame. set (b := st16 _ (hhl + 6) _).
  assert (Z.of_nat (length b) = hlen + zlen c) as E.
  { unfold b, zlen. rewrite st16_length, length_app, length_take. unfold zlen in *. lia. }
  transitivity (ld16 (st16 b (hhl + 2) (ntohs (hlen + zlen c - hhl))) (hhl + 2)).
  - unfold ld16. rewrite !b8_send_check by lia. done.
  - apply ld16_st16; [lia | lia |]. apply ntohs_bounds. lia.
Qed.

Lemma frame_off_field o more c :
  0 <= o < 65536 -> ld16 (frame raw hhl hlen o more c) (hhl + 6) = htons (o / 8 + (if more then IP_MF else 0)).
Proof using Hhhl Hraw Hihl.
  intros Ho. pose proof (zlen_nonneg c).
  assert (0 <= o / 8 < 8192) by (split; [apply Z.div_pos | apply Z.div_lt_upper_bound]; lia).
  unfold frame. set (b := take _ raw ++ c).
  assert (Z.of_nat (length b) = hlen + zlen c) as E.
  { unfold b, zlen. rewrite length_app, length_take. unfold zlen in *. lia. }
  set (v := htons _).
  assert (0 <= v < 65536) as Hv by (apply ntohs_bounds; unfold IP_MF; destruct more; lia).
  transitivity (ld16 (st16 b (hhl + 6) v) (hhl + 6)); [| by apply ld16_st16; [lia | lia |]].
  unfold ld16. rewrite !b8_send_check by lia. rewrite !(b8_st16_ne (st16 b (hhl + 6) v)) by lia. done.
Qed.
End frame_fields.

Lemma frames_of_lookup raw hhl hlen after chs : forall o k c,
  chs !! k = Some c ->
  frames_of raw hhl hlen o after chs !! k =
  Some (frame raw hhl hlen (o + chunk_offset chs k) (bool_decide (S k < length chs)%nat || after) c).
Proof.
  induction chs as [| x chs IH]; intros o k c Hk; [done |]. destruct k as [| k]; cbn in Hk.
  - injection Hk as ->. cbn [frames_of lookup list_lookup]. change (chunk_offset (c :: chs) 0) with 0.
    rewrite Z.add_0_r. do 3 f_equal. apply bool_decide_ext. destruct chs; cbn; split; done || lia.
  - cbn [frames_of lookup list_lookup]. rewrite (IH _ _ _ Hk). unfold chunk_offset. cbn [take concat].
    rewrite zlen_app, Z.add_assoc. do 3 f_equal. apply bool_decide_ext. cbn. lia.
Qed.

Lemma frames_of_length raw hhl hlen after chs o : length (frames_of raw hhl hlen o after chs) = length chs.
Proof. revert o. induction chs as [| c chs IH]; intros o; cbn; [done |]. by rewrite IH. Qed.

(** The flags and the offset in a field. *)
Lemma off_field_spec a (more : bool) :
  0 <= a < 8192 ->
  let v := a + (if more then IP_MF else 0) in
  Z.land v IP_OFFSET = a /\ (Z.land (Z.land v (Z.lnot IP_OFFSET)) IP_MF = 0 <-> more = false).
Proof.
  intros Ha v. unfold IP_MF in *. split.
  - change IP_OFFSET with (Z.ones 13). rewrite Z.land_ones by lia. change (2 ^ 13) with 8192.
    unfold v. destruct more; [| rewrite Z.add_0_r; by apply Z.mod_small].
    change 8192 with (1 * 8192) at 1. rewrite Z_mod_plus_full. by apply Z.mod_small.
  - rewrite <- Z.land_assoc. change (Z.land (Z.lnot IP_OFFSET) 8192) with (2 ^ 13).
    assert (Z.land v (2 ^ 13) = 0 <-> flag v (2 ^ 13) = false) as ->.
    { unfold flag, ctrue. destruct (Z.eqb_spec (Z.land v (2 ^ 13)) 0); naive_solver. }
    rewrite land_testbit by lia. rewrite Z.testbit_odd, Z.shiftr_div_pow2 by lia. change (2 ^ 13) with 8192.
    unfold v. destruct more.
    + change 8192 with (1 * 8192) at 1. rewrite Z.div_add, Z.div_small by lia. done.
    + rewrite Z.add_0_r, Z.div_small by lia. done.
Qed.

(** A packet that brings the IP part of one of the frames, behind the link
    header of the device where it comes in. *)
Definition brings (frames : list (list Z)) (hhl : Z) (a : arrival) : Prop :=
  exists f mac, frames !! a_piece a = Some f /\ sk_data (a_skb a) = mac ++ drop (Z.to_nat hhl) f /\
    a_pos a = zlen mac /\ hard_header_len (a_dev a) = zlen mac.

Lemma brings_spec raw hhl hlen chs a :
  0 <= hhl -> brings (frames_of raw hhl hlen 0 false chs) hhl a ->
  exists c, chs !! a_piece a = Some c /\ 0 <= a_pos a /\ a_pos a = hard_header_len (a_dev a) /\
    forall j, 0 <= j -> b8 (sk_data (a_skb a)) (a_pos a + j) =
      b8 (frame raw hhl hlen (chunk_offset chs (a_piece a)) (bool_decide (S (a_piece a) < length chs)%nat) c) (hhl + j).
Proof.
  intros Hhhl (f & mac & Hf & Hb & Hp & Hdev).
  destruct (lookup_lt_is_Some_2 chs (a_piece a)) as [c Hc].
  { rewrite <- (frames_of_length raw hhl hlen false chs 0). by eapply lookup_lt_Some. }
  rewrite (frames_of_lookup _ _ _ _ _ _ _ _ Hc) in Hf. injection Hf as <-.
  rewrite Z.add_0_l, orb_false_r in Hb. exists c.
  split_and!; [done | pose proof (zlen_nonneg mac); lia | lia |].
  intros j Hj. rewrite Hb, b8_app_r by lia. rewrite b8_drop by lia. f_equal. lia.
Qed.

Lemma brings_header raw hhl ihl chs a :
  let hlen := ihl * 4 + hhl in
  0 <= hhl -> 5 <= ihl -> hlen <= zlen raw -> brings (frames_of raw hhl hlen 0 false chs) hhl a ->
  forall j, 0 <= j < ihl * 4 -> j <> 2 -> j <> 3 -> j <> 6 -> j <> 7 -> j <> 10 -> j <> 11 ->
    b8 (sk_data (a_skb a)) (a_pos a + j) = b8 raw (hhl + j).
Proof.
  intros hlen Hhhl Hihl Hraw Hb. destruct (brings_spec _ _ _ _ _ Hhhl Hb) as (c & _ & _ & _ & Hbyte).
  intros. rewrite Hbyte by lia. apply (frame_header raw hhl ihl); try done; unfold hlen; lia.
Qed.

Lemma brings_carries raw hhl ihl room d a :
  let hlen := ihl * 4 + hhl in
  let chs := split_payload (length d) room d in
  0 <= hhl -> ihl = ip_ihl raw hhl -> 5 <= ihl -> hlen <= zlen raw -> 8 <= room -> ihl * 4 + zlen d < 65536 ->
  brings (frames_of raw hhl hlen 0 false chs) hhl a -> carries chs (ip_key raw hhl) a.
Proof.
  intros hlen chs Hhhl Eihl Hihl Hraw Hroom Hfit Hb.
  pose proof (brings_header raw hhl ihl chs a Hhhl Hihl Hraw Hb) as Hsame.
  destruct (brings_spec _ _ _ _ _ Hhhl Hb) as (c & Hc & Hp0 & Hp & Hbyte). clear Hb.
  destruct (split_payload_spec room Hroom (length d) d ltac:(lia)) as (Hcat & Hne & _). fold chs in Hcat, Hne.
  set (o := chunk_offset chs (a_piece a)) in *. set (more := bool_decide _) in *.
  assert (Forall (fun c => c <> []) chs) as Hne' by (eapply Forall_impl; [apply Hne |]; by intros ? [? _]).
  destruct (chunk_offset_bounds chs Hne' _ _ Hc) as (Ho1 & Ho2 & _ & _). fold o in Ho1, Ho2.
  unfold total in Ho2. rewrite Hcat in Ho2. pose proof (zlen_nonneg c).
  assert (forall j, 0 <= j -> ld16 (sk_data (a_skb a)) (a_pos a + j) = ld16 (frame raw hhl hlen o more c) (hhl + j)) as Hword.
  { intros j Hj. unfold ld16. rewrite <- !Z.add_assoc, !Hbyte by lia. done. }
  assert (ip_ihl (sk_data (a_skb a)) (a_pos a) = ihl) as Eihl'.
  { rewrite Eihl. unfold ip_ihl. f_equal. pose proof (Hsame 0 ltac:(lia)) as H0. rewrite !Z.add_0_r in H0. apply H0; lia. }
  exists c. rewrite Eihl'. split_and!; try done; try lia.
  - unfold ip_key, ip_id, ip_saddr, ip_daddr, ip_protocol, ld32, ld16. rewrite <- !Z.add_assoc, !Hsame by lia. done.
  - unfold ip_frag_off. rewrite Hword, (frame_off_field raw hhl ihl) by (try done; lia).
    assert (0 <= o / 8 < 8192) as Ho8 by (split; [apply Z.div_pos | apply Z.div_lt_upper_bound]; lia).
    rewrite ntohs_involutive by (unfold IP_MF; destruct more; lia).
    rewrite (proj1 (off_field_spec (o / 8) more Ho8)), Z.shiftl_mul_pow2 by lia.
    assert (o mod 8 = 0) as Hm.
    { assert (o = room / 8 * 8 * Z.of_nat (a_piece a)) as -> by exact (split_offset room Hroom d _ c Hc).
      rewrite <- Z.mul_assoc, (Z.mul_comm 8), Z.mul_assoc. apply Z_mod_mult. }
    pose proof (Z.div_mod o 8 ltac:(lia)). change (2 ^ 3) with 8. lia.
  - unfold ip_frag_off. rewrite Hword, (frame_off_field raw hhl ihl) by (try done; lia).
    assert (0 <= o / 8 < 8192) as Ho8 by (split; [apply Z.div_pos | apply Z.div_lt_upper_bound]; lia).
    rewrite ntohs_involutive by (unfold IP_MF; destruct more; lia).
    rewrite (proj2 (off_field_spec (o / 8) more Ho8)). unfold more. rewrite bool_decide_eq_false.
    apply lookup_lt_Some in Hc. lia.
  - unfold ip_tot_len. rewrite Hword, (frame_length_field raw hhl ihl) by (try done; unfold hlen; lia).
    rewrite ntohs_involutive; unfold hlen; lia.
  - rewrite <- (bytes_at_self c) at 2. 
    assert (forall n i, 0 <= i -> bytes_at n (sk_data (a_skb a)) (a_pos a + ihl * 4 + i) = bytes_at n c i) as E.
    { induction n as [| n IH]; intros i Hi; cbn [bytes_at]; [done |].
      rewrite <- (Z.add_assoc _ i 1), IH by lia. f_equal.
      rewrite <- Z.add_assoc, Hbyte by lia. replace (hhl + (ihl * 4 + i)) with (hlen + i) by (unfold hlen; lia).
      apply (frame_payload raw hhl ihl); done. }
    specialize (E (length c) 0 ltac:(lia)). by rewrite Z.add_0_r in E.
Qed.

(** ** The whole way *)

Lemma ip_fragment_spec q sk skb dev s :
  let raw := sk_data skb in
  let hhl := hard_header_len dev in
  let hlen := ip_ihl raw hhl * 4 + hhl in
  let d := drop (Z.to_nat hlen) raw in
  0 <= hhl -> 5 <= ip_ihl raw hhl -> hlen <= zlen raw -> ntohs (ip_tot_len raw hhl) = zlen raw - hhl ->
  zlen raw < 65536 -> flag (ntohs (ip_frag_off raw hhl)) IP_DF = false ->
  8 <= d_mtu dev - hlen -> d_mtu dev < 65536 -> flag (d_flags dev) IFF_UP = true -> answers s = [] ->
  exists s',
    ip_fragment (fun f => ip_queue_xmit (S q) sk (Some dev) f 1) sk skb dev 0 s = Some s' /\
    answers s' = [] /\ ipqueue s' = ipqueue s /\ timers s' = timers s /\
    out s' = rev ((fun f => Xmit (d_id dev) f (sock_pri sk s)) <$>
      frames_of raw hhl hlen 0 false (split_payload (length d) (d_mtu dev - hlen) d)) ++ out s.
Proof.
  intros raw hhl hlen d Hhhl Hihl Hraw Htot Hlen Hdf Hroom Hmtu Hup Hans.
  unfold ip_fragment. fold raw hhl. rewrite Hdf, Htot. cbn [flag].
  change (flag 0 2) with false. cbv iota. fold hlen.
  assert (zlen d = zlen raw - hlen) as Ed by (unfold d, zlen in *; rewrite length_drop; lia).
  replace (zlen raw - hhl - ip_ihl raw hhl * 4) with (zlen d) by (rewrite Ed; unfold hlen; lia).
  replace (Z.to_nat (zlen d)) with (length d) by (unfold zlen; lia).
  pose proof (zlen_nonneg raw). pose proof (zlen_nonneg d).
  apply fragment_loop_spec; try done; fold raw hhl hlen; lia.
Qed.

(** What the fields of the datagram say is not changed by its length. *)
Lemma set_length_header raw hhl v k :
  k <> hhl + 2 -> k <> hhl + 3 -> b8 (st16 raw (hhl + 2) v) k = b8 raw k.
Proof. intros. apply b8_st16_ne; lia. Qed.

Lemma drop_zupd (l : list Z) n j v : j < Z.of_nat n -> drop n (zupd l j v) = drop n l.
Proof. intros Hj. unfold zupd. destruct (Z.ltb_spec j 0); [done |]. apply drop_insert_lt. lia. Qed.

Lemma drop_st16 l n j v : j + 1 < Z.of_nat n -> drop n (st16 l j v) = drop n l.
Proof. intros. unfold st16, st8. by rewrite !drop_zupd by lia. Qed.

(** The fields of a reassembled datagram. *)
Lemma reassembled_spec chs a :
  let b := sk_data (a_skb a) in
  let p := a_pos a in
  let hl := ip_ihl b p * 4 in
  let r := reassembled chs a in
  0 <= p -> 20 <= hl -> hl + total chs < 65536 ->
  drop (Z.to_nat (p + hl)) r = concat chs /\ ip_frag_off r p = 0 /\ ip_tot_len r p = htons (hl + total chs) /\
  forall j, 0 <= j < hl -> j <> 2 -> j <> 3 -> j <> 6 -> j <> 7 -> b8 r (p + j) = b8 b (p + j).
Proof.
  intros b p hl r Hp Hhl Ht. unfold r, reassembled. fold b p hl. set (data := _ ++ concat chs).
  assert (length (bytes_at (Z.to_nat (p + hl)) b 0) = Z.to_nat (p + hl)) as El by apply bytes_at_length.
  assert (p + hl <= Z.of_nat (length data)) as Hd by (unfold data; rewrite length_app, El; lia).
  assert (0 <= total chs) by apply zlen_nonneg.
  rewrite u16_small by lia. split_and!.
  - rewrite !drop_st16 by lia. unfold data. by rewrite drop_app_length' by done.
  - unfold ip_frag_off. rewrite ld16_st16_ne by lia. apply ld16_st16; lia.
  - unfold ip_tot_len. apply ld16_st16; [lia | rewrite st16_length; lia |]. apply ntohs_bounds. lia.
  - intros j Hj ????. rewrite !b8_st16_ne by lia. unfold data.
    rewrite b8_app_l by (unfold zlen; rewrite El; lia). rewrite b8_bytes_at by lia. f_equal.
Qed.

Lemma frames_of_fit raw hhl ihl room after chs o :
  0 <= hhl -> 5 <= ihl -> ihl * 4 + hhl <= zlen raw -> Forall (fun c => zlen c <= room) chs ->
  Forall (fun f => zlen f <= ihl * 4 + hhl + room) (frames_of raw hhl (ihl * 4 + hhl) o after chs).
Proof.
  intros Hhhl Hihl Hraw H. revert o. induction H as [| c chs Hc _ IH]; intros o; cbn [frames_of]; constructor; [| done].
  rewrite (frame_length raw hhl ihl) by done. lia.
Qed.

(** What the datagram that is sent says: its length, and else what the caller
    put there. *)
Lemma sent_datagram raw hhl :
  let raw' := st16 raw (hhl + 2) (ntohs (u16 (zlen raw - hhl))) in
  let hl := ip_ihl raw hhl * 4 in
  0 <= hhl -> 20 <= hl -> hhl + hl <= zlen raw -> zlen raw < 65536 ->
  zlen raw' = zlen raw /\ ip_ihl raw' hhl = ip_ihl raw hhl /\ ip_key raw' hhl = ip_key raw hhl /\
  ip_frag_off raw' hhl = ip_frag_off raw hhl /\ ntohs (ip_tot_len raw' hhl) = zlen raw - hhl /\
  drop (Z.to_nat (hhl + hl)) raw' = drop (Z.to_nat (hhl + hl)) raw.
Proof.
  intros raw' hl Hhhl Hhl Hraw Hlen.
  assert (forall k, k <> hhl + 2 -> k <> hhl + 3 -> b8 raw' k = b8 raw k) as E
    by (intros; apply set_length_header; done).
  split_and!.
  - unfold raw', zlen. by rewrite st16_length.
  - unfold ip_ihl. by rewrite E by lia.
  - unfold ip_key, ip_id, ip_saddr, ip_daddr, ip_protocol, ld32, ld16. by rewrite !E by lia.
  - unfold ip_frag_off, ld16. by rewrite !E by lia.
  - unfold ip_tot_len, raw'. rewrite u16_small by lia.
    rewrite ld16_st16; [apply ntohs_involutive; lia | lia | unfold zlen in *; lia |].
    apply ntohs_bounds. lia.
  - unfold raw'. apply drop_st16. lia.
Qed.

Lemma xmit_splits q sk dev skb free s :
  d_mtu dev < sk_len skb ->
  exists skb', sk_id skb' = sk_id skb /\
    sk_data skb' = st16 (sk_data skb) (hard_header_len dev + 2) (ntohs (u16 (sk_len skb - hard_header_len dev))) /\
    ip_queue_xmit (S q) sk (Some dev) skb free s =
    s ← ip_fragment (fun f => ip_queue_xmit q sk (Some dev) f 1) sk skb' dev 0 s; Some (kfree_skb skb' s).
Proof.
  intros Hl. cbn [ip_queue_xmit]. cbn [upd sk_len].
  destruct (Z.ltb_spec (d_mtu dev) (sk_len skb)); [| lia]. by eexists (mk_skb _ _ _ _ _ _ _).
Qed.

(** The frames of a datagram, wherever they arrive. *)
Lemma frames_reassemble raw hhl room arr a s0 :
  let ihl := ip_ihl raw hhl in
  let hlen := ihl * 4 + hhl in
  let payload := drop (Z.to_nat hlen) raw in
  let chs := split_payload (length payload) room payload in
  let frames := frames_of raw hhl hlen 0 false chs in
  0 <= hhl -> 5 <= ihl -> hlen <= zlen raw -> zlen raw < 65536 -> 8 <= room < zlen payload ->
  Forall (brings frames hhl) (arr ++ [a]) -> covers chs (arr ++ [a]) -> ~ covers chs arr ->
  Forall (fun q => q_id q < next_addr s0)%nat (ipqueue s0) -> answers s0 = [] ->
  Forall (fun q => ip_key (q_iph q) 0 <> ip_key raw hhl) (ipqueue s0) ->
  exists s2 whole s3,
    deliver arr s0 = Some (replicate (length arr) None, s2) /\
    ip_defrag (a_pos a) (a_skb a) (a_dev a) s2 = Some (Some whole, s3) /\
    let b := sk_data whole in
    let p := h_raw whole in
    drop (Z.to_nat (p + ihl * 4)) b = payload /\
    ntohs (ip_tot_len b p) = ihl * 4 + zlen payload /\ ip_frag_off b p = 0 /\
    forall j, 0 <= j < ihl * 4 -> j <> 2 -> j <> 3 -> j <> 6 -> j <> 7 -> j <> 10 -> j <> 11 ->
      b8 b (p + j) = b8 raw (hhl + j).
Proof.
  intros ihl hlen payload chs frames Hhhl Hihl Hraw Hbig Hroom Hb Hcov Hncov Hfresh Hans Hother.
  assert (zlen payload = zlen raw - hlen) as Ep by (unfold payload, zlen in *; rewrite length_drop; lia).
  destruct (split_payload_spec room ltac:(lia) (length payload) payload ltac:(lia))
    as (Hcat & Hne & _ & H2 & _). fold chs in Hcat, Hne, H2.
  assert (total chs = zlen payload) as Et by (unfold total; by rewrite Hcat).
  assert (Forall (carries chs (ip_key raw hhl)) (arr ++ [a])) as Hc.
  { eapply Forall_impl; [apply Hb |]. intros x Hx. eapply brings_carries; try done; lia. }
  destruct (deliver_complete chs (ip_key raw hhl) ltac:(apply H2; lia)
    ltac:(eapply Forall_impl; [apply Hne |]; by intros ? [? _]) ltac:(lia) arr a s0) as
    (s2 & whole & s3 & E2 & E3 & Edata & Epos & _); try done.
  set (first := hd a arr) in *.
  assert (first ∈ arr ++ [a]) as Hin by (unfold first; destruct arr; left).
  rewrite Forall_forall in Hb, Hc. specialize (Hb first Hin). specialize (Hc first Hin).
  pose proof (brings_header raw hhl ihl chs first Hhhl Hihl Hraw Hb) as Hsame.
  assert (0 <= a_pos first) as Hp by (destruct Hc as (? & ? & ? & ? & _); done).
  assert (ip_ihl (sk_data (a_skb first)) (a_pos first) = ihl) as Eihl.
  { unfold ihl, ip_ihl. f_equal. pose proof (Hsame 0 ltac:(lia)) as H0. rewrite !Z.add_0_r in H0. apply H0; lia. }
  exists s2, whole, s3. split; [done |]. split; [done |]. cbv zeta. rewrite Edata, Epos.
  destruct (reassembled_spec chs first) as (R1 & R2 & R3 & R4); rewrite ?Eihl in *; try lia.
  rewrite R1, R3, Et. split_and!; [done | | done |].
  - apply ntohs_involutive. lia.
  - intros. rewrite R4 by done. by apply Hsame.
Qed.

(** C1: A datagram that is too long for the device arrives whole.
    [ip_queue_xmit] sends it as frames none of which is longer than the MTU of
    the device, and gives its own buffer back; and wherever these frames arrive,
    in any order, behind any link header and with any duplicates, [ip_defrag]
    returns NULL until the last missing one is there, and then a datagram with
    the same payload and length and the same header, but for its checksum.
    It is asked for that the datagram may be fragmented, and that 8 bytes of
    data fit a frame. *)
Theorem fragment_roundtrip sk dev skb free s :
  let raw := sk_data skb in
  let hhl := hard_header_len dev in
  let hl := ip_ihl raw hhl * 4 in
  let payload := drop (Z.to_nat (hhl + hl)) raw in
  0 <= hhl -> 20 <= hl -> hhl + hl <= zlen raw -> sk_len skb = zlen raw -> zlen raw < 65536 ->
  flag (ntohs (ip_frag_off raw hhl)) IP_DF = false ->
  hhl + hl + 8 <= d_mtu dev < sk_len skb -> flag (d_flags dev) IFF_UP = true -> answers s = [] ->
  exists frames s1,
    ip_queue_xmit xmit_fuel sk (Some dev) skb free s = Some s1 /\
    out s1 = Freed (sk_id skb) :: rev ((fun f => Xmit (d_id dev) f (sock_pri sk s)) <$> frames) ++ out s /\
    Forall (fun f => zlen f <= d_mtu dev) frames /\
    forall arr a s0,
      Forall (brings frames hhl) (arr ++ [a]) ->
      (forall k, (k < length frames)%nat -> k ∈ a_piece <$> arr ++ [a]) ->
      ~ (forall k, (k < length frames)%nat -> k ∈ a_piece <$> arr) ->
      Forall (fun q => q_id q < next_addr s0)%nat (ipqueue s0) -> answers s0 = [] ->
      Forall (fun q => ip_key (q_iph q) 0 <> ip_key raw hhl) (ipqueue s0) ->
      exists s2 whole s3,
        deliver arr s0 = Some (replicate (length arr) None, s2) /\
        ip_defrag (a_pos a) (a_skb a) (a_dev a) s2 = Some (Some whole, s3) /\
        let b := sk_data whole in
        let p := h_raw whole in
        drop (Z.to_nat (p + hl)) b = payload /\
        ntohs (ip_tot_len b p) = hl + zlen payload /\ ip_frag_off b p = 0 /\
        forall j, 0 <= j < hl -> j <> 2 -> j <> 3 -> j <> 6 -> j <> 7 -> j <> 10 -> j <> 11 ->
          b8 b (p + j) = b8 raw (hhl + j).
Proof.
  intros raw hhl hl payload Hhhl Hhl Hraw Hlen Hbig Hdf Hmtu Hup Hans.
  destruct (sent_datagram raw hhl Hhhl Hhl Hraw Hbig) as (E1 & E2 & E3 & E4 & E5 & E6).
  set (raw' := st16 raw (hhl + 2) (ntohs (u16 (zlen raw - hhl)))) in *. fold hl in E6. fold payload in E6.
  assert (hl = ip_ihl raw' hhl * 4) as El by (unfold hl; by rewrite E2).
  destruct (xmit_splits 1 sk dev skb free s ltac:(lia)) as (skb' & Eid & Edata & Ex).
  rewrite Hlen in Edata. fold raw hhl raw' in Edata.
  destruct (ip_fragment_spec 0 sk skb' dev s) as (s1 & Ef & _ & _ & _ & Eout);
    rewrite ?Edata; fold hhl; rewrite ?E1, ?E4; try done; try lia.
  rewrite Edata in Eout. fold hhl in Eout. replace (ip_ihl raw' hhl * 4 + hhl) with (hhl + hl) in Eout by lia.
  rewrite E6 in Eout. set (room := d_mtu dev - (hhl + hl)) in *.
  set (chs := split_payload (length payload) room payload) in *.
  destruct (split_payload_spec room ltac:(unfold room; lia) (length payload) payload ltac:(lia))
    as (_ & Hne & _). fold chs in Hne.
  exists (frames_of raw' hhl (hhl + hl) 0 false chs), (kfree_skb skb' s1). split_and!.
  - unfold xmit_fuel. rewrite Ex, Ef. done.
  - cbn. by rewrite Eout, Eid.
  - replace (hhl + hl) with (ip_ihl raw' hhl * 4 + hhl) by lia.
    eapply Forall_impl; [apply (frames_of_fit _ _ _ room); try lia |].
    + eapply Forall_impl; [apply Hne |]. by intros ? [_ ?].
    + cbn. intros f. unfold room. lia.
  - intros arr a s0 Hb Hcov Hncov Hfresh Hans0 Hother. rewrite frames_of_length in Hcov, Hncov.
    assert (zlen payload = zlen raw - (hhl + hl)) as Ep by (unfold payload, zlen in *; rewrite length_drop; lia).
    replace (hhl + hl) with (ip_ihl raw' hhl * 4 + hhl) in Hb by lia.
    destruct (frames_reassemble raw' hhl room arr a s0) as (s2 & whole & s3 & H1 & H2 & H3);
      rewrite ?(Z.add_comm _ hhl), <- ?El, ?E6; try done; rewrite ?E3; try done; try (unfold room; lia).
    { by rewrite (Z.add_comm _ hhl), <- El in Hb. }
    rewrite (Z.add_comm _ hhl), <- El, E6 in H3. cbv zeta in H3. destruct H3 as (R1 & R2 & R3 & R4).
    exists s2, whole, s3. cbv zeta. split_and!; try done. intros. rewrite R4 by done.
    apply set_length_header; lia.
Qed.

(** * Receiving *)

Lemma chk_addr_values addr devs : chk_addr addr devs ∈ [0; IS_MYADDR; IS_BROADCAST].
Proof.
  unfold chk_addr. split_if; [in_list |]. cbv zeta. split_if; [in_list |].
  induction devs as [| dev devs IH]; cbn [chk_interfaces]; [in_list |]. cbv zeta.
  repeat (split_if; [in_list || apply IH |]). apply IH.
Qed.

(** The flag of more fragments, in the order of the network and of the machine. *)
Lemma more_fragments_bit x : 0 <= x < 65536 -> flag x 0x0020 = flag (ntohs x) IP_MF.
Proof.
  intros Hx. pose proof (Z.div_mod x 256 ltac:(lia)) as E. pose proof (Z.mod_pos_bound x 256 ltac:(lia)) as Hl.
  assert (0 <= x / 256 < 0 + 256) as Hh by (split; [apply Z.div_pos | apply Z.div_lt_upper_bound]; lia).
  rewrite E. set (h := x / 256) in *. set (l := x mod 256) in *. clearbody h l. apply eqb_prop.
  refine (forallb_seqZ (fun l => eqb (flag (256 * h + l) 0x0020) (flag (ntohs (256 * h + l)) IP_MF)) 0 256 l _ Hl).
  refine (forallb_seqZ (fun h => forallb (fun l =>
    eqb (flag (256 * h + l) 0x0020) (flag (ntohs (256 * h + l)) IP_MF)) (seqZ 0 256)) 0 256 h _ Hh).
  by vm_compute.
Qed.

(** A datagram with a header that a host may look at. *)
Definition acceptable (skb : sk_buff) : Prop :=
  let b := sk_data skb in
  let p := h_raw skb in
  20 <= sk_len skb /\ 5 <= ip_ihl b p /\ ip_version b p = 4 /\
  rfc1071 (bytes_at (4 * Z.to_nat (ip_ihl b p)) b p) = 0.

Lemma rfc1071_bounds l : bytes_ok l -> 0 <= rfc1071 l < 65536.
Proof.
  intros Hl. destruct (be_words_le_sum l Hl) as [_ Hws].
  destruct (foldl_oc_add (be_words l) 0 ltac:(lia) Hws) as [(H & _) Hb]. unfold rfc1071. lia.
Qed.

Lemma header_checks skb :
  bytes_ok (sk_data skb) ->
  let b := sk_data skb in
  let p := h_raw skb in
  (sk_len skb <? 20) || (ip_ihl b p <? 5) || negb (ip_version b p =? 4) || ctrue (ip_fast_csum b p (ip_ihl b p)) = false
  <-> acceptable skb.
Proof.
  intros Hb b p. assert (0 <= ip_ihl b p < 16) as Hi.
  { unfold ip_ihl. change 15 with (Z.ones 4). rewrite Z.land_ones by lia. apply Z.mod_pos_bound. lia. }
  unfold acceptable. rewrite ip_fast_csum_spec by (done || lia). fold b p.
  set (l := bytes_at _ b p). assert (bytes_ok l) as Hl by (apply bytes_at_ok, Hb).
  pose proof (rfc1071_bounds l Hl) as Hr.
  rewrite !orb_false_iff, !Z.ltb_ge, negb_false_iff, Z.eqb_eq.
  assert (ctrue (ntohs (rfc1071 l)) = false <-> rfc1071 l = 0) as ->; [| tauto].
  unfold ctrue. rewrite negb_false_iff, Z.eqb_eq. split; [| by intros ->].
  intros E. by rewrite <- (ntohs_involutive (rfc1071 l)), E.
Qed.

(** The handlers of a protocol get the datagram one after the other. *)
Lemma deliver_protocols_spec skb p protos : forall s,
  answers s = [] ->
  let b := sk_data skb in
  let wanted := filter (fun pr => p_protocol pr = ip_protocol b p) protos in
  exists s' copies,
    deliver_protocols protos skb p s = (bool_decide (wanted <> []), s') /\ answers s' = [] /\
    ipqueue s' = ipqueue s /\ socks s' = socks s /\
    out s' = rev (zip_with (fun pr c => Delivered (p_handler pr) c (ip_daddr b p)
      (u16 (ntohs (ip_tot_len b p) - ip_ihl b p * 4)) (ip_saddr b p)) wanted copies) ++ out s /\
    Forall2 (fun pr c => sk_data c = b /\ h_raw c = h_raw skb /\ sk_len c = sk_len skb /\
      (p_copy pr = false -> c = skb)) wanted copies.
Proof.
  induction protos as [| pr protos IH]; intros s Hans b wanted.
  { exists s, []. by split_and!. }
  unfold wanted. cbn [deliver_protocols]. rewrite filter_cons. fold b.
  destruct (Z.eqb_spec (p_protocol pr) (ip_protocol b p)) as [E | E]; cbn [negb].
  2:{ rewrite decide_False by done. apply IH, Hans. }
  rewrite decide_True by done. rewrite bool_decide_eq_true_2 by done.
  assert (exists s1 c, (if p_copy pr
      then let '(a, s) := kmalloc s in ((fun id => skb <| sk_id := id |> <| sk_free := 1 |>) <$> a, s)
      else (Some skb, s)) = (Some c, s1) /\ answers s1 = [] /\ ipqueue s1 = ipqueue s /\ socks s1 = socks s /\
      out s1 = out s /\ (sk_data c = b /\ h_raw c = h_raw skb /\ sk_len c = sk_len skb /\ (p_copy pr = false -> c = skb)))
    as (s1 & c & -> & G1 & G2 & G3 & G4 & G5).
  { destruct (p_copy pr); [| by exists s, skb]. unfold kmalloc. rewrite Hans. cbn [head tail default].
    eexists _, _. split; [reflexivity |]. cbn. rewrite Hans. split_and!; done. }
  destruct (IH (emit (Delivered (p_handler pr) c (ip_daddr b p) (u16 (ntohs (ip_tot_len b p) - ip_ihl b p * 4))
    (ip_saddr b p)) s1) G1) as (s' & copies & E' & I1 & I2 & I3 & I4 & I5).
  fold b in E', I4, I5. rewrite E'. cbn [snd]. exists s', (c :: copies).
  split_and!; [done | done | by rewrite I2 | by rewrite I3 | | by constructor].
  rewrite I4. cbn. by rewrite <- app_assoc, G4.
Qed.

Lemma bytes_at_shift n l l' i i' :
  (forall j, 0 <= j < Z.of_nat n -> b8 l (i + j) = b8 l' (i' + j)) -> bytes_at n l i = bytes_at n l' i'.
Proof.
  revert i i'. induction n as [| n IH]; intros i i' H; cbn [bytes_at]; [done |]. f_equal.
  - specialize (H 0 ltac:(lia)). by rewrite !Z.add_0_r in H.
  - apply IH. intros j Hj. specialize (H (j + 1) ltac:(lia)).
    replace (i + 1 + j) with (i + (j + 1)) by lia. by replace (i' + 1 + j) with (i' + (j + 1)) by lia.
Qed.

Section services.
Context (hard_header : nat -> option (list Z -> Z -> Z -> Z -> list Z * Z)).


(** What [dev->hard_header] promises: it writes the link header in front and
    leaves the datagram behind it alone. *)
Definition link_ok (dev : device) : Prop :=
  forall hh data daddr saddr len, hard_header (d_id dev) = Some hh ->
    let data' := (hh data daddr saddr len).1 in
    length data' = length data /\ (bytes_ok data -> bytes_ok data') /\
    drop (Z.to_nat (hard_header_len dev)) data' = drop (Z.to_nat (hard_header_len dev)) data.

Lemma ip_send_spec skb daddr len dev saddr :
  link_ok dev ->
  let data' := sk_data (ip_send hard_header skb daddr len dev saddr).2 in
  sk_len (ip_send hard_header skb daddr len dev saddr).2 = sk_len skb /\
  length data' = length (sk_data skb) /\ (bytes_ok (sk_data skb) -> bytes_ok data') /\
  drop (Z.to_nat (hard_header_len dev)) data' = drop (Z.to_nat (hard_header_len dev)) (sk_data skb).
Proof.
  intros Hl. unfold ip_send. specialize (Hl (default (fun l _ _ _ => (l, 0)) (hard_header (d_id dev))) (sk_data skb) daddr saddr len).
  destruct (hard_header (d_id dev)) as [hh |]; cbn in *.
  - specialize (Hl eq_refl). destruct (hh (sk_data skb) daddr saddr len) as [data' mac]. by destruct (mac <? 0).
  - done.
Qed.

(** The copy that is sent has the datagram behind the link header. *)
Lemma forward_copy_spec skb raddr dev2 is_frag s :
  let hhl := hard_header_len dev2 in
  let p := h_raw skb in
  0 <= p -> 0 <= sk_len skb -> p + sk_len skb <= zlen (sk_data skb) -> bytes_ok (sk_data skb) -> answers s = [] ->
  flag (d_flags dev2) IFF_UP = true -> 0 <= hhl -> sk_len skb + hhl <= d_mtu dev2 < 65536 -> link_ok dev2 ->
  exists s' frame,
    forward_copy hard_header skb raddr dev2 is_frag s = Some s' /\
    out s' = Xmit (d_id dev2) frame SOPRI_NORMAL :: out s /\ ipqueue s' = ipqueue s /\
    zlen frame = hhl + sk_len skb /\ bytes_ok frame /\
    forall j, 0 <= j < sk_len skb -> b8 frame (hhl + j) = b8 (sk_data skb) (p + j).
Proof.
  intros hhl p Hp Hlen Hfit Hb Hans Hup Hhhl Hmtu Hlink.
  unfold forward_copy. rewrite Hup. fold hhl. unfold alloc_skb, kmalloc. rewrite Hans.
  cbn [head tail default fmap option_fmap option_map]. cbn [upd sk_data sk_len].
  replace (sizeof_sk_buff + hhl + sk_len skb - sizeof_sk_buff) with (hhl + sk_len skb) by lia.
  rewrite Z2Nat.inj_add, replicate_add by lia.
  set (r1 := replicate (Z.to_nat hhl) 0). set (r2 := replicate (Z.to_nat (sk_len skb)) 0).
  assert (zlen r1 = hhl /\ zlen r2 = sk_len skb) as [E1 E2] by (unfold zlen, r1, r2; rewrite !length_replicate; lia).
  pose proof (memcpy_app r1 r2 [] (sk_data skb) p) as Em. rewrite !app_nil_r, E1, E2 in Em. fold p. rewrite Em.
  cbn [mbind option_bind]. set (body := bytes_at (length r2) (sk_data skb) p).
  assert (zlen body = sk_len skb) as E3 by (unfold body, zlen; rewrite bytes_at_length; exact E2).
  set (skb2 := mk_skb _ _ _ _ _ _ _).
  assert (sk_data skb2 = r1 ++ body /\ sk_len skb2 = u32 (sk_len skb + hhl)) as [Ed El] by done. clearbody skb2.
  destruct (ip_send_spec skb2 raddr (sk_len skb) dev2 (pa_addr dev2) Hlink) as (S1 & S2 & S3 & S4).
  destruct (ip_send hard_header skb2 raddr (sk_len skb) dev2 (pa_addr dev2)) as [mac skb3]. cbn [snd] in *.
  rewrite S1, El, u32_small by lia. destruct (Z.ltb_spec (d_mtu dev2) (sk_len skb + hhl)); [lia |].
  rewrite Ed in *. assert (zlen (sk_data skb3) = hhl + sk_len skb) as Ez.
  { unfold zlen in *. rewrite S2, length_app. lia. }
  eexists _, (sk_data skb3). split; [reflexivity |]. split_and!; try done.
  - apply S3, bytes_ok_app; [| by apply bytes_at_ok].
    apply Forall_forall. intros x Hx. apply elem_of_replicate in Hx as [-> _]. unfold is_byte. lia.
  - intros j Hj. pose proof (b8_drop (Z.to_nat hhl) (sk_data skb3) j ltac:(lia)) as B1.
    rewrite Z2Nat.id in B1 by lia. rewrite <- B1. fold hhl in S4. rewrite S4, b8_drop, Z2Nat.id by lia.
    rewrite b8_app_r by lia. rewrite E1. replace (hhl + j - hhl) with j by lia.
    unfold body. apply b8_bytes_at. unfold zlen in E2. lia.
Qed.

End services.

(** * A device for less than 8 bytes

    The MTU of a device is not checked ([SIOCSIFMTU]).  When less than 8 bytes
    of data fit behind the headers, every pass cuts off 0 bytes and the loop
    sends headers for ever: no fuel is enough. *)
Lemma fragment_never_ends xmit sk skb is_frag hhl hlen mtu left offset :
  (forall f s, answers s = [] -> exists s', xmit f s = Some s' /\ answers s' = []) ->
  0 <= mtu < 8 -> mtu < left -> 0 <= hlen -> hlen <= zlen (sk_data skb) -> 0 <= hhl -> hhl + 20 <= hlen ->
  0 <= offset -> offset / 8 < 8192 ->
  forall fuel ptr s, answers s = [] -> 0 <= ptr <= zlen (sk_data skb) ->
    fragment_loop xmit fuel sk skb is_frag hhl hlen mtu left ptr offset s = None.
Proof.
  intros Hx Hmtu Hleft Hh Hr Hhh Hhl Ho Ho8. induction fuel as [| fuel IH]; intros ptr s Hans Hptr; [done |].
  cbn [fragment_loop]. destruct (Z.ltb_spec 0 left); [| lia].
  destruct (Z.ltb_spec mtu left); [| lia]. rewrite (proj2 (Z.ltb_lt mtu left)) by done.
  rewrite (Z.quot_small mtu 8), Z.mul_0_l by lia. rewrite !Z.add_0_r, Z.sub_0_r.
  unfold alloc_skb, kmalloc. rewrite Hans. cbn [head tail default fmap option_fmap option_map].
  set (s2 := match sk with Some _ => _ | None => _ end).
  assert (answers s2 = []) as Hs2 by (unfold s2; destruct sk; cbn; by rewrite Hans).
  clearbody s2. cbn [sk_data upd]. replace (sizeof_sk_buff + hlen - sizeof_sk_buff) with (0 + hlen) by lia.
  rewrite fragment_data_spec by lia. cbn [mbind option_bind].
  edestruct Hx as (s3 & -> & Hs3); [exact Hs2 |]. cbn [mbind option_bind]. by apply IH.
Qed.

(** * Examples *)

(** A datagram for port-less UDP from 1.2.3.4. *)
Definition demo_ip (ttl len : Z) (dst data : list Z) : sk_buff :=
  let b := ip_send_check ([0x45; 0; len / 256; len mod 256; 0; 7; 0; 0; ttl; 17; 0; 0; 1; 2; 3; 4] ++ dst ++ data) 0 in
  mk_skb 1 b (zlen b) 0 0 1 None.
Definition demo_ppp : device := mk_dev 4 "ppp0" (Z.lor IFF_UP IFF_POINTOPOINT) 2 0 44 0 0x08070605 0 0 0 [].
Definition demo_host : inet := mk_inet [demo_ppp] [] None.
Definition demo_protos (hash : Z) : list inet_protocol :=
  if hash =? 17 then [mk_proto 1 17 true; mk_proto 2 49 false; mk_proto 3 17 false] else [].
(** An Ethernet header of ones. *)
Definition demo_link (_ : nat) : option (list Z -> Z -> Z -> Z -> list Z * Z) :=
  Some (fun data _ _ _ => (replicate (min 14 (length data)) 1 ++ drop 14 data, 14)).

(** [iph->ttl] is an unsigned byte: one that comes in with 0 goes out with 255
    instead of being dropped. *)
Example ttl_zero_forwarded :
  option_map (fun x => map (fun e => match e with Xmit d f _ => (d, ip_ttl f 14) | _ => (0%nat, 0) end) (out x.1))
    (ip_forward demo_link (demo_ip 0 28 [0xC0; 0xA8; 1; 7] (demo_bytes 8 1)) demo_slip 0 demo_net demo_routes)
  = Some [(1%nat, 255)].
Proof. by vm_compute. Qed.

(** [tot_len] is not compared with [skb->len]: a header that claims more than
    came is believed. *)
Example length_trusted :
  option_map (fun x => map (fun e => match e with Delivered h c _ len _ => (h, sk_len c, len) | _ => (0%nat, 0, 0) end) (out x.1))
    (ip_rcv demo_link demo_protos (demo_ip 64 120 [5; 6; 7; 8] (demo_bytes 8 1)) demo_ppp demo_net demo_host)
  = Some [(3%nat, 28, 100); (1%nat, 28, 100)].
Proof. by vm_compute. Qed.

Definition demo_payload : list Z := demo_bytes 24 1 ++ demo_bytes 24 2 ++ demo_bytes 2 3.
Definition demo_long : sk_buff := demo_ip 64 70 [5; 6; 7; 8] demo_payload.

Definition xmit_frame (e : net_event) : option (list Z) :=
  match e with Xmit _ f _ => Some f | _ => None end.

Lemma xmit_frames d p l : omap xmit_frame (rev ((fun f => Xmit d f p) <$> l)) = rev l.
Proof.
  rewrite <- (list_fmap_id l) at 2. induction l as [| f l IH]; [done |].
  cbn. rewrite omap_app. cbn in IH |- *. by rewrite IH.
Qed.

Lemma fragment_roundtrip_witness :
  exists frames s1, ip_queue_xmit xmit_fuel None (Some demo_ppp) demo_long 0 demo_net = Some s1 /\
    length frames = 3%nat /\ Forall (fun f => zlen f <= 44) frames /\
    let come k := mk_arrival (mk_skb 9 (default [] (frames !! k)) 0 0 0 1 None) 0 demo_slip k in
    exists s2 whole s3,
      deliver [come 2; come 0; come 0]%nat demo_net = Some ([None; None; None], s2) /\
      ip_defrag 0 (a_skb (come 1%nat)) demo_slip s2 = Some (Some whole, s3) /\
      drop (Z.to_nat (h_raw whole + 20)) (sk_data whole) = demo_payload.
Proof.
  destruct (fragment_roundtrip None demo_ppp demo_long 0 demo_net ltac:(by vm_compute) ltac:(by vm_compute)
    ltac:(by vm_compute) ltac:(by vm_compute) ltac:(by vm_compute) ltac:(by vm_compute)
    ltac:(split; by vm_compute) ltac:(by vm_compute) ltac:(done)) as (frames & s1 & E & Eo & Hf & Hr).
  assert (length frames = 3%nat) as Hl.
  { assert (omap xmit_frame (out s1) = rev frames) as Ef.
    { rewrite Eo. cbn [omap list_omap xmit_frame]. rewrite omap_app, xmit_frames. by rewrite app_nil_r. }
    rewrite <- length_rev, <- Ef.
    transitivity (default 0%nat ((fun s => length (omap xmit_frame (out s))) <$>
      ip_queue_xmit xmit_fuel None (Some demo_ppp) demo_long 0 demo_net)); [by rewrite E | by vm_compute]. }
  exists frames, s1. split; [exact E |]. split; [exact Hl |]. split; [exact Hf |]. intros come.
  assert (forall k, (k < 3)%nat -> brings frames 0 (come k)) as Hc.
  { intros k Hk. destruct (lookup_lt_is_Some_2 frames k) as [f Ef]; [lia |].
    exists f, []. split; [exact Ef |]. split; [| by split].
    unfold come. cbn [a_skb sk_data app]. rewrite Ef. by rewrite drop_0. }
  destruct (Hr [come 2; come 0; come 0]%nat (come 1%nat) demo_net) as (s2 & whole & s3 & H1 & H2 & H3 & _).
  - repeat constructor; apply Hc; lia.
  - rewrite Hl. intros k Hk. assert (k = 0 \/ k = 1 \/ k = 2)%nat as [-> | [-> | ->]] by lia; cbn; in_list.
  - rewrite Hl. intros H. specialize (H 1%nat ltac:(lia)). apply list_elem_of_In in H. cbn in H. intuition discriminate.
  - constructor.
  - done.
  - constructor.
  - exists s2, whole, s3. split; [exact H1 |]. split; [exact H2 |]. etrans; [exact H3 | by vm_compute].
Defined.

Lemma demo_long_ok : bytes_ok (sk_data (demo_ip 64 28 [5; 6; 7; 8] (demo_bytes 8 1))).
Proof. apply bytes_ok_dec. by vm_compute. Qed.


Lemma demo_link_ok dev : hard_header_len dev = 14 -> link_ok demo_link dev.
Proof.
  intros Hh hh data daddr saddr len E.
  assert (hh = fun data _ _ _ => (replicate (min 14 (length data)) 1 ++ drop 14 data, 14)) as ->
    by (unfold demo_link in E; congruence).
  cbn [fst]. rewrite Hh. split_and!.
  - rewrite length_app, length_replicate, length_drop. lia.
  - intros Hb. apply bytes_ok_app; [| by apply Forall_drop].
    apply Forall_forall. intros x Hx. apply elem_of_replicate in Hx as [-> _]. unfold is_byte. lia.
  - change (Z.to_nat 14) with 14%nat. destruct (Nat.le_gt_cases 14 (length data)).
    + rewrite drop_app_length' by (rewrite length_replicate; lia). done.
    + rewrite !(drop_ge data) by lia. apply drop_ge. rewrite app_nil_r, length_replicate. lia.
Qed.

Lemma demo_forward_ok : bytes_ok (sk_data (demo_ip 64 28 [0xC0; 0xA8; 1; 7] (demo_bytes 8 1))).
Proof. apply bytes_ok_dec. by vm_compute. Qed.

