(* ===== verification/Ttyq.v ===== *)
(** The queues of a terminal (include/linux/tty.h, drivers/char/tty_io.c): a ring
    of 1024 bytes that holds at most 1023, and the queue of bytes that it is. *)

From S2P Require Import Prelude.

(** include/linux/tty.h:62-62 [TTY_BUF_SIZE] *)
Definition TTY_BUF_SIZE := 1024.

(** include/linux/tty.h:64-69 [struct tty_queue]; the processes that wait are
    not part of it *)
Record tty_queue := mk_queue { head : Z; tail : Z; buf : list Z }.
#[export] Instance eta_queue : Eta tty_queue := fun q => mk_queue (head q) (tail q) (buf q).

Definition mask (a : Z) : Z := Z.land a (TTY_BUF_SIZE - 1).
(** include/linux/tty.h:137-143 *)
Definition INC (a : Z) : Z := mask (a + 1).
(** include/linux/tty.h:138-138 [DEC] *)
Definition DEC (a : Z) : Z := mask (a - 1).
(** include/linux/tty.h:139-139 [EMPTY] *)
Definition EMPTY (a : tty_queue) : bool := head a =? tail a.
(** include/linux/tty.h:140-140 [LEFT] *)
Definition LEFT (a : tty_queue) : Z := mask (tail a - head a - 1).
(** include/linux/tty.h:141-141 [LAST] *)
Definition LAST (a : tty_queue) : Z := znth 0 (buf a) (mask (head a - 1)).
(** include/linux/tty.h:142-142 [FULL] *)
Definition FULL (a : tty_queue) : bool := LEFT a =? 0.
(** include/linux/tty.h:143-143 [CHARS] *)
Definition CHARS (a : tty_queue) : Z := mask (head a - tail a).

(** drivers/char/tty_io.c:104-117 [put_tty_queue] *)
Definition put_tty_queue (c : Z) (queue : tty_queue) : tty_queue :=
  let head' := mask (head queue + 1) in
  if negb (head' =? tail queue) then queue <| buf ::= fun b => zupd b (head queue) c |> <| head := head' |>
  else queue.

(** drivers/char/tty_io.c:119-132 [get_tty_queue] *)
Definition get_tty_queue (queue : tty_queue) : Z * tty_queue :=
  if negb (tail queue =? head queue) then (znth 0 (buf queue) (tail queue), queue <| tail ::= INC |>)
  else (-1, queue).

(** * The queue of bytes *)

Definition empty_queue : tty_queue := mk_queue 0 0 (replicate 1024 0).

Record queue_ok (q : tty_queue) : Prop := {
  qo_head : 0 <= head q < TTY_BUF_SIZE;
  qo_tail : 0 <= tail q < TTY_BUF_SIZE;
  qo_buf : length (buf q) = 1024%nat;
}.

(** [n] bytes from index [i] on, around the end. *)
Fixpoint window (n : nat) (i : Z) (b : list Z) : list Z :=
  match n with O => [] | S n => znth 0 b i :: window n (INC i) b end.

(** The bytes in the queue, oldest first. *)
Definition contents (q : tty_queue) : list Z := window (Z.to_nat (CHARS q)) (tail q) (buf q).

Lemma mask_mod a : mask a = a mod TTY_BUF_SIZE.
Proof. unfold mask, TTY_BUF_SIZE. change (1024 - 1) with (Z.ones 10). by rewrite Z.land_ones. Qed.

Lemma mask_bounds a : 0 <= mask a < TTY_BUF_SIZE.
Proof. rewrite mask_mod. apply Z.mod_pos_bound. unfold TTY_BUF_SIZE. lia. Qed.
#[export] Hint Resolve mask_bounds : kernel.

Lemma mask_small a : 0 <= a < TTY_BUF_SIZE -> mask a = a.
Proof. intros. rewrite mask_mod. by apply Z.mod_small. Qed.

Lemma mask_cases a : - TTY_BUF_SIZE <= a < 2 * TTY_BUF_SIZE ->
  mask a = if a <? 0 then a + TTY_BUF_SIZE else if a <? TTY_BUF_SIZE then a else a - TTY_BUF_SIZE.
Proof.
  intros Ha. rewrite mask_mod. unfold TTY_BUF_SIZE in *. destruct (Z.ltb_spec a 0); [| destruct (Z.ltb_spec a 1024)].
  - symmetry. apply (Z.mod_unique _ _ (-1)); lia.
  - apply Z.mod_small. lia.
  - symmetry. apply (Z.mod_unique _ _ 1); lia.
Qed.

(** Solve a goal about indices around the ring. *)
Ltac ring_arith :=
  unfold INC, DEC, CHARS, LEFT, EMPTY, FULL in *; unfold TTY_BUF_SIZE in *;
  repeat match goal with
  | |- context [mask ?a] =>
      lazymatch a with context [mask] => fail | _ => rewrite (mask_cases a) by (unfold TTY_BUF_SIZE; lia); unfold TTY_BUF_SIZE end
  | H : context [mask ?a] |- _ =>
      lazymatch a with context [mask] => fail | _ => rewrite (mask_cases a) in H by (unfold TTY_BUF_SIZE; lia); unfold TTY_BUF_SIZE in H end
  | |- context [?a <? ?b] => destruct (Z.ltb_spec a b)
  | H : context [?a <? ?b] |- _ => destruct (Z.ltb_spec a b)
  | |- context [?a =? ?b] => destruct (Z.eqb_spec a b)
  | H : context [?a =? ?b] |- _ => destruct (Z.eqb_spec a b)
  end; try lia; try done.

Lemma window_app n m i b :
  0 <= i < TTY_BUF_SIZE -> (n + m <= 1024)%nat ->
  window (n + m) i b = window n i b ++ window m (mask (i + Z.of_nat n)) b.
Proof.
  revert i. induction n as [| n IH]; intros i Hi Hn; cbn [window Nat.add app].
  - by rewrite Z.add_0_r, mask_small.
  - f_equal. rewrite IH by (apply mask_bounds || lia). do 2 f_equal. ring_arith.
Qed.

Lemma window_length n i b : length (window n i b) = n.
Proof. revert i. induction n as [| n IH]; intros i; cbn; [done |]. by rewrite IH. Qed.

(** A byte that is written outside the window does not change it. *)
Lemma window_zupd n i b j c :
  0 <= i < TTY_BUF_SIZE -> 0 <= j < TTY_BUF_SIZE -> (n <= 1024)%nat -> Z.of_nat n <= mask (j - i) ->
  window n i (zupd b j c) = window n i b.
Proof.
  revert i. induction n as [| n IH]; intros i Hi Hj Hn Hd; cbn [window]; [done |]. f_equal.
  - apply znth_zupd_ne; ring_arith.
  - apply IH; try (apply mask_bounds || lia). ring_arith.
Qed.

Lemma queue_length q : queue_ok q -> Z.of_nat (length (contents q)) = CHARS q.
Proof. intros [H1 H2 H3]. unfold contents. rewrite window_length. pose proof (mask_bounds (head q - tail q)). unfold CHARS in *. lia. Qed.

Lemma left_spec q : queue_ok q -> LEFT q = 1023 - Z.of_nat (length (contents q)).
Proof. intros H. rewrite queue_length by done. destruct H. ring_arith. Qed.

Lemma empty_spec q : queue_ok q -> EMPTY q = true <-> contents q = [].
Proof.
  intros H. pose proof (queue_length q H) as Hl. destruct H. split.
  - intros E. destruct (contents q); [done |]. cbn in Hl. ring_arith.
  - intros E. rewrite E in Hl. cbn in Hl. ring_arith.
Qed.

Lemma put_tty_queue_spec c q :
  queue_ok q ->
  queue_ok (put_tty_queue c q) /\
  contents (put_tty_queue c q) = if 0 <? LEFT q then contents q ++ [c] else contents q.
Proof.
  intros [H1 H2 H3]. unfold put_tty_queue.
  assert ((mask (head q + 1) =? tail q) = negb (0 <? LEFT q)) as -> by ring_arith.
  destruct (Z.ltb_spec 0 (LEFT q)); cbn [negb]; [| done].
  split; [constructor; cbn [head tail buf upd]; auto with kernel; by rewrite zupd_length |].
  assert (CHARS q < 1023) by ring_arith. pose proof (mask_bounds (head q - tail q)). unfold contents.
  replace (Z.to_nat (CHARS _)) with (Z.to_nat (CHARS q) + 1)%nat
    by (unfold CHARS at 2; cbn [upd head tail]; ring_arith).
  cbn [upd head tail buf]. rewrite window_app by (done || ring_arith).
  rewrite window_zupd by (done || ring_arith). f_equal. cbn [window]. f_equal.
  replace (mask _) with (head q) by (unfold CHARS in *; ring_arith).
  apply znth_zupd_eq. unfold TTY_BUF_SIZE in *. lia.
Qed.

Lemma get_tty_queue_spec q :
  queue_ok q ->
  match contents q with
  | [] => get_tty_queue q = (-1, q)
  | c :: l => exists q', get_tty_queue q = (c, q') /\ queue_ok q' /\ contents q' = l
  end.
Proof.
  intros H. pose proof (empty_spec q H) as He. pose proof H as [H1 H2 H3]. unfold get_tty_queue.
  rewrite (Z.eqb_sym (tail q) (head q)). fold (EMPTY q).
  destruct (contents q) as [| c l] eqn:E.
  - by rewrite (proj2 He eq_refl).
  - destruct (EMPTY q) eqn:Ee; [by pose proof (proj1 He eq_refl) |]. cbn [negb].
    assert (0 < CHARS q) by ring_arith.
    assert (c = znth 0 (buf q) (tail q) /\ l = window (Z.to_nat (CHARS q - 1)) (INC (tail q)) (buf q)) as [-> ->].
    { unfold contents in E. replace (Z.to_nat (CHARS q)) with (S (Z.to_nat (CHARS q - 1))) in E by lia.
      by injection E as -> ->. }
    eexists. split; [reflexivity |]. split; [by constructor; cbn; auto with kernel; apply mask_bounds |].
    clear E He. unfold contents, CHARS. cbn [upd head tail buf]. do 2 f_equal. ring_arith.
Qed.

(** The byte that was put last is taken back. *)
Lemma unput_spec q :
  queue_ok q -> contents q <> [] ->
  let q' := q <| head ::= DEC |> in
  queue_ok q' /\ contents q = contents q' ++ [LAST q].
Proof.
  intros H Hne q'. assert (EMPTY q = false) as Ee.
  { apply not_true_iff_false. intros E. by apply Hne, empty_spec. }
  destruct H as [H1 H2 H3]. split; [by constructor; cbn; auto with kernel; apply mask_bounds |].
  unfold contents, q'. cbn [upd head tail buf].
  replace (Z.to_nat (CHARS q)) with (Z.to_nat (CHARS (mk_queue (DEC (head q)) (tail q) (buf q))) + 1)%nat
    by (unfold CHARS; cbn [head tail]; ring_arith).
  rewrite window_app by (done || (unfold CHARS; cbn [head tail]; ring_arith)). f_equal.
  cbn [window]. unfold LAST. do 2 f_equal. unfold CHARS; cbn [head tail]. ring_arith.
Qed.
