(* ===== verification/Console.v ===== *)
(** The virtual consoles (drivers/char/console.c): the VT102 terminal that
    [con_write] is, over a region of video memory through which the hardware
    scrolls the screen.

    The memory of a console is the list [vmem] of the 16-bit words from
    [vc_video_mem_start] to [vc_video_mem_end]; a pointer is its address, and an
    access outside the region gives [None].  Addresses are not wrapped: the
    theorems keep them in the region.  What happens outside of memory is
    recorded: the registers of the display controller, answers in the read queue
    of the terminal, sounds and lights. *)

From S2P Require Import Prelude Errno Task Ttyq.

(** drivers/char/console.c:81-81 [NPAR] *)
Definition NPAR := 16.

(** include/linux/tty.h:44-47 *)
Definition VIDEO_TYPE_MDA := 0x10.
Definition VIDEO_TYPE_CGA := 0x11.
Definition VIDEO_TYPE_EGAM := 0x20.
Definition VIDEO_TYPE_EGAC := 0x21.

(** drivers/char/kbd_kern.h:32-39 the modes of a keyboard that the console sets *)
Definition VC_APPLIC := 0.
Definition VC_CKMODE := 1.
Definition VC_REPEAT := 2.
Definition VC_CRLF := 3.

(** drivers/char/console.c:87-97 the display, the same for all consoles *)
Record video := mk_video {
  video_num_columns : Z; video_num_lines : Z; video_type : Z;
  video_mem_base : Z; video_mem_term : Z; can_do_color : bool;
}.
(** drivers/char/console.c:1400-1400 [video_size_row] *)
Definition video_size_row (v : video) : Z := video_num_columns v * 2.
(** drivers/char/console.c:1403-1403 [screen_size] *)
Definition screen_size (v : video) : Z := video_num_lines v * video_size_row v.

(** drivers/char/console.c:949-950 the states of the parser *)
Inductive es_state :=
  ESnormal | ESesc | ESsquare | ESgetpars | ESgotpars | ESfunckey | EShash | ESsetG0 | ESsetG1 | ESignore.
#[export] Instance es_state_dec : EqDecision es_state.
Proof. solve_decision. Defined.

(** drivers/char/console.c:292-295 names of the tables of [translations] *)
Inductive charmap := NORM_TRANS | GRAF_TRANS | NULL_TRANS | USER_TRANS.

(** drivers/char/console.c:224-237 8-bit Latin-1 *)
Definition latin1_trans : list Z :=
  [0; 0; 0; 0; 0; 0; 0; 0; 0; 0; 0; 0; 0; 0; 0; 0;
   0; 0; 0; 0; 0; 0; 0; 0; 0; 0; 254; 0; 0; 0; 0; 0;
   32; 33; 34; 35; 36; 37; 38; 39; 40; 41; 42; 43; 44; 45; 46; 47;
   48; 49; 50; 51; 52; 53; 54; 55; 56; 57; 58; 59; 60; 61; 62; 63;
   64; 65; 66; 67; 68; 69; 70; 71; 72; 73; 74; 75; 76; 77; 78; 79;
   80; 81; 82; 83; 84; 85; 86; 87; 88; 89; 90; 91; 92; 93; 94; 95;
   96; 97; 98; 99; 100; 101; 102; 103; 104; 105; 106; 107; 108; 109; 110; 111;
   112; 113; 114; 115; 116; 117; 118; 119; 120; 121; 122; 123; 124; 125; 126; 0;
   0; 0; 0; 0; 0; 0; 0; 0; 0; 0; 0; 0; 0; 0; 0; 0;
   0; 0; 0; 0; 0; 0; 0; 0; 0; 0; 0; 0; 0; 0; 0; 0;
   255; 173; 155; 156; 254; 157; 124; 21; 254; 254; 166; 174; 170; 45; 254; 254;
   248; 241; 253; 254; 254; 230; 20; 249; 254; 254; 167; 175; 172; 171; 254; 168;
   254; 254; 254; 254; 142; 143; 146; 128; 254; 144; 254; 254; 254; 254; 254; 254;
   254; 165; 254; 254; 254; 254; 153; 254; 232; 254; 254; 254; 154; 254; 254; 225;
   133; 160; 131; 254; 132; 134; 145; 135; 138; 130; 136; 137; 141; 161; 140; 139;
   254; 164; 149; 162; 147; 254; 148; 246; 237; 151; 163; 150; 129; 254; 254; 152].

(** drivers/char/console.c:238-253 vt100 graphics *)
Definition graf_trans : list Z :=
  [0; 0; 0; 0; 0; 0; 0; 0; 0; 0; 0; 0; 0; 0; 0; 0;
   0; 0; 0; 0; 0; 0; 0; 0; 0; 0; 254; 0; 0; 0; 0; 0;
   32; 33; 34; 35; 36; 37; 38; 39; 40; 41; 42; 43; 44; 45; 46; 47;
   48; 49; 50; 51; 52; 53; 54; 55; 56; 57; 58; 59; 60; 61; 62; 63;
   64; 65; 66; 67; 68; 69; 70; 71; 72; 73; 74; 75; 76; 77; 78; 79;
   80; 81; 82; 83; 84; 85; 86; 87; 88; 89; 90; 91; 92; 93; 94; 32;
   4; 177; 7; 7; 7; 7; 248; 241; 7; 7; 217; 191; 218; 192; 197; 196;
   196; 196; 95; 95; 195; 180; 193; 194; 179; 243; 242; 227; 216; 156; 7; 0;
   0; 0; 0; 0; 0; 0; 0; 0; 0; 0; 0; 0; 0; 0; 0; 0;
   0; 0; 0; 0; 0; 0; 0; 0; 0; 0; 0; 0; 0; 0; 0; 0;
   255; 173; 155; 156; 254; 157; 124; 21; 254; 254; 166; 174; 170; 45; 254; 254;
   248; 241; 253; 254; 254; 230; 20; 249; 254; 254; 167; 175; 172; 171; 254; 168;
   254; 254; 254; 254; 142; 143; 146; 128; 254; 144; 254; 254; 254; 254; 254; 254;
   254; 165; 254; 254; 254; 254; 153; 254; 254; 254; 254; 254; 154; 254; 254; 225;
   133; 160; 131; 254; 132; 134; 145; 135; 138; 130; 136; 137; 141; 161; 140; 139;
   254; 164; 149; 162; 147; 254; 148; 246; 254; 151; 163; 150; 129; 254; 254; 152].

(** drivers/char/console.c:254-271 IBM graphics *)
Definition null_trans : list Z :=
  [0; 1; 2; 3; 4; 5; 6; 7; 0; 9; 0; 11; 0; 0; 0; 0;
   16; 17; 18; 19; 20; 21; 22; 23; 24; 25; 26; 0; 28; 29; 30; 31;
   32; 33; 34; 35; 36; 37; 38; 39; 40; 41; 42; 43; 44; 45; 46; 47;
   48; 49; 50; 51; 52; 53; 54; 55; 56; 57; 58; 59; 60; 61; 62; 63;
   64; 65; 66; 67; 68; 69; 70; 71; 72; 73; 74; 75; 76; 77; 78; 79;
   80; 81; 82; 83; 84; 85; 86; 87; 88; 89; 90; 91; 92; 93; 94; 95;
   96; 97; 98; 99; 100; 101; 102; 103; 104; 105; 106; 107; 108; 109; 110; 111;
   112; 113; 114; 115; 116; 117; 118; 119; 120; 121; 122; 123; 124; 125; 126; 127;
   128; 129; 130; 131; 132; 133; 134; 135; 136; 137; 138; 139; 140; 141; 142; 143;
   144; 145; 146; 147; 148; 149; 150; 151; 152; 153; 154; 155; 156; 157; 158; 159;
   160; 161; 162; 163; 164; 165; 166; 167; 168; 169; 170; 171; 172; 173; 174; 175;
   176; 177; 178; 179; 180; 181; 182; 183; 184; 185; 186; 187; 188; 189; 190; 191;
   192; 193; 194; 195; 196; 197; 198; 199; 200; 201; 202; 203; 204; 205; 206; 207;
   208; 209; 210; 211; 212; 213; 214; 215; 216; 217; 218; 219; 220; 221; 222; 223;
   224; 225; 226; 227; 228; 229; 230; 231; 232; 233; 234; 235; 236; 237; 238; 239;
   240; 241; 242; 243; 244; 245; 246; 247; 248; 249; 250; 251; 252; 253; 254; 255].

(** drivers/char/console.c:272-290 the table that the user may change, at first *)
Definition user_trans0 : list Z :=
  [0; 1; 2; 3; 4; 5; 6; 7; 8; 9; 0; 11; 0; 0; 14; 15;
   16; 17; 18; 19; 20; 21; 22; 23; 24; 25; 26; 0; 28; 29; 30; 31;
   32; 33; 34; 35; 36; 37; 38; 39; 40; 41; 42; 43; 44; 45; 46; 47;
   48; 49; 50; 51; 52; 53; 54; 55; 56; 57; 58; 59; 60; 61; 62; 63;
   64; 65; 66; 67; 68; 69; 70; 71; 72; 73; 74; 75; 76; 77; 78; 79;
   80; 81; 82; 83; 84; 85; 86; 87; 88; 89; 90; 91; 92; 93; 94; 95;
   96; 97; 98; 99; 100; 101; 102; 103; 104; 105; 106; 107; 108; 109; 110; 111;
   112; 113; 114; 115; 116; 117; 118; 119; 120; 121; 122; 123; 124; 125; 126; 127;
   128; 129; 130; 131; 132; 133; 134; 135; 136; 137; 138; 139; 140; 141; 142; 143;
   144; 145; 146; 147; 148; 149; 150; 151; 152; 153; 154; 155; 156; 157; 158; 159;
   160; 161; 162; 163; 164; 165; 166; 167; 168; 169; 170; 171; 172; 173; 174; 175;
   176; 177; 178; 179; 180; 181; 182; 183; 184; 185; 186; 187; 188; 189; 190; 191;
   192; 193; 194; 195; 196; 197; 198; 199; 200; 201; 202; 203; 204; 205; 206; 207;
   208; 209; 210; 211; 212; 213; 214; 215; 216; 217; 218; 219; 220; 221; 222; 223;
   224; 225; 226; 227; 228; 229; 230; 231; 232; 233; 234; 235; 236; 237; 238; 239;
   240; 241; 242; 243; 244; 245; 246; 247; 248; 249; 250; 251; 252; 253; 254; 255].

(** drivers/char/console.c:297-298 [color_table] *)
Definition color_table : list Z := [0; 4; 2; 6; 1; 5; 3; 7; 8; 12; 10; 14; 9; 13; 11; 15].

Inductive con_event := Sound (freq ticks : Z) | SetLeds.

(** drivers/char/console.c:100-146 a console: its entry of [vc_cons] and of
    [kbd_table], whether it is what the monitor shows, and the globals that only
    the console in the foreground uses *)
Record vc := mk_vc {
    vmem : list Z; vc_num : Z; visible : bool; vc_video_mem_start : Z; vc_video_mem_end : Z; vc_origin : Z;
  vc_scr_end : Z; vc_pos : Z; vc_x : Z; vc_y : Z; vc_top : Z; vc_bottom : Z; vc_state : es_state; vc_npar : Z;
  vc_par : list Z; vc_ques : bool; vc_saved_x : Z; vc_saved_y : Z; vc_video_erase_char : Z; vc_attr : Z;
  vc_def_color : Z; vc_color : Z; vc_s_color : Z; vc_ulcolor : Z; vc_halfcolor : Z; vc_charset : bool;
  vc_s_charset : bool; vc_decscnm : bool; vc_decom : bool; vc_decawm : bool; vc_deccm : bool; vc_decim : bool;
  vc_intensity : Z; vc_underline : bool; vc_blink : bool; vc_reverse : bool; vc_s_intensity : Z;
  vc_s_underline : bool; vc_s_blink : bool; vc_s_reverse : bool; vc_need_wrap : bool; vc_tab_stop : list Z;
  vc_translate : charmap; vc_G0_charset : charmap; vc_G1_charset : charmap; vc_saved_G0 : charmap; vc_saved_G1
  : charmap; modeflags : Z; lockstate : Z; ledstate : Z; default_ledstate : Z; user_trans : list Z;
  blankinterval : Z; real_origin : Z; shown_origin : Z; cursor_reg : Z; read_q : tty_queue; con_out : list
  con_event;
}.
#[export] Instance eta_vc : Eta vc := fun s =>
  mk_vc (vmem s) (vc_num s) (visible s) (vc_video_mem_start s) (vc_video_mem_end s) (vc_origin s) (vc_scr_end
  s) (vc_pos s) (vc_x s) (vc_y s) (vc_top s) (vc_bottom s) (vc_state s) (vc_npar s) (vc_par s) (vc_ques s)
  (vc_saved_x s) (vc_saved_y s) (vc_video_erase_char s) (vc_attr s) (vc_def_color s) (vc_color s) (vc_s_color
  s) (vc_ulcolor s) (vc_halfcolor s) (vc_charset s) (vc_s_charset s) (vc_decscnm s) (vc_decom s) (vc_decawm s)
  (vc_deccm s) (vc_decim s) (vc_intensity s) (vc_underline s) (vc_blink s) (vc_reverse s) (vc_s_intensity s)
  (vc_s_underline s) (vc_s_blink s) (vc_s_reverse s) (vc_need_wrap s) (vc_tab_stop s) (vc_translate s)
  (vc_G0_charset s) (vc_G1_charset s) (vc_saved_G0 s) (vc_saved_G1 s) (modeflags s) (lockstate s) (ledstate s)
  (default_ledstate s) (user_trans s) (blankinterval s) (real_origin s) (shown_origin s) (cursor_reg s)
  (read_q s) (con_out s).

(** ** Memory *)

Definition lget (i : Z) (l : list Z) : option Z :=
  if (0 <=? i) && (i <? Z.of_nat (length l)) then Some (znth 0 l i) else None.
Definition lput (i v : Z) (l : list Z) : option (list Z) :=
  if (0 <=? i) && (i <? Z.of_nat (length l)) then Some (zupd l i v) else None.

(** [rep stosw]: [n] words [v], upwards from index [i] or downwards. *)
Fixpoint stosw (n : nat) (step i v : Z) (l : list Z) : option (list Z) :=
  match n with
  | O => Some l
  | S n => l ← lput i v l; stosw n step (i + step) v l
  end.

(** [rep movsl]: [n] long words, two words each. *)
Fixpoint movsl (n : nat) (step src dst : Z) (l : list Z) : option (list Z) :=
  match n with
  | O => Some l
  | S n =>
      a ← lget src l; b ← lget (src + 1) l;
      l ← lput dst a l; l ← lput (dst + 1) b l;
      movsl n step (src + step) (dst + step) l
  end.

(** The index of an address. *)
Definition idx (s : vc) (a : Z) : Z := (a - vc_video_mem_start s) / 2.

Definition with_mem (m : option (list Z)) (s : vc) : option vc := (fun l => s <| vmem := l |>) <$> m.

(** A table of [translations]. *)
Definition trans_table (s : vc) (m : charmap) : list Z :=
  match m with
  | NORM_TRANS => latin1_trans | GRAF_TRANS => graf_trans | NULL_TRANS => null_trans | USER_TRANS => user_trans s
  end.

Definition set_kbd (m : Z) (s : vc) : vc := s <| modeflags ::= fun f => Z.lor f (Z.shiftl 1 m) |>.
Definition clr_kbd (m : Z) (s : vc) : vc := s <| modeflags ::= fun f => u8 (Z.ldiff f (Z.shiftl 1 m)) |>.
Definition is_kbd (m : Z) (s : vc) : bool := Z.testbit (modeflags s) m.
Definition con_emit (e : con_event) (s : vc) : vc := s <| con_out ::= cons e |>.

Section console.
Context (v : video).
Let cols := video_num_columns v.
Let lines := video_num_lines v.
Let row := video_size_row v.

Definition is_ega : bool := (video_type v =? VIDEO_TYPE_EGAC) || (video_type v =? VIDEO_TYPE_EGAM).

(** drivers/char/console.c:305-330 [gotoxy] *)
Definition gotoxy (new_x new_y : Z) (s : vc) : vc :=
  let x := if new_x <? 0 then 0 else if cols <=? new_x then cols - 1 else new_x in
  let '(new_y, max_y) := if vc_decom s then (s32 (new_y + vc_top s), vc_bottom s) else (new_y, lines) in
  let y := if new_y <? 0 then 0 else if max_y <=? new_y then max_y - 1 else new_y in
  s <| vc_x := x |> <| vc_y := y |> <| vc_pos := vc_origin s + y * row + x * 2 |> <| vc_need_wrap := false |>.

(** drivers/char/console.c:338-351 [__set_origin] *)
Definition __set_origin (offset : Z) (s : vc) : vc := s <| shown_origin := u16 offset |>.

(** drivers/char/console.c:353-362 [scrollback] *)
Definition scrollback (n : Z) (s : vc) : vc :=
  let n := if n =? 0 then lines / 2 else n in
  let n := s32 (shown_origin s - s32 (n * cols)) in
  __set_origin (if n <? 0 then 0 else n) s.

(** drivers/char/console.c:364-373 [scrollfront] *)
Definition scrollfront (n : Z) (s : vc) : vc :=
  let n := if n =? 0 then lines / 2 else n in
  let n := s32 (shown_origin s + s32 (n * cols)) in
  __set_origin (if real_origin s <? n then real_origin s else n) s.

(** drivers/char/console.c:375-383 [set_origin] *)
Definition set_origin (s : vc) : vc :=
  if is_ega && visible s then
    let s := s <| real_origin := u16 ((vc_origin s - video_mem_base v) / 2) |> in
    __set_origin (real_origin s) s
  else s.

(** drivers/char/console.c:388-397 [hide_cursor] *)
Definition hide_cursor (s : vc) : vc := s <| cursor_reg := u16 ((video_mem_term v - video_mem_base v) / 2) |>.

(** drivers/char/console.c:399-416 [set_cursor]; [set_origin] is called with
    [__real_origin] for the number of the console *)
Definition set_cursor (s : vc) : vc :=
  if visible s then
    let s := if negb (real_origin s =? shown_origin s) && (real_origin s =? vc_num s) then set_origin s else s in
    if vc_deccm s then s <| cursor_reg := u16 ((vc_pos s - video_mem_base v) / 2) |> else hide_cursor s
  else s.

(** drivers/char/console.c:428-456 the screen moves down one row in its memory,
    or back to the start of it *)
Definition scrup_hard (s : vc) : option vc :=
  let s := s <| vc_origin ::= fun o => o + row |> <| vc_pos ::= fun p => p + row |> <| vc_scr_end ::= fun e => e + row |> in
  s ← (if vc_video_mem_end s <? vc_scr_end s then
         let n := Z.shiftr ((lines - 1) * cols) 1 in
         s ← with_mem (m ← movsl (Z.to_nat n) 2 (idx s (vc_origin s)) 0 (vmem s);
                       stosw (Z.to_nat cols) 1 (n * 2) (vc_video_erase_char s) m) s;
         let d := vc_origin s - vc_video_mem_start s in
         Some (s <| vc_scr_end ::= fun e => e - d |> <| vc_pos ::= fun p => p - d |>
                 <| vc_origin := vc_video_mem_start s |>)
       else
         with_mem (stosw (Z.to_nat cols) 1 (idx s (vc_scr_end s - row)) (vc_video_erase_char s) (vmem s)) s);
  Some (set_origin s).

(** drivers/char/console.c:418-473 [scrup] *)
Definition scrup (t b : Z) (s : vc) : option vc :=
  if (lines <? b) || (b <=? t) then Some s
  else if is_ega && (t =? 0) && (b =? lines) then scrup_hard s
  else
    let n := Z.shiftr ((b - t - 1) * cols) 1 in
    let dst := idx s (vc_origin s + row * t) in
    with_mem (m ← movsl (Z.to_nat n) 2 (idx s (vc_origin s + row * (t + 1))) dst (vmem s);
              stosw (Z.to_nat cols) 1 (dst + n * 2) (vc_video_erase_char s) m) s.

(** drivers/char/console.c:475-493 [scrdown]; the direction flag is set *)
Definition scrdown (t b : Z) (s : vc) : option vc :=
  if (lines <? b) || (b <=? t) then Some s
  else
    let n := Z.shiftr ((b - t - 1) * cols) 1 in
    let dst := idx s (vc_origin s + row * b - 4) in
    with_mem (m ← movsl (Z.to_nat n) (-2) (idx s (vc_origin s + row * (b - 1) - 4)) dst (vmem s);
              stosw (Z.to_nat cols) (-1) (dst - n * 2 + 1) (vc_video_erase_char s) m) s.

(** drivers/char/console.c:495-504 [lf] *)
Definition lf (s : vc) : option vc :=
  if vc_y s + 1 <? vc_bottom s then Some (s <| vc_y ::= fun y => y + 1 |> <| vc_pos ::= fun p => p + row |>)
  else s ← scrup (vc_top s) (vc_bottom s) s; Some (s <| vc_need_wrap := false |>).

(** drivers/char/console.c:506-515 [ri] *)
Definition ri (s : vc) : option vc :=
  if vc_top s <? vc_y s then Some (s <| vc_y ::= fun y => y - 1 |> <| vc_pos ::= fun p => p - row |>)
  else s ← scrdown (vc_top s) (vc_bottom s) s; Some (s <| vc_need_wrap := false |>).

(** drivers/char/console.c:517-521 [cr] *)
Definition cr (s : vc) : vc :=
  s <| vc_pos := vc_pos s - vc_x s * 2 |> <| vc_x := 0 |> <| vc_need_wrap := false |>.

(** drivers/char/console.c:523-530 [bs] *)
Definition bs (s : vc) : vc :=
  if ctrue (vc_x s) then
    s <| vc_pos ::= fun p => p - 2 |> <| vc_x ::= fun x => x - 1 |> <| vc_need_wrap := false |>
  else s.

(** [count] words from the address [start] on are erased. *)
Definition erase_words (count start : Z) (s : vc) : option vc :=
  s ← with_mem (stosw (Z.to_nat count) 1 (idx s start) (vc_video_erase_char s) (vmem s)) s;
  Some (s <| vc_need_wrap := false |>).

(** drivers/char/console.c:546-575 [csi_J] *)
Definition csi_J (vpar : Z) (s : vc) : option vc :=
  if vpar =? 0 then erase_words ((vc_scr_end s - vc_pos s) / 2) (vc_pos s) s
  else if vpar =? 1 then erase_words ((vc_pos s - vc_origin s) / 2 + 1) (vc_origin s) s
  else if vpar =? 2 then erase_words (cols * lines) (vc_origin s) s
  else Some s.

(** drivers/char/console.c:577-606 [csi_K] *)
Definition csi_K (vpar : Z) (s : vc) : option vc :=
  if vpar =? 0 then erase_words (cols - vc_x s) (vc_pos s) s
  else if vpar =? 1 then erase_words (vc_x s + 1) (vc_pos s - vc_x s * 2) s
  else if vpar =? 2 then erase_words cols (vc_pos s - vc_x s * 2) s
  else Some s.

(** Foreground and background are exchanged, the bright and blink bits stay. *)
Definition swap_colors (c : Z) : Z :=
  Z.lor (Z.land c 0x88) (Z.land (Z.lor (Z.shiftr c 4) (Z.shiftl c 4)) 0x77).

(** drivers/char/console.c:611-636 [update_attr] *)
Definition update_attr (s : vc) : vc :=
  let attr := vc_color s in
  let attr := if can_do_color v then
      if vc_underline s then Z.lor (Z.land attr 0xf0) (vc_ulcolor s)
      else if vc_intensity s =? 0 then Z.lor (Z.land attr 0xf0) (vc_halfcolor s) else attr
    else attr in
  let attr := if xorb (vc_reverse s) (vc_decscnm s) then swap_colors attr else attr in
  let attr := if vc_blink s then Z.lxor attr 0x80 else attr in
  let attr := if vc_intensity s =? 2 then Z.lxor attr 0x08 else attr in
  let attr := if can_do_color v then attr
    else if vc_underline s then Z.lor (Z.land attr 0xf8) 0x01
    else if vc_intensity s =? 0 then Z.lor (Z.land attr 0xf0) 0x08 else attr in
  s <| vc_attr := u8 attr |>
    <| vc_video_erase_char :=
         Z.lor (Z.shiftl (if vc_decscnm s then swap_colors (vc_color s) else vc_color s) 8) 0x20 |>.

(** drivers/char/console.c:638-645 [default_attr] *)
Definition default_attr (s : vc) : vc :=
  s <| vc_intensity := 1 |> <| vc_underline := false |> <| vc_reverse := false |> <| vc_blink := false |>
    <| vc_color := vc_def_color s |>.

(** drivers/char/console.c:652-697 one parameter of [csi_m] *)
Definition sgr (p : Z) (s : vc) : vc :=
  let color := vc_color s in
  if p =? 0 then default_attr s
  else if p =? 1 then s <| vc_intensity := 2 |>
  else if p =? 2 then s <| vc_intensity := 0 |>
  else if p =? 4 then s <| vc_underline := true |>
  else if p =? 5 then s <| vc_blink := true |>
  else if p =? 7 then s <| vc_reverse := true |>
  else if (p =? 21) || (p =? 22) then s <| vc_intensity := 1 |>
  else if p =? 24 then s <| vc_underline := false |>
  else if p =? 25 then s <| vc_blink := false |>
  else if p =? 27 then s <| vc_reverse := false |>
  else if p =? 39 then s <| vc_color := Z.lor (Z.land (vc_def_color s) 0x0f) (Z.land color 0xf0) |>
  else if p =? 49 then s <| vc_color := Z.lor (Z.land (vc_def_color s) 0xf0) (Z.land color 0x0f) |>
  else if (30 <=? p) && (p <=? 37) then s <| vc_color := Z.lor (znth 0 color_table (p - 30)) (Z.land color 0xf0) |>
  else if (40 <=? p) && (p <=? 47) then
    s <| vc_color := Z.lor (Z.shiftl (znth 0 color_table (p - 40)) 4) (Z.land color 0x0f) |>
  else s.

(** The parameters from 0 to [npar]. *)
Definition pars (s : vc) : list Z := take (Z.to_nat (vc_npar s + 1)) (vc_par s).
Definition par (s : vc) (i : Z) : Z := znth 0 (vc_par s) i.

(** drivers/char/console.c:647-700 [csi_m] *)
Definition csi_m (s : vc) : vc := update_attr (foldl (fun s p => sgr p s) s (pars s)).

(** ** Answers *)

(** drivers/char/console.c:702-709 [respond_string] *)
Definition respond_string (p : list Z) (s : vc) : vc := s <| read_q ::= fun q => foldl (fun q c => put_tty_queue c q) q p |>.

(** drivers/char/console.c:716-719 the digits of [n], last first *)
Fixpoint num_digits (fuel : nat) (n : Z) : list Z :=
  match fuel with
  | O => []
  | S fuel => (n mod 10 + 48) :: (if n / 10 =? 0 then [] else num_digits fuel (n / 10))
  end.
(** drivers/char/console.c:711-724 [respond_num] *)
Definition respond_num (n : Z) (s : vc) : vc := respond_string (rev (num_digits 3 n)) s.

(** drivers/char/console.c:726-735 [cursor_report] *)
Definition cursor_report (s : vc) : vc :=
  let s := respond_string [27; 91] s in
  let s := respond_num (vc_y s + (if vc_decom s then vc_top s + 1 else 1)) s in
  let s := respond_string [59] s in
  let s := respond_num (vc_x s + 1) s in
  respond_string [82] s.

(** drivers/char/console.c:737-740 [status_report] *)
Definition status_report : vc -> vc := respond_string [27; 91; 48; 110].

(** drivers/char/console.c:742-745 [respond_ID] *)
Definition respond_ID : vc -> vc := respond_string [27; 91; 63; 54; 99].

(** ** Modes *)

(** The attribute byte of a word; [0x07 == 1] binds first, so that the
    monochrome mask is always 0x77. *)
Definition invert_word (w : Z) : Z :=
  let p := Z.shiftr w 8 in
  let p := if can_do_color v then swap_colors p else Z.lxor p 0x77 in
  Z.lor (Z.shiftl p 8) (Z.land w 0xff).

(** drivers/char/console.c:751-755 the loop over [n] words *)
Fixpoint invert_words (n : nat) (i : Z) (l : list Z) : option (list Z) :=
  match n with
  | O => Some l
  | S n => w ← lget i l; l ← lput i (invert_word w) l; invert_words n (i + 1) l
  end.

(** drivers/char/console.c:747-756 [invert_screen] *)
Definition invert_screen (s : vc) : option vc :=
  with_mem (invert_words (Z.to_nat ((vc_scr_end s - vc_origin s) / 2)) (idx s (vc_origin s)) (vmem s)) s.

(** drivers/char/console.c:762-808 one parameter of [set_mode] *)
Definition set_mode_par (on_off : bool) (p : Z) (s : vc) : option vc :=
  let kbd m := if on_off then set_kbd m s else clr_kbd m s in
  if vc_ques s then
    if p =? 1 then Some (kbd VC_CKMODE)
    else if p =? 3 then s ← csi_J 2 s; Some (gotoxy 0 0 s)
    else if p =? 5 then
      if eqb (vc_decscnm s) on_off then Some s
      else s ← invert_screen (s <| vc_decscnm := on_off |>); Some (update_attr s)
    else if p =? 6 then Some (gotoxy 0 0 (s <| vc_decom := on_off |>))
    else if p =? 7 then Some (s <| vc_decawm := on_off |>)
    else if p =? 8 then Some (kbd VC_REPEAT)
    else if p =? 25 then Some (set_cursor (s <| vc_deccm := on_off |>))
    else Some s
  else if p =? 4 then Some (s <| vc_decim := on_off |>)
  else if p =? 20 then Some (kbd VC_CRLF)
  else Some s.

Fixpoint set_modes (on_off : bool) (l : list Z) (s : vc) : option vc :=
  match l with
  | [] => Some s
  | p :: l => s ← set_mode_par on_off p s; set_modes on_off l s
  end.

(** drivers/char/console.c:758-809 [set_mode] *)
Definition set_mode (on_off : bool) (s : vc) : option vc := set_modes on_off (pars s) s.

(** drivers/char/console.c:811-837 [setterm_command] *)
Definition setterm_command (s : vc) : vc :=
  if par s 0 =? 1 then
    if can_do_color v && (par s 1 <? 16) then
      let s := s <| vc_ulcolor := znth 0 color_table (par s 1) |> in
      if vc_underline s then update_attr s else s
    else s
  else if par s 0 =? 2 then
    if can_do_color v && (par s 1 <? 16) then
      let s := s <| vc_halfcolor := znth 0 color_table (par s 1) |> in
      if vc_intensity s =? 0 then update_attr s else s
    else s
  else if par s 0 =? 8 then update_attr (default_attr (s <| vc_def_color := vc_attr s |>))
  else if par s 0 =? 9 then s <| blankinterval := (if par s 1 <? 60 then par s 1 else 60) * 60 * HZ |>
  else s.

(** ** Characters and lines *)

(** drivers/char/console.c:845-850 the loop of [insert_char] *)
Fixpoint insert_words (n : nat) (i old : Z) (l : list Z) : option (list Z) :=
  match n with
  | O => Some l
  | S n => tmp ← lget i l; l ← lput i old l; insert_words n (i + 1) tmp l
  end.

(** drivers/char/console.c:839-852 [insert_char] *)
Definition insert_char (s : vc) : option vc :=
  s ← with_mem (insert_words (Z.to_nat (cols - vc_x s)) (idx s (vc_pos s)) (vc_video_erase_char s) (vmem s)) s;
  Some (s <| vc_need_wrap := false |>).

(** drivers/char/console.c:854-858 [insert_line] *)
Definition insert_line (s : vc) : option vc :=
  s ← scrdown (vc_y s) (vc_bottom s) s; Some (s <| vc_need_wrap := false |>).

(** drivers/char/console.c:865-869 the loop of [delete_char], and the word that
    is erased *)
Fixpoint delete_words (n : nat) (i erase : Z) (l : list Z) : option (list Z) :=
  match n with
  | O => lput i erase l
  | S n => a ← lget (i + 1) l; l ← lput i a l; delete_words n (i + 1) erase l
  end.

(** drivers/char/console.c:860-871 [delete_char] *)
Definition delete_char (s : vc) : option vc :=
  s ← with_mem (delete_words (Z.to_nat (cols - vc_x s - 1)) (idx s (vc_pos s)) (vc_video_erase_char s) (vmem s)) s;
  Some (s <| vc_need_wrap := false |>).

(** drivers/char/console.c:873-877 [delete_line] *)
Definition delete_line (s : vc) : option vc :=
  s ← scrup (vc_y s) (vc_bottom s) s; Some (s <| vc_need_wrap := false |>).

Fixpoint repeat_op (n : nat) (f : vc -> option vc) (s : vc) : option vc :=
  match n with O => Some s | S n => s ← f s; repeat_op n f s end.

(** drivers/char/console.c:881-886 how often, at most [max] *)
Definition how_often (nr max : Z) : nat :=
  Z.to_nat (if max <? nr then max else if nr =? 0 then 1 else nr).

(** drivers/char/console.c:879-887 [csi_at] *)
Definition csi_at (nr : Z) (s : vc) : option vc := repeat_op (how_often nr cols) insert_char s.
(** drivers/char/console.c:889-897 [csi_L] *)
Definition csi_L (nr : Z) (s : vc) : option vc := repeat_op (how_often nr lines) insert_line s.
(** drivers/char/console.c:899-907 [csi_P] *)
Definition csi_P (nr : Z) (s : vc) : option vc := repeat_op (how_often nr cols) delete_char s.
(** drivers/char/console.c:909-917 [csi_M] *)
Definition csi_M (nr : Z) (s : vc) : option vc := repeat_op (how_often nr lines) delete_line s.

(** drivers/char/console.c:919-931 [save_cur] *)
Definition save_cur (s : vc) : vc :=
  s <| vc_saved_x := vc_x s |> <| vc_saved_y := vc_y s |> <| vc_s_intensity := vc_intensity s |>
    <| vc_s_underline := vc_underline s |> <| vc_s_blink := vc_blink s |> <| vc_s_reverse := vc_reverse s |>
    <| vc_s_charset := vc_charset s |> <| vc_s_color := vc_color s |>
    <| vc_saved_G0 := vc_G0_charset s |> <| vc_saved_G1 := vc_G1_charset s |>.

(** drivers/char/console.c:933-947 [restore_cur] *)
Definition restore_cur (s : vc) : vc :=
  let s := gotoxy (s32 (vc_saved_x s)) (s32 (vc_saved_y s)) s in
  let s := s <| vc_intensity := vc_s_intensity s |> <| vc_underline := vc_s_underline s |>
    <| vc_blink := vc_s_blink s |> <| vc_reverse := vc_s_reverse s |> <| vc_charset := vc_s_charset s |>
    <| vc_color := vc_s_color s |> <| vc_G0_charset := vc_saved_G0 s |> <| vc_G1_charset := vc_saved_G1 s |> in
  let s := s <| vc_translate := (if vc_charset s then vc_G1_charset s else vc_G0_charset s) |> in
  update_attr s <| vc_need_wrap := false |>.

(** drivers/char/console.c:952-992 [reset_terminal] *)
Definition reset_terminal (do_clear : bool) (s : vc) : option vc :=
  let s := s <| vc_top := 0 |> <| vc_bottom := lines |> <| vc_state := ESnormal |> <| vc_ques := false |>
    <| vc_translate := NORM_TRANS |> <| vc_G0_charset := NORM_TRANS |> <| vc_G1_charset := GRAF_TRANS |>
    <| vc_charset := false |> <| vc_need_wrap := false |> <| vc_decscnm := false |> <| vc_decom := false |>
    <| vc_decawm := true |> <| vc_deccm := true |> <| vc_decim := false |> in
  let s := clr_kbd VC_CRLF (clr_kbd VC_APPLIC (clr_kbd VC_CKMODE (set_kbd VC_REPEAT s))) in
  let s := con_emit SetLeds (s <| lockstate := 0 |> <| ledstate := default_ledstate s |>) in
  let s := update_attr (default_attr s) in
  let s := s <| vc_tab_stop := [0x01010100; 0x01010101; 0x01010101; 0x01010101; 0x01010101] |> in
  if do_clear then s ← csi_J 2 (gotoxy 0 0 s); Some (save_cur s) else Some s.

(** ** The characters *)

(** The bit of column [x] in the tab stops. *)
Definition tab_mask (x : Z) : Z := Z.shiftl 1 (Z.land x 31).
Definition tab_word (x : Z) (s : vc) : option Z := lget (Z.shiftr x 5) (vc_tab_stop s).

(** drivers/char/console.c:1043-1047 the loop to the next tab stop *)
Fixpoint next_tab (fuel : nat) (s : vc) : option vc :=
  match fuel with
  | O => Some s
  | S fuel =>
      if vc_x s <? cols - 1 then
        let s := s <| vc_x ::= fun x => x + 1 |> in
        w ← tab_word (vc_x s) s;
        if flag w (tab_mask (vc_x s)) then Some s else next_tab fuel s
      else Some s
  end.

(** drivers/char/console.c:1012-1028 a character that is shown *)
Definition con_print (c : Z) (s : vc) : option vc :=
  s ← (if vc_need_wrap s then lf (cr s) else Some s);
  s ← (if vc_decim s then insert_char s else Some s);
  s ← with_mem (lput (idx s (vc_pos s)) (u16 (Z.shiftl (vc_attr s) 8 + c)) (vmem s)) s;
  if vc_x s =? cols - 1 then Some (s <| vc_need_wrap := vc_decawm s |>)
  else Some (s <| vc_x ::= fun x => x + 1 |> <| vc_pos ::= fun p => p + 2 |>).

(** drivers/char/console.c:1034-1077 the characters that count everywhere;
    [None]: another one *)
Definition con_control (c : Z) (s : vc) : option (option vc) :=
  if c =? 7 then Some (Some (con_emit (Sound 0x637 (HZ / 8)) s))
  else if c =? 8 then Some (Some (bs s))
  else if c =? 9 then
    Some (s ← next_tab (Z.to_nat cols) (s <| vc_pos := vc_pos s - vc_x s * 2 |>);
          Some (s <| vc_pos := vc_pos s + vc_x s * 2 |>))
  else if (c =? 10) || (c =? 11) || (c =? 12) then
    Some (s ← lf s; if is_kbd VC_CRLF s then Some (cr s) else Some s)
  else if c =? 13 then Some (Some (cr s))
  else if c =? 14 then Some (Some (s <| vc_charset := true |> <| vc_translate := vc_G1_charset s |>))
  else if c =? 15 then Some (Some (s <| vc_charset := false |> <| vc_translate := vc_G0_charset s |>))
  else if (c =? 24) || (c =? 26) then Some (Some (s <| vc_state := ESnormal |>))
  else if c =? 27 then Some (Some (s <| vc_state := ESesc |>))
  else if c =? 127 then Some (Some s)
  else if c =? 128 + 27 then Some (Some (s <| vc_state := ESsquare |>))
  else None.

(** drivers/char/console.c:1079-1126 the character after ESC *)
Definition con_esc (c : Z) (s : vc) : option vc :=
  let s := s <| vc_state := ESnormal |> in
  if c =? 91 then Some (s <| vc_state := ESsquare |>)
  else if c =? 69 then lf (cr s)
  else if c =? 77 then ri s
  else if c =? 68 then lf s
  else if c =? 72 then
    w ← tab_word (vc_x s) s;
    Some (s <| vc_tab_stop := zupd (vc_tab_stop s) (Z.shiftr (vc_x s) 5) (Z.lor w (tab_mask (vc_x s))) |>)
  else if c =? 90 then Some (respond_ID s)
  else if c =? 55 then Some (save_cur s)
  else if c =? 56 then Some (restore_cur s)
  else if c =? 40 then Some (s <| vc_state := ESsetG0 |>)
  else if c =? 41 then Some (s <| vc_state := ESsetG1 |>)
  else if c =? 35 then Some (s <| vc_state := EShash |>)
  else if c =? 99 then reset_terminal true s
  else if c =? 62 then Some (clr_kbd VC_APPLIC s)
  else if c =? 61 then Some (set_kbd VC_APPLIC s)
  else Some s.

Definition set_par (i n : Z) (s : vc) : vc := s <| vc_par ::= fun l => zupd l i n |>.
(** A count that is missing is 1, a coordinate counts from 1. *)
Definition count_par (s : vc) : vc := if par s 0 =? 0 then set_par 0 1 s else s.
Definition coord_par (i : Z) (s : vc) : vc := if negb (par s i =? 0) then set_par i (par s i - 1) s else s.

(** drivers/char/console.c:1169-1206 sequences that move the cursor; [None]:
    another one *)
Definition csi_move (c : Z) (s : vc) : option vc :=
  let x := vc_x s in
  let y := vc_y s in
  if (c =? 71) || (c =? 96) then let s := coord_par 0 s in Some (gotoxy (s32 (par s 0)) y s)
  else if c =? 65 then let s := count_par s in Some (gotoxy x (s32 (y - par s 0)) s)
  else if (c =? 66) || (c =? 101) then let s := count_par s in Some (gotoxy x (s32 (y + par s 0)) s)
  else if (c =? 67) || (c =? 97) then let s := count_par s in Some (gotoxy (s32 (x + par s 0)) y s)
  else if c =? 68 then let s := count_par s in Some (gotoxy (s32 (x - par s 0)) y s)
  else if c =? 69 then let s := count_par s in Some (gotoxy 0 (s32 (y + par s 0)) s)
  else if c =? 70 then let s := count_par s in Some (gotoxy 0 (s32 (y - par s 0)) s)
  else if c =? 100 then let s := coord_par 0 s in Some (gotoxy x (s32 (par s 0)) s)
  else if (c =? 72) || (c =? 102) then
    let s := coord_par 1 (coord_par 0 s) in Some (gotoxy (s32 (par s 1)) (s32 (par s 0)) s)
  else None.

(** drivers/char/console.c:1207-1265 the other sequences *)
Definition csi_edit (c : Z) (s : vc) : option vc :=
  let p0 := par s 0 in
  if c =? 74 then csi_J (s32 p0) s
  else if c =? 75 then csi_K (s32 p0) s
  else if c =? 76 then csi_L p0 s
  else if c =? 77 then csi_M p0 s
  else if c =? 80 then csi_P p0 s
  else if c =? 99 then Some (if p0 =? 0 then respond_ID s else s)
  else if c =? 103 then
    if p0 =? 0 then
      w ← tab_word (vc_x s) s;
      Some (s <| vc_tab_stop := zupd (vc_tab_stop s) (Z.shiftr (vc_x s) 5) (Z.ldiff w (tab_mask (vc_x s))) |>)
    else if p0 =? 3 then Some (s <| vc_tab_stop := [0; 0; 0; 0; 0] |>)
    else Some s
  else if c =? 109 then Some (csi_m s)
  else if c =? 114 then
    let s := if par s 0 =? 0 then set_par 0 1 s else s in
    let s := if par s 1 =? 0 then set_par 1 lines s else s in
    if (par s 0 <? par s 1) && (par s 1 <=? lines) then
      Some (gotoxy 0 0 (s <| vc_top := par s 0 - 1 |> <| vc_bottom := par s 1 |>))
    else Some s
  else if c =? 115 then Some (save_cur s)
  else if c =? 117 then Some (restore_cur s)
  else if c =? 64 then csi_at p0 s
  else if c =? 93 then Some (setterm_command s)
  else Some s.

(** drivers/char/console.c:1148-1266 the last character of a sequence *)
Definition con_gotpars (c : Z) (s : vc) : option vc :=
  let s := s <| vc_state := ESnormal |> in
  if c =? 104 then set_mode true s
  else if c =? 108 then set_mode false s
  else if c =? 110 then
    Some (if vc_ques s then s
          else if par s 0 =? 5 then status_report s
          else if par s 0 =? 6 then cursor_report s else s)
  else if vc_ques s then Some (s <| vc_ques := false |>)
  else match csi_move c s with
       | Some s => Some s
       | None => csi_edit c s
       end.

(** drivers/char/console.c:1139-1147 parameters *)
Definition con_getpars (c : Z) (s : vc) : option vc :=
  if (c =? 59) && (vc_npar s <? NPAR - 1) then Some (s <| vc_npar ::= fun n => n + 1 |>)
  else if (48 <=? c) && (c <=? 57) then
    Some (set_par (vc_npar s) (u32 (u32 (par s (vc_npar s) * 10) + (c - 48))) s)
  else con_gotpars c (s <| vc_state := ESgotpars |>).

(** drivers/char/console.c:1127-1138 the character after CSI *)
Definition con_square (c : Z) (s : vc) : option vc :=
  let s := s <| vc_par := replicate 16 0 |> <| vc_npar := 0 |> <| vc_state := ESgetpars |> in
  if c =? 91 then Some (s <| vc_state := ESfunckey |>)
  else
    let s := s <| vc_ques := (c =? 63) |> in
    if vc_ques s then Some s else con_getpars c s.

(** drivers/char/console.c:1295-1302 the table that a character selects *)
Definition select_map (c : Z) (m : charmap) : charmap :=
  if c =? 48 then GRAF_TRANS else if c =? 66 then NORM_TRANS
  else if c =? 85 then NULL_TRANS else if c =? 75 then USER_TRANS else m.

(** drivers/char/console.c:1267-1310 one character of [con_write] *)
Definition con_char (c : Z) (s : vc) : option vc :=
  let t := znth 0 (trans_table s (vc_translate s)) c in
  if bool_decide (vc_state s = ESnormal) && ctrue t then con_print t s
  else match con_control c s with
  | Some r => r
  | None =>
      match vc_state s with
      | ESesc => con_esc c s
      | ESsquare => con_square c s
      | ESgetpars => con_getpars c s
      | ESgotpars => con_gotpars c s
      | ESfunckey => Some (s <| vc_state := ESnormal |>)
      | EShash =>
          let s := s <| vc_state := ESnormal |> in
          if c =? 56 then
            s ← csi_J 2 (s <| vc_video_erase_char ::= fun e => Z.lor (Z.land e 0xff00) 69 |>);
            Some (s <| vc_video_erase_char ::= fun e => Z.lor (Z.land e 0xff00) 32 |>)
          else Some s
      | ESsetG0 =>
          let s := s <| vc_G0_charset ::= select_map c |> in
          let s := if vc_charset s then s else s <| vc_translate := vc_G0_charset s |> in
          Some (s <| vc_state := ESnormal |>)
      | ESsetG1 =>
          let s := s <| vc_G1_charset ::= select_map c |> in
          let s := if vc_charset s then s <| vc_translate := vc_G1_charset s |> else s in
          Some (s <| vc_state := ESnormal |>)
      | ESnormal | ESignore => Some (s <| vc_state := ESnormal |>)
      end
  end.

Fixpoint con_chars (l : list Z) (s : vc) : option vc :=
  match l with
  | [] => Some s
  | c :: l => s ← con_char c s; con_chars l s
  end.

(** drivers/char/console.c:994-1012 [con_write] of the characters that
    [get_tty_queue] gives while the terminal is not stopped *)
Definition con_write (l : list Z) (s : vc) : option vc := s ← con_chars l s; Some (set_cursor s).

(** drivers/char/console.c:1351-1366 the loop of [console_print] *)
Fixpoint console_chars (l : list Z) (s : vc) : option vc :=
  match l with
  | [] => Some s
  | c :: l =>
      if c =? 0 then Some s
      else
        s ← (if (c =? 10) || (c =? 13) || vc_need_wrap s then
               s ← (if c =? 13 then Some s else lf s); Some (cr s) else Some s);
        if (c =? 10) || (c =? 13) then console_chars l s
        else
          s ← with_mem (lput (idx s (vc_pos s)) (u16 (Z.shiftl (vc_attr s) 8 + c)) (vmem s)) s;
          if vc_x s =? cols - 1 then console_chars l (s <| vc_need_wrap := true |>)
          else console_chars l (s <| vc_x ::= fun x => x + 1 |> <| vc_pos ::= fun p => p + 2 |>)
  end.

(** drivers/char/console.c:1344-1378 [console_print] of a text *)
Definition console_print (l : list Z) (s : vc) : option vc := s ← console_chars l s; Some (set_cursor s).

(** ** Switching consoles *)

(** drivers/char/console.c:1499-1506 [get_scrmem]: the screen moves to the buffer
    of the console at [scrbuf] *)
Definition get_scrmem (scrbuf : Z) (s : vc) : option vc :=
  let o := idx s (vc_origin s) in
  let n := screen_size v / 2 in
  if (0 <=? o) && (o + n <=? Z.of_nat (length (vmem s))) then
    Some (s <| vmem := take (Z.to_nat n) (drop (Z.to_nat o) (vmem s)) |>
            <| vc_video_mem_start := scrbuf |> <| vc_origin := scrbuf |>
            <| vc_scr_end := scrbuf + screen_size v |> <| vc_video_mem_end := scrbuf + screen_size v |>
            <| vc_pos := scrbuf + vc_y s * row + vc_x s * 2 |>)
  else None.

(** drivers/char/console.c:1508-1547 [set_scrmem]: and back into the memory of
    the display, which has the words [mem] *)
Definition set_scrmem (mem : list Z) (s : vc) : option vc :=
  let n := Z.to_nat (screen_size v / 2) in
  if (n <=? length mem)%nat && (n <=? length (vmem s))%nat then
    Some (s <| vmem := take n (vmem s) ++ drop n mem |>
            <| vc_video_mem_start := video_mem_base v |> <| vc_video_mem_end := video_mem_term v |>
            <| vc_origin := video_mem_base v |> <| vc_scr_end := video_mem_base v + screen_size v |>
            <| vc_pos := video_mem_base v + vc_y s * row + vc_x s * 2 |>)
  else None.

(** drivers/char/console.c:1575-1591 [update_screen]: the console [old] leaves
    the display for its buffer at [scrbuf], [new] comes *)
Definition update_screen (scrbuf : Z) (old new : vc) : option (vc * vc) :=
  let mem := vmem old in
  old ← get_scrmem scrbuf old;
  new ← set_scrmem mem new;
  Some (old <| visible := false |>, con_emit SetLeds (set_cursor (set_origin (new <| visible := true |>)))).
End console.

(** * Windows of a memory

    [win o n l] is the part of [l] that a screen at index [o] has.  What is done
    to the words of the screen in [l] is done to the window. *)

Definition win (o n : Z) (l : list Z) : list Z := take (Z.to_nat n) (drop (Z.to_nat o) l).

Section window.
Context (o n : Z).

(** [r] is [r'] done in place, in a memory of length [len]. *)
Definition memsim (len : nat) (r r' : option (list Z)) : Prop :=
  exists l', r = Some l' /\ length l' = len /\ r' = Some (win o n l').

Context (Ho : 0 <= o) (Hn : 0 <= n).

Lemma win_length l : o + n <= Z.of_nat (length l) -> Z.of_nat (length (win o n l)) = n.
Proof using Ho Hn. intros. unfold win. rewrite length_take, length_drop. lia. Qed.

Lemma win_lookup l k : (k < Z.to_nat n)%nat -> win o n l !! k = l !! (Z.to_nat o + k)%nat.
Proof using Type. intros. unfold win. by rewrite lookup_take_lt, lookup_drop. Qed.

Lemma lget_lookup i (l : list Z) : 0 <= i -> lget i l = l !! Z.to_nat i.
Proof using Type.
  intros Hi. unfold lget, znth. destruct (Z.leb_spec 0 i), (Z.ltb_spec i 0); try lia. cbn [andb].
  destruct (Z.ltb_spec i (Z.of_nat (length l))).
  - rewrite nth_lookup. destruct (lookup_lt_is_Some_2 l (Z.to_nat i)) as [x ->]; [lia | done].
  - symmetry. apply lookup_ge_None. lia.
Qed.

Lemma lget_win i l :
  0 <= i < n -> o + n <= Z.of_nat (length l) ->
  exists x, lget (o + i) l = Some x /\ lget i (win o n l) = Some x.
Proof using Ho.
  intros Hi Hl. rewrite !lget_lookup by lia. rewrite win_lookup by lia.
  destruct (lookup_lt_is_Some_2 l (Z.to_nat (o + i))) as [x Hx]; [lia |]. exists x. split; [done |].
  rewrite <- Hx. f_equal. lia.
Qed.

Lemma lput_win i v l :
  0 <= i < n -> o + n <= Z.of_nat (length l) ->
  memsim (length l) (lput (o + i) v l) (lput i v (win o n l)).
Proof using Ho Hn.
  intros Hi Hl. unfold lput, memsim. rewrite win_length by done.
  destruct (Z.leb_spec 0 (o + i)), (Z.leb_spec 0 i), (Z.ltb_spec (o + i) (Z.of_nat (length l))), (Z.ltb_spec i n);
    try lia. cbn [andb]. eexists. split_and!; [done | apply zupd_length |]. f_equal.
  unfold zupd. destruct (Z.ltb_spec i 0), (Z.ltb_spec (o + i) 0); try lia.
  apply list_eq. intros k. destruct (decide (k < Z.to_nat n)%nat) as [Hk | Hk].
  - rewrite win_lookup by done. destruct (decide (k = Z.to_nat i)) as [-> |].
    + rewrite list_lookup_insert_eq by (apply Nat2Z.inj_lt; rewrite win_length by done; lia).
      replace (Z.to_nat o + Z.to_nat i)%nat with (Z.to_nat (o + i)) by lia.
      by rewrite list_lookup_insert_eq by lia.
    + rewrite !list_lookup_insert_ne by lia. by rewrite win_lookup.
  - rewrite !lookup_ge_None_2; [done | |].
    + apply Nat2Z.inj_le. rewrite win_length; [lia |]. rewrite length_insert. lia.
    + rewrite length_insert. apply Nat2Z.inj_le. rewrite win_length by done. lia.
Qed.

Lemma memsim_ret l : memsim (length l) (Some l) (Some (win o n l)).
Proof using Type. by exists l. Qed.

Lemma memsim_bind len r r' f f' :
  memsim len r r' -> (forall l, length l = len -> memsim len (f l) (f' (win o n l))) ->
  memsim len (r ≫= f) (r' ≫= f').
Proof using Type. intros (l & -> & Hl & ->) Hf. by apply Hf. Qed.

Lemma stosw_win k step v : forall i l,
  o + n <= Z.of_nat (length l) -> (forall j, 0 <= j < Z.of_nat k -> 0 <= i + step * j < n) ->
  memsim (length l) (stosw k step (o + i) v l) (stosw k step i v (win o n l)).
Proof using Ho Hn.
  induction k as [| k IH]; intros i l Hl Hj; cbn [stosw]; [apply memsim_ret |].
  eapply memsim_bind; [apply lput_win; [specialize (Hj 0); lia | done] |].
  intros l1 Hl1. rewrite <- Hl1. replace (o + i + step) with (o + (i + step)) by lia. apply IH; [lia |].
  intros j Hj'. specialize (Hj (j + 1)). lia.
Qed.

Lemma movsl_win k step : forall src dst l,
  o + n <= Z.of_nat (length l) ->
  (forall j, 0 <= j < Z.of_nat k -> 0 <= src + step * j < n - 1 /\ 0 <= dst + step * j < n - 1) ->
  memsim (length l) (movsl k step (o + src) (o + dst) l) (movsl k step src dst (win o n l)).
Proof using Ho Hn.
  induction k as [| k IH]; intros src dst l Hl Hj; cbn [movsl]; [apply memsim_ret |].
  destruct (Hj 0 ltac:(lia)) as [Hs Hd].
  destruct (lget_win src l) as (a & Ea & Ea'); [lia | done |].
  destruct (lget_win (src + 1) l) as (b & Eb & Eb'); [lia | done |].
  rewrite <- !Z.add_assoc, Ea, Ea', Eb, Eb'. cbn [mbind option_bind].
  eapply memsim_bind; [apply lput_win; lia |]. intros l1 Hl1.
  rewrite <- Hl1. eapply memsim_bind; [apply lput_win; lia |]. intros l2 Hl2.
  rewrite <- Hl2. apply IH; [lia |]. intros j Hj'. specialize (Hj (j + 1)). lia.
Qed.

Lemma insert_words_win k : forall i old l,
  o + n <= Z.of_nat (length l) -> 0 <= i -> i + Z.of_nat k <= n ->
  memsim (length l) (insert_words k (o + i) old l) (insert_words k i old (win o n l)).
Proof using Ho Hn.
  induction k as [| k IH]; intros i old l Hl Hi Hk; cbn [insert_words]; [apply memsim_ret |].
  destruct (lget_win i l) as (a & -> & ->); [lia | done |]. cbn [mbind option_bind].
  eapply memsim_bind; [apply lput_win; lia |]. intros l1 Hl1. rewrite <- Hl1, <- Z.add_assoc. apply IH; lia.
Qed.

Lemma delete_words_win k erase : forall i l,
  o + n <= Z.of_nat (length l) -> 0 <= i -> i + Z.of_nat k < n ->
  memsim (length l) (delete_words k (o + i) erase l) (delete_words k i erase (win o n l)).
Proof using Ho Hn.
  induction k as [| k IH]; intros i l Hl Hi Hk; cbn [delete_words]; [apply lput_win; lia |].
  rewrite <- Z.add_assoc. destruct (lget_win (i + 1) l) as (a & -> & ->); [lia | done |]. cbn [mbind option_bind].
  eapply memsim_bind; [apply lput_win; lia |]. intros l1 Hl1. rewrite <- Hl1. apply IH; lia.
Qed.

Lemma invert_words_win v v' k : (forall w, invert_word v w = invert_word v' w) -> forall i l,
  o + n <= Z.of_nat (length l) -> 0 <= i -> i + Z.of_nat k <= n ->
  memsim (length l) (invert_words v k (o + i) l) (invert_words v' k i (win o n l)).
Proof using Ho Hn.
  intros Hv. induction k as [| k IH]; intros i l Hl Hi Hk; cbn [invert_words]; [apply memsim_ret |].
  destruct (lget_win i l) as (a & -> & ->); [lia | done |]. cbn [mbind option_bind]. rewrite <- Hv.
  eapply memsim_bind; [apply lput_win; lia |]. intros l1 Hl1. rewrite <- Hl1, <- Z.add_assoc. apply IH; lia.
Qed.
End window.

(** ** What the copies leave *)

Lemma lput_lookup i v l :
  0 <= i < Z.of_nat (length l) ->
  exists l', lput i v l = Some l' /\ length l' = length l /\
    forall k, (k < length l)%nat -> l' !! k = if decide (k = Z.to_nat i) then Some v else l !! k.
Proof.
  intros Hi. unfold lput. destruct (Z.leb_spec 0 i), (Z.ltb_spec i (Z.of_nat (length l))); try lia. cbn [andb].
  eexists. split_and!; [done | apply zupd_length |]. intros k Hk. unfold zupd.
  destruct (Z.ltb_spec i 0); [lia |]. destruct (decide (k = Z.to_nat i)) as [-> |].
  - by apply list_lookup_insert_eq.
  - by apply list_lookup_insert_ne.
Qed.

Lemma stosw_lookup n v : forall i l,
  0 <= i -> i + Z.of_nat n <= Z.of_nat (length l) ->
  exists l', stosw n 1 i v l = Some l' /\ length l' = length l /\
    forall k, (k < length l)%nat ->
      l' !! k = if decide (i <= Z.of_nat k < i + Z.of_nat n) then Some v else l !! k.
Proof.
  induction n as [| n IH]; intros i l Hi Hl; cbn [stosw].
  - exists l. split_and!; [done | done |]. intros k Hk. by rewrite decide_False by lia.
  - destruct (lput_lookup i v l) as (l1 & -> & Hl1 & H1); [lia |]. cbn [mbind option_bind].
    destruct (IH (i + 1) l1) as (l' & -> & Hl' & H'); [lia | lia |].
    exists l'. split_and!; [done | lia |]. intros k Hk. rewrite H', H1 by lia.
    repeat case_decide; done || lia.
Qed.

Lemma movsl_lookup n : forall src dst l,
  0 <= dst <= src -> src + 2 * Z.of_nat n <= Z.of_nat (length l) ->
  exists l', movsl n 2 src dst l = Some l' /\ length l' = length l /\
    forall k, (k < length l)%nat ->
      l' !! k = if decide (dst <= Z.of_nat k < dst + 2 * Z.of_nat n) then l !! Z.to_nat (Z.of_nat k - dst + src)
                else l !! k.
Proof.
  induction n as [| n IH]; intros src dst l Hd Hl; cbn [movsl].
  - exists l. split_and!; [done | done |]. intros k Hk. by rewrite decide_False by lia.
  - rewrite !lget_lookup by lia.
    destruct (lookup_lt_is_Some_2 l (Z.to_nat src)) as [a Ea]; [lia |].
    destruct (lookup_lt_is_Some_2 l (Z.to_nat (src + 1))) as [b Eb]; [lia |]. rewrite Ea, Eb. cbn [mbind option_bind].
    destruct (lput_lookup dst a l) as (l1 & -> & Hl1 & H1); [lia |]. cbn [mbind option_bind].
    destruct (lput_lookup (dst + 1) b l1) as (l2 & -> & Hl2 & H2); [lia |]. cbn [mbind option_bind].
    destruct (IH (src + 2) (dst + 2) l2) as (l' & -> & Hl' & H'); [lia | lia |].
    exists l'. split_and!; [done | lia |]. intros k Hk. rewrite H' by lia.
    destruct (decide (dst + 2 <= Z.of_nat k < dst + 2 + 2 * Z.of_nat n)).
    + rewrite H2, H1 by lia. rewrite !decide_False by lia. rewrite decide_True by lia. f_equal. lia.
    + rewrite H2, H1 by lia. repeat case_decide; try lia; try done.
      * rewrite <- Eb. f_equal. lia.
      * rewrite <- Ea. f_equal. lia.
Qed.
