(* ===== verification/Conspec.v ===== *)
(** The terminal of [Console] refines one without hardware scrolling: whatever is
    written, no access leaves the memory of the console, and the screen is the
    one of a terminal whose memory is just the screen. *)

From S2P Require Import Prelude Errno Task Ttyq Console.

(** A display of lines with an even number of columns, for which the five words
    of tab stops are enough. *)
Record display_ok (v : video) : Prop := {
  do_cols : 0 < video_num_columns v <= 160;
  do_even : Z.Even (video_num_columns v);
  do_lines : 0 < video_num_lines v;
}.

(** The console is sound: its memory has the screen in it, the cursor is at
    [vc_x] and [vc_y] on the screen, and the scrolling region is part of it. *)
Record con_core (v : video) (s : vc) : Prop := {
  co_mem : vc_video_mem_end s = vc_video_mem_start s + 2 * Z.of_nat (length (vmem s));
  co_origin : exists o, 0 <= o /\ vc_origin s = vc_video_mem_start s + 2 * o;
  co_scr_end : vc_scr_end s = vc_origin s + screen_size v;
  co_fits : vc_scr_end s <= vc_video_mem_end s;
  co_x : 0 <= vc_x s < video_num_columns v;
  co_y : 0 <= vc_y s < video_num_lines v;
  co_pos : vc_pos s = vc_origin s + vc_y s * video_size_row v + vc_x s * 2;
  co_region : 0 <= vc_top s /\ vc_top s < vc_bottom s /\ vc_bottom s <= video_num_lines v;
  co_npar : 0 <= vc_npar s < NPAR;
  co_par : length (vc_par s) = 16%nat /\ Forall (fun p => 0 <= p) (vc_par s);
  co_tabs : length (vc_tab_stop s) = 5%nat;
}.

(** The console that is visible has its screen where the display controller
    looks for it. *)
Record con_ok (v : video) (s : vc) : Prop := {
  co_core : con_core v s;
  co_shown : visible s = true -> is_ega v = true ->
    real_origin s = u16 ((vc_origin s - video_mem_base v) / 2) /\ shown_origin s = real_origin s;
}.

(** The display without hardware scrolling, and the console with a memory that
    is its screen. *)
Definition soft (v : video) : video :=
  mk_video (video_num_columns v) (video_num_lines v) VIDEO_TYPE_CGA (video_mem_base v) (video_mem_term v) (can_do_color v).

Definition words (v : video) : Z := video_num_lines v * video_num_columns v.
Definition first_word (s : vc) : Z := (vc_origin s - vc_video_mem_start s) / 2.
Definition screen (v : video) (s : vc) : list Z := win (first_word s) (words v) (vmem s).

Definition plain (v : video) (s : vc) : vc :=
  s <| vmem := screen v s |> <| visible := false |> <| vc_video_mem_start := 0 |>
    <| vc_video_mem_end := screen_size v |> <| vc_origin := 0 |> <| vc_scr_end := screen_size v |>
    <| vc_pos := vc_pos s - vc_origin s |> <| real_origin := 0 |> <| shown_origin := 0 |> <| cursor_reg := 0 |>.

Ltac vc_cbn :=
  cbn [upd vmem visible vc_video_mem_start vc_video_mem_end vc_origin vc_scr_end vc_pos vc_x vc_y vc_top vc_bottom
       vc_npar vc_par vc_tab_stop real_origin shown_origin cursor_reg vc_decom vc_need_wrap plain] in *.

(** The console stays sound when its position on the screen is not touched, or
    touched in a way that [lia] follows. *)
Ltac vc_ok :=
  match goal with H : con_ok ?v ?s |- con_ok ?v _ => destruct H as [[] ?] end;
  constructor; [constructor |]; vc_cbn; try done; try lia.

(** What the plain console and the display without scrolling keep. *)
Lemma plain_x v s : vc_x (plain v s) = vc_x s.
Proof. done. Qed.
Lemma plain_y v s : vc_y (plain v s) = vc_y s.
Proof. done. Qed.
Lemma plain_top v s : vc_top (plain v s) = vc_top s.
Proof. done. Qed.
Lemma plain_bottom v s : vc_bottom (plain v s) = vc_bottom s.
Proof. done. Qed.
Lemma plain_npar v s : vc_npar (plain v s) = vc_npar s.
Proof. done. Qed.
Lemma plain_par v s : vc_par (plain v s) = vc_par s.
Proof. done. Qed.
Lemma plain_tab_stop v s : vc_tab_stop (plain v s) = vc_tab_stop s.
Proof. done. Qed.
Lemma plain_video_erase_char v s : vc_video_erase_char (plain v s) = vc_video_erase_char s.
Proof. done. Qed.
Lemma plain_need_wrap v s : vc_need_wrap (plain v s) = vc_need_wrap s.
Proof. done. Qed.
Lemma plain_decim v s : vc_decim (plain v s) = vc_decim s.
Proof. done. Qed.
Lemma plain_decom v s : vc_decom (plain v s) = vc_decom s.
Proof. done. Qed.
Lemma plain_decscnm v s : vc_decscnm (plain v s) = vc_decscnm s.
Proof. done. Qed.
Lemma plain_attr v s : vc_attr (plain v s) = vc_attr s.
Proof. done. Qed.
Lemma plain_decawm v s : vc_decawm (plain v s) = vc_decawm s.
Proof. done. Qed.
Lemma plain_charset v s : vc_charset (plain v s) = vc_charset s.
Proof. done. Qed.
Lemma plain_translate v s : vc_translate (plain v s) = vc_translate s.
Proof. done. Qed.
Lemma plain_state v s : vc_state (plain v s) = vc_state s.
Proof. done. Qed.
Lemma plain_ques v s : vc_ques (plain v s) = vc_ques s.
Proof. done. Qed.
Lemma plain_underline v s : vc_underline (plain v s) = vc_underline s.
Proof. done. Qed.
Lemma plain_intensity v s : vc_intensity (plain v s) = vc_intensity s.
Proof. done. Qed.
Lemma plain_pars v s : pars (plain v s) = pars s.
Proof. done. Qed.
Lemma plain_get v s i : par (plain v s) i = par s i.
Proof. done. Qed.
Lemma plain_saved_x v s : vc_saved_x (plain v s) = vc_saved_x s.
Proof. done. Qed.
Lemma plain_saved_y v s : vc_saved_y (plain v s) = vc_saved_y s.
Proof. done. Qed.
Lemma plain_scr_end v s : vc_scr_end (plain v s) = screen_size v.
Proof. done. Qed.
Lemma plain_origin v s : vc_origin (plain v s) = 0.
Proof. done. Qed.
Lemma plain_pos v s : vc_pos (plain v s) = vc_pos s - vc_origin s.
Proof. done. Qed.
Lemma plain_vmem v s : vmem (plain v s) = screen v s.
Proof. done. Qed.
Lemma soft_columns v : video_num_columns (soft v) = video_num_columns v.
Proof. done. Qed.
Lemma soft_lines v : video_num_lines (soft v) = video_num_lines v.
Proof. done. Qed.
Lemma soft_row v : video_size_row (soft v) = video_size_row v.
Proof. done. Qed.
Lemma soft_ega v : is_ega (soft v) = false.
Proof. done. Qed.
Lemma soft_color v : can_do_color (soft v) = can_do_color v.
Proof. done. Qed.

Ltac plain_simpl :=
  rewrite ?plain_x, ?plain_y, ?plain_top, ?plain_bottom, ?plain_npar, ?plain_par, ?plain_tab_stop, ?plain_video_erase_char, ?plain_need_wrap, ?plain_decim, ?plain_decom, ?plain_decscnm, ?plain_attr, ?plain_decawm, ?plain_charset, ?plain_translate, ?plain_state, ?plain_ques, ?plain_underline, ?plain_intensity, ?plain_scr_end, ?plain_origin, ?plain_pos, ?plain_vmem,
    ?soft_columns, ?soft_lines, ?soft_row, ?soft_ega, ?soft_color.
Ltac soft_simpl := rewrite ?soft_columns, ?soft_lines, ?soft_row, ?soft_ega, ?soft_color.

Section refinement.
Context (v : video) (Hv : display_ok v).
Let cols := video_num_columns v.
Let lines := video_num_lines v.

(** A result, and that of the plain terminal. *)
Definition sim (r r' : option vc) : Prop := exists s, r = Some s /\ con_ok v s /\ r' = Some (plain v s).

Lemma sim_ret s s' : con_ok v s -> s' = plain v s -> sim (Some s) (Some s').
Proof using Type. intros H ->. by exists s. Qed.

Lemma sim_bind r r' f f' :
  sim r r' -> (forall s, con_ok v s -> sim (f s) (f' (plain v s))) -> sim (r ≫= f) (r' ≫= f').
Proof using Type. intros (s & -> & Hs & ->) Hf. by apply Hf. Qed.

Lemma sim_repeat n f f' s :
  (forall s, con_ok v s -> sim (f s) (f' (plain v s))) -> con_ok v s ->
  sim (repeat_op n f s) (repeat_op n f' (plain v s)).
Proof using Type.
  intros Hf. revert s. induction n as [| n IH]; intros s Hs; cbn [repeat_op]; [by apply sim_ret |].
  eapply sim_bind; [by apply Hf | exact IH].
Qed.

(** The index of the screen. *)
Lemma first_word_spec s :
  con_ok v s ->
  0 <= first_word s /\ vc_origin s = vc_video_mem_start s + 2 * first_word s /\
  first_word s + words v <= Z.of_nat (length (vmem s)) /\ 0 < words v /\ screen_size v = 2 * words v.
Proof using Hv.
  intros [[H1 (o & Ho & H2) H3 H4 _ _ _ _ _ _ _] _]. destruct Hv. unfold first_word.
  replace (vc_origin s - vc_video_mem_start s) with (o * 2) by lia. rewrite Z.div_mul by lia.
  assert (screen_size v = 2 * words v) by (unfold screen_size, words, video_size_row; lia).
  unfold words in *. split_and!; nia.
Qed.

Lemma screen_length s : con_ok v s -> Z.of_nat (length (screen v s)) = words v.
Proof using Hv. intros H. destruct (first_word_spec s H) as (? & ? & ? & ? & ?). apply win_length; lia. Qed.

Lemma idx_screen s i : con_ok v s -> idx s (vc_origin s + 2 * i) = first_word s + i.
Proof using Hv.
  intros H. destruct (first_word_spec s H) as (_ & E & _). unfold idx. rewrite E.
  replace (_ - _) with ((first_word s + i) * 2) by lia. by rewrite Z.div_mul.
Qed.

Lemma idx_plain s i : idx (plain v s) (2 * i) = i.
Proof using Type. unfold idx. cbn. rewrite Z.sub_0_r, Z.mul_comm. by apply Z.div_mul. Qed.

Lemma mem_ok s l : con_ok v s -> length l = length (vmem s) -> con_ok v (s <| vmem := l |>).
Proof using Type. intros Hs Hl. vc_ok. Qed.

(** An operation on the words of the screen. *)
Lemma sim_mem s r r' :
  con_ok v s -> memsim (first_word s) (words v) (length (vmem s)) r r' ->
  sim (with_mem r s) (with_mem r' (plain v s)).
Proof using Type.
  intros Hs (l & -> & Hl & ->). unfold with_mem. cbn [fmap option_fmap option_map].
  apply sim_ret; [by apply mem_ok | done].
Qed.

Lemma row_cols : video_size_row v = 2 * cols.
Proof using Type. unfold video_size_row, cols. lia. Qed.

(** The cursor as an index. *)
Definition at_word (s : vc) : Z := vc_y s * cols + vc_x s.

Lemma at_word_bounds s : con_ok v s -> 0 <= vc_y s * cols /\ vc_y s * cols + cols <= words v.
Proof using Hv. intros [[] _]. destruct Hv. unfold words, cols in *. split; nia. Qed.

Lemma idx_pos s : con_ok v s -> idx s (vc_pos s) = first_word s + at_word s.
Proof using Hv.
  intros H. rewrite (co_pos _ _ (co_core _ _ H)), row_cols. rewrite <- idx_screen by done. f_equal. unfold at_word. lia.
Qed.
Lemma idx_pos_plain s : con_ok v s -> idx (plain v s) (vc_pos (plain v s)) = at_word s.
Proof using Hv.
  intros H. rewrite <- (idx_plain s (at_word s)). f_equal. cbn. rewrite (co_pos _ _ (co_core _ _ H)), row_cols. unfold at_word. lia.
Qed.

(** Two consoles that differ in nothing. *)
Lemma vc_eq s s' :
  vmem s = vmem s' -> vc_pos s = vc_pos s' ->
  s <| vmem := [] |> <| vc_pos := 0 |> = s' <| vmem := [] |> <| vc_pos := 0 |> -> s = s'.
Proof using Type. intros E1 E2 E. destruct s, s'. cbn in *. injection E; intros; subst. reflexivity. Qed.

(** ** Without memory *)

Lemma move_sim x y s :
  con_ok v s -> 0 <= x < video_num_columns v -> 0 <= y < video_num_lines v ->
  let f s := s <| vc_x := x |> <| vc_y := y |> <| vc_pos := vc_origin s + y * video_size_row v + x * 2 |>
               <| vc_need_wrap := false |> in
  con_ok v (f s) /\ f (plain v s) = plain v (f s).
Proof using Type.
  intros Hs Hx Hy f. split; [unfold f; clear f; vc_ok |]. apply vc_eq; [done | | done].
  unfold f. cbn [upd vc_pos vc_origin plain]. lia.
Qed.

(** Where [gotoxy] goes. *)
Definition clamp (a max : Z) : Z := if a <? 0 then 0 else if max <=? a then max - 1 else a.

Lemma gotoxy_moves w a b s :
  let x := clamp a (video_num_columns w) in
  let y := if vc_decom s then clamp (s32 (b + vc_top s)) (vc_bottom s) else clamp b (video_num_lines w) in
  gotoxy w a b s =
  s <| vc_x := x |> <| vc_y := y |> <| vc_pos := vc_origin s + y * video_size_row w + x * 2 |> <| vc_need_wrap := false |>.
Proof using Type. unfold gotoxy. by destruct (vc_decom s). Qed.

Lemma clamp_bounds a max : 0 < max -> 0 <= clamp a max < max.
Proof using Type. clear. unfold clamp. destruct (Z.ltb_spec a 0), (Z.leb_spec max a); lia. Qed.

Lemma gotoxy_sim a b s :
  con_ok v s -> con_ok v (gotoxy v a b s) /\ gotoxy (soft v) a b (plain v s) = plain v (gotoxy v a b s).
Proof using Hv.
  intros Hs. pose proof (co_core _ _ Hs) as []. destruct Hv. rewrite !gotoxy_moves. cbv zeta.
  change (vc_decom (plain v s)) with (vc_decom s). change (vc_top (plain v s)) with (vc_top s).
  change (vc_bottom (plain v s)) with (vc_bottom s).
  change (video_num_columns (soft v)) with (video_num_columns v).
  change (video_num_lines (soft v)) with (video_num_lines v).
  change (video_size_row (soft v)) with (video_size_row v).
  set (y := if vc_decom s then _ else _).
  assert (0 <= y < video_num_lines v) as Hy.
  { unfold y. destruct (vc_decom s).
    - pose proof (clamp_bounds (s32 (b + vc_top s)) (vc_bottom s)). lia.
    - apply clamp_bounds. lia. }
  clearbody y. by apply move_sim; [| apply clamp_bounds; lia |].
Qed.

Lemma cr_sim s : con_ok v s -> con_ok v (cr s) /\ cr (plain v s) = plain v (cr s).
Proof using Hv.
  intros Hs. destruct Hv. split; [unfold cr; vc_ok |]. apply vc_eq; [done | cbn; lia | done].
Qed.

Lemma bs_sim s : con_ok v s -> con_ok v (bs s) /\ bs (plain v s) = plain v (bs s).
Proof using Hv.
  intros Hs. unfold bs. change (vc_x (plain v s)) with (vc_x s). unfold ctrue.
  destruct (Z.eqb_spec (vc_x s) 0); [done |]. cbn [negb]. split; [vc_ok |].
  apply vc_eq; [done | cbn; lia | done].
Qed.

(** ** Scrolling *)

Lemma set_origin_ok s :
  con_core v s -> is_ega v = true -> con_ok v (set_origin v s) /\ plain v (set_origin v s) = plain v s.
Proof using Type.
  intros Hs He. unfold set_origin. rewrite He. destruct (visible s) eqn:Evis; cbn [andb].
  - split; [| done]. destruct Hs. constructor; [by constructor |]. intros _ _. cbn.
    split; [done |]. unfold uwrap. by rewrite Z.mod_mod.
  - split; [| done]. constructor; [done |]. by rewrite Evis.
Qed.

Lemma half_even a b : Z.Even b -> Z.shiftr (a * b) 1 = a * (b / 2) /\ 2 * (b / 2) = b.
Proof using Type.
  clear. intros [c ->]. rewrite Z.shiftr_div_pow2 by lia. change (2 ^ 1) with 2.
  replace (a * (2 * c)) with (a * c * 2) by lia. rewrite (Z.mul_comm 2 c), !Z.div_mul by lia. lia.
Qed.

Lemma scroll_words a : 0 <= a ->
  let n := Z.shiftr (a * cols) 1 in 0 <= n /\ 2 * n = a * cols /\ Z.of_nat (Z.to_nat n) = n.
Proof using Hv.
  intros Ha n. destruct Hv as [Hc He _]. destruct (half_even a cols He) as [E1 E2].
  unfold n. rewrite E1. fold cols in Hc. pose proof (Z.div_pos cols 2). nia.
Qed.

(** The screen of the hardware after a line has been scrolled out, against the
    one that is moved up. *)
Lemma scrolled_screen l l' o o' erase :
  let n := Z.shiftr ((lines - 1) * cols) 1 in
  0 <= o -> o + words v <= Z.of_nat (length l) -> length l' = length l -> 0 <= o' -> o' + words v <= Z.of_nat (length l') ->
  (forall k, 0 <= k < words v ->
     l' !! Z.to_nat (o' + k) =
       if decide (k < words v - cols) then l !! Z.to_nat (o + cols + k) else Some erase) ->
  (m ← movsl (Z.to_nat n) 2 cols 0 (win o (words v) l); stosw (Z.to_nat cols) 1 (n * 2) erase m)
  = Some (win o' (words v) l').
Proof using Hv.
  intros n Ho Hl Hlen Ho' Hl' Hw. pose proof Hv as [Hc Heven Hlines]. fold cols lines in Hc, Heven, Hlines.
  destruct (scroll_words (lines - 1)) as (Hn0 & Hn & Hn'); [lia |]. fold n in Hn0, Hn, Hn'.
  assert (words v = lines * cols) as Ew by done.
  assert (Z.of_nat (length (win o (words v) l)) = words v) as Hwl by (apply win_length; nia).
  destruct (movsl_lookup (Z.to_nat n) cols 0 (win o (words v) l)) as (m & Em & Hm & Hml); [lia | lia |].
  rewrite Em. cbn [mbind option_bind].
  destruct (stosw_lookup (Z.to_nat cols) erase (n * 2) m) as (m' & Em' & Hm' & Hml'); [lia | lia |].
  rewrite Em'. f_equal. apply list_eq. intros k.
  destruct (decide (Z.of_nat k < words v)).
  - rewrite Hml' by lia. rewrite win_lookup by lia. replace (Z.to_nat o' + k)%nat with (Z.to_nat (o' + Z.of_nat k)) by lia.
    rewrite Hw by lia. destruct (decide (Z.of_nat k < words v - cols)).
    + rewrite decide_False by lia. rewrite Hml by lia. rewrite decide_True by lia.
      rewrite win_lookup by lia. f_equal. lia.
    + by rewrite decide_True by lia.
  - rewrite !lookup_ge_None_2; [done | | lia]. apply Nat2Z.inj_le. rewrite win_length by lia. lia.
Qed.

(** The copy of lines, in the memory and on the screen. *)
Lemma scroll_sim n step src dst m step' i s :
  con_ok v s ->
  (forall j, 0 <= j < Z.of_nat n -> 0 <= src + step * j < words v - 1 /\ 0 <= dst + step * j < words v - 1) ->
  (forall j, 0 <= j < Z.of_nat m -> 0 <= i + step' * j < words v) ->
  sim (with_mem (l ← movsl n step (first_word s + src) (first_word s + dst) (vmem s);
                 stosw m step' (first_word s + i) (vc_video_erase_char s) l) s)
      (with_mem (l ← movsl n step src dst (vmem (plain v s));
                 stosw m step' i (vc_video_erase_char (plain v s)) l) (plain v s)).
Proof using Hv.
  intros Hs H1 H2. destruct (first_word_spec s Hs) as (? & ? & ? & ? & ?). apply sim_mem; [done |].
  change (vmem (plain v s)) with (win (first_word s) (words v) (vmem s)).
  eapply memsim_bind; [apply movsl_win; lia || done |].
  intros l Hl. rewrite <- Hl. apply stosw_win; lia || done.
Qed.

Lemma scrup_soft_sim t b s :
  con_ok v s -> 0 <= t < b -> b <= lines ->
  let n := Z.shiftr ((b - t - 1) * cols) 1 in
  let row := video_size_row v in
  let up s := let dst := idx s (vc_origin s + row * t) in
    with_mem (m ← movsl (Z.to_nat n) 2 (idx s (vc_origin s + row * (t + 1))) dst (vmem s);
              stosw (Z.to_nat cols) 1 (dst + n * 2) (vc_video_erase_char s) m) s in
  sim (up s) (up (plain v s)).
Proof using Hv.
  intros Hs Ht Hb n row up. unfold up. destruct (scroll_words (b - t - 1)) as (Hn0 & Hn & Hn'); [lia |]. fold n in Hn0, Hn, Hn'.
  assert (Hw : words v = lines * cols) by done. pose proof Hv as [Hc _ Hl]. fold cols lines in Hc, Hl.
  replace (row * t) with (2 * (cols * t)) by (unfold row; rewrite row_cols; lia).
  replace (row * (t + 1)) with (2 * (cols * (t + 1))) by (unfold row; rewrite row_cols; lia).
  rewrite !idx_screen by done. change (vc_origin (plain v s)) with 0. rewrite !Z.add_0_l, !idx_plain.
  rewrite <- Z.add_assoc. apply scroll_sim; [done | |].
  - intros j Hj. rewrite Hn' in Hj. nia.
  - intros j Hj. nia.
Qed.

(** The console with its screen at index [o] of the memory [l]. *)
Definition moved (s : vc) (l : list Z) (o : Z) : vc :=
  let org := vc_video_mem_start s + 2 * o in
  s <| vmem := l |> <| vc_origin := org |> <| vc_pos := org + vc_y s * video_size_row v + vc_x s * 2 |>
    <| vc_scr_end := org + screen_size v |>.

Lemma moved_ok s l o :
  con_ok v s -> is_ega v = true -> length l = length (vmem s) -> 0 <= o -> o + words v <= Z.of_nat (length l) ->
  con_ok v (set_origin v (moved s l o)) /\
  plain v (set_origin v (moved s l o)) = plain v s <| vmem := win o (words v) l |>.
Proof using Hv.
  intros Hs He Hl Ho Hfit. destruct (first_word_spec s Hs) as (_ & _ & _ & _ & Esz).
  pose proof (co_core _ _ Hs) as [].
  assert (con_core v (moved s l o)) as Hcore.
  { unfold moved. constructor; vc_cbn; try done; try lia. exists o. lia. }
  destruct (set_origin_ok _ Hcore He) as [Hok ->]. split; [done |].
  assert (screen v (moved s l o) = win o (words v) l) as Escr.
  { unfold screen, first_word, moved. vc_cbn. f_equal.
    replace (_ - _) with (o * 2) by lia. by rewrite Z.div_mul. }
  unfold plain at 1. rewrite Escr. apply vc_eq; [done | unfold moved; vc_cbn; lia | done].
Qed.

(** A step of the hardware: the screen is one row further in the memory, or
    has been copied to its start. *)
Lemma scrup_hard_sim s :
  con_ok v s -> is_ega v = true ->
  let n := Z.shiftr ((lines - 1) * cols) 1 in
  sim (scrup_hard v s)
    (with_mem (m ← movsl (Z.to_nat n) 2 cols 0 (screen v s);
               stosw (Z.to_nat cols) 1 (n * 2) (vc_video_erase_char s) m) (plain v s)).
Proof using Hv.
  intros Hs He n. destruct (first_word_spec s Hs) as (Ho & Eo & Hfit & Hw & Esz).
  pose proof (co_core _ _ Hs) as []. pose proof Hv as [Hc _ Hl]. fold cols lines in Hc, Hl.
  destruct (scroll_words (lines - 1)) as (Hn0 & Hn & Hn'); [lia |]. fold n in Hn0, Hn, Hn'.
  assert (Ew : words v = lines * cols) by done.
  assert (Hcw : cols <= words v) by nia. pose proof row_cols as Hrow.
  assert (forall l' o', length l' = length (vmem s) -> 0 <= o' -> o' + words v <= Z.of_nat (length l') ->
    (forall k, 0 <= k < words v -> l' !! Z.to_nat (o' + k) =
       if decide (k < words v - cols) then vmem s !! Z.to_nat (first_word s + cols + k)
       else Some (vc_video_erase_char s)) ->
    sim (Some (set_origin v (moved s l' o')))
      (with_mem (m ← movsl (Z.to_nat n) 2 cols 0 (screen v s);
                 stosw (Z.to_nat cols) 1 (n * 2) (vc_video_erase_char s) m) (plain v s))) as Hfin.
  { intros l' o' H1 H2 H3 H4. unfold screen, n.
    rewrite (scrolled_screen (vmem s) l' (first_word s) o') by done.
    destruct (moved_ok s l' o') as [Hok Hpl]; try done. cbn [with_mem fmap option_fmap option_map].
    unfold with_mem. cbn [fmap option_fmap option_map]. apply sim_ret; [done | by rewrite Hpl]. }
  unfold scrup_hard. fold cols lines n.
  set (s1 := s <| vc_origin ::= fun o => o + video_size_row v |> <| vc_pos ::= fun p => p + video_size_row v |>
               <| vc_scr_end ::= fun e => e + video_size_row v |>).
  change (vc_video_mem_end s1) with (vc_video_mem_end s).
  change (vc_scr_end s1) with (vc_scr_end s + video_size_row v).
  change (vc_origin s1) with (vc_origin s + video_size_row v).
  change (vmem s1) with (vmem s). change (vc_video_erase_char s1) with (vc_video_erase_char s).
  change (idx s1) with (idx s). rewrite Hrow.
  destruct (Z.ltb_spec (vc_video_mem_end s) (vc_scr_end s + 2 * cols)).
  - rewrite idx_screen by done.
    destruct (movsl_lookup (Z.to_nat n) (first_word s + cols) 0 (vmem s)) as (m & -> & Hm & Hml); [lia | nia |].
    cbn [mbind option_bind].
    destruct (stosw_lookup (Z.to_nat cols) (vc_video_erase_char s) (n * 2) m) as (m' & -> & Hm' & Hml'); [lia | nia |].
    unfold with_mem at 1. cbn [fmap option_fmap option_map mbind option_bind].
    match goal with |- sim (Some (set_origin _ ?x)) _ => replace x with (moved s m' 0) end.
    + apply Hfin; [lia | lia | nia |]. intros k Hk. rewrite Hml' by lia.
      destruct (decide (k < words v - cols)).
      * rewrite decide_False by lia. rewrite Hml by lia. rewrite decide_True by lia. f_equal. lia.
      * by rewrite decide_True by lia.
    + unfold moved, s1. apply vc_eq; [done | vc_cbn; lia |].
      rewrite Z.mul_0_r, Z.add_0_r. cbn. f_equal; lia.
  - rewrite Z.add_simpl_r.
    replace (idx s (vc_scr_end s)) with (first_word s + words v) by (rewrite <- idx_screen by done; f_equal; lia).
    destruct (stosw_lookup (Z.to_nat cols) (vc_video_erase_char s) (first_word s + words v) (vmem s))
      as (m' & -> & Hm' & Hml'); [lia | nia |].
    unfold with_mem at 1. cbn [fmap option_fmap option_map mbind option_bind].
    match goal with |- sim (Some (set_origin _ ?x)) _ => replace x with (moved s m' (first_word s + cols)) end.
    + apply Hfin; [lia | lia | nia |]. intros k Hk. rewrite Hml' by lia.
      destruct (decide (k < words v - cols)).
      * rewrite decide_False by lia. f_equal.
      * by rewrite decide_True by lia.
    + unfold moved, s1. apply vc_eq; [done | vc_cbn; lia |].
      cbn. f_equal; lia.
Qed.

Lemma scrup_sim t b s : con_ok v s -> 0 <= t -> sim (scrup v t b s) (scrup (soft v) t b (plain v s)).
Proof using Hv.
  intros Hs Ht. unfold scrup. soft_simpl. fold cols lines. cbn [andb].
  destruct (Z.ltb_spec lines b); [by apply sim_ret |]. destruct (Z.leb_spec b t); [by apply sim_ret |]. cbn [orb].
  destruct (is_ega v) eqn:He; [| by apply scrup_soft_sim].
  destruct (Z.eqb_spec t 0) as [-> |]; [| by apply scrup_soft_sim].
  destruct (Z.eqb_spec b lines) as [-> |]; [| by apply scrup_soft_sim]. cbn [andb].
  replace (lines - 0 - 1) with (lines - 1) by lia. plain_simpl.
  replace (0 + video_size_row v * (0 + 1)) with (2 * cols) by (rewrite row_cols; lia).
  replace (0 + video_size_row v * 0) with (2 * 0) by lia. rewrite !idx_plain. by apply scrup_hard_sim.
Qed.

Lemma scrdown_sim t b s : con_ok v s -> 0 <= t -> sim (scrdown v t b s) (scrdown (soft v) t b (plain v s)).
Proof using Hv.
  intros Hs Ht. unfold scrdown. plain_simpl. fold cols lines.
  destruct (Z.ltb_spec lines b); [by apply sim_ret |]. destruct (Z.leb_spec b t); [by apply sim_ret |]. cbn [orb].
  destruct (scroll_words (b - t - 1)) as (Hn0 & Hn & Hn'); [lia |]. set (n := Z.shiftr _ 1) in *.
  assert (Hw : words v = lines * cols) by done. pose proof Hv as [Hc [c Hcc] Hl]. fold cols lines in Hc, Hl, Hcc.
  rewrite row_cols. replace (vc_origin s + 2 * cols * b - 4) with (vc_origin s + 2 * (cols * b - 2)) by lia.
  replace (vc_origin s + 2 * cols * (b - 1) - 4) with (vc_origin s + 2 * (cols * (b - 1) - 2)) by lia.
  plain_simpl.
  replace (0 + 2 * cols * b - 4) with (2 * (cols * b - 2)) by lia.
  replace (0 + 2 * cols * (b - 1) - 4) with (2 * (cols * (b - 1) - 2)) by lia.
  rewrite !idx_screen by done. rewrite !idx_plain.
  replace (first_word s + (cols * b - 2) - n * 2 + 1) with (first_word s + (cols * b - 2 - n * 2 + 1)) by lia.
  apply scroll_sim; [done | |].
  - intros j Hj. rewrite Hn' in Hj. nia.
  - intros j Hj. nia.
Qed.

(** An operation that ends without a pending wrap. *)
Lemma no_wrap_sim r r' b :
  sim r r' -> sim (s ← r; Some (s <| vc_need_wrap := b |>)) (s ← r'; Some (s <| vc_need_wrap := b |>)).
Proof using Type. intros H. eapply sim_bind; [exact H |]. intros s Hs. apply sim_ret; [vc_ok | done]. Qed.

Lemma region_top s : con_ok v s -> 0 <= vc_top s.
Proof using Type. intros [[] _]. lia. Qed.
Lemma cursor_y s : con_ok v s -> 0 <= vc_y s.
Proof using Type. intros [[] _]. lia. Qed.

Lemma lf_sim s : con_ok v s -> sim (lf v s) (lf (soft v) (plain v s)).
Proof using Hv.
  intros Hs. unfold lf. plain_simpl.
  destruct (Z.ltb_spec (vc_y s + 1) (vc_bottom s)).
  - apply sim_ret; [vc_ok |]. apply vc_eq; [done | vc_cbn; lia | done].
  - apply no_wrap_sim, scrup_sim; [done | by apply region_top].
Qed.

Lemma ri_sim s : con_ok v s -> sim (ri v s) (ri (soft v) (plain v s)).
Proof using Hv.
  intros Hs. unfold ri. plain_simpl.
  destruct (Z.ltb_spec (vc_top s) (vc_y s)).
  - apply sim_ret; [vc_ok |]. apply vc_eq; [done | vc_cbn; lia | done].
  - apply no_wrap_sim, scrdown_sim; [done | by apply region_top].
Qed.

(** ** Erasing *)

Lemma erase_sim count start start' i s :
  con_ok v s -> start = vc_origin s + 2 * i -> start' = 2 * i -> 0 <= i -> i + count <= words v ->
  sim (erase_words count start s) (erase_words count start' (plain v s)).
Proof using Hv.
  intros Hs -> -> Hi Hc. destruct (first_word_spec s Hs) as (? & ? & ? & ? & ?). unfold erase_words.
  apply no_wrap_sim. rewrite idx_screen by done. rewrite idx_plain. apply sim_mem; [done |].
  plain_simpl.
  apply stosw_win; lia || done || (intros; lia).
Qed.

Lemma half_of a : a * 2 / 2 = a.
Proof using Type. by apply Z.div_mul. Qed.

Lemma csi_J_sim p s : con_ok v s -> sim (csi_J v p s) (csi_J (soft v) p (plain v s)).
Proof using Hv.
  intros Hs. unfold csi_J. plain_simpl.
  fold cols lines. destruct (first_word_spec s Hs) as (_ & _ & _ & Hw & Esz). pose proof row_cols as Hrow.
  destruct (at_word_bounds s Hs) as [Hb1 Hb2]. assert (Ew : words v = lines * cols) by done.
  pose proof (co_core _ _ Hs) as []. fold cols lines in co_x0, co_y0. unfold at_word in *.
  plain_simpl.
  replace (vc_scr_end s - vc_pos s) with ((words v - (vc_y s * cols + vc_x s)) * 2) by lia.
  replace (screen_size v - (vc_pos s - vc_origin s)) with ((words v - (vc_y s * cols + vc_x s)) * 2) by lia.
  replace (vc_pos s - vc_origin s - 0) with ((vc_y s * cols + vc_x s) * 2) by lia.
  replace (vc_pos s - vc_origin s) with ((vc_y s * cols + vc_x s) * 2) by lia. rewrite !half_of.
  destruct (Z.eqb_spec p 0); [eapply erase_sim with (i := vc_y s * cols + vc_x s); try done; lia |].
  destruct (Z.eqb_spec p 1); [eapply erase_sim with (i := 0); try done; lia |].
  destruct (Z.eqb_spec p 2); [eapply erase_sim with (i := 0); try done; lia |].
  by apply sim_ret.
Qed.

Lemma csi_K_sim p s : con_ok v s -> sim (csi_K v p s) (csi_K (soft v) p (plain v s)).
Proof using Hv.
  intros Hs. unfold csi_K. plain_simpl. fold cols. pose proof row_cols as Hrow.
  destruct (at_word_bounds s Hs) as [Hb1 Hb2]. pose proof (co_core _ _ Hs) as []. fold cols lines in co_x0, co_y0.
  plain_simpl.
  destruct (Z.eqb_spec p 0); [eapply erase_sim with (i := vc_y s * cols + vc_x s); try done; lia |].
  destruct (Z.eqb_spec p 1); [eapply erase_sim with (i := vc_y s * cols); try done; lia |].
  destruct (Z.eqb_spec p 2); [eapply erase_sim with (i := vc_y s * cols); try done; lia |].
  by apply sim_ret.
Qed.

(** ** Characters and lines *)

Lemma insert_char_sim s : con_ok v s -> sim (insert_char v s) (insert_char (soft v) (plain v s)).
Proof using Hv.
  intros Hs. unfold insert_char. apply no_wrap_sim. rewrite idx_pos, idx_pos_plain by done.
  plain_simpl.
  destruct (first_word_spec s Hs) as (? & ? & ? & ? & ?). destruct (at_word_bounds s Hs).
  pose proof (co_x _ _ (co_core _ _ Hs)) as Hx. fold cols in Hx |- *. unfold at_word. apply sim_mem; [done |].
  plain_simpl. unfold screen. apply insert_words_win; lia.
Qed.

Lemma delete_char_sim s : con_ok v s -> sim (delete_char v s) (delete_char (soft v) (plain v s)).
Proof using Hv.
  intros Hs. unfold delete_char. apply no_wrap_sim. rewrite idx_pos, idx_pos_plain by done.
  plain_simpl.
  destruct (first_word_spec s Hs) as (? & ? & ? & ? & ?). destruct (at_word_bounds s Hs).
  pose proof (co_x _ _ (co_core _ _ Hs)) as Hx. fold cols in Hx |- *. unfold at_word. apply sim_mem; [done |].
  plain_simpl. unfold screen. apply delete_words_win; lia.
Qed.

Lemma insert_line_sim s : con_ok v s -> sim (insert_line v s) (insert_line (soft v) (plain v s)).
Proof using Hv. intros Hs. unfold insert_line. plain_simpl. by apply no_wrap_sim, scrdown_sim, cursor_y. Qed.
Lemma delete_line_sim s : con_ok v s -> sim (delete_line v s) (delete_line (soft v) (plain v s)).
Proof using Hv. intros Hs. unfold delete_line. plain_simpl. by apply no_wrap_sim, scrup_sim, cursor_y. Qed.

(** ** What leaves the screen alone *)

Definition geometry (s : vc) :=
  (vmem s, visible s, vc_video_mem_start s, vc_video_mem_end s, vc_origin s, vc_scr_end s, vc_pos s, (vc_x s, vc_y s),
   (vc_top s, vc_bottom s), (vc_npar s, vc_par s), vc_tab_stop s, (real_origin s, shown_origin s)).

Lemma geometry_ok s s' : geometry s' = geometry s -> con_ok v s -> con_ok v s'.
Proof using Type.
  intros E [[] Hsh]. unfold geometry in E.
  injection E as E1 E2 E3 E4 E5 E6 E7 E8 E9 E10 E11 E12 E13 E14 E15 E16.
  constructor; [constructor |];
    rewrite ?E1, ?E2, ?E3, ?E4, ?E5, ?E6, ?E7, ?E8, ?E9, ?E10, ?E11, ?E12, ?E13, ?E14, ?E15, ?E16; done.
Qed.

Definition quiet (f f' : vc -> vc) : Prop := forall s, geometry (f s) = geometry s /\ f' (plain v s) = plain v (f s).

Lemma quiet_sim f f' s : quiet f f' -> con_ok v s -> sim (Some (f s)) (Some (f' (plain v s))).
Proof using Type. intros Hf Hs. destruct (Hf s). apply sim_ret; [by eapply geometry_ok | done]. Qed.

Ltac quietly f := by apply (quiet_sim f f).

Lemma quiet_comp f f' g g' : quiet f f' -> quiet g g' -> quiet (fun s => g (f s)) (fun s => g' (f' s)).
Proof using Type.
  intros Hf Hg s. destruct (Hf s) as [E1 E2], (Hg (f s)) as [E3 E4]. rewrite E3, E1, E2, E4. done.
Qed.

Lemma quiet_if (b : vc -> bool) f f' g g' :
  (forall s, b (plain v s) = b s) -> quiet f f' -> quiet g g' ->
  quiet (fun s => if b s then f s else g s) (fun s => if b s then f' s else g' s).
Proof using Type. intros Hb Hf Hg s. rewrite Hb. destruct (b s); [apply Hf | apply Hg]. Qed.

Lemma quiet_id : quiet (fun s => s) (fun s => s).
Proof using Type. done. Qed.

Lemma update_attr_quiet : quiet (update_attr v) (update_attr (soft v)).
Proof using Type. done. Qed.
Lemma default_attr_quiet : quiet default_attr default_attr.
Proof using Type. done. Qed.

Lemma sgr_quiet p : quiet (sgr p) (sgr p).
Proof using Type. intros s. unfold sgr. repeat case_match; done. Qed.

Lemma csi_m_quiet : quiet (csi_m v) (csi_m (soft v)).
Proof using Type.
  assert (forall l, quiet (fun s => foldl (fun s p => sgr p s) s l) (fun s => foldl (fun s p => sgr p s) s l)) as Hl.
  { intros l. induction l as [| p l IH]; [apply quiet_id |]. exact (quiet_comp _ _ _ _ (sgr_quiet p) IH). }
  intros s. destruct (Hl (pars s) s) as [E1 E2]. unfold csi_m. rewrite plain_pars, E2.
  destruct (update_attr_quiet (foldl (fun s p => sgr p s) s (pars s))) as [E3 E4]. by rewrite E3, E1, E4.
Qed.

Lemma save_cur_quiet : quiet save_cur save_cur.
Proof using Type. done. Qed.
Lemma respond_quiet l : quiet (respond_string l) (respond_string l).
Proof using Type. done. Qed.
Lemma num_quiet n : quiet (respond_num n) (respond_num n).
Proof using Type. done. Qed.
Lemma report_quiet : quiet cursor_report cursor_report.
Proof using Type. done. Qed.
Lemma set_kbd_quiet m : quiet (set_kbd m) (set_kbd m).
Proof using Type. done. Qed.
Lemma clr_kbd_quiet m : quiet (clr_kbd m) (clr_kbd m).
Proof using Type. done. Qed.
Lemma emit_quiet e : quiet (con_emit e) (con_emit e).
Proof using Type. done. Qed.

(** A color of [update_attr] changes, which counts if it is in use. *)
Lemma recolor_quiet (f : vc -> vc) (b : vc -> bool) :
  quiet f f -> (forall s, b (plain v s) = b s) ->
  quiet (fun s => if b (f s) then update_attr v (f s) else f s) (fun s => if b (f s) then update_attr (soft v) (f s) else f s).
Proof using Type.
  intros Hf Hb. apply (quiet_comp _ _ _ _ Hf (quiet_if b _ _ _ _ Hb update_attr_quiet quiet_id)).
Qed.

Lemma setterm_quiet : quiet (setterm_command v) (setterm_command (soft v)).
Proof using Type.
  intros s. unfold setterm_command. rewrite !plain_get, !soft_color.
  destruct (par s 0 =? 1).
  { destruct (_ && _); [| done]. by apply (recolor_quiet (fun s0 => s0 <| vc_ulcolor := znth 0 color_table (par s 1) |>)). }
  destruct (par s 0 =? 2).
  { destruct (_ && _); [| done].
    by apply (recolor_quiet (fun s0 => s0 <| vc_halfcolor := znth 0 color_table (par s 1) |>) (fun s0 => vc_intensity s0 =? 0)). }
  destruct (par s 0 =? 8); [done |]. by destruct (par s 0 =? 9).
Qed.

(** What cannot fail. *)
Definition fine (f f' : vc -> vc) : Prop :=
  forall s, con_ok v s -> con_ok v (f s) /\ f' (plain v s) = plain v (f s).

Lemma quiet_fine f f' : quiet f f' -> fine f f'.
Proof using Type. intros Hf s Hs. destruct (Hf s). split; [by eapply geometry_ok | done]. Qed.

Lemma fine_sim f f' s : fine f f' -> con_ok v s -> sim (Some (f s)) (Some (f' (plain v s))).
Proof using Type. intros Hf Hs. destruct (Hf s Hs). by apply sim_ret. Qed.

Lemma fine_then f f' g g' s :
  fine f f' -> (forall s, con_ok v s -> sim (g s) (g' (plain v s))) -> con_ok v s -> sim (g (f s)) (g' (f' (plain v s))).
Proof using Type. intros Hf Hg Hs. destruct (Hf s Hs) as [H1 ->]. by apply Hg. Qed.

Lemma fine_comp f f' g g' : fine f f' -> fine g g' -> fine (fun s => g (f s)) (fun s => g' (f' s)).
Proof using Type. intros Hf Hg s Hs. destruct (Hf s Hs) as [H1 ->]. by apply Hg. Qed.

Lemma sim_then r r' g g' : sim r r' -> fine g g' -> sim (s ← r; Some (g s)) (s ← r'; Some (g' s)).
Proof using Type. intros Hr Hg. eapply sim_bind; [exact Hr |]. intros s. by apply fine_sim. Qed.

Lemma gotoxy_fine a b : fine (gotoxy v a b) (gotoxy (soft v) a b).
Proof using Hv. intros s. apply gotoxy_sim. Qed.

Lemma cursor_soft s : visible s = false -> forall w, set_cursor w s = s.
Proof using Type. intros E w. unfold set_cursor. by rewrite E. Qed.

Lemma set_cursor_fine : fine (set_cursor v) (set_cursor (soft v)).
Proof using Type.
  intros s Hs. rewrite (cursor_soft (plain v s)) by done.
  unfold set_cursor. destruct (visible s) eqn:Evis; [| done].
  assert (con_ok v (set_origin v s) /\ plain v (set_origin v s) = plain v s) as [Ho Ep].
  { destruct (is_ega v) eqn:He; [by apply set_origin_ok; [destruct Hs |] |]. unfold set_origin. by rewrite He. }
  assert (forall s1, con_ok v s1 -> plain v s1 = plain v s ->
    let s2 := if vc_deccm s1 then s1 <| cursor_reg := u16 ((vc_pos s1 - video_mem_base v) / 2) |> else hide_cursor v s1 in
    con_ok v s2 /\ plain v s = plain v s2) as Hend.
  { intros s1 Hs1 <- s2. unfold s2, hide_cursor. destruct (vc_deccm s1); (split; [by apply (geometry_ok s1) | done]). }
  destruct (_ && _); by apply Hend.
Qed.

Lemma invert_screen_sim s : con_ok v s -> sim (invert_screen v s) (invert_screen (soft v) (plain v s)).
Proof using Hv.
  intros Hs. unfold invert_screen. plain_simpl. destruct (first_word_spec s Hs) as (? & ? & ? & ? & Esz).
  rewrite (co_scr_end _ _ (co_core _ _ Hs)), Z.sub_0_r. replace (vc_origin s + screen_size v - vc_origin s) with (screen_size v) by lia.
  rewrite Esz. replace (2 * words v / 2) with (words v) by (rewrite Z.mul_comm, half_of; done).
  replace (idx s (vc_origin s)) with (first_word s + 0) by (rewrite <- idx_screen by done; f_equal; lia).
  rewrite (idx_plain s 0 : idx (plain v s) 0 = 0). apply sim_mem; [done |]. unfold screen.
  apply invert_words_win; done || lia.
Qed.

Lemma set_mode_par_sim b p s : con_ok v s -> sim (set_mode_par v b p s) (set_mode_par (soft v) b p (plain v s)).
Proof using Hv.
  intros Hs. unfold set_mode_par. rewrite plain_ques, plain_decscnm. cbn zeta.
  assert (forall m, fine (fun s => if b then set_kbd m s else clr_kbd m s) (fun s => if b then set_kbd m s else clr_kbd m s)) as Hkbd.
  { intros m. apply quiet_fine. by destruct b. }
  destruct (vc_ques s).
  - destruct (p =? 1); [by apply (fine_sim _ _ s (Hkbd _)) |].
    destruct (p =? 3); [apply sim_then; [by apply csi_J_sim | apply gotoxy_fine] |].
    destruct (p =? 5).
    { destruct (eqb _ _); [by apply sim_ret |]. apply sim_then; [| apply quiet_fine, update_attr_quiet].
      by apply (fine_then (fun s => s <| vc_decscnm := b |>) (fun s => s <| vc_decscnm := b |>)
        (invert_screen v) (invert_screen (soft v)) s); [apply quiet_fine | apply invert_screen_sim |]. }
    destruct (p =? 6).
    { apply (fine_sim (fun s => gotoxy v 0 0 (s <| vc_decom := b |>)) (fun s => gotoxy (soft v) 0 0 (s <| vc_decom := b |>))); [| done].
      apply (fine_comp (fun s => s <| vc_decom := b |>) (fun s => s <| vc_decom := b |>)); [by apply quiet_fine | apply gotoxy_fine]. }
    destruct (p =? 7); [quietly (fun s => s <| vc_decawm := b |>) |].
    destruct (p =? 8); [by apply (fine_sim _ _ s (Hkbd _)) |].
    destruct (p =? 25); [| by apply sim_ret].
    apply (fine_sim (fun s => set_cursor v (s <| vc_deccm := b |>)) (fun s => set_cursor (soft v) (s <| vc_deccm := b |>))); [| done].
    apply (fine_comp (fun s => s <| vc_deccm := b |>) (fun s => s <| vc_deccm := b |>)); [by apply quiet_fine | apply set_cursor_fine].
  - destruct (p =? 4); [quietly (fun s => s <| vc_decim := b |>) |].
    destruct (p =? 20); [by apply (fine_sim _ _ s (Hkbd _)) | by apply sim_ret].
Qed.

Lemma set_mode_sim b s : con_ok v s -> sim (set_mode v b s) (set_mode (soft v) b (plain v s)).
Proof using Hv.
  unfold set_mode. rewrite plain_pars. generalize (pars s). intros l. revert s.
  induction l as [| p l IH]; intros s Hs; cbn [set_modes]; [by apply sim_ret |].
  eapply sim_bind; [by apply set_mode_par_sim | exact IH].
Qed.

(** ** Sequences *)

Lemma csi_at_sim n s : con_ok v s -> sim (csi_at v n s) (csi_at (soft v) n (plain v s)).
Proof using Hv. unfold csi_at. rewrite soft_columns. apply sim_repeat, insert_char_sim. Qed.
Lemma csi_P_sim n s : con_ok v s -> sim (csi_P v n s) (csi_P (soft v) n (plain v s)).
Proof using Hv. unfold csi_P. rewrite soft_columns. apply sim_repeat, delete_char_sim. Qed.
Lemma csi_L_sim n s : con_ok v s -> sim (csi_L v n s) (csi_L (soft v) n (plain v s)).
Proof using Hv. unfold csi_L. rewrite soft_lines. apply sim_repeat, insert_line_sim. Qed.
Lemma csi_M_sim n s : con_ok v s -> sim (csi_M v n s) (csi_M (soft v) n (plain v s)).
Proof using Hv. unfold csi_M. rewrite soft_lines. apply sim_repeat, delete_line_sim. Qed.

Lemma restore_cur_fine : fine (restore_cur v) (restore_cur (soft v)).
Proof using Hv.
  set (rest w (s : vc) :=
    let s := s <| vc_intensity := vc_s_intensity s |> <| vc_underline := vc_s_underline s |>
      <| vc_blink := vc_s_blink s |> <| vc_reverse := vc_s_reverse s |> <| vc_charset := vc_s_charset s |>
      <| vc_color := vc_s_color s |> <| vc_G0_charset := vc_saved_G0 s |> <| vc_G1_charset := vc_saved_G1 s |> in
    let s := s <| vc_translate := (if vc_charset s then vc_G1_charset s else vc_G0_charset s) |> in
    update_attr w s <| vc_need_wrap := false |>).
  assert (quiet (rest v) (rest (soft v))) as Hrest by done.
  assert (forall w s, restore_cur w s = rest w (gotoxy w (s32 (vc_saved_x s)) (s32 (vc_saved_y s)) s)) as E by done.
  clearbody rest. intros s Hs. rewrite !E, plain_saved_x, plain_saved_y.
  destruct (gotoxy_fine (s32 (vc_saved_x s)) (s32 (vc_saved_y s)) s Hs) as [Hg ->]. by apply quiet_fine.
Qed.

Lemma reset_terminal_sim b s : con_ok v s -> sim (reset_terminal v b s) (reset_terminal (soft v) b (plain v s)).
Proof using Hv.
  set (tabs := [0x01010100; 0x01010101; 0x01010101; 0x01010101; 0x01010101]).
  set (init w (s : vc) :=
    let s := s <| vc_top := 0 |> <| vc_bottom := video_num_lines w |> <| vc_state := ESnormal |> <| vc_ques := false |>
      <| vc_translate := NORM_TRANS |> <| vc_G0_charset := NORM_TRANS |> <| vc_G1_charset := GRAF_TRANS |>
      <| vc_charset := false |> <| vc_need_wrap := false |> <| vc_decscnm := false |> <| vc_decom := false |>
      <| vc_decawm := true |> <| vc_deccm := true |> <| vc_decim := false |> in
    let s := clr_kbd VC_CRLF (clr_kbd VC_APPLIC (clr_kbd VC_CKMODE (set_kbd VC_REPEAT s))) in
    let s := con_emit SetLeds (s <| lockstate := 0 |> <| ledstate := default_ledstate s |>) in
    let s := update_attr w (default_attr s) in
    s <| vc_tab_stop := tabs |>).
  assert (fine (init v) (init (soft v))) as Hinit.
  { intros s1 Hs1. split; [| done].
    apply (geometry_ok (s1 <| vc_top := 0 |> <| vc_bottom := lines |> <| vc_tab_stop := tabs |>)); [done |].
    destruct Hv. clear init. vc_ok. }
  assert (forall w s, reset_terminal w b s =
    if b then s ← csi_J w 2 (gotoxy w 0 0 (init w s)); Some (save_cur s) else Some (init w s)) as E by done.
  clearbody init. intros Hs. rewrite !E. destruct (Hinit s Hs) as [Hi ->].
  destruct b; [| by apply sim_ret]. apply sim_then; [| by apply quiet_fine].
  destruct (gotoxy_fine 0 0 (init v s) Hi) as [Hg ->]. by apply csi_J_sim.
Qed.

(** ** Tabs *)

(** Where the next tab stop is. *)
Fixpoint tab_x (fuel : nat) (x : Z) (tabs : list Z) : Z :=
  match fuel with
  | O => x
  | S fuel =>
      if x <? cols - 1 then
        if flag (znth 0 tabs (Z.shiftr (x + 1) 5)) (tab_mask (x + 1)) then x + 1 else tab_x fuel (x + 1) tabs
      else x
  end.

Lemma tab_x_bounds tabs fuel : forall x, 0 <= x < cols -> 0 <= tab_x fuel x tabs < cols.
Proof using Type.
  induction fuel as [| fuel IH]; intros x Hx; cbn [tab_x]; [done |].
  destruct (Z.ltb_spec x (cols - 1)); [| done]. destruct (flag _ _); [lia | apply IH; lia].
Qed.

Lemma tab_word_some x s : length (vc_tab_stop s) = 5%nat -> 0 <= x < cols ->
  tab_word x s = Some (znth 0 (vc_tab_stop s) (Z.shiftr x 5)).
Proof using Hv.
  intros Hl Hx. destruct Hv as [Hc _ _]. fold cols in Hc. unfold tab_word, lget. rewrite Hl.
  rewrite Z.shiftr_div_pow2 by lia. change (2 ^ 5) with 32.
  pose proof (Z.div_pos x 32). pose proof (Z.div_lt_upper_bound x 32 5).
  destruct (Z.leb_spec 0 (x / 32)), (Z.ltb_spec (x / 32) (Z.of_nat 5)); try lia. done.
Qed.

Lemma next_tab_moves w fuel : video_num_columns w = cols -> forall s,
  length (vc_tab_stop s) = 5%nat -> 0 <= vc_x s < cols ->
  next_tab w fuel s = Some (s <| vc_x := tab_x fuel (vc_x s) (vc_tab_stop s) |>).
Proof using Hv.
  intros Hw. induction fuel as [| fuel IH]; intros s Hl Hx; cbn [next_tab tab_x]; [by destruct s |].
  rewrite Hw. destruct (Z.ltb_spec (vc_x s) (cols - 1)); [| by destruct s]. cbn zeta.
  change (vc_x (s <| vc_x ::= fun x => x + 1 |>)) with (vc_x s + 1).
  rewrite (tab_word_some (vc_x s + 1) (s <| vc_x ::= fun x => x + 1 |>)) by (done || lia). cbn [mbind option_bind].
  change (vc_tab_stop (s <| vc_x ::= fun x => x + 1 |>)) with (vc_tab_stop s).
  destruct (flag _ _); [done |]. rewrite (IH (s <| vc_x ::= fun x => x + 1 |>)) by (vc_cbn; done || lia). done.
Qed.

Definition tab (w : video) (s : vc) : option vc :=
  s ← next_tab w (Z.to_nat (video_num_columns w)) (s <| vc_pos := vc_pos s - vc_x s * 2 |>);
  Some (s <| vc_pos := vc_pos s + vc_x s * 2 |>).

Lemma tab_sim s : con_ok v s -> sim (tab v s) (tab (soft v) (plain v s)).
Proof using Hv.
  intros Hs. pose proof (co_core _ _ Hs) as []. unfold tab. fold cols in co_x0.
  rewrite (next_tab_moves v _ eq_refl (s <| vc_pos := vc_pos s - vc_x s * 2 |>)) by (vc_cbn; done).
  rewrite (next_tab_moves (soft v) _ (soft_columns v)
    (plain v s <| vc_pos := vc_pos (plain v s) - vc_x (plain v s) * 2 |>)) by (vc_cbn; done).
  cbn [mbind option_bind]. rewrite soft_columns. fold cols.
  set (x := tab_x (Z.to_nat cols) (vc_x s) (vc_tab_stop s)).
  assert (0 <= x < cols) as Hx by by apply tab_x_bounds.
  change (tab_x _ _ _) with x. clearbody x. unfold cols in *.
  apply sim_ret; [vc_ok | apply vc_eq; [done | vc_cbn; lia | done]].
Qed.

(** ** Parameters *)

Lemma set_par_fine i n : 0 <= n -> fine (set_par i n) (set_par i n).
Proof using Type.
  intros Hn s Hs. split; [| done]. pose proof (co_par _ _ (co_core _ _ Hs)) as [Hl Hp]. unfold set_par. vc_ok.
  rewrite zupd_length. split; [done |]. unfold zupd. destruct (i <? 0); [done |]. by apply Forall_insert.
Qed.

Lemma par_pos s i : con_ok v s -> 0 <= par s i.
Proof using Type.
  intros Hs. pose proof (co_par _ _ (co_core _ _ Hs)) as [Hl Hp]. unfold par, znth.
  destruct (i <? 0); [done |]. rewrite nth_lookup. destruct (vc_par s !! Z.to_nat i) eqn:E; cbn; [| done].
  by eapply Forall_lookup_1 in Hp.
Qed.

Lemma count_par_fine : fine count_par count_par.
Proof using Type.
  intros s Hs. unfold count_par. rewrite plain_get. destruct (_ =? _); [by apply set_par_fine | done].
Qed.

Lemma coord_par_fine i : fine (coord_par i) (coord_par i).
Proof using Type.
  intros s Hs. unfold coord_par. rewrite plain_get. pose proof (par_pos s i Hs).
  destruct (Z.eqb_spec (par s i) 0); cbn [negb]; [done | apply set_par_fine; [lia | done]].
Qed.

(** Two results of which none fails. *)
Definition both (r r' : option vc) : Prop :=
  match r, r' with
  | Some s, Some s' => con_ok v s /\ s' = plain v s
  | None, None => True
  | _, _ => False
  end.

Lemma csi_move_both c s : con_ok v s -> both (csi_move v c s) (csi_move (soft v) c (plain v s)).
Proof using Hv.
  intros Hs. unfold csi_move. rewrite plain_x, plain_y. cbn zeta.
  destruct (count_par_fine s Hs) as [Hc ->]. destruct (coord_par_fine 0 s Hs) as [H0 ->].
  destruct (coord_par_fine 1 _ H0) as [H1 ->]. rewrite !plain_get.
  repeat (destruct (_ || _); [by apply gotoxy_fine | try done] || (destruct (_ =? _); [by apply gotoxy_fine | try done])).
Qed.

Lemma set_tab_sim f s :
  con_ok v s ->
  sim (w ← tab_word (vc_x s) s; Some (s <| vc_tab_stop := zupd (vc_tab_stop s) (Z.shiftr (vc_x s) 5) (f w) |>))
    (w ← tab_word (vc_x (plain v s)) (plain v s);
     Some (plain v s <| vc_tab_stop := zupd (vc_tab_stop (plain v s)) (Z.shiftr (vc_x (plain v s)) 5) (f w) |>)).
Proof using Hv.
  intros Hs. pose proof (co_tabs _ _ (co_core _ _ Hs)) as Ht. pose proof (co_x _ _ (co_core _ _ Hs)) as Hx.
  rewrite plain_x, plain_tab_stop, !tab_word_some by (rewrite ?plain_tab_stop; done). rewrite plain_tab_stop.
  cbn [mbind option_bind]. apply sim_ret; [vc_ok; by rewrite zupd_length | done].
Qed.

Lemma csi_region_sim s :
  con_ok v s ->
  sim (if (par s 0 <? par s 1) && (par s 1 <=? lines) then
         Some (gotoxy v 0 0 (s <| vc_top := par s 0 - 1 |> <| vc_bottom := par s 1 |>)) else Some s)
    (if (par s 0 <? par s 1) && (par s 1 <=? lines) then
       Some (gotoxy (soft v) 0 0 (plain v s <| vc_top := par s 0 - 1 |> <| vc_bottom := par s 1 |>)) else Some (plain v s))
  \/ par s 0 = 0.
Proof using Hv.
  intros Hs. destruct (Z.eqb_spec (par s 0) 0) as [? | Hp]; [by right | left]. pose proof (par_pos s 0 Hs).
  destruct (Z.ltb_spec (par s 0) (par s 1)); [| by apply sim_ret].
  destruct (Z.leb_spec (par s 1) lines); [| by apply sim_ret]. cbn [andb].
  set (s1 := s <| vc_top := _ |> <| vc_bottom := _ |>).
  assert (con_ok v s1) as Hs1.
  { unfold s1, lines in *. clear s1. generalize dependent (par s 0). generalize dependent (par s 1). intros. vc_ok. }
  replace (plain v s <| vc_top := _ |> <| vc_bottom := _ |>) with (plain v s1) by done. clearbody s1.
  apply (fine_sim _ _ s1 (gotoxy_fine 0 0) Hs1).
Qed.

Lemma par_set_eq s i n : 0 <= i < Z.of_nat (length (vc_par s)) -> par (set_par i n s) i = n.
Proof using Type.
  clear. intros Hi. change (znth 0 (zupd (vc_par s) i n) i = n). unfold znth, zupd. destruct (Z.ltb_spec i 0); [lia |].
  rewrite nth_lookup, list_lookup_insert_eq by lia. done.
Qed.

Lemma par_set_ne s i j n : 0 <= i -> 0 <= j -> i <> j -> par (set_par j n s) i = par s i.
Proof using Type.
  clear. intros Hi Hj Hij. change (znth 0 (zupd (vc_par s) j n) i = znth 0 (vc_par s) i). unfold znth, zupd.
  destruct (Z.ltb_spec i 0), (Z.ltb_spec j 0); try lia.
  rewrite !nth_lookup, list_lookup_insert_ne by lia. done.
Qed.

Lemma csi_r_sim s :
  con_ok v s ->
  let r w s :=
    let s := if par s 0 =? 0 then set_par 0 1 s else s in
    let s := if par s 1 =? 0 then set_par 1 (video_num_lines w) s else s in
    if (par s 0 <? par s 1) && (par s 1 <=? video_num_lines w) then
      Some (gotoxy w 0 0 (s <| vc_top := par s 0 - 1 |> <| vc_bottom := par s 1 |>))
    else Some s in
  sim (r v s) (r (soft v) (plain v s)).
Proof using Hv.
  intros Hs r.
  set (r2 w (s : vc) :=
    let s := if par s 1 =? 0 then set_par 1 (video_num_lines w) s else s in
    if (par s 0 <? par s 1) && (par s 1 <=? video_num_lines w) then
      Some (gotoxy w 0 0 (s <| vc_top := par s 0 - 1 |> <| vc_bottom := par s 1 |>))
    else Some s).
  assert (forall w s, r w s = r2 w (count_par s)) as E by done. rewrite !E. clear r E.
  destruct (count_par_fine s Hs) as [H1 ->].
  assert (par (count_par s) 0 <> 0) as Hne.
  { unfold count_par. destruct (Z.eqb_spec (par s 0) 0); [| done].
    pose proof (co_par _ _ (co_core _ _ Hs)) as [Hl _]. by rewrite par_set_eq by lia. }
  generalize dependent (count_par s). intros s1 H1 Hne. unfold r2. cbv zeta. clear r2. rewrite plain_get, soft_lines.
  assert (forall s2, con_ok v s2 -> par s2 0 <> 0 ->
    sim (if (par s2 0 <? par s2 1) && (par s2 1 <=? video_num_lines v) then
         Some (gotoxy v 0 0 (s2 <| vc_top := par s2 0 - 1 |> <| vc_bottom := par s2 1 |>)) else Some s2)
    (if (par (plain v s2) 0 <? par (plain v s2) 1) && (par (plain v s2) 1 <=? video_num_lines v) then
       Some (gotoxy (soft v) 0 0 (plain v s2 <| vc_top := par (plain v s2) 0 - 1 |> <| vc_bottom := par (plain v s2) 1 |>))
     else Some (plain v s2))) as Hend.
  { intros s2 H2 Hne2. rewrite !plain_get. by destruct (csi_region_sim s2 H2). }
  destruct (par s1 1 =? 0); [| by apply Hend].
  destruct (set_par_fine 1 (video_num_lines v)) with (s := s1) as [H2 ->]; [destruct Hv; lia | done |].
  apply Hend; [done |]. by rewrite par_set_ne by lia.
Qed.

Lemma csi_edit_sim c s : con_ok v s -> sim (csi_edit v c s) (csi_edit (soft v) c (plain v s)).
Proof using Hv.
  intros Hs. destruct (Z.eqb_spec c 114) as [-> | Hc]; [exact (csi_r_sim s Hs) |].
  unfold csi_edit. cbv zeta. rewrite !(plain_get v s 0).
  destruct (c =? 74); [by apply csi_J_sim |].
  destruct (c =? 75); [by apply csi_K_sim |].
  destruct (c =? 76); [by apply csi_L_sim |].
  destruct (c =? 77); [by apply csi_M_sim |].
  destruct (c =? 80); [by apply csi_P_sim |].
  destruct (c =? 99); [destruct (_ =? 0); [by apply quiet_sim | by apply sim_ret] |].
  destruct (c =? 103).
  { destruct (_ =? 0); [by apply (set_tab_sim (fun w => Z.ldiff w (tab_mask (vc_x s)))) |].
    destruct (_ =? 3); [| by apply sim_ret]. apply sim_ret; [vc_ok | done]. }
  destruct (c =? 109); [by apply quiet_sim; [apply csi_m_quiet |] |].
  destruct (Z.eqb_spec c 114); [done |].
  destruct (c =? 115); [by apply quiet_sim |].
  destruct (c =? 117); [by apply fine_sim; [apply restore_cur_fine |] |].
  destruct (c =? 64); [by apply csi_at_sim |].
  destruct (c =? 93); [by apply quiet_sim; [apply setterm_quiet |] | by apply sim_ret].
Qed.

Lemma con_gotpars_sim c s : con_ok v s -> sim (con_gotpars v c s) (con_gotpars (soft v) c (plain v s)).
Proof using Hv.
  intros Hs. unfold con_gotpars. cbv zeta.
  assert (fine (fun s => s <| vc_state := ESnormal |>) (fun s => s <| vc_state := ESnormal |>)) as H0 by by apply quiet_fine.
  destruct (H0 s Hs) as [H1 ->]. generalize dependent (s <| vc_state := ESnormal |>). clear s Hs H0. intros s Hs.
  destruct (c =? 104); [by apply set_mode_sim |]. destruct (c =? 108); [by apply set_mode_sim |].
  rewrite plain_ques, !plain_get. destruct (c =? 110).
  { destruct (vc_ques s); [by apply sim_ret |]. destruct (_ =? 5); [by apply quiet_sim |].
    destruct (_ =? 6); [by apply quiet_sim | by apply sim_ret]. }
  destruct (vc_ques s); [quietly (fun s => s <| vc_ques := false |>) |].
  pose proof (csi_move_both c s Hs) as Hm. unfold both in Hm.
  destruct (csi_move v c s), (csi_move (soft v) c (plain v s)); try done.
  - destruct Hm as [? ->]. by apply sim_ret.
  - by apply csi_edit_sim.
Qed.

Lemma con_getpars_sim c s : con_ok v s -> sim (con_getpars v c s) (con_getpars (soft v) c (plain v s)).
Proof using Hv.
  intros Hs. unfold con_getpars. rewrite plain_npar, plain_get.
  assert (quiet (fun s => s <| vc_state := ESgotpars |>) (fun s => s <| vc_state := ESgotpars |>)) as Hst by done.
  apply quiet_fine in Hst. destruct (Hst s Hs) as [Hg ->].
  destruct ((c =? 59) && (vc_npar s <? NPAR - 1)) eqn:E.
  - apply andb_prop in E as [_ E]. apply Z.ltb_lt in E. apply sim_ret; [vc_ok | done].
  - destruct ((48 <=? c) && (c <=? 57)); [| by apply con_gotpars_sim].
    apply (fine_sim _ _ s (set_par_fine (vc_npar s) _ (proj1 (Z.mod_pos_bound _ (2 ^ 32) eq_refl))) Hs).
Qed.

Lemma con_square_sim c s : con_ok v s -> sim (con_square v c s) (con_square (soft v) c (plain v s)).
Proof using Hv.
  intros Hs.
  assert (fine (fun s => s <| vc_par := replicate 16 0 |> <| vc_npar := 0 |> <| vc_state := ESgetpars |>)
    (fun s => s <| vc_par := replicate 16 0 |> <| vc_npar := 0 |> <| vc_state := ESgetpars |>)) as H0.
  { intros s1 Hs1. split; [| done]. vc_ok. split; [done |]. by apply Forall_replicate. }
  unfold con_square. cbv zeta. destruct (H0 s Hs) as [H1 ->]. generalize dependent (s <| vc_par := replicate 16 0 |> <| vc_npar := 0 |> <| vc_state := ESgetpars |>).
  clear s Hs H0. intros s Hs.
  destruct (c =? 91); [quietly (fun s => s <| vc_state := ESfunckey |>) |].
  assert (quiet (fun s => s <| vc_ques := (c =? 63) |>) (fun s => s <| vc_ques := (c =? 63) |>)) as Hq by done.
  apply quiet_fine in Hq. destruct (Hq s Hs) as [Hg ->]. rewrite plain_ques.
  destruct (vc_ques _); [by apply sim_ret | by apply con_getpars_sim].
Qed.

(** ** Characters *)

Lemma put_word_sim w s :
  con_ok v s ->
  sim (with_mem (lput (idx s (vc_pos s)) w (vmem s)) s)
    (with_mem (lput (idx (plain v s) (vc_pos (plain v s))) w (vmem (plain v s))) (plain v s)).
Proof using Hv.
  intros Hs. rewrite idx_pos, idx_pos_plain, plain_vmem by done.
  destruct (first_word_spec s Hs) as (? & ? & ? & ? & ?). destruct (at_word_bounds s Hs).
  pose proof (co_x _ _ (co_core _ _ Hs)) as Hx. fold cols in Hx. apply sim_mem; [done |]. unfold screen, at_word.
  apply lput_win; lia.
Qed.

Lemma next_column s :
  con_ok v s -> (vc_x s =? cols - 1) = false ->
  let f s := s <| vc_x ::= fun x => x + 1 |> <| vc_pos ::= fun p => p + 2 |> in
  con_ok v (f s) /\ f (plain v s) = plain v (f s).
Proof using Type.
  intros Hs E f. apply Z.eqb_neq in E. unfold cols in E. split; [unfold f; clear f; vc_ok |].
  apply vc_eq; [done | unfold f; vc_cbn; lia | done].
Qed.

Lemma con_print_sim c s : con_ok v s -> sim (con_print v c s) (con_print (soft v) c (plain v s)).
Proof using Hv.
  intros Hs. unfold con_print. eapply sim_bind.
  { rewrite plain_need_wrap. destruct (vc_need_wrap s); [| by apply sim_ret].
    destruct (cr_sim s Hs) as [Hc ->]. by apply lf_sim. }
  clear s Hs. intros s Hs. eapply sim_bind.
  { rewrite plain_decim. destruct (vc_decim s); [by apply insert_char_sim | by apply sim_ret]. }
  clear s Hs. intros s Hs. eapply sim_bind; [rewrite plain_attr; by apply put_word_sim |].
  clear s Hs. intros s Hs. rewrite plain_x, soft_columns. fold cols. destruct (vc_x s =? cols - 1) eqn:E.
  - rewrite plain_decawm.
    quietly (fun s0 => s0 <| vc_need_wrap := vc_decawm s |>).
  - destruct (next_column s Hs E) as [H1 E1]. by apply sim_ret.
Qed.

Definition agree (r r' : option (option vc)) : Prop :=
  match r, r' with Some r, Some r' => sim r r' | None, None => True | _, _ => False end.

Lemma con_control_agree c s : con_ok v s -> agree (con_control v c s) (con_control (soft v) c (plain v s)).
Proof using Hv.
  intros Hs. unfold con_control.
  destruct (c =? 7); [by apply quiet_sim |].
  destruct (c =? 8); [by apply (fine_sim _ _ s bs_sim) |].
  destruct (c =? 9); [by apply tab_sim |].
  destruct (_ || _).
  { eapply sim_bind; [by apply lf_sim |]. clear s Hs. intros s Hs.
    assert (is_kbd VC_CRLF (plain v s) = is_kbd VC_CRLF s) as -> by done.
    destruct (is_kbd _ _); [by apply (fine_sim _ _ s cr_sim) | by apply sim_ret]. }
  destruct (c =? 13); [by apply (fine_sim _ _ s cr_sim) |].
  destruct (c =? 14); [quietly (fun s => s <| vc_charset := true |> <| vc_translate := vc_G1_charset s |>) |].
  destruct (c =? 15); [quietly (fun s => s <| vc_charset := false |> <| vc_translate := vc_G0_charset s |>) |].
  destruct (_ || _); [quietly (fun s => s <| vc_state := ESnormal |>) |].
  destruct (c =? 27); [quietly (fun s => s <| vc_state := ESesc |>) |].
  destruct (c =? 127); [by apply sim_ret |].
  destruct (c =? 128 + 27); [| done].
  quietly (fun s => s <| vc_state := ESsquare |>).
Qed.

Lemma con_esc_sim c s : con_ok v s -> sim (con_esc v c s) (con_esc (soft v) c (plain v s)).
Proof using Hv.
  intros Hs. unfold con_esc. cbv zeta.
  assert (fine (fun s => s <| vc_state := ESnormal |>) (fun s => s <| vc_state := ESnormal |>)) as H0 by by apply quiet_fine.
  destruct (H0 s Hs) as [H1 ->]. generalize dependent (s <| vc_state := ESnormal |>). clear s Hs H0. intros s Hs.
  destruct (c =? 91); [quietly (fun s => s <| vc_state := ESsquare |>) |].
  destruct (c =? 69); [destruct (cr_sim s Hs) as [Hc ->]; by apply lf_sim |].
  destruct (c =? 77); [by apply ri_sim |].
  destruct (c =? 68); [by apply lf_sim |].
  destruct (c =? 72); [by apply (set_tab_sim (fun w => Z.lor w (tab_mask (vc_x s)))) |].
  destruct (c =? 90); [by apply quiet_sim |].
  destruct (c =? 55); [by apply quiet_sim |].
  destruct (c =? 56); [by apply fine_sim; [apply restore_cur_fine |] |].
  destruct (c =? 40); [quietly (fun s => s <| vc_state := ESsetG0 |>) |].
  destruct (c =? 41); [quietly (fun s => s <| vc_state := ESsetG1 |>) |].
  destruct (c =? 35); [quietly (fun s => s <| vc_state := EShash |>) |].
  destruct (c =? 99); [by apply reset_terminal_sim |].
  destruct (c =? 62); [by apply quiet_sim |].
  destruct (c =? 61); [by apply quiet_sim | by apply sim_ret].
Qed.

Lemma setG0_quiet c :
  quiet (fun s => let s := s <| vc_G0_charset ::= select_map c |> in
                  let s := if vc_charset s then s else s <| vc_translate := vc_G0_charset s |> in
                  s <| vc_state := ESnormal |>)
    (fun s => let s := s <| vc_G0_charset ::= select_map c |> in
              let s := if vc_charset s then s else s <| vc_translate := vc_G0_charset s |> in
              s <| vc_state := ESnormal |>).
Proof using Type.
  apply (quiet_comp (fun s => s <| vc_G0_charset ::= select_map c |>) (fun s => s <| vc_G0_charset ::= select_map c |>)
    (fun s => (if vc_charset s then s else s <| vc_translate := vc_G0_charset s |>) <| vc_state := ESnormal |>)
    (fun s => (if vc_charset s then s else s <| vc_translate := vc_G0_charset s |>) <| vc_state := ESnormal |>)); [done |].
  intros s. rewrite plain_charset. by destruct (vc_charset s).
Qed.

Lemma setG1_quiet c :
  quiet (fun s => let s := s <| vc_G1_charset ::= select_map c |> in
                  let s := if vc_charset s then s <| vc_translate := vc_G1_charset s |> else s in
                  s <| vc_state := ESnormal |>)
    (fun s => let s := s <| vc_G1_charset ::= select_map c |> in
              let s := if vc_charset s then s <| vc_translate := vc_G1_charset s |> else s in
              s <| vc_state := ESnormal |>).
Proof using Type.
  apply (quiet_comp (fun s => s <| vc_G1_charset ::= select_map c |>) (fun s => s <| vc_G1_charset ::= select_map c |>)
    (fun s => (if vc_charset s then s <| vc_translate := vc_G1_charset s |> else s) <| vc_state := ESnormal |>)
    (fun s => (if vc_charset s then s <| vc_translate := vc_G1_charset s |> else s) <| vc_state := ESnormal |>)); [done |].
  intros s. rewrite plain_charset. by destruct (vc_charset s).
Qed.

Lemma con_hash_sim c s :
  con_ok v s ->
  let hash w s :=
    let s := s <| vc_state := ESnormal |> in
    if c =? 56 then
      s ← csi_J w 2 (s <| vc_video_erase_char ::= fun e => Z.lor (Z.land e 0xff00) 69 |>);
      Some (s <| vc_video_erase_char ::= fun e => Z.lor (Z.land e 0xff00) 32 |>)
    else Some s in
  sim (hash v s) (hash (soft v) (plain v s)).
Proof using Hv.
  intros Hs. cbv zeta. destruct (c =? 56); [| quietly (fun s => s <| vc_state := ESnormal |>)].
  set (E s := s <| vc_state := ESnormal |> <| vc_video_erase_char ::= fun e => Z.lor (Z.land e 0xff00) 69 |>).
  apply sim_then; [| by apply quiet_fine]. assert (quiet E E) as HE by done. apply quiet_fine in HE.
  apply (fine_then E E (csi_J v 2) (csi_J (soft v) 2) s HE); [| done]. intros s1. apply csi_J_sim.
Qed.

Lemma con_char_sim c s : con_ok v s -> sim (con_char v c s) (con_char (soft v) c (plain v s)).
Proof using Hv.
  intros Hs. unfold con_char. rewrite plain_translate, plain_state.
  assert (forall m, trans_table (plain v s) m = trans_table s m) as -> by done.
  set (t := znth 0 _ c). clearbody t. cbv zeta.
  destruct (bool_decide _ && _); [by apply con_print_sim |].
  pose proof (con_control_agree c s Hs) as Ha. unfold agree in Ha.
  destruct (con_control v c s), (con_control (soft v) c (plain v s)); try done. clear Ha.
  destruct (vc_state s).
  - quietly (fun s => s <| vc_state := ESnormal |>).
  - by apply con_esc_sim.
  - by apply con_square_sim.
  - by apply con_getpars_sim.
  - by apply con_gotpars_sim.
  - quietly (fun s => s <| vc_state := ESnormal |>).
  - by apply con_hash_sim.
  - apply (quiet_sim _ _ s (setG0_quiet c) Hs).
  - apply (quiet_sim _ _ s (setG1_quiet c) Hs).
  - quietly (fun s => s <| vc_state := ESnormal |>).
Qed.

Lemma con_chars_sim l : forall s, con_ok v s -> sim (con_chars v l s) (con_chars (soft v) l (plain v s)).
Proof using Hv.
  induction l as [| c l IH]; intros s Hs; cbn [con_chars]; [by apply sim_ret |].
  eapply sim_bind; [by apply con_char_sim | exact IH].
Qed.

Lemma con_write_sim l s : con_ok v s -> sim (con_write v l s) (con_write (soft v) l (plain v s)).
Proof using Hv. intros Hs. apply sim_then; [by apply con_chars_sim | apply set_cursor_fine]. Qed.

Lemma console_chars_sim l : forall s, con_ok v s -> sim (console_chars v l s) (console_chars (soft v) l (plain v s)).
Proof using Hv.
  induction l as [| c l IH]; intros s Hs; cbn [console_chars]; [by apply sim_ret |].
  destruct (c =? 0); [by apply sim_ret |]. rewrite plain_need_wrap. eapply sim_bind.
  { destruct (_ || _); [| by apply sim_ret]. apply sim_then; [| exact cr_sim].
    destruct (c =? 13); [by apply sim_ret | by apply lf_sim]. }
  clear s Hs. intros s Hs. destruct (_ || _); [by apply IH |].
  eapply sim_bind; [rewrite plain_attr; by apply put_word_sim |]. clear s Hs. intros s Hs.
  rewrite plain_x, soft_columns. fold cols. destruct (vc_x s =? cols - 1) eqn:E.
  - assert (quiet (fun s => s <| vc_need_wrap := true |>) (fun s => s <| vc_need_wrap := true |>)) as H0 by done.
    apply quiet_fine in H0. destruct (H0 s Hs) as [H1 ->]. by apply IH.
  - destruct (next_column s Hs E) as [H1 ->]. by apply IH.
Qed.

Lemma console_print_sim l s : con_ok v s -> sim (console_print v l s) (console_print (soft v) l (plain v s)).
Proof using Hv. intros Hs. apply sim_then; [by apply console_chars_sim | apply set_cursor_fine]. Qed.

(** ** The cursor of the display *)

Lemma set_cursor_reg s :
  visible s = true ->
  cursor_reg (set_cursor v s) =
    if vc_deccm s then u16 ((vc_pos s - video_mem_base v) / 2) else u16 ((video_mem_term v - video_mem_base v) / 2).
Proof using Type.
  intros Hvis.
  assert (forall s1 : vc, vc_deccm s1 = vc_deccm s -> vc_pos s1 = vc_pos s ->
    cursor_reg (if vc_deccm s1 then s1 <| cursor_reg := u16 ((vc_pos s1 - video_mem_base v) / 2) |> else hide_cursor v s1) =
    if vc_deccm s then u16 ((vc_pos s - video_mem_base v) / 2) else u16 ((video_mem_term v - video_mem_base v) / 2)) as H.
  { intros s1 -> ->. by destruct (vc_deccm s). }
  unfold set_cursor. rewrite Hvis. destruct (_ && _); [| by apply H].
  unfold set_origin. rewrite Hvis. destruct (_ && _); by apply H.
Qed.

Lemma set_cursor_keeps s :
  visible (set_cursor v s) = visible s /\ vc_deccm (set_cursor v s) = vc_deccm s /\ vc_pos (set_cursor v s) = vc_pos s.
Proof using Type.
  unfold set_cursor. destruct (visible s) eqn:E; [| by rewrite E]. unfold set_origin. rewrite E.
  destruct (negb _ && _); [destruct (_ && _) |]; rewrite <- E; unfold hide_cursor; destruct (vc_deccm _) eqn:E1;
    (split_and!; [done | | done]); by symmetry.
Qed.
End refinement.

(** ** Switching *)

Section switch.
Context (v : video) (Hv : display_ok v).

Lemma screen_words s : con_ok v s -> screen_size v / 2 = words v.
Proof using Hv.
  intros Hs. destruct (first_word_spec v Hv s Hs) as (_ & _ & _ & _ & ->). rewrite Z.mul_comm. by apply Z.div_mul.
Qed.

(** The screen that leaves the display. *)
Lemma get_scrmem_sim scrbuf s :
  con_ok v s ->
  exists s', get_scrmem v scrbuf s = Some s' /\ con_ok v (s' <| visible := false |>) /\
    plain v (s' <| visible := false |>) = plain v s.
Proof using Hv.
  intros Hs. destruct (first_word_spec v Hv s Hs) as (Ho & Eo & Hfit & Hw & Esz).
  unfold get_scrmem. cbv zeta. rewrite (screen_words s Hs).
  replace (idx s (vc_origin s)) with (first_word s) by (rewrite <- Z.add_0_r at 1; rewrite <- (idx_screen v Hv s 0 Hs); f_equal; lia).
  destruct (Z.leb_spec 0 (first_word s)), (Z.leb_spec (first_word s + words v) (Z.of_nat (length (vmem s)))); try lia.
  cbn [andb]. eexists. split; [done |].
  change (take _ (drop _ (vmem s))) with (screen v s).
  assert (Z.of_nat (length (screen v s)) = words v) as Hl by by apply screen_length.
  set (s' := s <| vmem := _ |> <| vc_video_mem_start := _ |> <| vc_origin := _ |> <| vc_scr_end := _ |>
               <| vc_video_mem_end := _ |> <| vc_pos := _ |> <| visible := _ |>).
  assert (screen v s' = screen v s) as Escr.
  { unfold s', screen at 1, first_word. clear - Hl Hw. cbn [upd vmem vc_origin vc_video_mem_start]. rewrite Z.sub_diag.
    unfold win. cbn [Z.div Z.to_nat drop]. apply take_ge. lia. }
  split.
  - unfold s'. clear s' Escr. generalize dependent (screen v s). intros m Hl. pose proof (co_core _ _ Hs) as [].
    constructor; [constructor |]; vc_cbn; try done; try lia. exists 0. lia.
  - unfold plain. rewrite Escr. apply vc_eq; [done | | done]. pose proof (co_pos _ _ (co_core _ _ Hs)) as Hp.
    unfold s'. clear - Hp. cbn [upd vc_pos vc_origin]. lia.
Qed.

(** And the one that comes, into the memory [mem] of the display. *)
Lemma set_scrmem_sim mem s :
  con_ok v s -> Z.of_nat (length (vmem s)) = words v -> words v <= Z.of_nat (length mem) ->
  video_mem_term v = video_mem_base v + 2 * Z.of_nat (length mem) ->
  exists s', set_scrmem v mem s = Some s' /\ con_core v (s' <| visible := true |>) /\
    plain v (s' <| visible := true |>) = plain v s.
Proof using Hv.
  intros Hs Hbuf Hmem Hterm. destruct (first_word_spec v Hv s Hs) as (Ho & Eo & Hfit & Hw & Esz).
  unfold set_scrmem. cbv zeta. rewrite (screen_words s Hs).
  destruct (Nat.leb_spec (Z.to_nat (words v)) (length mem)), (Nat.leb_spec (Z.to_nat (words v)) (length (vmem s))); try lia.
  cbn [andb]. eexists. split; [done |].
  set (m := take _ (vmem s) ++ _). assert (length m = length mem) as Hm.
  { unfold m. rewrite length_app, length_take, length_drop. lia. }
  assert (win 0 (words v) m = screen v s) as Em.
  { unfold screen. replace (first_word s) with 0 by lia. unfold win, m. rewrite !drop_0.
    rewrite take_app_le by (rewrite length_take; lia). by rewrite take_take, Nat.min_id. }
  clearbody m.
  set (s' := s <| vmem := _ |> <| vc_video_mem_start := _ |> <| vc_video_mem_end := _ |> <| vc_origin := _ |>
               <| vc_scr_end := _ |> <| vc_pos := _ |> <| visible := _ |>).
  assert (screen v s' = screen v s) as Escr.
  { rewrite <- Em. unfold s', screen, first_word. clear. vc_cbn. by rewrite Z.sub_diag. }
  split.
  - unfold s'. clear s' Escr. pose proof (co_core _ _ Hs) as [].
    constructor; vc_cbn; try done; try lia. exists 0. lia.
  - unfold plain. rewrite Escr. apply vc_eq; [done | | done]. pose proof (co_pos _ _ (co_core _ _ Hs)) as Hp.
    unfold s'. clear - Hp. cbn [upd vc_pos vc_origin]. lia.
Qed.

(** The display follows the console. *)
Lemma come_to_front s :
  con_core v s ->
  con_ok v (set_cursor v (set_origin v s)) /\ plain v (set_cursor v (set_origin v s)) = plain v s /\
  visible (set_cursor v (set_origin v s)) = visible s.
Proof using Type.
  intros Hs. assert (con_ok v (set_origin v s) /\ plain v (set_origin v s) = plain v s) as [Ho <-].
  { destruct (is_ega v) eqn:He; [by apply set_origin_ok |]. unfold set_origin. rewrite He.
    split; [| done]. constructor; [done |]. by rewrite He. }
  assert (visible (set_origin v s) = visible s) as <- by (unfold set_origin; by destruct (_ && _)).
  destruct (set_cursor_fine v _ Ho) as [H1 H2]. split_and!; [done | | apply set_cursor_keeps].
  by rewrite <- H2, cursor_soft.
Qed.
End switch.

(** * The theorems *)

(** C9: writing to a console refines writing to a terminal whose memory is just
    its screen and which copies all lines when it scrolls: with every sequence of
    characters no access leaves the memory of the console, the console stays
    sound (cursor on the screen, scrolling region part of it, parameters in
    their array), its screen and all its modes are those of that terminal, and
    the registers of the display controller show where screen and cursor are. *)
Theorem con_write_refines (v : video) (l : list Z) (s : vc) :
  display_ok v -> con_ok v s ->
  exists s', con_write v l s = Some s' /\ con_ok v s' /\
    con_write (soft v) l (plain v s) = Some (plain v s') /\
    (visible s' = true ->
     cursor_reg s' = u16 (((if vc_deccm s' then vc_pos s' else video_mem_term v) - video_mem_base v) / 2)).
Proof.
  intros Hv Hs. destruct (con_chars_sim v Hv l s Hs) as (s1 & E1 & H1 & E2).
  destruct (set_cursor_fine v s1 H1) as [H3 E3]. destruct (set_cursor_keeps v s1) as (Hvis & Hcm & Hpos).
  exists (set_cursor v s1). unfold con_write. rewrite E1, E2. cbn [mbind option_bind]. rewrite E3.
  split_and!; [done | done | done |]. intros Hv1. rewrite set_cursor_reg by (by rewrite <- Hvis).
  rewrite Hcm, Hpos. by destruct (vc_deccm s1).
Qed.


(** ** Examples: a screen of two lines of four columns over a memory of four lines *)

Definition tiny : video := mk_video 4 2 VIDEO_TYPE_EGAC 0 32 true.
Definition tiny_mem : list Z := [0x0761; 0x0762; 0x0763; 0x0764; 0x0765; 0x0766; 0x0767; 0x0768; 1; 2; 3; 4; 5; 6; 7; 8].
Definition tiny_con (mem : list Z) (vis : bool) (start : Z) : vc :=
  mk_vc mem 0 vis start (start + 2 * Z.of_nat (length mem)) start (start + 16) start 0 0 0 2 ESnormal 0 (replicate 16 0)
    false 0 0 0x0720 7 7 7 7 15 8 false false false false true true false 1 false false false 1 false false false false
    [0x01010100; 0x01010101; 0x01010101; 0x01010101; 0x01010101] NORM_TRANS NORM_TRANS GRAF_TRANS NORM_TRANS GRAF_TRANS
    0 0 0 0 user_trans0 0 0 0 0 empty_queue [].

Lemma tiny_ok : display_ok tiny.
Proof. split; cbn; [lia | by exists 2 | lia]. Qed.

Lemma tiny_con_ok mem vis start :
  (8 <= length mem)%nat -> (vis = true -> start = 0) -> con_ok tiny (tiny_con mem vis start).
Proof.
  intros Hm Hv. constructor; [constructor |]; unfold tiny_con; vc_cbn; cbn.
  - lia.
  - exists 0. lia.
  - done.
  - unfold screen_size. cbn. lia.
  - done.
  - done.
  - lia.
  - done.
  - done.
  - split; [done |]. by repeat constructor.
  - done.
  - intros ->. by rewrite Hv.
Qed.

(** Three lines, an inverse character and a line that is inserted: the memory
    is used up and the screen starts over. *)
Definition tiny_text : list Z :=
  [88; 13; 10; 89; 13; 10; 90; 13; 10; 27; 91; 55; 109; 65; 13; 27; 77; 10; 66; 67; 68; 69; 70].

Theorem con_write_refines_witness :
  display_ok tiny /\ con_ok tiny (tiny_con tiny_mem true 0) /\
  exists s', con_write tiny tiny_text (tiny_con tiny_mem true 0) = Some s' /\ con_ok tiny s' /\
    con_write (soft tiny) tiny_text (plain tiny (tiny_con tiny_mem true 0)) = Some (plain tiny s') /\
    (visible s' = true ->
     cursor_reg s' = u16 (((if vc_deccm s' then vc_pos s' else video_mem_term tiny) - video_mem_base tiny) / 2)).
Proof.
  split; [exact tiny_ok |]. split; [by apply tiny_con_ok; [cbn; lia |] |].
  apply con_write_refines; [exact tiny_ok | by apply tiny_con_ok; [cbn; lia |]].
Defined.

(** The result in numbers: where the screen is, its words, and the cursor; after
    three line feeds, and after all. *)
Example con_write_tiny :
  let show l := (fun s => (vc_origin s, real_origin s, screen tiny s, (vc_x s, vc_y s, cursor_reg s)))
    <$> con_write tiny l (tiny_con tiny_mem true 0) in
  show (take 9 tiny_text) = Some (16, 8, [0x075a; 0x0720; 0x0720; 0x0720; 0x0720; 0x0720; 0x0720; 0x0720], (0, 1, 12)) /\
  show tiny_text = Some (0, 0, [0x7042; 0x7043; 0x7044; 0x7045; 0x7046; 0x0720; 0x0720; 0x0720], (1, 1, 5)).
Proof. split; vm_compute; reflexivity. Qed.

