(* ===== verification/Tty.v ===== *)
(** The line discipline of terminals (drivers/char/tty_io.c, tty_ioctl.c): output
    processing, echo and line editing, signals from the keyboard, reading and
    writing.

    [tty_struct] is a terminal with the state around it: the kernel state that
    signals and waking change ([kern]), the processes that wait for its queues,
    and what it has told its driver ([tty_log]).  Pseudo terminals ([link]) and
    packet mode are not part of it, and the line discipline is N_TTY. *)

From S2P Require Import Prelude Errno Vsprintf Task Sched Signal Ttyq.

(** include/linux/termios.h:80-87 [struct termios] *)
Record termios := mk_termios {
  c_iflag : Z; c_oflag : Z; c_cflag : Z; c_lflag : Z; c_line : Z; c_cc : list Z;
}.
#[export] Instance eta_termios : Eta termios := fun t =>
  mk_termios (c_iflag t) (c_oflag t) (c_cflag t) (c_lflag t) (c_line t) (c_cc t).

(** include/linux/termios.h:79-79 [NCCS] *)
Definition NCCS := 19.
(** include/linux/termios.h:90-106 *)
Definition VINTR := 0.
Definition VQUIT := 1.
Definition VERASE := 2.
Definition VKILL := 3.
Definition VEOF := 4.
Definition VTIME := 5.
Definition VMIN := 6.
Definition VSTART := 8.
Definition VSTOP := 9.
Definition VSUSP := 10.
Definition VEOL := 11.
Definition VREPRINT := 12.
Definition VWERASE := 14.
Definition VLNEXT := 15.
Definition VEOL2 := 16.

(** include/linux/termios.h:109-120 input modes *)
Definition IGNBRK := 0x1.
Definition BRKINT := 0x2.
Definition IGNPAR := 0x4.
Definition PARMRK := 0x8.
Definition ISTRIP := 0x20.
Definition INLCR := 0x40.
Definition IGNCR := 0x80.
Definition ICRNL := 0x100.
Definition IUCLC := 0x200.
Definition IXON := 0x400.
Definition IXANY := 0x800.

(** include/linux/termios.h:125-130 output modes *)
Definition OPOST := 0x1.
Definition OLCUC := 0x2.
Definition ONLCR := 0x4.
Definition OCRNL := 0x8.
Definition ONOCR := 0x10.
Definition ONLRET := 0x20.
(** include/linux/termios.h:141-141 [TABDLY] *)
Definition TABDLY := 0x1800.
Definition XTABS := 0x1800.

(** include/linux/termios.h:192-206 local modes *)
Definition ISIG := 0x1.
Definition ICANON := 0x2.
Definition ECHO := 0x8.
Definition ECHOE := 0x10.
Definition ECHOK := 0x20.
Definition ECHONL := 0x40.
Definition NOFLSH := 0x80.
Definition TOSTOP := 0x100.
Definition ECHOCTL := 0x200.
Definition ECHOPRT := 0x400.
Definition ECHOKE := 0x800.
Definition IEXTEN := 0x8000.

(** include/linux/tty.h:54-54 [__DISABLED_CHAR] *)
Definition __DISABLED_CHAR := 0.
(** include/linux/tty.h:321-334 the kinds of [throttle], and the thresholds *)
Definition TTY_THROTTLE_SQ_FULL := 1.
Definition TTY_THROTTLE_SQ_AVAIL := 2.
Definition TTY_THROTTLE_RQ_AVAIL := 4.
Definition SQ_THRESHOLD_LW := 16.
Definition SQ_THRESHOLD_HW := 768.
Definition RQ_THRESHOLD_HW := 768.
(** include/linux/tty.h:345-350 bits of [flags] *)
Definition TTY_WRITE_BUSY := 0.
Definition TTY_READ_BUSY := 1.
Definition TTY_SQ_THROTTLED := 2.
Definition TTY_RQ_THROTTLED := 3.
Definition TTY_SLAVE_CLOSED := 5.
(** include/linux/tty.h:358-361 errors in the read queue *)
Definition TTY_BREAK := 1.
Definition TTY_OVERRUN := 4.

(** What the terminal tells its driver. *)
Inductive tty_event := Throttle (status : Z) | DriverStop | DriverStart | ScrollLed (on : bool).

(** include/linux/tty.h:244-282 [struct tty_struct]; [sent]: the bytes the driver
    has taken *)
Record tty_struct := mk_tty {
  tio : termios; tty_pgrp : Z; tty_line : Z; tty_flags : Z;
  stopped : bool; lnext : bool; char_error : Z; erasing : bool;
  column : Z; canon_data : Z; canon_head : Z; canon_column : Z;
  readq_flags : gset Z; secondary_flags : gset Z;
  tread_q : tty_queue; write_q : tty_queue; secondary : tty_queue;
  read_wait : wait_queue; write_wait : wait_queue; kern : kstate; tty_log : list tty_event; sent : list Z;
}.
#[export] Instance eta_tty : Eta tty_struct := fun t =>
  mk_tty (tio t) (tty_pgrp t) (tty_line t) (tty_flags t) (stopped t) (lnext t) (char_error t) (erasing t)
    (column t) (canon_data t) (canon_head t) (canon_column t) (readq_flags t) (secondary_flags t)
    (tread_q t) (write_q t) (secondary t) (read_wait t) (write_wait t) (kern t) (tty_log t) (sent t).

(** include/linux/tty.h:145-206 the control characters and the modes *)
Definition cc (i : Z) (t : tty_struct) : Z := znth 0 (c_cc (tio t)) i.
Definition I_ (m : Z) (t : tty_struct) : bool := flag (c_iflag (tio t)) m.
Definition O_ (m : Z) (t : tty_struct) : bool := flag (c_oflag (tio t)) m.
Definition L_ (m : Z) (t : tty_struct) : bool := flag (c_lflag (tio t)) m.

(** include/linux/tty.h:127-127 [IS_A_CONSOLE] *)
Definition IS_A_CONSOLE (min : Z) : bool := Z.land min 0xC0 =? 0.

(** include/linux/ctype.h:19-33 over [_ctmp], which is a signed char; what lies
    before the table is read as 0 *)
Definition toupper_char (c : Z) : Z := toupper (swrap 8 c).
(** include/linux/ctype.h:31-31 [tolower] *)
Definition tolower_char (c : Z) : Z := tolower (swrap 8 c).
(** include/linux/ctype.h:18-18 [iscntrl] *)
Definition iscntrl (c : Z) : bool := ctype_is _C c.
(** include/linux/ctype.h:16-16 [isalnum] *)
Definition isalnum (c : Z) : bool := ctype_is (Z.lor (Z.lor _U _L) _D) c.

Definition emit_tty (e : tty_event) (t : tty_struct) : tty_struct := t <| tty_log ::= cons e |>.
Definition put_write (c : Z) (t : tty_struct) : tty_struct := t <| write_q ::= put_tty_queue (u8 c) |>.
Definition put_secondary (c : Z) (t : tty_struct) : tty_struct := t <| secondary ::= put_tty_queue (u8 c) |>.

(** ** The driver

    What a driver promises to the line discipline: [write] takes some bytes from
    the front of the write queue, as many as it has room for. *)
Class TtyDriver := {
  drv_room : tty_struct -> nat;
  drv_throttles : bool;
}.

Fixpoint drv_take (n : nat) (t : tty_struct) : tty_struct :=
  match n with
  | O => t
  | S n =>
      if EMPTY (write_q t) then t
      else let '(c, q) := get_tty_queue (write_q t) in
           drv_take n (t <| write_q := q |> <| sent ::= fun l => l ++ [c] |>)
  end.

(** drivers/char/console.c:999-1005 the loop of [con_write]: the console takes
    everything unless it is stopped *)
Instance console_driver : TtyDriver := {|
  drv_room := fun t => if stopped t then O else Z.to_nat (CHARS (write_q t));
  drv_throttles := false;
|}.

Section tty.
Context `{TtyDriver}.

(** drivers/char/tty_io.c:166-175 [tty_write_flush] *)
Definition tty_write_flush (t : tty_struct) : tty_struct :=
  if EMPTY (write_q t) then t
  else if Z.testbit (tty_flags t) TTY_WRITE_BUSY then t
  else drv_take (drv_room t) t.

(** drivers/char/tty_io.c:511-527 [stop_tty] *)
Definition stop_tty (t : tty_struct) : tty_struct :=
  if stopped t then t
  else
    let t := emit_tty DriverStop (t <| stopped := true |>) in
    if IS_A_CONSOLE (tty_line t) then emit_tty (ScrollLed true) t else t.

(** drivers/char/tty_io.c:529-546 [start_tty] *)
Definition start_tty (t : tty_struct) : tty_struct :=
  if negb (stopped t) then t
  else
    let t := emit_tty DriverStart (t <| stopped := false |>) in
    let t := tty_write_flush t in
    if IS_A_CONSOLE (tty_line t) then emit_tty (ScrollLed false) t else t.

(** ** Output *)

(** drivers/char/tty_io.c:584-587 the spaces of a tab *)
Fixpoint opost_tab (fuel : nat) (t : tty_struct) : tty_struct :=
  match fuel with
  | O => t
  | S fuel =>
      let t := put_write 32 t <| column ::= fun c => u32 (c + 1) |> in
      if ctrue (column t mod 8) then opost_tab fuel t else t
  end.

(** drivers/char/tty_io.c:551-604 [opost] *)
Definition opost (c : Z) (t : tty_struct) : Z * tty_struct :=
  let put c t := (0, put_write c t) in
  if FULL (write_q t) then (-1, t)
  else if negb (O_ OPOST t) then put c t
  else if c =? 10 then
    let t := if O_ ONLRET t then t <| column := 0 |> else t in
    if O_ ONLCR t then
      if LEFT (write_q t) <? 2 then (-1, t)
      else
        let t := put_write 13 t <| column := 0 |> in
        put c (t <| canon_column := column t |>)
    else put c (t <| canon_column := column t |>)
  else if c =? 13 then
    if O_ ONOCR t && (column t =? 0) then (0, t)
    else if O_ OCRNL t then
      put 10 (if O_ ONLRET t then t <| canon_column := 0 |> <| column := 0 |> else t)
    else put c (t <| canon_column := 0 |> <| column := 0 |>)
  else if c =? 9 then
    if Z.land (c_oflag (tio t)) TABDLY =? XTABS then
      if LEFT (write_q t) <? 8 then (-1, t) else (0, opost_tab 8 t)
    else put c (t <| column ::= fun x => u32 (Z.lor x 7 + 1) |>)
  else if c =? 8 then
    put c (if 0 <? column t then t <| column ::= fun x => x - 1 |> else t)
  else
    let c := if O_ OLCUC t then u8 (toupper_char c) else c in
    put c (if iscntrl c then t else t <| column ::= fun x => u32 (x + 1) |>).

Definition out (c : Z) (t : tty_struct) : tty_struct := (opost (u8 c) t).2.

(** drivers/char/tty_io.c:608-615 [echo_char] *)
Definition echo_char (c : Z) (t : tty_struct) : tty_struct :=
  let c := u8 c in
  if L_ ECHOCTL t && iscntrl c && negb (c =? 9) then out (Z.lxor c 64) (out 94 t) else out c t.

(** The characters that are erased end. *)
Definition end_erasing (t : tty_struct) : tty_struct :=
  if erasing t then out 47 t <| erasing := false |> else t.

(** drivers/char/tty_io.c:673-685 the column of the end of the line *)
Fixpoint line_column (fuel : nat) (tail col : Z) (t : tty_struct) : Z :=
  match fuel with
  | O => col
  | S fuel =>
      if tail =? head (secondary t) then col
      else
        let c := znth 0 (buf (secondary t)) tail in
        let col := if c =? 9 then u32 (Z.lor col 7 + 1)
          else if iscntrl c then (if L_ ECHOCTL t then u32 (col + 2) else col)
          else u32 (col + 1) in
        line_column fuel (INC tail) col t
  end.

(** drivers/char/tty_io.c:687-692 back to a column *)
Fixpoint back_up (n : nat) (t : tty_struct) : tty_struct :=
  match n with
  | O => t
  | S n => back_up n (put_write 8 t <| column ::= fun c => c - 1 |>)
  end.

(** drivers/char/tty_io.c:658-705 the echo of a character [c] that is erased *)
Definition erase_echo (c : Z) (t : tty_struct) : tty_struct :=
  if negb (L_ ECHO t) then t
  else if L_ ECHOPRT t then
    let t := if erasing t then t else out 92 t <| erasing := true |> in
    echo_char c t
  else if negb (L_ ECHOE t) then echo_char (cc VERASE t) t
  else if c =? 9 then
    let col := line_column 1024 (canon_head t) (canon_column t) t in
    back_up (Z.to_nat (column t - col)) t
  else
    let t := if iscntrl c && L_ ECHOCTL t then out 8 (out 32 (out 8 t)) else t in
    if negb (iscntrl c) || L_ ECHOCTL t then out 8 (out 32 (out 8 t)) else t.

Inductive kill_type := ERASE | WERASE | KILL.
#[export] Instance kill_type_dec : EqDecision kill_type.
Proof. solve_decision. Defined.

(** drivers/char/tty_io.c:648-708 the loop of [eraser] *)
Fixpoint erase_loop (fuel : nat) (kt : kill_type) (seen_alnums : bool) (t : tty_struct) : tty_struct :=
  match fuel with
  | O => t
  | S fuel =>
      if head (secondary t) =? canon_head t then t
      else
        let c := LAST (secondary t) in
        let word := isalnum c || (c =? 95) in
        if bool_decide (kt = WERASE) && negb word && seen_alnums then t
        else
          let t := erase_echo c (t <| secondary ::= fun q => q <| head ::= DEC |> |>) in
          if bool_decide (kt = ERASE) then t
          else erase_loop fuel kt (seen_alnums || (bool_decide (kt = WERASE) && word)) t
  end.

(** drivers/char/tty_io.c:617-713 [eraser] *)
Definition eraser (c : Z) (t : tty_struct) : tty_struct :=
  let go kt :=
    let t := erase_loop 1024 kt false t in
    if erasing t && (head (secondary t) =? canon_head t) then out 47 t <| erasing := false |> else t in
  if head (secondary t) =? canon_head t then t
  else if c =? cc VERASE t then go ERASE
  else if c =? cc VWERASE t then go WERASE
  else if negb (L_ ECHO t) then t <| secondary ::= fun q => q <| head := canon_head t |> |>
  else if negb (L_ ECHOK t) || negb (L_ ECHOKE t) then
    let t := t <| secondary ::= fun q => q <| head := canon_head t |> |> in
    let t := end_erasing t in
    let t := echo_char (cc VKILL t) t in
    if L_ ECHOK t then out 10 t else t
  else go KILL.

(** ** Input *)

(** drivers/char/tty_ioctl.c:45-63 [flush_input] *)
Definition flush_input (t : tty_struct) : tty_struct :=
  t <| tread_q ::= fun q => q <| head := 0 |> <| tail := 0 |> |>
    <| secondary ::= fun q => q <| head := 0 |> <| tail := 0 |> |>
    <| canon_head := 0 |> <| canon_data := 0 |> <| erasing := false |>
    <| readq_flags := ∅ |> <| secondary_flags := ∅ |>.

(** drivers/char/tty_ioctl.c:65-83 [flush_output] *)
Definition flush_output (t : tty_struct) : tty_struct :=
  t <| write_q ::= fun q => q <| head := 0 |> <| tail := 0 |> |>
    <| kern ::= wake_up_interruptible (write_wait t) |>.

(** drivers/char/tty_io.c:715-722 [isig] *)
Definition isig (sig : Z) (t : tty_struct) : tty_struct :=
  let t := t <| kern ::= fun s => (kill_pg (tty_pgrp t) sig 1 s).2 |> in
  if L_ NOFLSH t then t else flush_output (flush_input t).

(** drivers/char/tty_io.c:768-799 a character [c] after an error, [None]: the
    previous one was not an error *)
Definition cook_error (c : Z) (t : tty_struct) : option tty_struct :=
  if char_error t =? 0 then None
  else
    let err := char_error t in
    let t := t <| char_error := 0 |> in
    if err =? TTY_BREAK then
      Some (if I_ IGNBRK t then t
            else if I_ BRKINT t then t
            else put_secondary 0 (if I_ PARMRK t then put_secondary 0 (put_secondary 255 t) else t))
    else if err =? TTY_OVERRUN then Some t
    else if I_ IGNPAR t then Some t
    else if I_ PARMRK t then Some (put_secondary c (put_secondary 0 (put_secondary 255 t)))
    else Some (put_secondary 0 t).

(** drivers/char/tty_io.c:800-811 the character that counts, [None]: it is
    ignored *)
Definition cook_map (c : Z) (t : tty_struct) : option (Z * tty_struct) :=
  let c := if I_ ISTRIP t then Z.land c 0x7f else c in
  let c' :=
    if lnext t then Some c
    else if c =? 13 then
      if I_ IGNCR t then None else Some (if I_ ICRNL t then 10 else c)
    else Some (if (c =? 10) && I_ INLCR t then 13 else c) in
  match c' with
  | None => None
  | Some c =>
      let c := if I_ IUCLC t && L_ IEXTEN t then tolower_char c else c in
      Some (c, if c =? __DISABLED_CHAR then t <| lnext := true |> else t)
  end.

(** drivers/char/tty_io.c:833-849 the line is shown again *)
Fixpoint reprint_loop (fuel : nat) (tail : Z) (t : tty_struct) : tty_struct :=
  match fuel with
  | O => t
  | S fuel =>
      if tail =? head (secondary t) then t
      else reprint_loop fuel (INC tail) (echo_char (znth 0 (buf (secondary t)) tail) t)
  end.

(** drivers/char/tty_io.c:812-850 editing, [None]: another character *)
Definition cook_edit (c : Z) (t : tty_struct) : option tty_struct :=
  if negb (L_ ICANON t) || lnext t then None
  else if (c =? cc VERASE t) || (c =? cc VKILL t) || ((c =? cc VWERASE t) && L_ IEXTEN t) then
    Some (eraser c t)
  else if (c =? cc VLNEXT t) && L_ IEXTEN t then
    let t := t <| lnext := true |> in
    Some (if L_ ECHO t then
            let t := end_erasing t in
            if L_ ECHOCTL t then out 8 (out 94 t) else t
          else t)
  else if (c =? cc VREPRINT t) && L_ ECHO t && L_ IEXTEN t then
    let t := out 10 (echo_char c (end_erasing t)) in
    Some (reprint_loop 1024 (canon_head t) t)
  else None.

(** drivers/char/tty_io.c:851-861 flow control, [None]: another character *)
Definition cook_flow (c : Z) (t : tty_struct) : option tty_struct :=
  if negb (I_ IXON t) || lnext t then None
  else if (stopped t && I_ IXANY t && L_ IEXTEN t) || (c =? cc VSTART t) then Some (start_tty t)
  else if c =? cc VSTOP t then Some (stop_tty t)
  else None.

(** drivers/char/tty_io.c:862-876 signals, [None]: another character *)
Definition cook_signal (c : Z) (t : tty_struct) : option tty_struct :=
  if negb (L_ ISIG t) || lnext t then None
  else if c =? cc VINTR t then Some (isig SIGINT t)
  else if c =? cc VQUIT t then Some (isig SIGQUIT t)
  else if c =? cc VSUSP t then
    Some (if is_orphaned_pgrp (tty_pgrp t) (kern t) then t else isig SIGTSTP t)
  else None.

(** drivers/char/tty_io.c:878-896 the echo of a character *)
Definition cook_echo (c : Z) (t : tty_struct) : tty_struct :=
  let t := end_erasing t in
  if (c =? 10) && negb (lnext t) then
    if L_ ECHO t || (L_ ICANON t && L_ ECHONL t) then out 10 t else t
  else if L_ ECHO t then
    if negb (c =? cc VEOF t) || negb (L_ ICANON t) || lnext t then
      let t := if canon_head t =? head (secondary t) then t <| canon_column := column t |> else t in
      echo_char c t
    else t
  else t.

(** drivers/char/tty_io.c:902-904 the characters that end a line *)
Definition ends_line (c : Z) (t : tty_struct) : bool :=
  (c =? 10) || (c =? cc VEOF t) || (c =? cc VEOL t) || ((c =? cc VEOL2 t) && L_ IEXTEN t).

(** drivers/char/tty_io.c:898-912 the character is stored *)
Definition cook_store (c : Z) (t : tty_struct) : tty_struct :=
  let t :=
    if I_ PARMRK t && (c =? 255) && (negb (c =? cc VEOF t) || negb (L_ ICANON t) || lnext t)
    then put_secondary c t else t in
  let t :=
    if L_ ICANON t && negb (lnext t) && ends_line c t then
      let c := if c =? cc VEOF t then __DISABLED_CHAR else c in
      let t := put_secondary c (t <| secondary_flags ::= fun f => {[ head (secondary t) ]} ∪ f |>) in
      t <| canon_head := head (secondary t) |> <| canon_data ::= fun n => s32 (n + 1) |>
    else put_secondary c t in
  t <| lnext := false |>.

(** drivers/char/tty_io.c:764-912 one character of the read queue *)
Definition cook_char (c : Z) (special : bool) (t : tty_struct) : tty_struct :=
  if special then t <| char_error := Z.land c 7 |>
  else match cook_error c t with
  | Some t => t
  | None =>
  match cook_map c t with
  | None => t
  | Some (c, t) =>
      match cook_edit c t with
      | Some t => t
      | None =>
      match cook_flow c t with
      | Some t => t
      | None =>
      match cook_signal c t with
      | Some t => t
      | None => cook_store c (cook_echo c t)
      end end end
  end end.

(** drivers/char/tty_io.c:737-763 the head of the loop *)
Fixpoint cook_loop (fuel : nat) (t : tty_struct) : option tty_struct :=
  match fuel with
  | O => None
  | S fuel =>
      let left := LEFT (secondary t) in
      let t :=
        if drv_throttles && (left <? SQ_THRESHOLD_LW) && negb (Z.testbit (tty_flags t) TTY_SQ_THROTTLED) then
          emit_tty (Throttle TTY_THROTTLE_SQ_FULL) (t <| tty_flags ::= fun f => Z.setbit f TTY_SQ_THROTTLED |>)
        else t in
      if left =? 0 then Some t
      else if EMPTY (tread_q t) then Some t
      else
        let i := tail (tread_q t) in
        let c := znth 0 (buf (tread_q t)) i in
        let special := bool_decide (i ∈ readq_flags t) in
        let t := t <| readq_flags ::= fun f => f ∖ {[ i ]} |> <| tread_q ::= fun q => q <| tail ::= INC |> |> in
        cook_loop fuel (cook_char c special t)
  end.

(** drivers/char/tty_io.c:917-917 and 933-933: there is something to read *)
Definition has_input (t : tty_struct) : bool :=
  if L_ ICANON t then ctrue (canon_data t) else negb (EMPTY (secondary t)).

(** drivers/char/tty_io.c:724-922 [copy_to_cooked] *)
Definition copy_to_cooked (t : tty_struct) : option tty_struct :=
  t ← cook_loop (S (Z.to_nat (CHARS (tread_q t)))) t;
  let t := tty_write_flush t in
  let t := if has_input t then t <| kern ::= wake_up_interruptible (read_wait t) |> else t in
  Some (if drv_throttles && (RQ_THRESHOLD_HW <=? LEFT (tread_q t)) && Z.testbit (tty_flags t) TTY_RQ_THROTTLED then
          emit_tty (Throttle TTY_THROTTLE_RQ_AVAIL) (t <| tty_flags ::= fun f => Z.clearbit f TTY_RQ_THROTTLED |>)
        else t).

(** drivers/char/tty_io.c:177-186 [tty_read_flush] *)
Definition tty_read_flush (t : tty_struct) : option tty_struct :=
  if EMPTY (tread_q t) then Some t
  else if Z.testbit (tty_flags t) TTY_READ_BUSY then Some t
  else copy_to_cooked t.

(** drivers/char/tty_io.c:142-163 [tty_read_raw_data]; the bytes, and whether no
    error was met *)
Fixpoint raw_data_loop (buflen : nat) (t : tty_struct) : list Z * bool * tty_struct :=
  match buflen with
  | O => ([], true, t)
  | S n =>
      let i := tail (tread_q t) in
      if i =? head (tread_q t) then ([], true, t)
      else
        let bad := bool_decide (i ∈ readq_flags t) in
        let c := znth 0 (buf (tread_q t)) i in
        let t := t <| readq_flags ::= fun f => f ∖ {[ i ]} |> <| tread_q ::= fun q => q <| tail := mask (i + 1) |> |> in
        if bad then ([c], false, t)
        else let '(l, ok, t) := raw_data_loop n t in (c :: l, ok, t)
  end.
Definition tty_read_raw_data (buflen : Z) (t : tty_struct) : Z * list Z * tty_struct :=
  let '(l, ok, t) := raw_data_loop (Z.to_nat buflen) t in
  let result := Z.of_nat (length l) in
  (if ok then result else - result, l, t).

(** ** Reading *)

Definition with_cur (f : task_struct -> task_struct) (t : tty_struct) : tty_struct :=
  t <| kern ::= fun s => upd_tsk (current s) f s |>.
Definition cur_task (t : tty_struct) : task_struct := cur (kern t).

(** drivers/char/tty_io.c:924-928 [is_ignored] *)
Definition is_ignored (sig : Z) (s : kstate) : bool :=
  flag (blocked (cur s)) (sigmask sig) || (sa_handler (znth sa_default (sigactions (cur s)) (sig - 1)) =? SIG_IGN).

(** drivers/char/tty_io.c:930-944 [input_available_p] *)
Definition input_available_p (t : tty_struct) : option (bool * tty_struct) :=
  if has_input t then Some (true, t)
  else t ← tty_read_flush t; Some (has_input t, t).

(** drivers/char/tty_io.c:1034-1080 the loop that moves characters to the buffer
    of the reader, which has room for [nr]; the bytes, the room that is left *)
Fixpoint read_chunk (nr : nat) (t : tty_struct) : list Z * nat * tty_struct :=
  if EMPTY (secondary t) then ([], nr, t)
  else
    let i := tail (secondary t) in
    let eol := bool_decide (i ∈ secondary_flags t) in
    let c := znth 0 (buf (secondary t)) i in
    let skip t := t <| secondary ::= fun q => q <| tail ::= INC |> |> in
    let t' := t <| secondary_flags ::= fun f => f ∖ {[ i ]} |> in
    match nr with
    | O =>
        ([], O,
         if eol then
           if c =? __DISABLED_CHAR then skip (t' <| canon_data ::= fun n => s32 (n - 1) |>) else t
         else t')
    | S n =>
        let t' := skip t' in
        if eol then
          let t' := t' <| canon_data ::= fun n => Z.max 0 (s32 (n - 1)) |> in
          if c =? __DISABLED_CHAR then ([], S n, t') else ([c], n, t')
        else let '(l, nr, t') := read_chunk n t' in (c :: l, nr, t')
    end.

(** A read: over, with its result and the bytes that it has put into the
    buffer of the reader, or asleep with the bytes so far and the room left. *)
Inductive tty_read_step :=
| TtyReadDone (r : Z) (data : list Z) (t : tty_struct)
| TtyReadSleeps (minimum time : Z) (data : list Z) (nr : nat) (t : tty_struct).

(** drivers/char/tty_io.c:1091-1094 the end of [read_chan] *)
Definition read_end (retval : Z) (data : list Z) (t : tty_struct) : tty_read_step :=
  TtyReadDone (if ctrue (Z.of_nat (length data)) then Z.of_nat (length data) else retval) data
    (with_cur (fun p => p <| state := TASK_RUNNING |> <| timeout := 0 |>) t).

(** drivers/char/tty_io.c:990-1090 the loop of [read_chan] *)
Fixpoint read_loop (fuel : nat) (hung_up nonblock : bool) (minimum time : Z) (data : list Z) (nr : nat) (t : tty_struct)
    : option tty_read_step :=
  match fuel with
  | O => None
  | S fuel =>
      let t := with_cur (fun p => p <| state := TASK_INTERRUPTIBLE |>) t in
      r ← input_available_p t;
      let '(avail, t) := r in
      if negb avail then
        if Z.testbit (tty_flags t) TTY_SLAVE_CLOSED then Some (read_end (- EIO) data t)
        else if hung_up then Some (read_end 0 data t)
        else if negb (ctrue (timeout (cur_task t))) then Some (read_end 0 data t)
        else if nonblock then Some (read_end (- EAGAIN) data t)
        else if signal_pending (cur_task t) then Some (read_end (- ERESTARTSYS) data t)
        else Some (TtyReadSleeps minimum time data nr t)
      else
        let t := with_cur (fun p => p <| state := TASK_RUNNING |>) t in
        let '(l, nr, t) := read_chunk nr t in
        let data := data ++ l in
        let t :=
          if drv_throttles && (SQ_THRESHOLD_HW <=? LEFT (secondary t)) && Z.testbit (tty_flags t) TTY_SQ_THROTTLED then
            emit_tty (Throttle TTY_THROTTLE_SQ_AVAIL) (t <| tty_flags ::= fun f => Z.clearbit f TTY_SQ_THROTTLED |>)
          else t in
        if (minimum <=? Z.of_nat (length data)) || (nr =? 0)%nat then Some (read_end 0 data t)
        else
          read_loop fuel hung_up nonblock minimum time data nr
            (if ctrue time then with_cur (fun p => p <| timeout := u32 (time + jiffies (kern t)) |>) t else t)
  end.

(** drivers/char/tty_io.c:955-972 the job control check: an error, or [None] *)
Definition read_job_control (console : bool) (t : tty_struct) : option Z * tty_struct :=
  let s := kern t in
  if negb console && (Task.tty (cur s) =? tty_line t) then
    if tty_pgrp t <=? 0 then (None, t)
    else if negb (pgrp (cur s) =? tty_pgrp t) then
      if is_ignored SIGTTIN s || is_orphaned_pgrp (pgrp (cur s)) s then (Some (- EIO), t)
      else (Some (- ERESTARTSYS), t <| kern := (kill_pg (pgrp (cur s)) SIGTTIN 1 s).2 |>)
    else (None, t)
  else (None, t).

(** drivers/char/tty_io.c:974-987 how many characters to wait for, how long
    between them, and the timeout of the process *)
Definition read_limits (t : tty_struct) : Z * Z * Z :=
  let forever := 2 ^ 32 - 1 in
  if L_ ICANON t then (0, 0, forever)
  else
    let time := HZ / 10 * cc VTIME t in
    if ctrue (cc VMIN t) then (cc VMIN t, time, forever)
    else if ctrue time then (1, 0, u32 (time + jiffies (kern t))) else (1, 0, 0).

(** drivers/char/tty_io.c:946-1094 [read_chan] *)
Definition read_chan (console hung_up nonblock : bool) (nr : nat) (t : tty_struct) : option tty_read_step :=
  let '(err, t) := read_job_control console t in
  match err with
  | Some e => Some (TtyReadDone e [] t)
  | None =>
      let '(minimum, time, tmo) := read_limits t in
      read_loop (S nr) hung_up nonblock minimum time [] nr (with_cur (fun p => p <| timeout := tmo |>) t)
  end.

(** ** Writing *)

(** drivers/char/tty_ioctl.c:163-182 [check_change] *)
Definition check_change (channel : Z) (t : tty_struct) : Z * tty_struct :=
  let s := kern t in
  if negb (Task.tty (cur s) =? channel) then (0, t)
  else if tty_pgrp t <=? 0 then (0, t)
  else if pgrp (cur s) =? tty_pgrp t then (0, t)
  else if is_ignored SIGTTOU s then (0, t)
  else if is_orphaned_pgrp (pgrp (cur s)) s then (- EIO, t)
  else (- ERESTARTSYS, t <| kern := (kill_pg (pgrp (cur s)) SIGTTOU 1 s).2 |>).

(** A write: over, or asleep with [written] bytes done and the others to go. *)
Inductive tty_write_step :=
| TtyWriteDone (r : Z) (t : tty_struct)
| TtyWriteSleeps (written : Z) (rest : list Z) (t : tty_struct).

(** drivers/char/tty_io.c:1123-1130 as many characters as there is room for *)
Fixpoint write_chars (l : list Z) (t : tty_struct) : list Z * tty_struct :=
  match l with
  | [] => ([], t)
  | c :: l' =>
      let '(r, t) := opost c t in
      if r <? 0 then (l, t) else write_chars l' t
  end.

(** drivers/char/tty_io.c:1142-1144 the end of [write_chan] *)
Definition write_end (retval written : Z) (t : tty_struct) : tty_write_step :=
  TtyWriteDone (if ctrue written then written else retval) (with_cur (fun p => p <| state := TASK_RUNNING |>) t).

(** drivers/char/tty_io.c:1112-1141 the loop of [write_chan] *)
Fixpoint write_loop (fuel : nat) (hung_up nonblock : bool) (written : Z) (l : list Z) (t : tty_struct)
    : option tty_write_step :=
  match fuel with
  | O => None
  | S fuel =>
      let t := with_cur (fun p => p <| state := TASK_INTERRUPTIBLE |>) t in
      if signal_pending (cur_task t) then Some (write_end (- ERESTARTSYS) written t)
      else if hung_up then Some (write_end (- EIO) written t)
      else
        let '(rest, t) := write_chars l t in
        let written := written + Z.of_nat (length l - length rest) in
        let t := tty_write_flush t in
        if (length rest =? 0)%nat then Some (write_end 0 written t)
        else if EMPTY (write_q t) && negb (need_resched (kern t)) then write_loop fuel hung_up nonblock written rest t
        else if nonblock then Some (write_end (- EAGAIN) written t)
        else Some (TtyWriteSleeps written rest t)
  end.

(** drivers/char/tty_io.c:1096-1144 [write_chan] *)
Definition write_chan (console hung_up nonblock : bool) (l : list Z) (t : tty_struct) : option tty_write_step :=
  let '(retval, t) := if L_ TOSTOP t && negb console then check_change (tty_line t) t else (0, t) in
  if ctrue retval then Some (TtyWriteDone retval t)
  else write_loop (S (length l)) hung_up nonblock 0 l t.

(** ** Modes *)

(** include/linux/termios.h:163-187 control modes *)
Definition B9600 := 0xd.
Definition B38400 := 0xf.
Definition CS8 := 0x30.
Definition CREAD := 0x80.
Definition HUPCL := 0x400.
Definition CLOCAL := 0x800.

(** include/linux/tty.h:128-128 [IS_A_SERIAL] *)
Definition IS_A_SERIAL (min : Z) : bool := Z.land min 0xC0 =? 0x40.
Definition IS_A_PTY_MASTER (min : Z) : bool := Z.land min 0xC0 =? 0x80.
Definition IS_A_PTY_SLAVE (min : Z) : bool := Z.land min 0xC0 =? 0xC0.

(** include/linux/tty.h:395-395 [INIT_C_CC]; with its end the string has 18 bytes *)
Definition INIT_C_CC : list Z := [3; 28; 127; 21; 4; 0; 1; 0; 17; 19; 26; 0; 18; 15; 23; 22; 0; 0].

Definition lflags : Z := Z.lor ISIG (Z.lor ICANON (Z.lor ECHO (Z.lor ECHOE (Z.lor ECHOK (Z.lor ECHOCTL (Z.lor ECHOKE IEXTEN)))))).

(** drivers/char/tty_io.c:1788-1806 [initialize_termios]; [behind] is the byte
    behind the string, which has one less than is copied *)
Definition initialize_termios (behind line : Z) : termios :=
  let cc := INIT_C_CC ++ [behind] in
  if IS_A_CONSOLE line || IS_A_PTY_SLAVE line then
    mk_termios (Z.lor ICRNL IXON) (Z.lor OPOST ONLCR) (Z.lor B38400 (Z.lor CS8 CREAD)) lflags 0 cc
  else if IS_A_SERIAL line then
    mk_termios (Z.lor ICRNL IXON) (Z.lor OPOST (Z.lor ONLCR XTABS))
      (Z.lor B9600 (Z.lor CS8 (Z.lor CREAD (Z.lor HUPCL CLOCAL)))) lflags 0 cc
  else if IS_A_PTY_MASTER line then mk_termios 0 0 (Z.lor B9600 (Z.lor CS8 CREAD)) 0 0 cc
  else mk_termios 0 0 0 0 0 cc.

(** drivers/char/tty_ioctl.c:140-161 [unset_locked_termios]; [None]: there are no
    locks *)
Definition unset_locked_termios (new old : termios) (locked : option termios) : termios :=
  match locked with
  | None => new
  | Some k =>
      let noset x y z := Z.lor (Z.ldiff x z) (Z.land y z) in
      mk_termios (noset (c_iflag new) (c_iflag old) (c_iflag k)) (noset (c_oflag new) (c_oflag old) (c_oflag k))
        (noset (c_cflag new) (c_cflag old) (c_cflag k)) (noset (c_lflag new) (c_lflag old) (c_lflag k))
        (if ctrue (c_line k) then c_line old else c_line new)
        (map (fun i => if ctrue (znth 0 (c_cc k) i) then znth 0 (c_cc old) i else znth 0 (c_cc new) i) (seqZ 0 NCCS))
  end.

(** drivers/char/tty_ioctl.c:184-229 [set_termios_2] *)
Definition set_termios_2 (new : termios) (locked : option termios) (t : tty_struct) : tty_struct :=
  let old := tio t in
  let canon_change := flag (Z.lxor (c_lflag old) (c_lflag new)) ICANON in
  let t := t <| tio := new |> in
  let t := if canon_change then
      t <| secondary_flags := ∅ |> <| canon_head := tail (secondary t) |> <| canon_data := 0 |> <| erasing := false |>
    else t in
  let t := if canon_change && negb (L_ ICANON t) && negb (EMPTY (secondary t)) then
      t <| kern ::= wake_up_interruptible (read_wait t) |> else t in
  t <| tio ::= fun x => unset_locked_termios x old locked |>.

(** drivers/char/tty_ioctl.c:327-333 the end marks are not counted *)
Fixpoint inq_loop (fuel : nat) (head tail nr : Z) (t : tty_struct) : Z :=
  match fuel with
  | O => nr
  | S fuel =>
      if head =? tail then nr
      else
        inq_loop fuel head (INC tail)
          (if bool_decide (tail ∈ secondary_flags t) && (znth 0 (buf (secondary t)) tail =? __DISABLED_CHAR)
           then nr - 1 else nr) t
  end.

(** drivers/char/tty_ioctl.c:318-335 [inq_canon] *)
Definition inq_canon (t : tty_struct) : Z :=
  if negb (ctrue (canon_data t)) then 0
  else
    let nr := mask (canon_head t - tail (secondary t)) in
    inq_loop 1024 (canon_head t) (tail (secondary t)) nr t.
End tty.
