(* ===== verification/Ttyspec.v ===== *)
(** Line editing as it is meant: the terminal of [Tty] in canonical mode refines
    an editor that keeps the lines that are complete and the line being typed as
    lists. *)

From S2P Require Import Prelude Errno Vsprintf Task Sched Signal Ttyq Tty.

(** * Queues with marks *)

(** The bytes of a queue, oldest first, each with its bit of a bitmap. *)
Definition entry (q : tty_queue) (f : gset Z) (k : nat) : Z * bool :=
  let i := mask (tail q + Z.of_nat k) in (znth 0 (buf q) i, bool_decide (i ∈ f)).
Definition marked (q : tty_queue) (f : gset Z) : list (Z * bool) := entry q f <$> seq 0 (Z.to_nat (CHARS q)).

(** No bit is set outside of the queue. *)
Definition inside (q : tty_queue) (f : gset Z) : Prop :=
  forall i, i ∈ f -> 0 <= i < TTY_BUF_SIZE /\ mask (i - tail q) < CHARS q.

Lemma chars_bounds q : 0 <= CHARS q < TTY_BUF_SIZE.
Proof. apply mask_bounds. Qed.

Lemma marked_length q f : Z.of_nat (length (marked q f)) = CHARS q.
Proof. unfold marked. rewrite length_fmap, length_seq. pose proof (chars_bounds q). lia. Qed.

Lemma marked_lookup q f k :
  marked q f !! k = if decide (Z.of_nat k < CHARS q) then Some (entry q f k) else None.
Proof.
  unfold marked. rewrite list_lookup_fmap. pose proof (chars_bounds q). case_decide.
  - by rewrite lookup_seq_lt by lia.
  - by rewrite lookup_seq_ge by lia.
Qed.

Lemma left_marked q f : queue_ok q -> LEFT q = 1023 - Z.of_nat (length (marked q f)).
Proof. intros H. rewrite marked_length. destruct H. ring_arith. Qed.

Lemma empty_marked q f : queue_ok q -> EMPTY q = true <-> marked q f = [].
Proof.
  intros H. pose proof (marked_length q f) as Hl. destruct H. split.
  - intros E. destruct (marked q f); [done |]. cbn in Hl. ring_arith.
  - intros E. rewrite E in Hl. cbn in Hl. ring_arith.
Qed.

(** A list of marks from its elements. *)
Lemma marked_eq q f l :
  CHARS q = Z.of_nat (length l) -> (forall k x, l !! k = Some x -> entry q f k = x) -> marked q f = l.
Proof.
  intros Hc Hl. apply list_eq. intros k. rewrite marked_lookup. case_decide as Hk.
  - destruct (lookup_lt_is_Some_2 l k) as [x Hx]; [lia |]. rewrite Hx. f_equal. by apply Hl.
  - symmetry. apply lookup_ge_None. lia.
Qed.

Lemma marked_entry q f k x : marked q f !! k = Some x -> entry q f k = x /\ Z.of_nat k < CHARS q.
Proof. rewrite marked_lookup. case_decide; [| done]. by intros [= ->]. Qed.

Lemma put_marked c q f (m : bool) :
  queue_ok q -> 0 < LEFT q -> inside q f ->
  let f' := if m then {[ head q ]} ∪ f else f in
  queue_ok (put_tty_queue c q) /\ inside (put_tty_queue c q) f' /\
  marked (put_tty_queue c q) f' = marked q f ++ [(c, m)].
Proof.
  intros Hok Hl Hin f'. pose proof (put_tty_queue_spec c q Hok) as [Hok' _]. split; [done |].
  unfold put_tty_queue in *. destruct Hok as [H1 H2 H3].
  assert ((mask (head q + 1) =? tail q) = false) as Ep by ring_arith. rewrite Ep in *. cbn [negb] in *.
  set (q' := q <| buf ::= _ |> <| head := _ |>) in *.
  assert (CHARS q' = CHARS q + 1) as Ec by (unfold q', CHARS; cbn [upd head tail]; ring_arith).
  pose proof (chars_bounds q). split.
  - intros i Hi. change (tail q') with (tail q). rewrite Ec.
    assert (i = head q \/ i ∈ f) as [-> | Hi'].
    { unfold f' in Hi. destruct m; [apply elem_of_union in Hi as [Hi%elem_of_singleton | Hi]; auto | auto]. }
    + split; [done |]. unfold CHARS. lia.
    + destruct (Hin i Hi'). split; [done | lia].
  - apply marked_eq; [rewrite Ec, length_app; cbn [length]; pose proof (marked_length q f); lia |].
    assert (mask (tail q + CHARS q) = head q) as Eh by (unfold CHARS; ring_arith).
    intros k x Hx. unfold entry. change (tail q') with (tail q). change (buf q') with (zupd (buf q) (head q) c).
    destruct (decide (Z.of_nat k < CHARS q)) as [Hk | Hk].
    + rewrite lookup_app_l in Hx by (pose proof (marked_length q f); lia).
      apply marked_entry in Hx as [<- _]. unfold entry.
      assert (mask (tail q + Z.of_nat k) <> head q) as Hne.
      { unfold CHARS in Hk. ring_arith. }
      rewrite znth_zupd_ne by (done || apply mask_bounds || lia). f_equal. apply bool_decide_ext.
      unfold f'. destruct m; [| done]. rewrite elem_of_union, elem_of_singleton. naive_solver.
    + pose proof (lookup_lt_Some _ _ _ Hx) as Hlt. rewrite length_app in Hlt. cbn [length] in Hlt.
      pose proof (marked_length q f) as Hml. replace k with (length (marked q f)) in * by lia.
      rewrite list_lookup_middle in Hx by done. injection Hx as <-.
      replace (tail q + Z.of_nat (length (marked q f))) with (tail q + CHARS q) by lia. rewrite Eh.
      rewrite znth_zupd_eq by (unfold TTY_BUF_SIZE in *; lia). f_equal. unfold f'. destruct m.
      * apply bool_decide_eq_true. apply elem_of_union. left. by apply elem_of_singleton.
      * apply bool_decide_eq_false. intros Hi. destruct (Hin _ Hi) as [_ Hi']. unfold CHARS in Hi'. lia.
Qed.

(** The oldest byte leaves. *)
Lemma get_marked q f x l :
  queue_ok q -> inside q f -> marked q f = x :: l ->
  entry q f 0 = x /\
  let q' := q <| tail ::= INC |> in let f' := f ∖ {[ tail q ]} in
  queue_ok q' /\ inside q' f' /\ marked q' f' = l.
Proof.
  intros Hok Hin E. destruct Hok as [H1 H2 H3]. pose proof (marked_length q f) as Hl. rewrite E in Hl. cbn [length] in Hl.
  pose proof (chars_bounds q) as Hc. split; [by apply (marked_entry q f 0); rewrite E |]. cbv zeta.
  set (q' := q <| tail ::= INC |>). assert (CHARS q' = CHARS q - 1) as Ec.
  { unfold q', CHARS in *. cbn [upd head tail]. ring_arith. }
  split_and!.
  - constructor; [done | apply mask_bounds | done].
  - intros i [Hi Hne]%elem_of_difference. destruct (Hin i Hi) as [Hb Hlt]. split; [done |]. rewrite Ec.
    assert (i <> tail q) by set_solver. change (tail q') with (INC (tail q)). unfold CHARS in *. ring_arith.
  - apply marked_eq; [lia |]. intros k y Hy.
    assert (marked q f !! S k = Some y) as Hy' by by rewrite E. apply marked_entry in Hy' as [<- Hk].
    unfold entry. change (tail q') with (INC (tail q)). change (buf q') with (buf q).
    replace (mask (INC (tail q) + Z.of_nat k)) with (mask (tail q + Z.of_nat (S k))).
    2: { rewrite Nat2Z.inj_succ. unfold CHARS in *. ring_arith. }
    f_equal. apply bool_decide_ext. rewrite elem_of_difference, elem_of_singleton.
    assert (mask (tail q + Z.of_nat (S k)) <> tail q); [| naive_solver].
    rewrite Nat2Z.inj_succ. unfold CHARS in *. ring_arith.
Qed.

(** The queue is cut after [n] bytes. *)
Lemma cut_marked q f n :
  queue_ok q -> inside q f -> (n <= length (marked q f))%nat ->
  (forall k x, (n <= k)%nat -> marked q f !! k = Some x -> x.2 = false) ->
  let q' := q <| head := mask (tail q + Z.of_nat n) |> in
  queue_ok q' /\ inside q' f /\ marked q' f = take n (marked q f).
Proof.
  intros Hok Hin Hn Hu q'. destruct Hok as [H1 H2 H3]. pose proof (marked_length q f) as Hl. pose proof (chars_bounds q) as Hc.
  assert (CHARS q' = Z.of_nat n) as Ec.
  { unfold q', CHARS in *. cbn [upd head tail]. ring_arith. }
  split_and!.
  - constructor; [apply mask_bounds | done | done].
  - intros i Hi. destruct (Hin i Hi) as [Hb Hlt]. split; [done |]. rewrite Ec. change (tail q') with (tail q).
    destruct (Z.lt_ge_cases (mask (i - tail q)) (Z.of_nat n)) as [? | Hge]; [done |].
    set (k := Z.to_nat (mask (i - tail q))). pose proof (mask_bounds (i - tail q)).
    destruct (lookup_lt_is_Some_2 (marked q f) k) as [x Hx]; [lia |].
    specialize (Hu k x ltac:(lia) Hx). apply marked_entry in Hx as [<- _]. cbn in Hu.
    apply bool_decide_eq_false in Hu. exfalso. apply Hu.
    replace (mask (tail q + Z.of_nat k)) with i; [done |]. unfold k. rewrite Z2Nat.id by lia. clear Hu k. ring_arith.
  - apply marked_eq; [rewrite length_take; lia |]. intros k y Hy.
    rewrite lookup_take in Hy. case_decide; [| done]. by apply marked_entry in Hy as [<- _].
Qed.

(** * The editor *)

(** [inq]: what has been typed and not looked at, with the marks of errors;
    [elines]: the complete lines, with their last characters marked; [line]: the
    line being typed.  [ek] is the kernel state that signals change. *)
Record ed := mk_ed {
  inq : list (Z * bool); elines : list (Z * bool); line : list Z;
  lit : bool; err : Z; halted : bool; ek : kstate;
}.
#[export] Instance eta_ed : Eta ed := fun e =>
  mk_ed (inq e) (elines e) (line e) (lit e) (err e) (halted e) (ek e).

Definition unmarked (l : list Z) : list (Z * bool) := (fun c => (c, false)) <$> l.
Definition room (e : ed) : Z := 1023 - Z.of_nat (length (elines e) + length (line e)).

Definition push (c : Z) (e : ed) : ed := if 0 <? room e then e <| line ::= fun l => l ++ [u8 c] |> else e.
Definition finish (c : Z) (e : ed) : ed :=
  e <| elines ::= fun l => l ++ unmarked (line e) ++ [(u8 c, true)] |> <| line := [] |>.

Section editor.
Context (m : termios) (pg : Z) (ww : wait_queue).
Let sp i := znth 0 (c_cc m) i.
Let im x := flag (c_iflag m) x.
Let lm x := flag (c_lflag m) x.

(** A line that is reversed, without its last word. *)
Fixpoint drop_word (seen : bool) (l : list Z) : list Z :=
  match l with
  | [] => []
  | c :: l' =>
      if isalnum c || (c =? 95) then drop_word true l' else if seen then l else drop_word false l'
  end.

Definition ed_erase (c : Z) (e : ed) : ed :=
  e <| line ::= fun l =>
    if c =? sp VERASE then removelast l
    else if c =? sp VWERASE then rev (drop_word false (rev l)) else [] |>.

Definition ed_error (c : Z) (e : ed) : option ed :=
  if err e =? 0 then None
  else
    let k := err e in
    let e := e <| err := 0 |> in
    if k =? TTY_BREAK then
      Some (if im IGNBRK || im BRKINT then e
            else push 0 (if im PARMRK then push 0 (push 255 e) else e))
    else if (k =? TTY_OVERRUN) || im IGNPAR then Some e
    else if im PARMRK then Some (push c (push 0 (push 255 e)))
    else Some (push 0 e).

(** What a key means. *)
Definition key (c : Z) (literal : bool) : option Z :=
  let c := if im ISTRIP then Z.land c 0x7f else c in
  let fold c := if im IUCLC && lm IEXTEN then tolower_char c else c in
  if literal then Some (fold c)
  else if c =? 13 then if im IGNCR then None else Some (fold (if im ICRNL then 10 else c))
  else Some (fold (if (c =? 10) && im INLCR then 13 else c)).

Definition ed_isig (sig : Z) (e : ed) : ed :=
  let e := e <| ek ::= fun s => (kill_pg pg sig 1 s).2 |> in
  if lm NOFLSH then e
  else e <| inq := [] |> <| elines := [] |> <| line := [] |> <| ek ::= wake_up_interruptible ww |>.

(** A key that is not data, [None]: another one. *)
Definition ed_command (c : Z) (e : ed) : option ed :=
  if lit e then None
  else if (c =? sp VERASE) || (c =? sp VKILL) || ((c =? sp VWERASE) && lm IEXTEN) then Some (ed_erase c e)
  else if (c =? sp VLNEXT) && lm IEXTEN then Some (e <| lit := true |>)
  else if (c =? sp VREPRINT) && lm ECHO && lm IEXTEN then Some e
  else if im IXON && ((halted e && im IXANY && lm IEXTEN) || (c =? sp VSTART)) then Some (e <| halted := false |>)
  else if im IXON && (c =? sp VSTOP) then Some (e <| halted := true |>)
  else if lm ISIG && (c =? sp VINTR) then Some (ed_isig SIGINT e)
  else if lm ISIG && (c =? sp VQUIT) then Some (ed_isig SIGQUIT e)
  else if lm ISIG && (c =? sp VSUSP) then Some (if is_orphaned_pgrp pg (ek e) then e else ed_isig SIGTSTP e)
  else None.

Definition ed_ends (c : Z) : bool :=
  (c =? 10) || (c =? sp VEOF) || (c =? sp VEOL) || ((c =? sp VEOL2) && lm IEXTEN).

(** Data: the end of a file is the byte [__DISABLED_CHAR] that ends a line. *)
Definition ed_data (c : Z) (e : ed) : ed :=
  let e := if im PARMRK && (c =? 255) && (negb (c =? sp VEOF) || lit e) then push c e else e in
  let e := if negb (lit e) && ed_ends c then finish (if c =? sp VEOF then __DISABLED_CHAR else c) e else push c e in
  e <| lit := false |>.

Definition ed_char (c : Z) (special : bool) (e : ed) : ed :=
  if special then e <| err := Z.land c 7 |>
  else match ed_error c e with
  | Some e => e
  | None =>
      match key c (lit e) with
      | None => e
      | Some c =>
          let e := if c =? __DISABLED_CHAR then e <| lit := true |> else e in
          match ed_command c e with Some e => e | None => ed_data c e end
      end
  end.

(** Everything that is typed, as long as there is room. *)
Fixpoint ed_run (n : nat) (e : ed) : ed :=
  match n with
  | O => e
  | S n =>
      if room e =? 0 then e
      else match inq e with
           | [] => e
           | (c, special) :: l => ed_run n (ed_char c special (e <| inq := l |>))
           end
  end.
Definition ed_cook (rw : wait_queue) (e : ed) : ed :=
  let e := ed_run (length (inq e)) e in
  if bool_decide (elines e = []) then e else e <| ek ::= wake_up_interruptible rw |>.
End editor.

(** What a read of at most [nr] bytes takes from the complete lines: the first
    line or a part of it, without the mark of the end of the file. *)
Fixpoint first_line (nr : nat) (l : list (Z * bool)) : list Z * list (Z * bool) :=
  match l with
  | [] => ([], [])
  | (c, mark) :: l' =>
      match nr with
      | O => if mark && (c =? __DISABLED_CHAR) then ([], l') else ([], l)
      | S n =>
          if mark then if c =? __DISABLED_CHAR then ([], l') else ([c], l')
          else let '(d, rest) := first_line n l' in (c :: d, rest)
      end
  end.

(** * The refinement *)

Definition marks (l : list (Z * bool)) : Z := Z.of_nat (length (filter (fun x => x.2 = true) l)).
(** Every part of [elines] belongs to a line that ends in it. *)
Definition complete (l : list (Z * bool)) : Prop := l = [] \/ exists l' c, l = l' ++ [(c, true)].

Record refines (t : tty_struct) (e : ed) : Prop := {
  re_canon : L_ ICANON t = true;
  re_rq : queue_ok (tread_q t);
  re_rin : inside (tread_q t) (readq_flags t);
  re_inq : marked (tread_q t) (readq_flags t) = inq e;
  re_sq : queue_ok (secondary t);
  re_sin : inside (secondary t) (secondary_flags t);
  re_lines : marked (secondary t) (secondary_flags t) = elines e ++ unmarked (line e);
  re_complete : complete (elines e);
  re_head : canon_head t = mask (tail (secondary t) + Z.of_nat (length (elines e)));
  re_data : canon_data t = marks (elines e);
  re_lit : lnext t = lit e;
  re_err : char_error t = err e;
  re_halted : stopped t = halted e;
  re_kern : kern t = ek e;
}.

(** The part of a terminal that input depends on; output and echo leave it. *)
Definition input_part (t : tty_struct) :=
  (tio t, tty_pgrp t, (stopped t, lnext t), char_error t, (canon_data t, canon_head t), (readq_flags t, secondary_flags t),
   (tread_q t, secondary t), (read_wait t, write_wait t), kern t).

Lemma refines_part t t' e : input_part t' = input_part t -> refines t e -> refines t' e.
Proof.
  unfold input_part. intros [= E1 E2 E3 E4 E5 E6 E7 E8 E9 E10 E11 E12 E13 E14] [].
  constructor; unfold L_ in *;
    rewrite ?E1, ?E2, ?E3, ?E4, ?E5, ?E6, ?E7, ?E8, ?E9, ?E10, ?E11, ?E12, ?E13, ?E14; done.
Qed.

Section input.
Context `{TtyDriver}.

(** ** Output and echo *)

Definition silent (f : tty_struct -> tty_struct) : Prop := forall t, input_part (f t) = input_part t.

Lemma put_write_part c : silent (put_write c).
Proof using Type. done. Qed.

Lemma opost_tab_part n : silent (opost_tab n).
Proof using Type.
  induction n as [| n IH]; intros t; [done |]. cbn [opost_tab]. destruct (ctrue _); [by rewrite IH | done].
Qed.

Lemma opost_part c t : input_part (opost c t).2 = input_part t.
Proof using Type.
  unfold opost.
  repeat match goal with |- context [if ?b then _ else _] =>
    lazymatch b with context [if _ then _ else _] => fail | _ => destruct b end end;
    cbn [snd]; try done. by rewrite opost_tab_part.
Qed.

Lemma out_part c : silent (out c).
Proof using Type. intros t. apply opost_part. Qed.

Lemma drv_take_part n : silent (drv_take n).
Proof using Type.
  induction n as [| n IH]; intros t; [done |]. cbn [drv_take]. destruct (EMPTY _); [done |].
  destruct (get_tty_queue _) as [c q]. by rewrite IH.
Qed.

Lemma flush_part : silent tty_write_flush.
Proof using Type.
  intros t. unfold tty_write_flush. destruct (EMPTY _); [done |]. destruct (Z.testbit _ _); [done |]. apply drv_take_part.
Qed.

Lemma echo_part c : silent (echo_char c).
Proof using Type. intros t. unfold echo_char. destruct (_ && _); by rewrite !out_part. Qed.

Lemma end_erasing_part : silent end_erasing.
Proof using Type. intros t. unfold end_erasing. destruct (erasing t); [| done]. apply (out_part 47 t). Qed.

Lemma back_up_part n : silent (back_up n).
Proof using Type. induction n as [| n IH]; intros t; [done |]. cbn [back_up]. by rewrite IH. Qed.

Lemma erase_echo_part c : silent (erase_echo c).
Proof using Type.
  intros t. unfold erase_echo. destruct (negb (L_ ECHO t)); [done |]. destruct (L_ ECHOPRT t).
  { rewrite echo_part. destruct (erasing t); [done | apply (out_part 92 t)]. }
  destruct (negb (L_ ECHOE t)); [apply echo_part |]. destruct (c =? 9); [apply back_up_part |].
  cbv zeta. destruct (_ && _); destruct (_ || _); rewrite ?out_part; done.
Qed.

Lemma reprint_part n : forall i, silent (reprint_loop n i).
Proof using Type.
  induction n as [| n IH]; intros i t; [done |]. cbn [reprint_loop]. destruct (_ =? _); [done |]. by rewrite IH, echo_part.
Qed.

Lemma cook_echo_part c : silent (cook_echo c).
Proof using Type.
  intros t. unfold cook_echo. cbv zeta. rewrite <- (end_erasing_part t). generalize (end_erasing t). clear t. intros t.
  destruct (_ && _); [destruct (_ || _); [apply out_part | done] |].
  destruct (L_ ECHO t); [| done]. destruct (_ || _); [| done]. rewrite echo_part. by destruct (_ =? _).
Qed.

(** ** The line being typed *)

Lemma refines_left t e : refines t e -> LEFT (secondary t) = room e.
Proof using Type.
  intros []. rewrite (left_marked _ (secondary_flags t)) by done. rewrite re_lines0, length_app. unfold unmarked, room.
  by rewrite length_fmap.
Qed.

Lemma refines_room t e : refines t e -> 0 <= room e.
Proof using Type.
  intros R. rewrite <- (refines_left t e R). pose proof (mask_bounds (tail (secondary t) - head (secondary t) - 1)). unfold LEFT. lia.
Qed.

Lemma put_full c q : LEFT q <= 0 -> queue_ok q -> put_tty_queue c q = q.
Proof using Type. intros Hl []. unfold put_tty_queue. assert ((mask (head q + 1) =? tail q) = true) as -> by ring_arith. done. Qed.

Lemma push_refines c t e : refines t e -> refines (put_secondary c t) (push c e).
Proof using Type.
  intros R. pose proof (refines_left t e R) as Hl. destruct R. unfold push, put_secondary.
  destruct (Z.ltb_spec 0 (room e)).
  - destruct (put_marked (u8 c) (secondary t) (secondary_flags t) false) as (H1 & H2 & H3); [done | lia | done |].
    constructor; cbn; try done.
    + rewrite H3, re_lines0. unfold unmarked. by rewrite fmap_app, app_assoc.
    + rewrite re_head0. unfold put_tty_queue. by destruct (negb _).
  - replace (t <| secondary ::= put_tty_queue (u8 c) |>) with t; [done |].
    destruct t; cbn in *. by rewrite put_full by (done || lia).
Qed.

Lemma marks_app l l' : marks (l ++ l') = marks l + marks l'.
Proof using Type. clear. unfold marks. rewrite filter_app, length_app. lia. Qed.
Lemma marks_unmarked l : marks (unmarked l) = 0.
Proof using Type. clear. induction l as [| c l IH]; [done |]. unfold marks in *. change (unmarked (c :: l)) with ((c, false) :: unmarked l).
  by rewrite filter_cons_False. Qed.
Lemma marks_le l : 0 <= marks l <= Z.of_nat (length l).
Proof using Type. clear. unfold marks. pose proof (length_filter (fun x : Z * bool => x.2 = true) l). lia. Qed.

Lemma head_spec t e : refines t e ->
  head (secondary t) = mask (tail (secondary t) + Z.of_nat (length (elines e)) + Z.of_nat (length (line e))).
Proof using Type.
  intros []. pose proof (marked_length (secondary t) (secondary_flags t)) as Hl.
  rewrite re_lines0, length_app in Hl. unfold unmarked in Hl. rewrite length_fmap in Hl.
  pose proof (chars_bounds (secondary t)). destruct re_sq0. unfold CHARS in *. ring_arith.
Qed.

(** The line that ends at the head of the queue. *)
Lemma finish_refines c t e :
  refines t e -> 0 < room e ->
  let t' := put_secondary c (t <| secondary_flags ::= fun f => {[ head (secondary t) ]} ∪ f |>) in
  refines (t' <| canon_head := head (secondary t') |> <| canon_data ::= fun n => s32 (n + 1) |>) (finish c e).
Proof using Type.
  intros R Hr. pose proof (refines_left t e R) as Hl. pose proof R as []. cbv zeta.
  destruct (put_marked (u8 c) (secondary t) (secondary_flags t) true) as (H1 & H2 & H3); [done | lia | done |].
  rewrite re_lines0 in H3. pose proof (marked_length (put_tty_queue (u8 c) (secondary t)) ({[ head (secondary t) ]} ∪ secondary_flags t)) as Hm.
  rewrite H3 in Hm. assert (length (unmarked (line e)) = length (line e)) as Hu by apply length_fmap.
  constructor; cbn; try done.
  - rewrite H3. by rewrite app_nil_r, app_assoc.
  - right. exists (elines e ++ unmarked (line e)), (u8 c). by rewrite app_assoc.
  - rewrite !length_app in *. cbn [length] in *. pose proof (chars_bounds (put_tty_queue (u8 c) (secondary t))).
    destruct H1. unfold CHARS in *. ring_arith.
  - rewrite re_data0, !marks_app, marks_unmarked. change (marks [(u8 c, true)]) with 1.
    pose proof (marks_le (elines e)). rewrite s32_small; [lia |]. unfold room in Hr. lia.
Qed.

Lemma cut_refines t e n :
  refines t e -> (n <= length (line e))%nat ->
  refines (t <| secondary ::= fun q => q <| head := mask (canon_head t + Z.of_nat n) |> |>) (e <| line ::= take n |>).
Proof using Type.
  intros R Hn. destruct R. pose proof (marked_length (secondary t) (secondary_flags t)) as Hml.
  assert (forall l, length (unmarked l) = length l) as Hu by (intros; apply length_fmap).
  assert (length (marked (secondary t) (secondary_flags t)) = length (elines e) + length (line e))%nat as Hlen
    by by rewrite re_lines0, length_app, Hu.
  destruct (cut_marked (secondary t) (secondary_flags t) (length (elines e) + n)) as (H1 & H2 & H3); [done | done | lia | |].
  { intros k x Hk. rewrite re_lines0, lookup_app_r by lia. unfold unmarked. rewrite list_lookup_fmap.
    destruct (line e !! _); [| done]. by intros [= <-]. }
  replace (mask (tail (secondary t) + Z.of_nat (length (elines e) + n))) with (mask (canon_head t + Z.of_nat n)) in *.
  2: { rewrite re_head0, !mask_mod, Zplus_mod_idemp_l. f_equal. lia. }
  constructor; cbn; try done. etrans; [exact H3 |].
  rewrite re_lines0, take_app_add. f_equal. unfold unmarked. by rewrite fmap_take.
Qed.

Lemma cut_all t e :
  refines t e -> refines (t <| secondary ::= fun q => q <| head := canon_head t |> |>) (e <| line := [] |>).
Proof using Type.
  intros R. pose proof (cut_refines t e 0 R ltac:(lia)) as H0. rewrite Z.add_0_r in H0.
  rewrite mask_small in H0; [done |]. rewrite (re_head t e R). apply mask_bounds.
Qed.

Lemma line_empty t e : refines t e -> (head (secondary t) =? canon_head t) = bool_decide (line e = []).
Proof using Type.
  intros R. rewrite (head_spec t e R), (re_head t e R).
  assert (length (line e) <= 1023)%nat by (pose proof (refines_room t e R); unfold room in *; lia).
  assert (length (elines e) <= 1023)%nat by (pose proof (refines_room t e R); unfold room in *; lia).
  pose proof (qo_tail _ (re_sq t e R)). destruct (line e) as [| x l]; cbn [length] in *.
  - rewrite bool_decide_true by done. rewrite Z.add_0_r. apply Z.eqb_refl.
  - rewrite bool_decide_false by done. apply Z.eqb_neq. rewrite !mask_mod. unfold TTY_BUF_SIZE in *. intros E.
    set (a := tail (secondary t) + _) in *.
    pose proof (Z.div_mod (a + Z.of_nat (S (length l))) 1024 ltac:(done)). pose proof (Z.div_mod a 1024 ltac:(done)). lia.
Qed.

Lemma mask_eq a b k : a = b + TTY_BUF_SIZE * k -> mask a = mask b.
Proof using Type. clear. intros ->. rewrite !mask_mod, Z.mul_comm. by apply Z.mod_add. Qed.

Lemma mask_mask a b : mask (mask a + b) = mask (a + b).
Proof using Type. clear. rewrite !mask_mod. apply Zplus_mod_idemp_l. Qed.

(** The last character of the line. *)
Lemma last_refines t e l c :
  refines t e -> line e = l ++ [c] ->
  LAST (secondary t) = c /\
  refines (t <| secondary ::= fun q => q <| head ::= DEC |> |>) (e <| line := l |>).
Proof using Type.
  intros R El. pose proof (head_spec t e R) as Hh. pose proof R as []. rewrite El, length_app in Hh. cbn [length] in Hh. split.
  - assert (marked (secondary t) (secondary_flags t) !! (length (elines e) + length l)%nat = Some (c, false)) as Hx.
    { rewrite re_lines0, lookup_app_r by lia. rewrite Nat.add_sub', El. unfold unmarked. rewrite fmap_app.
      rewrite lookup_app_r by (rewrite length_fmap; lia). by rewrite length_fmap, Nat.sub_diag. }
    apply marked_entry in Hx as [Hx _]. unfold entry in Hx. injection Hx as <- _. unfold LAST. f_equal.
    rewrite Hh. unfold Z.sub. rewrite mask_mask. f_equal. lia.
  - assert (DEC (head (secondary t)) = mask (canon_head t + Z.of_nat (length l))) as Ed.
    { rewrite Hh, re_head0. unfold DEC, Z.sub. rewrite !mask_mask. f_equal. lia. }
    pose proof (cut_refines t e (length l) R) as Hc. rewrite El, length_app in Hc. specialize (Hc ltac:(lia)).
    replace (e <| line ::= take (length l) |>) with (e <| line := l |>) in Hc.
    2: { destruct e; cbn in *. by rewrite El, take_app_length. }
    rewrite <- Ed in Hc. by destruct t.
Qed.

Definition erased (kt : kill_type) (seen : bool) (l : list Z) : list Z :=
  match kt with ERASE => removelast l | WERASE => rev (drop_word seen (rev l)) | KILL => [] end.

Lemma line_same e (l : list Z) : line e = l -> e <| line := l |> = e.
Proof using Type. clear. intros <-. by destruct e. Qed.

Lemma erase_loop_refines kt fuel : forall seen t e,
  refines t e -> (length (line e) <= fuel)%nat ->
  refines (erase_loop fuel kt seen t) (e <| line := erased kt seen (line e) |>).
Proof using Type.
  induction fuel as [| fuel IH]; intros seen t e R Hf; cbn [erase_loop].
  { rewrite line_same; [done |]. destruct (line e); [by destruct kt | cbn in Hf; lia]. }
  rewrite (line_empty t e R). destruct (decide (line e = [])) as [El | Hne].
  { rewrite bool_decide_true by done. rewrite line_same; [done |]. rewrite El. by destruct kt. }
  rewrite bool_decide_false by done. destruct (exists_last Hne) as (l & c & El). rewrite El in *.
  destruct (last_refines t e l c R El) as [-> Rl]. cbv zeta. rewrite length_app in Hf. cbn [length] in Hf.
  pose proof (refines_part _ _ _ (erase_echo_part c _) Rl) as Re.
  assert (erased WERASE seen (l ++ [c]) =
    if isalnum c || (c =? 95) then erased WERASE true l else if seen then l ++ [c] else erased WERASE false l) as Ew.
  { cbn [erased]. rewrite rev_app_distr. cbn [rev app drop_word]. destruct (_ || _); [done |]. destruct seen; [| done].
    cbn [rev]. by rewrite rev_involutive. }
  destruct (bool_decide (kt = WERASE) && negb (isalnum c || (c =? 95)) && seen) eqn:Est.
  { apply andb_prop in Est as [[Ek Enw]%andb_prop ->]. apply bool_decide_eq_true in Ek as ->.
    rewrite Ew. apply negb_true_iff in Enw as ->. by rewrite line_same. }
  destruct kt.
  - cbn [erased]. rewrite removelast_last. exact Re.
  - rewrite bool_decide_false by done. rewrite bool_decide_true by done. cbn [andb].
    rewrite (bool_decide_true (WERASE = WERASE)) in Est by done. cbn [andb] in Est. rewrite Ew.
    apply IH with (seen := seen || (isalnum c || (c =? 95))) in Re; [| cbn; lia].
    cbn [line upd] in Re.
    destruct (isalnum c || (c =? 95)); [by rewrite orb_true_r in * |]. rewrite orb_false_r in *.
    destruct seen; [done | exact Re].
  - rewrite !bool_decide_false by done. cbn [andb]. rewrite orb_false_r. apply (IH seen) in Re; [exact Re | cbn; lia].
Qed.

Lemma eraser_refines c t e :
  refines t e ->
  refines (eraser c t) (ed_erase (tio t) c e).
Proof using Type.
  intros R. unfold eraser. rewrite (line_empty t e R).
  assert (length (line e) <= 1024)%nat as Hl by (pose proof (refines_room t e R); unfold room in *; lia).
  assert (forall kt, refines (erase_loop 1024 kt false t) (e <| line := erased kt false (line e) |>)) as Hloop
    by (intros kt; by apply erase_loop_refines).
  assert (forall t' e', refines t' e' -> refines
    (if erasing t' && (head (secondary t') =? canon_head t') then out 47 t' <| erasing := false |> else t') e') as Hend.
  { intros t' e' R'. destruct (_ && _); [| done]. by eapply refines_part; [| exact R']; apply (out_part 47). }
  cbv zeta. unfold ed_erase. change (znth 0 (c_cc (tio t)) VERASE) with (cc VERASE t).
  change (znth 0 (c_cc (tio t)) VWERASE) with (cc VWERASE t).
  change (e <| line ::= ?f |>) with (e <| line := f (line e) |>). cbv beta.
  destruct (decide (line e = [])) as [El | Hne].
  { rewrite bool_decide_true by done. rewrite line_same; [done |]. rewrite El. by repeat case_match. }
  rewrite bool_decide_false by done.
  destruct (c =? cc VERASE t); [apply Hend, (Hloop ERASE) |].
  destruct (c =? cc VWERASE t); [apply Hend, (Hloop WERASE) |].
  destruct (negb (L_ ECHO t)); [by apply cut_all |].
  destruct (_ || _); [| apply Hend, (Hloop KILL)].
  eapply refines_part; [| by apply cut_all].
  set (t' := t <| secondary ::= _ |>). destruct (L_ ECHOK _); rewrite ?out_part, echo_part, end_erasing_part; done.
Qed.

(** ** The characters *)

Definition refines_opt (r : option tty_struct) (r' : option ed) : Prop :=
  match r, r' with Some t, Some e => refines t e | None, None => True | _, _ => False end.

Lemma cook_error_refines c t e : refines t e -> refines_opt (cook_error c t) (ed_error (tio t) c e).
Proof using Type.
  intros R. unfold cook_error, ed_error. cbv zeta. rewrite (re_err t e R). destruct (err e =? 0); [done |].
  assert (refines (t <| char_error := 0 |>) (e <| err := 0 |>)) as R0 by (destruct R; by constructor).
  change (I_ ?m (t <| char_error := 0 |>)) with (flag (c_iflag (tio t)) m).
  generalize dependent (t <| char_error := 0 |>). generalize dependent (e <| err := 0 |>). intros e0 t0 R0.
  destruct (err e =? TTY_BREAK).
  { destruct (flag _ IGNBRK); [done |]. destruct (flag _ BRKINT); [done |]. cbn [orb].
    apply push_refines. destruct (flag _ PARMRK); [by repeat apply push_refines | done]. }
  destruct (err e =? TTY_OVERRUN); [done |]. destruct (flag _ IGNPAR); [done |]. cbn [orb].
  destruct (flag _ PARMRK); repeat apply push_refines; done.
Qed.

Lemma cook_map_refines c t e :
  refines t e ->
  match cook_map c t, key (tio t) c (lit e) with
  | Some (c1, t1), Some c2 =>
      c1 = c2 /\ tio t1 = tio t /\ tty_pgrp t1 = tty_pgrp t /\ write_wait t1 = write_wait t /\
      refines t1 (if c2 =? __DISABLED_CHAR then e <| lit := true |> else e)
  | None, None => True
  | _, _ => False
  end.
Proof using Type.
  intros R. unfold cook_map, key, I_, L_. rewrite (re_lit t e R). cbv zeta.
  set (c0 := if flag _ ISTRIP then _ else _). clearbody c0.
  assert (forall x, let t1 := if x =? __DISABLED_CHAR then t <| lnext := true |> else t in
    tio t1 = tio t /\ tty_pgrp t1 = tty_pgrp t /\ write_wait t1 = write_wait t /\
    refines t1 (if x =? __DISABLED_CHAR then e <| lit := true |> else e)) as Hx.
  { intros x. destruct (x =? __DISABLED_CHAR); [| done]. split_and!; try done. destruct R. by constructor. }
  destruct (lit e); [by split; [| apply Hx] |]. destruct (c0 =? 13); [| by split; [| apply Hx]].
  destruct (flag _ IGNCR); [done |]. by split; [| apply Hx].
Qed.

Lemma marked_reset q f : marked (q <| head := 0 |> <| tail := 0 |>) f = [].
Proof using Type. clear. done. Qed.

Lemma isig_refines sig t e : refines t e -> refines (isig sig t) (ed_isig (tio t) (tty_pgrp t) (write_wait t) sig e).
Proof using Type.
  intros R. unfold isig, ed_isig. cbv zeta. unfold L_. cbn [tio upd].
  assert (refines (t <| kern ::= fun s => (kill_pg (tty_pgrp t) sig 1 s).2 |>)
    (e <| ek ::= fun s => (kill_pg (tty_pgrp t) sig 1 s).2 |>)) as R0.
  { destruct R. constructor; try done. cbn. by rewrite re_kern0. }
  destruct (flag _ NOFLSH); [done |]. destruct R0. unfold flush_output, flush_input.
  constructor; cbn; try done.
  - by destruct re_rq0; constructor.
  - by destruct re_sq0; constructor.
  - by left.
  - cbn in re_kern0. by rewrite re_kern0.
Qed.

Lemma cook_flow_refines c t e :
  refines t e ->
  match cook_flow c t with
  | Some t' =>
      flag (c_iflag (tio t)) IXON = true /\ lit e = false /\
      (if (halted e && flag (c_iflag (tio t)) IXANY && flag (c_lflag (tio t)) IEXTEN) || (c =? cc VSTART t)
       then refines t' (e <| halted := false |>) else c = cc VSTOP t /\ refines t' (e <| halted := true |>))
  | None =>
      flag (c_iflag (tio t)) IXON = true -> lit e = false ->
      ((halted e && flag (c_iflag (tio t)) IXANY && flag (c_lflag (tio t)) IEXTEN) || (c =? cc VSTART t)) = false /\
      (c =? cc VSTOP t) = false
  end.
Proof using Type.
  intros R. unfold cook_flow, I_, L_. rewrite (re_lit t e R), (re_halted t e R).
  destruct (flag _ IXON); [| done]. destruct (lit e); [done |]. cbn [negb orb].
  destruct (_ || _) eqn:E.
  - split_and!; [done | done |]. unfold start_tty. destruct (stopped t) eqn:Es; cbn [negb].
    2: { replace (e <| halted := false |>) with e; [done |]. destruct e; cbn in *. rewrite (re_halted _ _ R) in Es. by cbn in Es; subst. }
    assert (refines (t <| stopped := false |>) (e <| halted := false |>)) as R0 by (destruct R; by constructor).
    cbv zeta. set (t1 := emit_tty _ _).
    assert (refines (tty_write_flush t1) (e <| halted := false |>)) as R1
      by (eapply refines_part; [apply flush_part | by eapply refines_part; [| exact R0]]).
    by destruct (IS_A_CONSOLE _); [eapply refines_part; [| exact R1] |].
  - destruct (c =? cc VSTOP t) eqn:Ec; [| done]. apply Z.eqb_eq in Ec. split_and!; [done | done | done |].
    unfold stop_tty. destruct (stopped t) eqn:Es.
    { replace (e <| halted := true |>) with e; [done |]. destruct e; cbn in *. rewrite (re_halted _ _ R) in Es. by cbn in Es; subst. }
    assert (refines (t <| stopped := true |>) (e <| halted := true |>)) as R0 by (destruct R; by constructor).
    cbv zeta. by destruct (IS_A_CONSOLE _); (eapply refines_part; [| exact R0]).
Qed.

Lemma cook_edit_refines c t e :
  refines t e ->
  match cook_edit c t with
  | Some t' => exists e', ed_command (tio t) (tty_pgrp t) (write_wait t) c e = Some e' /\ refines t' e'
  | None => lit e = true \/
      ((c =? cc VERASE t) || (c =? cc VKILL t) || ((c =? cc VWERASE t) && L_ IEXTEN t) = false /\
       (c =? cc VLNEXT t) && L_ IEXTEN t = false /\ (c =? cc VREPRINT t) && L_ ECHO t && L_ IEXTEN t = false)
  end.
Proof using Type.
  intros R. unfold cook_edit, ed_command. rewrite (re_canon t e R), (re_lit t e R). cbn [negb orb].
  destruct (lit e); [by left |]. unfold L_, cc.
  destruct (_ || _ || _); [eexists; split; [done |]; by apply eraser_refines |].
  destruct (_ && _) eqn:E2.
  { eexists. split; [done |]. eapply refines_part.
    2: { instantiate (1 := t <| lnext := true |>). destruct R; by constructor. }
    cbv zeta. destruct (flag _ ECHO); [| done]. destruct (flag _ ECHOCTL); rewrite ?out_part, end_erasing_part; done. }
  destruct (_ && _ && _) eqn:E3.
  { eexists. split; [done |]. eapply refines_part; [| exact R]. by rewrite reprint_part, out_part, echo_part, end_erasing_part. }
  by right.
Qed.

Lemma command_refines c t e :
  refines t e ->
  refines_opt
    (match cook_edit c t with
     | Some t => Some t
     | None => match cook_flow c t with Some t => Some t | None => cook_signal c t end
     end)
    (ed_command (tio t) (tty_pgrp t) (write_wait t) c e).
Proof using Type.
  intros R. pose proof (cook_edit_refines c t e R) as He. destruct (cook_edit c t) as [t' |].
  { destruct He as (e' & -> & R'). exact R'. }
  pose proof (cook_flow_refines c t e R) as Hf. unfold ed_command, cook_signal. rewrite (re_lit t e R).
  destruct (lit e) eqn:El.
  { destruct (cook_flow c t); [by destruct Hf as (_ & Hl & _) |]. by rewrite orb_true_r. }
  destruct He as [He | (E1 & E2 & E3)]; [done |].
  unfold I_, L_, cc in *. rewrite E1, E2, E3.
  destruct (cook_flow c t) as [t' |].
  { destruct Hf as (-> & _ & Hf). cbn [andb].
    destruct ((halted e && _ && _) || _); [exact Hf |]. destruct Hf as [-> Hf]. by rewrite Z.eqb_refl. }
  set (start := (halted e && _ && _) || _) in *. set (stop := c =? znth 0 (c_cc (tio t)) VSTOP) in *.
  assert (flag (c_iflag (tio t)) IXON && start = false /\ flag (c_iflag (tio t)) IXON && stop = false) as [-> ->].
  { destruct (flag _ IXON); [| done]. cbn [andb]. by apply Hf. }
  destruct (flag _ ISIG); [| done]. cbn [negb orb andb].
  destruct (c =? znth 0 _ VINTR); [by apply isig_refines |].
  destruct (c =? znth 0 _ VQUIT); [by apply isig_refines |].
  destruct (c =? znth 0 _ VSUSP); [| done]. rewrite (re_kern t e R).
  destruct (is_orphaned_pgrp _ _); [done | by apply isig_refines].
Qed.

(** A byte 0377 that is doubled does not end a line. *)
Definition eol_ok (m : termios) : Prop :=
  flag (c_iflag m) PARMRK = true -> znth 0 (c_cc m) VEOL <> 255 /\ znth 0 (c_cc m) VEOL2 <> 255.

Lemma cook_store_refines c t e :
  refines t e -> 0 < room e -> eol_ok (tio t) -> refines (cook_store c t) (ed_data (tio t) c e).
Proof using Type.
  intros R Hroom Heol. unfold cook_store, ed_data. cbv zeta. unfold I_, cc, L_. rewrite (re_lit t e R).
  pose proof (re_canon t e R) as Hcan. unfold L_ in Hcan. rewrite Hcan. cbn [negb].
  rewrite orb_false_r.
  set (dup := flag _ PARMRK && _ && _).
  set (t1 := if dup then put_secondary c t else t). set (e1 := if dup then push c e else e).
  assert (refines t1 e1 /\ tio t1 = tio t /\ lnext t1 = lit e /\ lit e1 = lit e) as (R1 & Et & El & El').
  { pose proof (re_lit t e R). unfold t1, e1, push. destruct dup; [| done]. split_and!; try done; [by apply push_refines |].
    by destruct (0 <? room e). }
  assert (dup = false -> e1 = e) as He1 by (unfold e1; by intros ->).
  assert (negb (lit e) && ed_ends (tio t) c = true -> dup = false) as Hdup.
  { intros [Hl He]%andb_prop. apply negb_true_iff in Hl. unfold dup. rewrite Hl.
    destruct (flag _ PARMRK) eqn:Ep; [| done]. destruct (Heol Ep) as [H1 H2].
    destruct (Z.eqb_spec c 255) as [-> |]; [| done]. unfold ed_ends in He. cbn [andb orb].
    destruct (255 =? znth 0 (c_cc (tio t)) VEOF); [done |].
    destruct (Z.eqb_spec 255 (znth 0 (c_cc (tio t)) VEOL)); [done |].
    by destruct (Z.eqb_spec 255 (znth 0 (c_cc (tio t)) VEOL2)). }
  clearbody t1 e1 dup. rewrite Et, El, El', Hcan. cbn [andb].
  assert (ends_line c t1 = ed_ends (tio t) c) as ->.
  { unfold ends_line, ed_ends, cc, L_. by rewrite Et. }
  assert (forall t' e', refines t' e' -> refines (t' <| lnext := false |>) (e' <| lit := false |>)) as Hend
    by (intros ? ? []; by constructor).
  destruct (_ && _) eqn:E; apply Hend; [| by apply push_refines].
  rewrite (He1 (Hdup eq_refl)) in *. by apply finish_refines.
Qed.

Lemma cook_char_refines c special t e :
  refines t e -> 0 < room e -> eol_ok (tio t) ->
  refines (cook_char c special t) (ed_char (tio t) (tty_pgrp t) (write_wait t) c special e).
Proof using Type.
  intros R Hroom Heol. unfold cook_char, ed_char. destruct special; [destruct R; by constructor |].
  pose proof (cook_error_refines c t e R) as He. unfold refines_opt in He.
  destruct (cook_error c t), (ed_error (tio t) c e); try done. clear He.
  pose proof (cook_map_refines c t e R) as Hm.
  destruct (cook_map c t) as [[c1 t1] |], (key (tio t) c (lit e)) as [c2 |]; try done.
  destruct Hm as (-> & E1 & E2 & E3 & R1). cbv zeta.
  set (e1 := if c2 =? _ then _ else _) in *. assert (room e1 = room e) as Hr by (unfold e1; by destruct (_ =? _)).
  clearbody e1. rewrite <- Hr in Hroom. rewrite <- E1 in *. rewrite <- E2, <- E3. clear dependent t. clear e Hr.
  pose proof (command_refines c2 t1 e1 R1) as Hc. unfold refines_opt in Hc.
  destruct (cook_edit c2 t1); [by destruct (ed_command _ _ _ _ _) |].
  destruct (cook_flow c2 t1); [by destruct (ed_command _ _ _ _ _) |].
  destruct (cook_signal c2 t1), (ed_command _ _ _ _ _); try done.
  pose proof (cook_echo_part c2 t1) as Hp.
  assert (tio (cook_echo c2 t1) = tio t1) as <- by by injection Hp.
  apply cook_store_refines; [by eapply refines_part | done |]. by assert (tio (cook_echo c2 t1) = tio t1) as -> by by injection Hp.
Qed.

(** ** The loop *)

(** What no input changes. *)
Definition static (t : tty_struct) := (tio t, tty_pgrp t, (read_wait t, write_wait t)).

Lemma part_static t t' : input_part t' = input_part t -> static t' = static t.
Proof using Type. unfold input_part, static. intros [= -> -> _ _ _ _ _ _ _ _ _ -> -> _]. done. Qed.

Lemma silent_static f t : silent f -> static (f t) = static t.
Proof using Type. intros Hf. by apply part_static. Qed.

Lemma erase_loop_static kt fuel : forall seen t, static (erase_loop fuel kt seen t) = static t.
Proof using Type.
  induction fuel as [| fuel IH]; intros seen t; cbn [erase_loop]; [done |]. cbv zeta.
  destruct (_ =? _); [done |]. destruct (_ && _ && _); [done |].
  destruct (bool_decide (kt = ERASE)); rewrite ?IH; by rewrite (silent_static _ _ (erase_echo_part _)).
Qed.

Lemma eraser_static c t : static (eraser c t) = static t.
Proof using Type.
  unfold eraser. cbv zeta.
  assert (forall kt, static (if erasing (erase_loop 1024 kt false t) &&
      (head (secondary (erase_loop 1024 kt false t)) =? canon_head (erase_loop 1024 kt false t))
    then out 47 (erase_loop 1024 kt false t) <| erasing := false |> else erase_loop 1024 kt false t) = static t) as Hk.
  { intros kt. rewrite <- (erase_loop_static kt 1024 false t). generalize (erase_loop 1024 kt false t). intros t'.
    destruct (_ && _); [| done]. exact (part_static _ _ (out_part 47 t')). }
  destruct (_ =? _); [done |]. destruct (c =? _); [apply Hk |]. destruct (c =? _); [apply Hk |].
  destruct (negb (L_ ECHO t)); [done |]. destruct (_ || _); [| apply Hk].
  set (t' := t <| secondary ::= _ |>). change (static t) with (static t').
  destruct (L_ ECHOK _); rewrite ?(silent_static _ _ (out_part _)), (silent_static _ _ (echo_part _)); apply part_static, end_erasing_part.
Qed.

Lemma isig_static sig t : static (isig sig t) = static t.
Proof using Type. unfold isig. cbv zeta. by destruct (L_ NOFLSH _). Qed.

Lemma cook_store_static c t : static (cook_store c t) = static t.
Proof using Type. unfold cook_store. cbv zeta. repeat match goal with |- context [if ?b then _ else _] => destruct b end; done. Qed.

Lemma cook_error_static c t : match cook_error c t with Some t' => static t' = static t | None => True end.
Proof using Type.
  unfold cook_error. cbv zeta. repeat match goal with |- context [if ?b then _ else _] => destruct b end; done.
Qed.

Lemma cook_map_static c t : match cook_map c t with Some (_, t') => static t' = static t | None => True end.
Proof using Type. unfold cook_map. cbv zeta. destruct (if lnext t then _ else _); [| done]. by destruct (_ =? _). Qed.

Lemma cook_edit_static c t : match cook_edit c t with Some t' => static t' = static t | None => True end.
Proof using Type.
  unfold cook_edit. destruct (_ || _); [done |]. destruct (_ || _); [apply eraser_static |]. destruct (_ && _).
  { cbv zeta. change (static t) with (static (t <| lnext := true |>)). set (t1 := t <| lnext := true |>).
    destruct (L_ ECHO _); [| done]. destruct (L_ ECHOCTL _); apply part_static; rewrite ?out_part; apply end_erasing_part. }
  destruct (_ && _); [| done]. apply part_static. by rewrite reprint_part, out_part, echo_part, end_erasing_part.
Qed.

Lemma cook_flow_static c t : match cook_flow c t with Some t' => static t' = static t | None => True end.
Proof using Type.
  unfold cook_flow, start_tty, stop_tty. destruct (negb _ || _); [done |]. destruct (_ || _).
  { destruct (negb (stopped t)); [done |]. cbv zeta. set (t1 := emit_tty _ _). change (static t) with (static t1).
    destruct (IS_A_CONSOLE _); [etrans; [| apply (silent_static _ _ flush_part)]; done | apply (silent_static _ _ flush_part)]. }
  destruct (c =? _); [| done]. destruct (stopped t); [done |]. by destruct (IS_A_CONSOLE _).
Qed.

Lemma cook_signal_static c t : match cook_signal c t with Some t' => static t' = static t | None => True end.
Proof using Type.
  unfold cook_signal. destruct (negb _ || _); [done |]. destruct (c =? _); [apply isig_static |].
  destruct (c =? _); [apply isig_static |]. destruct (c =? _); [| done]. destruct (is_orphaned_pgrp _ _); [done | apply isig_static].
Qed.

Lemma cook_char_static c special t : static (cook_char c special t) = static t.
Proof using Type.
  unfold cook_char. destruct special; [done |]. pose proof (cook_error_static c t). destruct (cook_error c t); [done |].
  pose proof (cook_map_static c t) as Hm. destruct (cook_map c t) as [[c' t'] |]; [| done]. rewrite <- Hm.
  pose proof (cook_edit_static c' t'). destruct (cook_edit c' t'); [done |].
  pose proof (cook_flow_static c' t'). destruct (cook_flow c' t'); [done |].
  pose proof (cook_signal_static c' t'). destruct (cook_signal c' t'); [done |].
  rewrite cook_store_static. apply silent_static, cook_echo_part.
Qed.

Lemma push_inq c e : inq (push c e) = inq e.
Proof using Type. unfold push. by destruct (0 <? room e). Qed.

Lemma ed_char_inq m pg ww c special e : (length (inq (ed_char m pg ww c special e)) <= length (inq e))%nat.
Proof using Type.
  assert (forall sig e, (length (inq (ed_isig m pg ww sig e)) <= length (inq e))%nat) as Hsig.
  { intros sig e'. unfold ed_isig. cbv zeta. destruct (flag _ NOFLSH); cbn; lia. }
  unfold ed_char. destruct special; [done |].
  destruct (ed_error m c e) as [e' |] eqn:E.
  { revert E. unfold ed_error. cbv zeta. intros E.
    repeat match type of E with (if ?b then _ else _) = _ => destruct b end; try done; injection E as <-;
      repeat match goal with |- context [if ?b then _ else _] => destruct b end; rewrite ?push_inq; done. }
  destruct (key m c (lit e)) as [c' |]; [| done]. cbv zeta. set (e1 := if c' =? _ then _ else _).
  assert (inq e1 = inq e) as <- by (unfold e1; by destruct (_ =? _)). clearbody e1. clear E.
  destruct (ed_command m pg ww c' e1) as [e' |] eqn:E.
  { revert E. unfold ed_command. intros E.
    repeat match type of E with (if ?b then _ else _) = _ => destruct b end; try done; injection E as <-; try done;
      try apply Hsig. by destruct (is_orphaned_pgrp _ _). }
  unfold ed_data. cbv zeta. destruct (flag _ PARMRK && _ && _); destruct (negb _ && _); cbn; rewrite ?push_inq; done.
Qed.

Lemma cook_loop_refines fuel : forall n t e,
  refines t e -> eol_ok (tio t) -> (length (inq e) < fuel)%nat -> (length (inq e) <= n)%nat ->
  exists t', cook_loop fuel t = Some t' /\ static t' = static t /\
    refines t' (ed_run (tio t) (tty_pgrp t) (write_wait t) n e).
Proof using Type.
  induction fuel as [| fuel IH]; intros n t e R Heol Hf Hn; [lia |]. cbn [cook_loop].
  rewrite (refines_left t e R). set (t1 := if drv_throttles && _ && _ then _ else _).
  assert (input_part t1 = input_part t) as Ep by (unfold t1; by destruct (_ && _ && _)).
  pose proof (part_static _ _ Ep) as Est. apply (refines_part _ _ _ Ep) in R. clearbody t1. rewrite <- Est.
  assert (tio t1 = tio t /\ tty_pgrp t1 = tty_pgrp t /\ write_wait t1 = write_wait t) as (E1 & E2 & E3) by by injection Est.
  rewrite <- E1, <- E2, <- E3 in *. clear dependent t.
  destruct n as [| n]; cbn [ed_run].
  { assert (inq e = []) as E by (destruct (inq e); [done | cbn in Hn; lia]).
    destruct (room e =? 0); [by eexists |].
    assert (EMPTY (tread_q t1) = true) as -> by (apply (empty_marked _ (readq_flags t1)); [apply R | by rewrite (re_inq t1 e R)]).
    by eexists. }
  pose proof (refines_room t1 e R). destruct (Z.eqb_spec (room e) 0); [by eexists |].
  destruct (inq e) as [| [c special] l] eqn:E.
  { assert (EMPTY (tread_q t1) = true) as -> by (apply (empty_marked _ (readq_flags t1)); [apply R | by rewrite (re_inq t1 e R)]).
    by eexists. }
  assert (EMPTY (tread_q t1) = false) as ->.
  { apply not_true_iff_false. intros He. apply (empty_marked _ (readq_flags t1)) in He; [| apply R].
    by rewrite (re_inq t1 e R), E in He. }
  destruct (get_marked (tread_q t1) (readq_flags t1) (c, special) l) as [Hx (H1 & H2 & H3)];
    [apply R | apply R | by rewrite (re_inq t1 e R) |].
  unfold entry in Hx. rewrite Z.add_0_r, mask_small in Hx by apply (re_rq t1 e R). injection Hx as -> ->.
  set (t2 := t1 <| readq_flags ::= _ |> <| tread_q ::= _ |>).
  assert (refines t2 (e <| inq := l |>)) as R2 by (destruct R; constructor; done).
  pose proof (cook_char_refines c special t2 _ R2) as Rc. change (tio t2) with (tio t1) in Rc.
  pose proof (cook_char_static c special t2) as Hst. change (static t2) with (static t1) in Hst.
  change (tty_pgrp t2) with (tty_pgrp t1) in Rc. change (write_wait t2) with (write_wait t1) in Rc.
  assert (tio (cook_char c special t2) = tio t1 /\ tty_pgrp (cook_char c special t2) = tty_pgrp t1 /\
    write_wait (cook_char c special t2) = write_wait t1) as (F1 & F2 & F3) by by injection Hst.
  pose proof (ed_char_inq (tio t1) (tty_pgrp t1) (write_wait t1) c special (e <| inq := l |>)) as Hq.
  change (inq (e <| inq := l |>)) with l in Hq.
  cbn [length] in Hf, Hn.
  destruct (IH n (cook_char c special t2) _ (Rc ltac:(unfold room in *; cbn; lia) Heol)) as (t' & -> & Hst' & R');
    [by rewrite F1 | lia | lia |].
  exists t'. rewrite F1, F2, F3 in R'. split_and!; [done | by rewrite Hst', Hst | exact R'].
Qed.

(** ** Reading *)

Lemma has_input_spec t e : refines t e -> has_input t = negb (bool_decide (elines e = [])).
Proof using Type.
  intros []. unfold has_input. rewrite re_canon0, re_data0. destruct re_complete0 as [-> | (l & c & ->)]; [done |].
  rewrite bool_decide_false by by destruct l. rewrite marks_app. change (marks [(c, true)]) with 1.
  pose proof (marks_le l). unfold ctrue. destruct (Z.eqb_spec (marks l + 1) 0); [lia | done].
Qed.

Lemma kern_refines t e k : refines t e -> refines (t <| kern := k |>) (e <| ek := k |>).
Proof using Type. intros []. by constructor. Qed.

Lemma copy_to_cooked_sim t e :
  refines t e -> eol_ok (tio t) ->
  exists t', copy_to_cooked t = Some t' /\ static t' = static t /\
    refines t' (ed_cook (tio t) (tty_pgrp t) (write_wait t) (read_wait t) e).
Proof using Type.
  intros R Heol. unfold copy_to_cooked.
  assert (length (inq e) < S (Z.to_nat (CHARS (tread_q t))))%nat as Hl.
  { rewrite <- (re_inq t e R). pose proof (marked_length (tread_q t) (readq_flags t)). lia. }
  destruct (cook_loop_refines _ (length (inq e)) t e R Heol Hl ltac:(lia)) as (t1 & -> & Est & R1).
  cbn [mbind option_bind]. cbv zeta. pose proof (silent_static _ t1 flush_part) as Es. rewrite Est in Es.
  apply (refines_part _ _ _ (flush_part t1)) in R1. generalize dependent (tty_write_flush t1). clear t1 Est. intros t1 R1 Es.
  eexists. split; [done |]. unfold ed_cook. cbv zeta. rewrite (has_input_spec _ _ R1).
  set (e1 := ed_run _ _ _ _ _) in *. clearbody e1.
  set (t2 := if negb _ then _ else _).
  assert (refines t2 (if bool_decide (elines e1 = []) then e1 else e1 <| ek ::= wake_up_interruptible (read_wait t) |>)) as R2.
  { unfold t2. destruct (bool_decide _); cbn [negb]; [done |].
    assert (read_wait t1 = read_wait t) as -> by by injection Es.
    pose proof (kern_refines t1 e1 (wake_up_interruptible (read_wait t) (kern t1)) R1) as Rk.
    replace (e1 <| ek ::= wake_up_interruptible (read_wait t) |>) with
      (e1 <| ek := wake_up_interruptible (read_wait t) (kern t1) |>) by (rewrite (re_kern t1 e1 R1); by destruct e1).
    exact Rk. }
  assert (static t2 = static t) as Es2 by (unfold t2; by destruct (negb _)). clearbody t2.
  destruct (_ && _ && _); [| done]. split; [done |]. by eapply refines_part; [| exact R2].
Qed.

Lemma filter_cons_mark (c : Z) (b : bool) l : marks ((c, b) :: l) = (if b then 1 else 0) + marks l.
Proof using Type. clear. unfold marks. rewrite filter_cons. cbn. destruct b; cbn [decide]; case_decide; cbn [length]; try done; lia. Qed.

Lemma complete_tail x l : complete (x :: l) -> complete l.
Proof using Type.
  clear. intros [? | (l' & c & E)]; [done |]. destruct l' as [| y l']; cbn in E; injection E as -> ->; [by left |].
  right. by exists l', c.
Qed.

(** One character leaves the complete lines. *)
Lemma skip_refines t e c b l :
  refines t e -> elines e = (c, b) :: l ->
  EMPTY (secondary t) = false /\ znth 0 (buf (secondary t)) (tail (secondary t)) = c /\
  bool_decide (tail (secondary t) ∈ secondary_flags t) = b /\
  refines (t <| secondary_flags ::= fun f => f ∖ {[ tail (secondary t) ]} |>
    <| secondary ::= fun q => q <| tail ::= INC |> |>
    <| canon_data ::= fun n => if b then n - 1 else n |>) (e <| elines := l |>).
Proof using Type.
  intros R El. pose proof R as []. assert (marked (secondary t) (secondary_flags t) = (c, b) :: l ++ unmarked (line e)) as E
    by by rewrite re_lines0, El.
  split. { apply not_true_iff_false. intros He. apply (empty_marked _ (secondary_flags t)) in He; [| done]. by rewrite E in He. }
  destruct (get_marked _ _ _ _ re_sq0 re_sin0 E) as [Hx (H1 & H2 & H3)].
  unfold entry in Hx. rewrite Z.add_0_r, mask_small in Hx by apply re_sq0. injection Hx as -> Eb.
  split; [done |]. split; [done |]. rewrite El in *.
  constructor; try done.
  - by apply complete_tail in re_complete0.
  - cbn. rewrite re_head0. cbn [length]. unfold INC. rewrite mask_mask. f_equal. lia.
  - cbn. rewrite re_data0, filter_cons_mark. destruct b; lia.
Qed.

Lemma read_chunk_refines nr : forall t e,
  refines t e -> elines e <> [] ->
  exists t', read_chunk nr t = ((first_line nr (elines e)).1, (nr - length (first_line nr (elines e)).1)%nat, t') /\
    refines t' (e <| elines := (first_line nr (elines e)).2 |>).
Proof using Type.
  induction nr as [| nr IH]; intros t e R Hne; (destruct (elines e) as [| [c b] l] eqn:El; [done |]);
    destruct (skip_refines t e c b l R El) as (He & Hc & Hb & R1); cbn [read_chunk first_line]; rewrite He, Hb, Hc; cbv zeta.
  - destruct b; cbn [andb].
    + destruct (c =? __DISABLED_CHAR); cbn [fst snd].
      * eexists. split; [done |]. assert (s32 (canon_data t - 1) = canon_data t - 1) as Es.
        { rewrite (re_data t e R). pose proof (marks_le (elines e)). pose proof (refines_room t e R). unfold room in *.
          apply s32_small. lia. }
        replace (e <| elines := l |>) with (e <| elines := l |>) by done.
        eapply refines_part; [| exact R1]. unfold input_part. cbn. by rewrite Es.
      * eexists. split; [done |]. replace (e <| elines := (c, true) :: l |>) with e; [done |]. destruct e; cbn in *. by subst.
    + cbn [fst snd]. eexists. split; [done |]. replace (e <| elines := (c, false) :: l |>) with e by (destruct e; cbn in *; by subst).
      eapply refines_part; [| exact R]. unfold input_part. cbn.
      apply bool_decide_eq_false in Hb. by rewrite (difference_disjoint_L (secondary_flags t)) by set_solver.
  - destruct b.
    + assert (Z.max 0 (s32 (canon_data t - 1)) = canon_data t - 1) as Es.
      { rewrite (re_data t e R), El, filter_cons_mark. pose proof (marks_le l). pose proof (refines_room t e R) as Hr.
        unfold room in Hr. rewrite El in Hr. cbn [length] in Hr. rewrite s32_small; lia. }
      destruct (c =? __DISABLED_CHAR); cbn [fst snd length]; eexists;
        (split; [f_equal; f_equal; lia |]); (eapply refines_part; [| exact R1]); unfold input_part; cbn; by rewrite Es.
    + destruct l as [| x l'] eqn:El'.
      { exfalso. destruct (re_complete t e R) as [Hx | (l0 & c0 & Hx)]; rewrite El in Hx; [done |].
        destruct l0 as [| ? []]; by simplify_eq/=. }
      rewrite <- El' in *. destruct (IH _ _ R1) as (t' & E & R'); [by rewrite El' |]. change (elines (e <| elines := l |>)) with l in E, R'.
      match type of E with read_chunk nr ?a = _ => match goal with |- context [read_chunk nr ?b] =>
        replace b with a by by destruct t end end.
      rewrite E. destruct (first_line nr l) as [d rest]. cbn [fst snd] in *. eexists. split; [done |]. exact R'.
Qed.

Lemma with_cur_refines f t e : refines t e -> refines (with_cur f t) (e <| ek := kern (with_cur f t) |>).
Proof using Type. intros []. by constructor. Qed.

Lemma ek_idem e k k' : (e <| ek := k |>) <| ek := k' |> = e <| ek := k' |>.
Proof using Type. done. Qed.
Lemma ek_same e k : ek e = k -> e <| ek := k |> = e.
Proof using Type. intros <-. by destruct e. Qed.

(** The state after the terminal has looked for input. *)
Lemma input_available_refines t e :
  refines t e -> eol_ok (tio t) -> Z.testbit (tty_flags t) TTY_READ_BUSY = false ->
  let e1 := if bool_decide (elines e = []) then ed_cook (tio t) (tty_pgrp t) (write_wait t) (read_wait t) e else e in
  exists t1, input_available_p t = Some (negb (bool_decide (elines e1 = [])), t1) /\ refines t1 e1 /\ static t1 = static t.
Proof using Type.
  intros R Heol Hb. unfold input_available_p. rewrite (has_input_spec t e R). destruct (bool_decide (elines e = [])) eqn:E; cbn [negb].
  2: { cbv zeta. rewrite E. by exists t. }
  cbv zeta. unfold tty_read_flush. destruct (EMPTY (tread_q t)) eqn:Ee.
  - assert (inq e = []) as Eq.
    { rewrite <- (re_inq t e R). by apply empty_marked; [apply R |]. }
    unfold ed_cook. rewrite Eq. cbn [length ed_run]. cbv zeta. rewrite E. exists t. cbn [mbind option_bind].
    by rewrite (has_input_spec t e R), E.
  - rewrite Hb. destruct (copy_to_cooked_sim t e R Heol) as (t1 & -> & Est & R1). cbn [mbind option_bind].
    exists t1. by rewrite (has_input_spec _ _ R1).
Qed.

(** The rest of a read when there is a line. *)
Lemma read_end_refines retval data t e :
  refines t e ->
  exists t', read_end retval data t =
      TtyReadDone (if ctrue (Z.of_nat (length data)) then Z.of_nat (length data) else retval) data t' /\
    refines t' (e <| ek := kern t' |>).
Proof using Type. intros R. eexists. split; [done |]. by apply with_cur_refines. Qed.

(** What a read returns: [e] is the editor after the terminal has looked for
    input. *)
Definition read_result (nr : nat) (e : ed) (r : option tty_read_step) : Prop :=
  match elines e with
  | [] =>
      exists t' e', refines t' e' /\ e' = e <| ek := kern t' |> /\
        ((exists err, r = Some (TtyReadDone err [] t') /\ err ∈ [0; - EIO; - EAGAIN; - ERESTARTSYS]) \/
         (exists minimum time, r = Some (TtyReadSleeps minimum time [] nr t')))
  | l =>
      let '(data, rest) := first_line nr l in
      exists t', r = Some (TtyReadDone (Z.of_nat (length data)) data t') /\
        refines t' (e <| elines := rest |> <| ek := kern t' |>)
  end.

Lemma read_loop_refines fuel hung_up nonblock time nr t e :
  refines t e -> eol_ok (tio t) -> Z.testbit (tty_flags t) TTY_READ_BUSY = false ->
  exists k, let e0 := e <| ek := k |> in
    let e1 := if bool_decide (elines e = []) then ed_cook (tio t) (tty_pgrp t) (write_wait t) (read_wait t) e0 else e0 in
    read_result nr e1 (read_loop (S fuel) hung_up nonblock 0 time [] nr t).
Proof using Type.
  intros R Heol Hb. cbn [read_loop]. set (t0 := with_cur _ t). exists (kern t0).
  assert (refines t0 (e <| ek := kern t0 |>)) as R0 by by apply with_cur_refines.
  cbv zeta. destruct (input_available_refines t0 _ R0 Heol Hb) as (t1 & -> & R1 & _). cbn [mbind option_bind].
  change (elines (e <| ek := kern t0 |>)) with (elines e) in *.
  change (tio t0) with (tio t) in *. change (tty_pgrp t0) with (tty_pgrp t) in *.
  change (write_wait t0) with (write_wait t) in *. change (read_wait t0) with (read_wait t) in *.
  set (e1 := if bool_decide (elines e = []) then _ else _) in *. clearbody e1 t0. clear R0 R Hb Heol. unfold read_result.
  destruct (elines e1) as [| x l] eqn:El.
  - rewrite bool_decide_true by done. cbn [negb].
    assert (forall r, r ∈ [0; - EIO; - EAGAIN; - ERESTARTSYS] ->
      exists t' e', refines t' e' /\ e' = e1 <| ek := kern t' |> /\
        ((exists err, Some (read_end r [] t1) = Some (TtyReadDone err [] t') /\ err ∈ [0; - EIO; - EAGAIN; - ERESTARTSYS]) \/
         (exists minimum tm, Some (read_end r [] t1) = Some (TtyReadSleeps minimum tm [] nr t')))) as Hend.
    { intros r Hr. destruct (read_end_refines r [] t1 e1 R1) as (t' & -> & R'). exists t'. eexists. split; [exact R' |].
      split; [done |]. left. by exists r. }
    destruct (Z.testbit _ TTY_SLAVE_CLOSED); [apply Hend; set_solver |].
    destruct hung_up; [apply Hend; set_solver |]. destruct (ctrue (timeout _)); cbn [negb]; [| apply Hend; set_solver].
    destruct nonblock; [apply Hend; set_solver |]. destruct (signal_pending _); [apply Hend; set_solver |].
    exists t1, e1. split_and!; [done | |].
    + symmetry. apply ek_same. symmetry. by rewrite (re_kern t1 e1 R1).
    + right. by exists 0, time.
  - rewrite bool_decide_false by done. cbn [negb]. rewrite <- El. set (t2 := with_cur _ t1).
    pose proof (with_cur_refines (fun p => p <| state := TASK_RUNNING |>) t1 e1 R1) as R2. fold t2 in R2.
    destruct (read_chunk_refines nr t2 _ R2) as (t3 & -> & R3); [cbn; by rewrite El |].
    change (elines (e1 <| ek := kern t2 |>)) with (elines e1) in *.
    destruct (first_line nr (elines e1)) as [data rest]. cbn [fst snd] in *. cbn [app].
    set (t4 := if drv_throttles && _ && _ then _ else t3).
    assert (refines t4 (e1 <| ek := kern t2 |> <| elines := rest |>)) as R4.
    { eapply refines_part; [| exact R3]. unfold t4. by destruct (_ && _ && _). }
    clearbody t4. destruct (Z.leb_spec 0 (Z.of_nat (length data))); [| lia]. cbn [orb].
    destruct (read_end_refines 0 data t4 _ R4) as (t' & -> & R'). exists t'. split; [| exact R'].
    do 2 f_equal. unfold ctrue. by destruct (Z.eqb_spec (Z.of_nat (length data)) 0) as [-> |].
Qed.
End input.

(** * Output *)

(** What a character becomes, and the column after it. *)
Definition posted (m : termios) (col c : Z) : list Z * Z :=
  let om x := flag (c_oflag m) x in
  if negb (om OPOST) then ([u8 c], col)
  else if c =? 10 then
    if om ONLCR then ([13; 10], 0) else ([10], if om ONLRET then 0 else col)
  else if c =? 13 then
    if om ONOCR && (col =? 0) then ([], 0)
    else if om OCRNL then ([10], if om ONLRET then 0 else col) else ([13], 0)
  else if c =? 9 then
    if Z.land (c_oflag m) TABDLY =? XTABS then
      (replicate (Z.to_nat (8 - col mod 8)) 32, u32 (col + (8 - col mod 8)))
    else ([9], u32 (Z.lor col 7 + 1))
  else if c =? 8 then ([8], if 0 <? col then col - 1 else col)
  else
    let c := if om OLCUC then u8 (toupper_char c) else c in
    ([u8 c], if iscntrl c then col else u32 (col + 1)).

Fixpoint posts (m : termios) (col : Z) (l : list Z) : list Z * Z :=
  match l with
  | [] => ([], col)
  | c :: l =>
      let '(b, col) := posted m col c in
      let '(bs, col) := posts m col l in (b ++ bs, col)
  end.

Section output.
Context `{TtyDriver}.

(** Everything that has been output, taken by the driver or not yet. *)
Definition output (t : tty_struct) : list Z := sent t ++ contents (write_q t).

Definition out_ok (t : tty_struct) : Prop := queue_ok (write_q t) /\ 0 <= column t < 2 ^ 32.

(** [t'] is [t] with [b] more bytes of output and the column [col]. *)
Definition writes (t : tty_struct) (b : list Z) (col : Z) (t' : tty_struct) : Prop :=
  out_ok t' /\ output t' = output t ++ b /\ column t' = col /\ tio t' = tio t /\ tty_flags t' = tty_flags t.

Lemma put_write_spec c t :
  out_ok t -> 0 < LEFT (write_q t) ->
  writes t [u8 c] (column t) (put_write c t) /\ LEFT (write_q (put_write c t)) = LEFT (write_q t) - 1.
Proof using Type.
  intros [Hq Hc] Hl. destruct (put_tty_queue_spec (u8 c) (write_q t) Hq) as [H1 H2].
  destruct (Z.ltb_spec 0 (LEFT (write_q t))) as [_ |]; [| lia]. split.
  - split_and!; try done. unfold output. cbn. by rewrite H2, app_assoc.
  - cbn. rewrite !left_spec by done. rewrite H2, length_app. cbn [length]. lia.
Qed.

Lemma column_writes t b col t' col' : writes t b col t' -> 0 <= col' < 2 ^ 32 -> writes t b col' (t' <| column := col' |>).
Proof using Type. intros ([] & ? & ? & ? & ?) ?. by split_and!. Qed.

Lemma writes_app t b col t' b' col' t'' : writes t b col t' -> writes t' b' col' t'' -> writes t (b ++ b') col' t''.
Proof using Type.
  intros (? & E1 & ? & E2 & F2) (? & E3 & ? & E4 & F4). split_and!; try done; [by rewrite E3, E1, app_assoc | congruence | congruence].
Qed.

Lemma opost_tab_spec k n : forall t,
  out_ok t -> Z.of_nat n = 8 - column t mod 8 -> Z.of_nat n <= LEFT (write_q t) ->
  writes t (replicate n 32) (u32 (column t + Z.of_nat n)) (opost_tab (n + k) t).
Proof using Type.
  induction n as [| n IH]; intros t Hok Hn Hl; [pose proof (Z.mod_pos_bound (column t) 8); lia |].
  cbn [opost_tab Nat.add]. destruct (put_write_spec 32 t Hok) as [Hp Hp']; [lia |].
  set (c1 := u32 (column t + 1)). assert (0 <= c1 < 2 ^ 32) as Hc1 by apply Z.mod_pos_bound, eq_refl.
  pose proof (column_writes _ _ _ _ c1 Hp Hc1) as H1.
  set (t1 := put_write 32 t <| column ::= _ |>). change (put_write 32 t <| column := c1 |>) with t1 in H1.
  change (column t1) with c1. assert (c1 mod 8 = (column t + 1) mod 8) as Em.
  { unfold c1, u32, uwrap. change (2 ^ 32) with (8 * 2 ^ 29). rewrite Z.rem_mul_r by done.
    rewrite Z.mul_comm, Z.mod_add by done. by apply Zmod_mod. }
  rewrite Em. unfold ctrue. destruct (Z.eqb_spec ((column t + 1) mod 8) 0) as [E0 | Hne]; cbn [negb].
  - assert (n = O) as -> by (Z.to_euclidean_division_equations; lia). exact H1.
  - replace (u32 (column t + Z.of_nat (S n))) with (u32 (c1 + Z.of_nat n)).
    2: { unfold c1, u32, uwrap. rewrite Zplus_mod_idemp_l. f_equal. lia. }
    change (replicate (S n) 32) with ([32] ++ replicate n 32).
    eapply writes_app; [exact H1 |]. change (column t1) with c1.
    apply IH; [by destruct H1 | | change (write_q t1) with (write_q (put_write 32 t)); lia].
    change (column t1) with c1. rewrite Em. Z.to_euclidean_division_equations; lia.
Qed.

Lemma writes_nil t : out_ok t -> writes t [] (column t) t.
Proof using Type. intros Hok. split_and!; try done. by rewrite app_nil_r. Qed.

(** One byte after a change of the column. *)
Lemma put_writes c t t0 b col :
  out_ok t -> 0 < LEFT (write_q t) -> write_q t0 = write_q t -> sent t0 = sent t -> tio t0 = tio t ->
  tty_flags t0 = tty_flags t -> b = [u8 c] -> column t0 = col -> 0 <= col < 2 ^ 32 ->
  writes t b col (put_write c t0).
Proof using Type.
  intros Hok Hl E1 E2 E3 E4 -> <- Hc. destruct (put_write_spec c t0) as [(H1 & H2 & H3 & H4 & H5) _].
  { split; [rewrite E1; apply Hok | done]. } { by rewrite E1. }
  split_and!; try done. rewrite H2. unfold output. by rewrite E1, E2.
Qed.

Lemma u32_range z : 0 <= u32 z < 2 ^ 32.
Proof using Type. clear. by apply Z.mod_pos_bound. Qed.

(** [opost] outputs what a character becomes, or fails for lack of room and
    outputs nothing. *)
Lemma opost_spec c t :
  out_ok t ->
  let '(b, col) := posted (tio t) (column t) c in
  let '(r, t') := opost c t in
  (r = 0 /\ writes t b col t') \/
  (r = -1 /\ LEFT (write_q t) < 8 /\ exists col0, writes t [] col0 t' /\ posted (tio t) col0 c = (b, col)).
Proof using Type.
  intros Hok. pose proof Hok as [Hq Hcol]. destruct (posted (tio t) (column t) c) as [b col] eqn:Ep.
  assert (forall col0, 0 <= col0 < 2 ^ 32 -> LEFT (write_q t) < 8 -> posted (tio t) col0 c = (b, col) ->
    (-1 = 0 /\ writes t b col (t <| column := col0 |>)) \/
    (-1 = -1 /\ LEFT (write_q t) < 8 /\ exists col1, writes t [] col1 (t <| column := col0 |>) /\ posted (tio t) col1 c = (b, col)))
    as Hfail.
  { intros col0 Hc0 Hl Hp. right. split_and!; [done | done |]. exists col0. split; [| done].
    apply (column_writes t [] (column t)); [by apply writes_nil | done]. }
  assert (t <| column := column t |> = t) as Eid by by destruct t.
  assert (0 <= 0 < 2 ^ 32) as Hz by done.
  unfold opost. cbv zeta. pose proof (mask_bounds (tail (write_q t) - head (write_q t) - 1)) as Hleft.
  fold (LEFT (write_q t)) in Hleft. unfold FULL. destruct (Z.eqb_spec (LEFT (write_q t)) 0).
  { pose proof (Hfail (column t) Hcol ltac:(lia) Ep) as Hf. by rewrite Eid in Hf. }
  assert (0 < LEFT (write_q t)) as Hl by lia. clear Hleft n.
  unfold O_. unfold posted in Ep.
  destruct (flag (c_oflag (tio t)) OPOST) eqn:Epost; cbn [negb] in *.
  2: { injection Ep as <- <-. left. split; [done |]. by apply put_writes. }
  destruct (Z.eqb_spec c 10) as [-> |].
  { set (c0 := if flag (c_oflag (tio t)) ONLRET then 0 else column t).
    replace (if flag (c_oflag (tio t)) ONLRET then t <| column := 0 |> else t) with (t <| column := c0 |>)
      by (unfold c0; by destruct (flag _ ONLRET)).
    assert (0 <= c0 < 2 ^ 32) as Hc0 by (unfold c0; by destruct (flag _ ONLRET)).
    fold c0 in Ep. clearbody c0. change (tio (t <| column := c0 |>)) with (tio t).
    change (write_q (t <| column := c0 |>)) with (write_q t).
    destruct (flag (c_oflag (tio t)) ONLCR) eqn:Enl; injection Ep as <- <-.
    - destruct (Z.ltb_spec (LEFT (write_q t)) 2).
      + apply Hfail; [done | lia |]. unfold posted. by rewrite Epost, Enl.
      + left. split; [done |]. set (t1 := put_write 13 (t <| column := 0 |>)).
        assert (writes t [13] 0 t1) as H1 by by apply put_writes.
        apply (writes_app t [13] 0 t1 [10]); [exact H1 |].
        destruct (put_write_spec 13 t Hok Hl) as [_ Hl2].
        assert (0 < LEFT (write_q t1)) as Hl1 by (change (write_q t1) with (write_q (put_write 13 t)); lia).
        pose proof (proj1 H1) as Hok1. by apply put_writes.
    - left. split; [done |].
      by apply put_writes. }
  destruct (Z.eqb_spec c 13) as [-> |].
  { destruct (flag _ ONOCR && (column t =? 0)) eqn:Eo.
    - injection Ep as <- <-. left. split; [done |]. apply andb_prop in Eo as [_ Eo]. apply Z.eqb_eq in Eo.
      rewrite <- Eo. by apply writes_nil.
    - destruct (flag _ OCRNL); injection Ep as <- <-; left; (split; [done |]).
      + destruct (flag _ ONLRET); by apply put_writes.
      + by apply put_writes. }
  destruct (Z.eqb_spec c 9) as [-> |].
  { destruct (_ =? XTABS) eqn:Ex.
    - pose proof (Z.mod_pos_bound (column t) 8 ltac:(done)) as Hm. destruct (Z.ltb_spec (LEFT (write_q t)) 8).
      + pose proof (Hfail (column t) Hcol ltac:(lia)) as Hf. rewrite Eid in Hf. apply Hf.
        unfold posted. rewrite Epost, Ex. exact Ep.
      + injection Ep as <- <-. left. split; [done |].
        set (n8 := Z.to_nat (8 - column t mod 8)).
        replace (opost_tab 8 t) with (opost_tab (n8 + (8 - n8)) t) by (f_equal; unfold n8; lia).
        replace (u32 (column t + (8 - column t mod 8))) with (u32 (column t + Z.of_nat n8)) by (do 2 f_equal; unfold n8; lia).
        apply opost_tab_spec; [done | unfold n8; lia | unfold n8; lia].
    - injection Ep as <- <-. left. split; [done |].
      apply put_writes; try done. apply u32_range. }
  destruct (Z.eqb_spec c 8) as [-> |].
  { injection Ep as <- <-. left. split; [done |].
    destruct (Z.ltb_spec 0 (column t)); [| by apply put_writes].
    apply put_writes; try done. lia. }
  injection Ep as <- <-. left. split; [done |]. set (c' := if flag _ OLCUC then _ else c). clearbody c'.
  destruct (iscntrl c'); [by apply put_writes |].
  apply put_writes; try done. apply u32_range.
Qed.

(** ** A whole write *)

(** Two columns from which the rest of a text comes out the same. *)
Definition same_future (m : termios) (l : list Z) (c1 c2 : Z) : Prop :=
  match l with [] => c1 = c2 | x :: _ => posted m c1 x = posted m c2 x end.

Lemma same_trans m l c1 c2 c3 : same_future m l c1 c2 -> same_future m l c2 c3 -> same_future m l c1 c3.
Proof using Type. destruct l; cbn; congruence. Qed.

Lemma posts_same m l c1 c2 k : same_future m l c1 c2 -> l <> [] -> (0 < k)%nat -> posts m c1 (take k l) = posts m c2 (take k l).
Proof using Type. destruct l as [| x l], k as [| k]; try done; try lia. cbn. intros -> _ _. done. Qed.

Lemma posts_app m l1 l2 : forall col,
  posts m col (l1 ++ l2) = let '(b, c) := posts m col l1 in let '(b', c') := posts m c l2 in (b ++ b', c').
Proof using Type.
  induction l1 as [| x l1 IH]; intros col; cbn [posts app]; [by destruct (posts m col l2) |].
  destruct (posted m col x) as [b c]. rewrite IH. destruct (posts m c l1) as [b1 c1], (posts m c1 l2) as [b2 c2].
  by rewrite app_assoc.
Qed.

(** The first part of the text [l] has been output, and [rest] is to go. *)
Definition progress (l : list Z) (t t' : tty_struct) (rest : list Z) : Prop :=
  exists n, rest = drop n l /\ (n <= length l)%nat /\ out_ok t' /\ tio t' = tio t /\ tty_flags t' = tty_flags t /\
    output t' = output t ++ (posts (tio t) (column t) (take n l)).1 /\
    same_future (tio t) rest (column t') (posts (tio t) (column t) (take n l)).2.

Lemma progress_refl l t : out_ok t -> progress l t t l.
Proof using Type.
  intros Hok. exists O. split_and!; [done | lia | done | done | done | by rewrite take_0, app_nil_r |].
  rewrite take_0. cbn. by destruct l.
Qed.

Lemma progress_trans l t t1 l1 t2 l2 : progress l t t1 l1 -> progress l1 t1 t2 l2 -> progress l t t2 l2.
Proof using Type.
  intros (n & E1 & Hn & Hok1 & Et1 & Ef1 & Eo1 & Es1) (k & E2 & Hk & Hok2 & Et2 & Ef2 & Eo2 & Es2).
  rewrite Et1 in *. exists (n + k)%nat. subst l1. rewrite length_drop in Hk.
  assert (take (n + k) l = take n l ++ take k (drop n l)) as Etk by by rewrite take_take_drop.
  split_and!; [by rewrite E2, drop_drop | lia | done | congruence | congruence | |]; rewrite Etk, posts_app;
    destruct (posts (tio t) (column t) (take n l)) as [b c]; cbn [fst snd] in *.
  - destruct (posts (tio t) c (take k (drop n l))) as [b' c'] eqn:Ep. cbn [fst snd]. rewrite Eo2, Eo1, <- app_assoc. do 2 f_equal.
    destruct k as [| k]; [by cbn in Ep; injection Ep as <- <- |].
    destruct (decide (drop n l = [])) as [Hd | Hne]; [rewrite Hd in *; by cbn in Ep; injection Ep as <- <- |].
    by rewrite (posts_same _ _ (column t1) c), Ep by (done || lia).
  - destruct (posts (tio t) c (take k (drop n l))) as [b' c'] eqn:Ep. cbn [fst snd].
    destruct k as [| k].
    + rewrite drop_0 in E2. subst l2. cbn in Ep. injection Ep as <- <-. rewrite take_0 in Es2. cbn [posts snd] in Es2. by eapply same_trans.
    + destruct (decide (drop n l = [])) as [Hd | Hne].
      * rewrite Hd in *. cbn in Ep. injection Ep as <- <-. subst l2. rewrite take_nil in Es2. cbn in *. congruence.
      * by rewrite (posts_same _ _ (column t1) c), Ep in Es2 by (done || lia).
Qed.

(** A step that outputs nothing. *)
Lemma idle_progress l t t' :
  out_ok t' -> tio t' = tio t -> tty_flags t' = tty_flags t -> output t' = output t -> column t' = column t ->
  progress l t t' l.
Proof using Type.
  intros H1 H2 H3 H4 H5. exists O. cbn [drop take posts fst snd]. rewrite app_nil_r. split_and!; try done; [lia |].
  rewrite H5. by destruct l.
Qed.

Lemma drv_take_output n : forall t, out_ok t ->
  let t' := drv_take n t in
  out_ok t' /\ tio t' = tio t /\ tty_flags t' = tty_flags t /\ output t' = output t /\ column t' = column t.
Proof using Type.
  induction n as [| n IH]; intros t Hok; cbn [drv_take]; [done |]. destruct (EMPTY (write_q t)) eqn:E; [done |].
  pose proof (get_tty_queue_spec (write_q t) (proj1 Hok)) as Hg. unfold output. destruct (contents (write_q t)) as [| c l] eqn:Ec.
  { exfalso. apply not_true_iff_false in E. apply E. by apply empty_spec; [apply Hok |]. }
  destruct Hg as (q' & -> & Hq' & El). set (t1 := t <| write_q := q' |> <| sent ::= _ |>).
  destruct (IH t1) as (H1 & H2 & H3 & H4 & H5); [by split; [| apply Hok] |]. split_and!; try done.
  unfold output in H4. rewrite H4. unfold t1. cbn. by rewrite El, <- app_assoc.
Qed.

Lemma flush_progress l t : out_ok t -> progress l t (tty_write_flush t) l.
Proof using Type.
  intros Hok. unfold tty_write_flush. destruct (EMPTY _); [by apply progress_refl |].
  destruct (Z.testbit _ _); [by apply progress_refl |].
  destruct (drv_take_output (drv_room t) t Hok) as (? & ? & ? & ? & ?). by apply idle_progress.
Qed.

Lemma write_chars_progress l : forall t,
  out_ok t ->
  let '(rest, t') := write_chars l t in
  progress l t t' rest /\ (l <> [] -> 8 <= LEFT (write_q t) -> (length rest < length l)%nat).
Proof using Type.
  induction l as [| c l IH]; intros t Hok; cbn [write_chars]; [by split; [apply progress_refl |] |].
  pose proof (opost_spec c t Hok) as Ho. destruct (posted (tio t) (column t) c) as [b col] eqn:Ep.
  destruct (opost c t) as [r t1]. destruct Ho as [[-> Hw] | (-> & Hl & col0 & Hw & Ep')].
  - cbn [Z.ltb Z.compare]. destruct Hw as (Hok1 & Eo & Ec & Et & Ef). specialize (IH t1 Hok1).
    destruct (write_chars l t1) as [rest t'] eqn:Ew. destruct IH as [Hp _].
    assert (progress (c :: l) t t1 l) as Hp1.
    { exists 1%nat. cbn. rewrite Ep, take_0, drop_0. cbn. rewrite app_nil_r, Ec.
      split_and!; try done; [lia | by destruct l]. }
    split; [by eapply progress_trans |]. intros _ _. destruct Hp as (n & -> & ? & _). rewrite length_drop. cbn [length]. lia.
  - cbn [Z.ltb Z.compare]. destruct Hw as (Hok1 & Eo & Ec & Et & Ef). rewrite app_nil_r in Eo. split; [| lia].
    exists O. cbn [drop take posts fst snd]. rewrite app_nil_r. split_and!; try done; [lia |].
    cbn [same_future]. by rewrite Ec, Ep'.
Qed.

(** What has become of a write of [l]. *)
Definition write_result (l : list Z) (t : tty_struct) (r : option tty_write_step) : Prop :=
  match r with
  | Some (TtyWriteDone r t') =>
      exists rest, progress l t t' rest /\
        let n := Z.of_nat (length l - length rest) in
        (if n =? 0 then r ∈ [0; - EIO; - EAGAIN; - ERESTARTSYS] else r = n) /\
        (rest <> [] -> r <> Z.of_nat (length l))
  | Some (TtyWriteSleeps written rest t') =>
      progress l t t' rest /\ rest <> [] /\ written = Z.of_nat (length l - length rest)
  | None => False
  end.

Lemma progress_rest l t t' rest : progress l t t' rest -> (length rest <= length l)%nat /\ out_ok t' /\ tio t' = tio t /\ tty_flags t' = tty_flags t.
Proof using Type. intros (n & -> & ? & ? & ? & ? & _). rewrite length_drop. split_and!; done || lia. Qed.

Lemma with_cur_progress f l t : out_ok t -> progress l t (with_cur f t) l.
Proof using Type. intros Hok. by apply idle_progress. Qed.

Lemma write_end_result l t t1 rest e written :
  progress l t t1 rest -> written = Z.of_nat (length l - length rest) ->
  (e ∈ [- EIO; - EAGAIN; - ERESTARTSYS] \/ e = 0 /\ rest = []) ->
  write_result l t (Some (write_end e written t1)).
Proof using Type.
  intros Hp -> He. cbn [write_result]. pose proof (progress_rest _ _ _ _ Hp) as (Hlen & Hok & _).
  unfold write_end. exists rest. split; [eapply progress_trans; [exact Hp | by apply with_cur_progress] |]. cbv zeta.
  unfold ctrue. destruct (Z.eqb_spec (Z.of_nat (length l - length rest)) 0) as [E0 | Hne]; cbn [negb].
  - split; [destruct He as [He | [-> _]]; set_solver |]. intros Hr E. destruct He as [He | [_ He]]; [| done].
    assert (e < 0); [| lia]. unfold EIO, EAGAIN, ERESTARTSYS in He. rewrite !elem_of_cons, elem_of_nil in He. lia.
  - split; [done |]. intros Hr. destruct rest; [done |]. cbn [length] in *. lia.
Qed.

Lemma write_loop_result fuel hung_up nonblock l0 t0 : forall l t,
  progress l0 t0 t l -> (length l < fuel)%nat \/ (8 <= LEFT (write_q t) /\ l <> [] /\ (length l <= fuel)%nat) ->
  write_result l0 t0 (write_loop fuel hung_up nonblock (Z.of_nat (length l0 - length l)) l t).
Proof using Type.
  induction fuel as [| fuel IH]; intros l t Hp Hf.
  { destruct Hf as [| (_ & Hne & Hl)]; [lia |]. destruct l; [done | cbn in Hl; lia]. }
  cbn [write_loop]. set (t1 := with_cur _ t). pose proof (progress_rest _ _ _ _ Hp) as (Hlen & Hok & _).
  assert (progress l0 t0 t1 l) as Hp1 by (eapply progress_trans; [exact Hp | by apply with_cur_progress]).
  assert (8 <= LEFT (write_q t1) <-> 8 <= LEFT (write_q t)) as Hl1 by done. clearbody t1.
  destruct (signal_pending _); [apply (write_end_result _ _ _ l); [done | done | left; set_solver] |].
  destruct hung_up; [apply (write_end_result _ _ _ l); [done | done | left; set_solver] |].
  pose proof (write_chars_progress l t1 ltac:(apply (progress_rest _ _ _ _ Hp1))) as Hw.
  destruct (write_chars l t1) as [rest t2]. destruct Hw as [Hp2 Hless].
  pose proof (progress_trans _ _ _ _ _ _ Hp1 Hp2) as Hp3. pose proof (progress_rest _ _ _ _ Hp2) as (Hlen2 & Hok2 & _).
  pose proof (progress_trans _ _ _ _ _ _ Hp3 (flush_progress rest t2 Hok2)) as Hp4.
  set (t3 := tty_write_flush t2) in *. clearbody t3. pose proof (progress_rest _ _ _ _ Hp4) as (Hlen4 & Hok4 & _).
  replace (Z.of_nat (length l0 - length l) + Z.of_nat (length l - length rest)) with (Z.of_nat (length l0 - length rest)) by lia.
  destruct (Nat.eqb_spec (length rest) 0) as [E0 | Hne].
  { apply (write_end_result _ _ _ rest); [done | done |]. right. split; [done |]. by destruct rest. }
  assert (rest <> []) as Hr by by intros ->.
  destruct (EMPTY (write_q t3)) eqn:Ee; cbn [andb].
  2: { destruct nonblock; [| by split_and!]. apply (write_end_result _ _ _ rest); [done | done | left; set_solver]. }
  destruct (negb (need_resched _)).
  - apply IH; [done |]. right. split; [| split; [done |]].
    + rewrite left_spec by apply Hok4. apply empty_spec in Ee; [| apply Hok4]. by rewrite Ee.
    + destruct Hf as [Hf | (H8 & Hl & Hf)]; [lia |]. specialize (Hless Hl ltac:(by apply Hl1)). lia.
  - destruct nonblock; [| by split_and!]. apply (write_end_result _ _ _ rest); [done | done | left; set_solver].
Qed.
End output.

(** * The theorems *)

(** C1: in canonical mode the line discipline is a line editor.  Whatever has been
    typed, with any modes and control characters, [copy_to_cooked] ends and
    leaves the queues of the terminal, its end-of-line bits, counters and
    pointers as the representation of what the editor makes of it: complete
    lines and the line that is still typed, after erasing, literal characters,
    end of file, flow control and signals, without what does not fit. *)
Theorem copy_to_cooked_refines `{TtyDriver} (t : tty_struct) (e : ed) :
  refines t e -> eol_ok (tio t) ->
  exists t', copy_to_cooked t = Some t' /\ tio t' = tio t /\
    refines t' (ed_cook (tio t) (tty_pgrp t) (write_wait t) (read_wait t) e).
Proof.
  intros R Heol. destruct (copy_to_cooked_sim t e R Heol) as (t' & -> & Est & R'). exists t'.
  split_and!; [done | by injection Est | done].
Qed.

(** C2: a read in canonical mode by a process that may read looks for input when
    no line is complete, and then returns the first line, as much of it as was
    asked for, and leaves exactly the others and the line being typed; the end
    of a file ends a line and is not returned.  Without a line it fails or
    sleeps, with no byte lost. *)
Theorem read_chan_line `{TtyDriver} (console hung_up nonblock : bool) (nr : nat) (t : tty_struct) (e : ed) :
  refines t e -> eol_ok (tio t) -> Z.testbit (tty_flags t) TTY_READ_BUSY = false ->
  read_job_control console t = (None, t) ->
  exists k, let e0 := e <| ek := k |> in
    let e1 := if bool_decide (elines e = []) then ed_cook (tio t) (tty_pgrp t) (write_wait t) (read_wait t) e0 else e0 in
    read_result nr e1 (read_chan console hung_up nonblock nr t).
Proof.
  intros R Heol Hb Hj. unfold read_chan. rewrite Hj. unfold read_limits. rewrite (re_canon t e R).
  set (t0 := with_cur _ t). pose proof (with_cur_refines (fun p => p <| timeout := 2 ^ 32 - 1 |>) t e R) as R0.
  destruct (read_loop_refines nr hung_up nonblock 0 nr t0 _ R0 Heol Hb) as [k Hk]. exists k. exact Hk.
Qed.

(** C3: a write to a terminal ends or sleeps, and what it outputs is the
    processed text: the bytes taken by the driver and those still in the queue
    are the ones before, followed by what the characters written so far become
    (new lines, tabs, columns), each exactly once and in order, however often
    the queue was full; the result counts these characters. *)
Theorem write_chan_output `{TtyDriver} (console hung_up nonblock : bool) (l : list Z) (t : tty_struct) :
  out_ok t ->
  write_result l t (write_chan console hung_up nonblock l t) \/
  exists r t', write_chan console hung_up nonblock l t = Some (TtyWriteDone r t') /\ r < 0 /\ output t' = output t.
Proof.
  intros Hok. unfold write_chan.
  assert (forall t1, progress l t t1 l -> write_result l t (write_loop (S (length l)) hung_up nonblock 0 l t1)) as Hloop.
  { intros t1 Hp. replace 0 with (Z.of_nat (length l - length l)) by lia. apply write_loop_result; [done | left; lia]. }
  destruct (L_ TOSTOP t && negb console); [| left; by apply Hloop, progress_refl].
  unfold check_change. cbv zeta.
  repeat match goal with |- context [if ?b then _ else _] =>
    lazymatch b with ctrue _ => fail | _ => destruct b end end; cbn [ctrue Z.eqb negb];
    try (left; by apply Hloop, progress_refl); right; by eexists _, _.
Qed.

(** ** Examples *)

(** A terminal with the usual modes, at which [l] has been typed. *)
Definition usual : termios := initialize_termios 0 0.
Definition idle_kernel : kstate := mk_kstate ∅ [] [] 0%nat false 0 0 0 0.
Definition typed (l : list Z) : tty_struct :=
  mk_tty usual 1 65 0 false false 0 false 0 0 0 0 ∅ ∅ (foldl (fun q c => put_tty_queue c q) empty_queue l)
    empty_queue empty_queue [] [] idle_kernel [] [].
Definition typed_ed (l : list Z) : ed := mk_ed (unmarked l) [] [] false 0 false idle_kernel.

(** l x DEL s CR, then ^V ^C and w without an end. *)
Definition some_text : list Z := [108; 120; 127; 115; 13; 22; 3; 119].

Lemma typed_refines : refines (typed some_text) (typed_ed some_text).
Proof.
  constructor; try done; try (by constructor); try (by left); try (by intros ? ?%elem_of_empty).
Qed.

Lemma usual_eol : eol_ok usual.
Proof. done. Qed.

Theorem copy_to_cooked_refines_witness :
  exists t', copy_to_cooked (H := console_driver) (typed some_text) = Some t' /\ tio t' = usual /\
    refines t' (ed_cook usual 1 [] [] (typed_ed some_text)).
Proof. exact (copy_to_cooked_refines (H := console_driver) (typed some_text) (typed_ed some_text) typed_refines usual_eol). Defined.

(** The editor has the line "ls" and is at "^Cw". *)
Example typed_edited :
  let e := ed_cook usual 1 [] [] (typed_ed some_text) in
  elines e = [(108, false); (115, false); (10, true)] /\ line e = [3; 119] /\ inq e = [].
Proof. by vm_compute. Qed.

(** The echo: x is wiped out, the literal character is shown as ^C. *)
Example typed_echo :
  (fun t => sent t) <$> copy_to_cooked (H := console_driver) (typed some_text)
  = Some [108; 120; 8; 32; 8; 115; 13; 10; 94; 8; 94; 67; 119].
Proof. vm_compute. reflexivity. Qed.

Theorem read_chan_line_witness :
  Z.testbit (tty_flags (typed some_text)) TTY_READ_BUSY = false /\
  exists k,
    read_result 80 (ed_cook usual 1 [] [] (typed_ed some_text <| ek := k |>))
      (read_chan (H := console_driver) true false true 80 (typed some_text)).
Proof.
  split; [done |].
  exact (read_chan_line (H := console_driver) true false true 80 (typed some_text) (typed_ed some_text)
    typed_refines usual_eol eq_refl eq_refl).
Defined.

Example typed_read :
  match read_chan (H := console_driver) true false true 80 (typed some_text) with
  | Some (TtyReadDone r data t) => r = 3 /\ data = [108; 115; 10]
  | _ => False
  end.
Proof. by vm_compute. Qed.

(** A line that fills the queue locks the terminal: neither the end of the line
    nor an erase or interrupt character is looked at any more, and no read gets
    the line. *)
Example line_too_long :
  let full := typed [] <| secondary := mk_queue 1023 0 (replicate 1024 97) |> in
  let keys := full <| tread_q := foldl (fun q c => put_tty_queue c q) empty_queue [127; 10; 3] |> in
  match copy_to_cooked (H := console_driver) keys with
  | Some t => CHARS (tread_q t) = 3 /\ canon_data t = 0 /\ has_input t = false
  | None => False
  end.
Proof. by vm_compute. Qed.

Lemma typed_out_ok l : out_ok (typed l).
Proof. by repeat split. Qed.

Theorem write_chan_output_witness :
  out_ok (typed []) /\
  (write_result [97; 10; 98] (typed []) (write_chan (H := console_driver) true false false [97; 10; 98] (typed [])) \/
   exists r t', write_chan (H := console_driver) true false false [97; 10; 98] (typed []) = Some (TtyWriteDone r t') /\
     r < 0 /\ output t' = output (typed [])).
Proof.
  split; [apply typed_out_ok |].
  exact (write_chan_output (H := console_driver) true false false [97; 10; 98] (typed []) (typed_out_ok [])).
Defined.

(** Somebody tries to leave canonical mode, which is locked: the mode stays, but
    the line that was complete is not seen any more. *)
Example locked_mode_hides_line :
  let new := usual <| c_lflag := 0 |> in
  let lock := mk_termios 0 0 0 ICANON 0 [] in
  match copy_to_cooked (H := console_driver) (typed [97; 10]) with
  | Some t => has_input t = true /\ L_ ICANON (set_termios_2 new (Some lock) t) = true /\
      has_input (set_termios_2 new (Some lock) t) = false
  | None => False
  end.
Proof. by vm_compute. Qed.
